(* ===== verification/_CoqProject ===== *)
-Q . S2P
Prelude.v
Data.v
Config.v
Cacher.v
Rpc.v
Server.v
Logging.v
App.v
Telemetry.v
Components.v
Metrics.v
Effects.v
Conns.v
MemEnv.v
FlakyEnv.v
Store.v
StoreTicket.v
StoreBackfill.v
Removal.v
Cleanup.v
StoreRedis.v
Interleave.v
Locality.v
StoreProps.v
StoreSchema.v
Filter.v
FilterCases.v
Query.v
QueryProps.v
QueryCache.v
StoreCalls.v
Frontend.v
FrontendProps.v
Backend.v
QuietCalls.v
BackfillRace.v
BackendProps.v
Greedy.v
DefaultEval.v
ContextCause.v
Synchronizer.v
Cycle.v
CycleLive.v
CycleProps.v
CycleRun.v
MatchFunction.v
Mmf.v
MmfProps.v
Evaluators.v
SyncStore.v
Journey.v
Tutorials.v
Scale.v
ScaleProps.v
Demo.v
Director.v
DirectorRace.v
Players.v
Booking.v
MatchFlow.v
Lessons.v
ScaleDriver.v
Routes.v
Swagger.v
Gateway.v
GatewayProps.v
Tools.v
Settings.v
Commands.v
