(* ===== verification/Prelude.v ===== *)
(** * Open Match: a verified model (root file)

    Open Match is a matchmaking framework: game clients create tickets,
    directors fetch matches that match functions propose, and an evaluator
    decides between proposals that share players. This library models the Go
    code of its components as executable definitions and proves what they
    guarantee. The code is under [src/]; definitions keep its names.

    ** The program and the files

    - Outside world. [Effects]: a Go function that talks to Redis (redigo), to
      the distributed mutex (redsync), to the clock or to the id generator is
      a [prog], a tree of effects; [estep] states what each effect may answer
      and do to the keyspace, faults included; [wp] and [run] relate a program
      to its outcomes in any [Environment]. A mutex is held under a token until
      its expiry, after which anyone may take it and the late unlock of its
      former holder does nothing. [Conns]: what one program knows of the
      connections it took, whatever others do. [MemEnv]: an in-memory world
      that satisfies the laws, in which theorems about runs are applied;
      [FlakyEnv]: one that loses commands and replies.
      [Data]: the messages of [pkg/pb] and [internal/ipb] as records, with
      their serialization as the class [Proto]. [Config]: [config.View].
    - State store ([internal/statestore]). [Store]: the interface [Service]
      and its contract [ServiceSpec], the abstract specification the clients
      are verified against. [StoreTicket], [StoreBackfill], [StoreRedis]: the
      operations of [ticket.go], [backfill.go] and [redis.go], the tracing
      wrapper of [instrumented.go], and [New]; each operation meets its
      contract, and [New_refines] puts this together. [Cleanup]: the sweep of
      expired backfills, three workers on one channel whose effects interleave
      by a schedule that the runtime chooses; [Removal]: removals add up to the
      same keyspace in any order. [StoreProps]: what runs
      of the operations do. [StoreSchema]: what the keys hold, kept by every
      operation even when it fails half way. [StoreCalls]: one rule per
      operation, for the clients' proofs.
    - Query service ([internal/app/query], [internal/filter]). [Filter]:
      [NewPoolFilter] and [In], against a declarative meaning of a pool;
      [FilterCases]: the repository's conformance cases. [Query],
      [QueryProps]: the handlers with the cache update that serves them.
      [QueryCache]: the goroutines that share one cache, as a step relation
      with its invariant and a bound on its steps.
    - Frontend and backend ([internal/app/frontend], [internal/app/backend]).
      [Frontend], [FrontendProps], [Backend], [BackendProps]: the handlers;
      FetchMatches is its two loops, run on any interleaving of their events.
    - Synchronizer ([internal/app/synchronizer]). [Synchronizer]: each
      goroutine of a cycle as a control state with a partial function per
      channel operation. [Cycle]: their composition, a step relation in which
      the store may answer anything, with the context the cycle can be
      cancelled with and the sweep that ends it;
      [CycleLive]: no deadlock and a decreasing measure; [CycleProps]: what a
      cycle guarantees; [CycleRun]: an executable scheduler for concrete runs.
      [SyncStore]: the store calls of a cycle and the register/start protocol.
      [Evaluators]: the gRPC and HTTP evaluator clients and the harness of
      [internal/app/evaluator]. [Greedy]: what Go's sort promises and greedy
      selection, shared by all evaluators. [DefaultEval]: the default
      evaluator.
    - All together. [Journey]: a ticket through frontend, query service,
      synchronizer and backend, which share only the store. [Director]: the
      tutorials' and the demo's directors, clients of the backend;
      [Players]: the tutorials' clients of the frontend. [Booking]:
      any number of tickets, calls in any order, and no ticket booked twice.
      [MatchFlow]: calls of FetchMatches at the two ends of a cycle with the
      default evaluator.
    - At the same time. [Interleave]: any number of programs side by side, one
      effect at a time by a schedule, and a logic for one among others that
      share a record under a mutex. [QuietCalls]: the calls that leave the
      record alone. [BackfillRace]: matches, clients and sweeps on one backfill.
      [Locality]: programs that keep to disjoint sets of ids, without a mutex:
      each runs as alone. [DirectorRace]: the goroutines of a director.
    - Shared parts. [Cacher]: [config/cacher.go]. [ContextCause]:
      [appmain/contextcause]. [Rpc]: the clients of [internal/rpc] and their
      cache. [Server], [Logging], [App], [Components]: servers, what wraps
      their handlers, [appmain], the health probe and what each component
      registers. [Telemetry], [Metrics]: what the set-up of
      [internal/telemetry] registers and closes; the measures and views of the
      services. [Settings]: the configuration read from two files, the log's
      configuration and the page of the settings. [Commands]: what the binaries
      of [cmd] run, the active load test and the pages of the demo.
    - HTTP ([pkg/pb/*.gw.go], [internal/app/swaggerui]). [Routes]: the
      generated patterns against the templates of the API. [Gateway],
      [GatewayProps]: the generated request functions and handlers, and the
      frontend behind them. [Swagger]: the proxies of the UI.
    - [Tools]: the reaper and the certificate tool of [tools].
    - Match functions. [MatchFunction]: [pkg/matchfunction]. [Mmf],
      [MmfProps]: the backfill, 1v1 and tutorial match functions. [Tutorials]:
      the custom evaluator and the match functions without a score. [Lessons]:
      the programs of each tutorial, to start from and solved, put together.
    - Load tests and demo ([examples/scale], [examples/demo]). [Scale],
      [ScaleProps]: the four scenarios, their match functions and evaluators.
      [ScaleDriver]: the load generators. [Demo]: the published value that
      browsers watch, with its subscribers as a step relation, and the shared
      object of its parts.

    Interfaces are classes: [Service]/[ServiceSpec] between the store and its
    clients, [filteredEntity] between the filter and what it filters,
    [Proto]/[ProtoLaws], [Environment]/[EnvironmentLaws], [GoSort] and
    [MapOrder] (the order of a range over a map) for what is not this code,
    [Host] for files and library calls, [Viper]/[ViperLaws] for the layers of
    the configuration, [GatewayRuntime]/[GatewayLaws] and
    [ViewRegistry]/[ViewRegistryLaws] for grpc-gateway and OpenCensus. Their laws are documented behaviour,
    and each has an instance in the library.

    ** What is proved

    - Cycles: after the cutoff a cycle takes boundedly many steps and cannot
      block ([cycle_ends]); an id goes only to the call that proposed it, after
      its tickets were hidden ([cycle_routes]); the evaluator is given what was
      passed before the cutoff, in order ([evaluator_sees_all]); the sweep is
      given a dead context when the store refused every slice
      ([sweep_on_done_context]); no accepted id is lost ([cycle_delivers]); one cycle runs at a time
      ([one_cycle_at_a_time]); tickets are hidden before ids are returned
      ([add_matches_hides]).
    - Evaluation: the default evaluator is greedy by score, its selection has
      no collision and is maximal ([evaluate_best], [evaluate_disjoint]); the
      gRPC client lets through only ids of proposals it was given, each once,
      and succeeds only when it sent them all ([grpc_client_vouches]); client,
      harness and evaluator fit ([default_evaluator_served]).
    - Backend: one of two matches for a generation of a backfill wins, what
      is written on every branch, the invariant of FetchMatches, what
      assigning does.
    - Store: refinement of the contract, the schema of the keys
      ([store_schema]), life cycles, round trips, visibility of pending
      tickets, expiry, and the sweep of backfills on every schedule of its
      workers ([cleanup_backfills_effect]).
    - HTTP: the routes serve exactly the paths of the API ([routes_served]);
      a ticket posted is read back and deleted ([http_ticket_roundtrip]); the
      evaluator is sent the body up to its first failure
      ([evaluate_forwards]); which services the UI reaches
      ([swagger_proxies]).
    - Queries: exactly the visible tickets or indexed backfills of the pool
      are streamed, in bounded pages; filter membership; exclusion and
      termination of the shared cache.
    - Frontend: what is stored, indexed, released and answered, errors
      included.
    - Shared parts: the cacher closes everything it built once and is
      transparent; configured certificates are used; listeners and closers
      are not lost; views do not clash ([metrics_registered]) and the
      telemetry set-up registers what is enabled ([telemetry_setup]);
      certificates name the hosts asked for ([certificate_names]); a setting is
      the override's, else the default's ([override_over_default]).
    - Match functions: every ticket is matched once, backfills within their
      open slots ([backfill_mmf_partition], [statefull_matches]); the tutorial
      loop ends; matches of a fixed size and by skill ([first_match_cuts],
      [team_matches]).
    - Other evaluators: first come first served, by quality, by waiting time
      ([fifo_first_come], [team_evaluate_best], [custom_evaluate_best]).
    - Concurrency: of calls on one backfill, interleaved at single Redis
      commands, no two matches win one generation and no update is lost
      ([updates_serialize]) as long as every call gives the mutex back before
      it expires ([in_time]); when one does not, two matches can win
      ([expired_mutex_accepts_twice]). Calls for disjoint sets of tickets do
      not disturb each other ([directors_assign_together]).
    - Composition: with any number of tickets and calls in any order no ticket
      is booked twice ([no_double_booking]); directors served by one cycle get
      disjoint matches of their own proposals ([directors_disjoint]); the
      journey of a ticket ([ticket_journey]); a director
      assigns what it fetches ([director_assigns]), and the first lesson's
      matchmaker leaves fewer than four players of a mode
      ([matchmaker101_tick]); a subscriber of the demo
      gets values in order and catches up ([subscriber_catches_up]).

    ** Conventions

    Times are nanoseconds in [Z]; int64 generations wrap with [wrap64]; a
    double is an IEEE value ([spec_float]). Errors are values ([error],
    [result]) with their status codes and messages; a nil dereference or an
    explicit panic is [EPanic]. Faults of the outside world are in the model
    ([sys_faulty]); theorems that need their absence say so. The contract of
    the store is the one the code keeps, also where a comment of the interface
    says otherwise (a deletion of what is not there is NotFound). Loops over data
    are structural; where the code's loop is not, a fuel is given and shown to
    be enough: [retry] of the watch ends with its context or callback,
    [full_matches_loop] and the scenarios' loops take at most a turn per
    ticket and one more, [tutorial_loop] one more than the smallest pool
    allows. Goroutines are step relations or functions of an arbitrary
    interleaving of events or schedule, never one schedule.

    ** Not modelled

    Recording metrics, traces and log lines (unless they are the outcome),
    the exporters of telemetry, the template of the configuration page and the
    text of the help page; a configuration file that changes while a process
    runs (viper reads it again by itself). Closing the pool of connections is an effect
    that may fail; what later calls would find is not described. A poll of a
    watch that no other call interrupts sees one ticket: the contract of
    GetAssignments is stated for that. The test support and the connecting
    and ticking of the load generators and the demo are left out. Of the
    store's connections, dialling and Sentinel discovery are third-party and only their settings are modelled; so are the matching
    of paths, the marshalling and the forwarding of the HTTP gateways, and the
    cryptography and the cluster behind the tools. *)
From stdpp Require Export base gmap strings list sets fin_maps fin_sets sorting.
From Stdlib Require Export Ascii ZArith Lia.
From Stdlib Require Import DecimalString DecimalZ.

#[global] Set Default Goal Selector "!".
#[export] Set Warnings "-clear-no-such-hyp".
#[global] Open Scope string_scope.
#[global] Open Scope Z_scope.
#[global] Open Scope list_scope.

Create HintDb om discriminated.
Create Rewrite HintDb om_rw.

(** ** Errors

    [code] is the gRPC status code of a returned error, [error] the shapes of
    Go error values the code builds: a status error, a plain error
    ([errors.New], [fmt.Errorf] without [%w]), an error wrapping a cause
    ([errors.Wrap], [fmt.Errorf] with [%w], with a colon before the cause or
    another text) and the one sentinel the backend compares by identity. [EPanic] is not an error value: it stands for a call
    that panics (a nil pointer is dereferenced) instead of returning. *)
Inductive code :=
| OK | Canceled | Unknown | InvalidArgument | DeadlineExceeded | NotFound
| AlreadyExists | PermissionDenied | ResourceExhausted | FailedPrecondition
| Aborted | OutOfRange | Unimplemented | Internal | Unavailable | DataLoss
| Unauthenticated.

Inductive error :=
| EStatus (c : code) (msg : string)
| EPlain (msg : string)
| EWrap (msg : string) (cause : error)
| EWrapf (prefix : string) (cause : error)
| EGenerationMismatch
| EPanic.

#[global] Instance code_eq_dec : EqDecision code.
Proof. solve_decision. Defined.

#[global] Instance error_eq_dec : EqDecision error.
Proof. solve_decision. Defined.

Definition code_name (c : code) : string :=
  match c with
  | OK => "OK" | Canceled => "Canceled" | Unknown => "Unknown"
  | InvalidArgument => "InvalidArgument" | DeadlineExceeded => "DeadlineExceeded"
  | NotFound => "NotFound" | AlreadyExists => "AlreadyExists"
  | PermissionDenied => "PermissionDenied" | ResourceExhausted => "ResourceExhausted"
  | FailedPrecondition => "FailedPrecondition" | Aborted => "Aborted"
  | OutOfRange => "OutOfRange" | Unimplemented => "Unimplemented"
  | Internal => "Internal" | Unavailable => "Unavailable" | DataLoss => "DataLoss"
  | Unauthenticated => "Unauthenticated"
  end.

(** The text of an error, [err.Error()]. *)
Fixpoint err_string (e : error) : string :=
  match e with
  | EStatus c m => "rpc error: code = " +:+ code_name c +:+ " desc = " +:+ m
  | EPlain m => m
  | EWrap m e => m +:+ ": " +:+ err_string e
  | EWrapf m e => m +:+ err_string e
  | EGenerationMismatch => "backfill generation mismatch"
  | EPanic => "panic"
  end.

(** The status code [status.FromError] sees: only a status error carries one. *)
Definition status_of (e : error) : option code :=
  match e with EStatus c _ => Some c | _ => None end.

(** A Go function returning [(T, error)] returns a [result T]; one returning
    only an [error] returns a [result unit]. *)
Inductive result (A : Type) :=
| Ok (a : A)
| Err (e : error).
Arguments Ok {A} a.
Arguments Err {A} e.

Definition is_ok {A} (r : result A) : bool :=
  match r with Ok _ => true | Err _ => false end.

(** The status code of a failed call. *)
Definition err_code {A} (r : result A) : option code :=
  match r with Ok _ => None | Err e => status_of e end.

Definition result_bind {A B} (r : result A) (f : A -> result B) : result B :=
  match r with Ok a => f a | Err e => Err e end.

(** A text between double quotes, as a quoted [%s] prints it. *)
Definition quoted (s : string) : string :=
  let quote := String (ascii_of_nat 34) EmptyString in quote +:+ s +:+ quote.

(** ** Decimal integers: Go's [strconv.Itoa] and [strconv.Atoi] *)

Definition int64_min : Z := - 2 ^ 63.
Definition int64_max : Z := 2 ^ 63 - 1.
Definition in_int64 (z : Z) : bool := (int64_min <=? z) && (z <=? int64_max).

(** Two's complement wrap-around of a 64-bit signed integer. *)
Definition wrap64 (z : Z) : Z := (z + 2 ^ 63) `mod` 2 ^ 64 - 2 ^ 63.

Definition itoa (z : Z) : string := NilZero.string_of_int (Z.to_int z).

(** [strconv.Atoi]: an optional sign, at least one digit, no overflow. *)
Definition atoi (s : string) : option Z :=
  let digits (r : string) : option Z :=
    match NilZero.uint_of_string r with
    | Some u => Some (Z.of_uint u)
    | None => None
    end in
  let parsed :=
    match s with
    | String "-"%char r => Z.opp <$> digits r
    | String "+"%char r => digits r
    | _ => digits s
    end in
  match parsed with
  | Some z => if in_int64 z then Some z else None
  | None => None
  end.

Lemma wrap64_id z : in_int64 z = true -> wrap64 z = z.
Proof.
  unfold in_int64, wrap64, int64_min, int64_max. intros [??]%andb_true_iff.
  rewrite Z.mod_small; lia.
Qed.

Lemma wrap64_range z : in_int64 (wrap64 z) = true.
Proof.
  unfold in_int64, wrap64, int64_min, int64_max.
  pose proof (Z.mod_pos_bound (z + 2 ^ 63) (2 ^ 64) ltac:(lia)).
  apply andb_true_iff; lia.
Qed.

(** The next generation is another one, overflow included. *)
Lemma wrap64_succ_ne z : wrap64 (z + 1) <> z.
Proof.
  unfold wrap64. intros Hz.
  pose proof (Z.mod_pos_bound (z + 1 + 2 ^ 63) (2 ^ 64) ltac:(lia)).
  pose proof (Z.div_mod (z + 1 + 2 ^ 63) (2 ^ 64) ltac:(lia)). nia.
Qed.

Lemma atoi_digits_ne (u : Decimal.uint) (f : string -> option Z) (g : string -> option Z) :
  u <> Decimal.Nil ->
  match NilEmpty.string_of_uint u with
  | String "-"%char r => f r
  | String "+"%char r => g r
  | _ => match NilZero.uint_of_string (NilEmpty.string_of_uint u) with
         | Some u => Some (Z.of_uint u)
         | None => None
         end
  end = Some (Z.of_uint u).
Proof.
  intros Hu. pose proof (NilZero.usu u Hu) as H.
  destruct u; [done|..]; cbn in H |- *; by rewrite H.
Qed.

(** [Atoi] reads back what [Itoa] (and the decimal encoding of an [int64]
    command argument) writes, for every 64-bit value. *)
Lemma atoi_itoa z : in_int64 z = true -> atoi (itoa z) = Some z.
Proof.
  intros Hz. unfold atoi, itoa.
  pose proof (DecimalZ.of_to z) as Hof.
  destruct (Z.to_int z) as [u|u] eqn:Hu; cbn in Hof.
  - assert (u <> Decimal.Nil) as Hne.
    { intros ->. destruct z as [|p|p]; cbn in Hu; try discriminate Hu.
      injection Hu as Hp. by apply (DecimalPos.Unsigned.to_uint_nonnil p). }
    cbn [NilZero.string_of_int].
    replace (NilZero.string_of_uint u) with (NilEmpty.string_of_uint u) by by destruct u.
    rewrite (atoi_digits_ne u _ _ Hne). rewrite Hof, Hz. done.
  - assert (u <> Decimal.Nil) as Hne.
    { intros ->. destruct z as [|p|p]; cbn in Hu; try discriminate Hu.
      injection Hu as Hp. by apply (DecimalPos.Unsigned.to_uint_nonnil p). }
    cbn [NilZero.string_of_int]. cbn.
    rewrite (NilZero.usu u Hne). cbn. unfold Z.of_uint in *. by rewrite Hof, Hz.
Qed.

(** ** Lists *)

Lemma elem_of_concat {A} (x : A) (ls : list (list A)) : x ∈ concat ls <-> exists l, l ∈ ls /\ x ∈ l.
Proof.
  rewrite list_elem_of_In, in_concat.
  split; intros (l & ? & ?); exists l; by rewrite !list_elem_of_In in *.
Qed.

(** ** Iteration over maps

    Go ranges over a map in an order of its own choosing. A [MapOrder] is one
    such choice; theorems hold for every one. *)
Class MapOrder := {
  map_iter : forall {A}, gmap string A -> list (string * A);
  set_iter : gset string -> list string;
  map_iter_perm {A} (m : gmap string A) : map_iter m ≡ₚ map_to_list m;
  set_iter_perm (s : gset string) : set_iter s ≡ₚ elements s;
}.

Section MapOrder.
Context `{MapOrder}.

Lemma elem_of_map_iter {A} (m : gmap string A) k x : (k, x) ∈ map_iter m <-> m !! k = Some x.
Proof. by rewrite map_iter_perm, elem_of_map_to_list. Qed.

Lemma elem_of_set_iter (s : gset string) k : k ∈ set_iter s <-> k ∈ s.
Proof. by rewrite set_iter_perm, elem_of_elements. Qed.

Lemma NoDup_map_iter {A} (m : gmap string A) : NoDup (map_iter m).*1.
Proof. rewrite map_iter_perm. apply NoDup_fst_map_to_list. Qed.

Lemma NoDup_set_iter (s : gset string) : NoDup (set_iter s).
Proof. rewrite set_iter_perm. apply NoDup_elements. Qed.

(** [for k, x := range m { if !keep(k, x) { delete(m, k) } }]. *)
Definition range_delete {A} (keep : string -> A -> bool) (m : gmap string A) : gmap string A :=
  foldl (fun r '(k, x) => if keep k x then r else delete k r) m (map_iter m).

Lemma lookup_range_delete {A} keep (m : gmap string A) k :
  range_delete keep m !! k =
    match m !! k with Some x => if keep k x then Some x else None | None => None end.
Proof.
  unfold range_delete.
  set (step := fun r '(k, x) => if keep k x then r else delete k r).
  assert (forall l (r : gmap string A), r !! k = None -> foldl step r l !! k = None) as Hnone.
  { induction l as [|[k' x'] l IH]; intros r Hr; cbn; [done|]. apply IH.
    destruct (keep k' x'); [done|]. apply lookup_delete_None. auto. }
  assert (forall l (r : gmap string A), (forall x, (k, x) ∈ l -> keep k x = true) ->
    foldl step r l !! k = r !! k) as Hkeep.
  { induction l as [|[k' x'] l IH]; intros r Hr; cbn; [done|]. rewrite IH by set_solver.
    destruct (keep k' x') eqn:Hx; [done|]. apply lookup_delete_ne. intros ->.
    rewrite Hr in Hx; [done|left]. }
  assert (forall l (r : gmap string A) x, (k, x) ∈ l -> keep k x = false ->
    foldl step r l !! k = None) as Hdrop.
  { induction l as [|[k' x'] l IH]; intros r x Hin Hx; [by apply not_elem_of_nil in Hin|].
    apply elem_of_cons in Hin as [[= <- <-]|Hin]; [|by eapply IH]. cbn. apply Hnone.
    rewrite Hx. apply lookup_delete_eq. }
  destruct (m !! k) as [x|] eqn:Hm; [|by apply Hnone].
  destruct (keep k x) eqn:Hx; [|by eapply Hdrop, Hx; apply elem_of_map_iter].
  rewrite Hkeep; [done|]. intros x' Hx'. apply elem_of_map_iter in Hx'. by simplify_eq.
Qed.
End MapOrder.

(** Storing what was looked up, each under its own key. *)
Lemma lookup_foldl_insert {A} (key : A -> string) (f : string -> option A) ids (m : gmap string A) k :
  (forall id x, id ∈ ids -> f id = Some x -> key x = id) ->
  foldl (fun m x => <[key x := x]> m) m (omap f ids) !! k =
    match (if decide (k ∈ ids) then f k else None) with Some x => Some x | None => m !! k end.
Proof.
  revert m. induction ids as [|i ids IH]; intros m Hk; cbn; [done|].
  destruct (f i) as [x|] eqn:Hx; cbn; (rewrite IH; [|intros; apply Hk; set_solver]).
  - assert (key x = i) as -> by (apply Hk; set_solver).
    destruct (decide (k = i)) as [->|Hne].
    + rewrite lookup_insert_eq, Hx. rewrite (decide_True (P := i ∈ i :: ids)) by set_solver.
      by case_decide.
    + rewrite lookup_insert_ne by done. repeat case_decide; set_solver.
  - destruct (decide (k = i)) as [->|Hne]; [rewrite Hx|]; repeat case_decide; set_solver.
Qed.

(** The keys after an insertion. *)
Lemma is_Some_insert {A} (m : gmap string A) k k' x : is_Some (<[k := x]> m !! k') <-> k' = k \/ is_Some (m !! k').
Proof.
  destruct (decide (k = k')) as [->|Hne].
  - rewrite lookup_insert_eq. naive_solver.
  - rewrite lookup_insert_ne by done. naive_solver.
Qed.

(** Whether a text holds a character. *)
Fixpoint has_char (c : Ascii.ascii) (s : string) : bool :=
  match s with EmptyString => false | String a s => bool_decide (a = c) || has_char c s end.

Lemma append_cons a s t : String a s +:+ t = String a (s +:+ t).
Proof. done. Qed.

Lemma append_assoc s t u : (s +:+ t) +:+ u = s +:+ (t +:+ u).
Proof. induction s as [|a s IH]; [done|]. rewrite !append_cons. by rewrite IH. Qed.

Lemma has_char_app c s t : has_char c (s +:+ t) = has_char c s || has_char c t.
Proof. induction s as [|a s IH]; [done|]. rewrite append_cons. cbn. by rewrite IH, orb_assoc. Qed.

(** [strings.Split] at a character: the first part and the others. *)
Fixpoint split_on (c : Ascii.ascii) (s : string) : string * list string :=
  match s with
  | EmptyString => ("", [])
  | String a s =>
      let '(x, l) := split_on c s in
      if bool_decide (a = c) then ("", x :: l) else (String a x, l)
  end.

(** The sum of a weight over the entries of a map. *)
Definition total {A} (f : A -> nat) (m : gmap nat A) : nat := map_fold (fun _ x n => f x + n)%nat O m.

Lemma total_insert_new {A} (f : A -> nat) m p x : m !! p = None -> total f (<[p := x]> m) = (f x + total f m)%nat.
Proof. intros Hp. unfold total. rewrite map_fold_insert_L; [done|lia|done]. Qed.

Lemma total_delete {A} (f : A -> nat) m p x : m !! p = Some x -> total f m = (f x + total f (delete p m))%nat.
Proof. intros Hp. unfold total. apply (map_fold_delete_L (fun _ x n => f x + n)%nat); [lia|done]. Qed.

Lemma total_insert {A} (f : A -> nat) m p x y : m !! p = Some x ->
  (total f (<[p := y]> m) + f x = f y + total f m)%nat.
Proof.
  intros Hp. rewrite (total_delete f m p x Hp).
  rewrite (total_delete f (<[p := y]> m) p y) by apply lookup_insert_eq.
  rewrite delete_insert_eq. lia.
Qed.

Lemma total_empty {A} (f : A -> nat) : total f ∅ = O.
Proof. apply map_fold_empty. Qed.

(** A measure that every step decreases bounds the length of a run. *)
Lemma nsteps_measure {A} (R : relation A) (measure : A -> nat) :
  (forall x y, R x y -> (measure y < measure x)%nat) ->
  forall n x y, relations.nsteps R n x y -> (n + measure y <= measure x)%nat.
Proof.
  intros HR n x y. induction 1 as [x|n x y z Hxy _ IH]; [done|]. specialize (HR x y Hxy). lia.
Qed.

Lemma nsteps_preserved {A} (R : relation A) (P : A -> Prop) :
  (forall x y, P x -> R x y -> P y) -> forall n x y, relations.nsteps R n x y -> P x -> P y.
Proof. intros HR n x y. induction 1; eauto. Qed.
