(* ===== verification/Data.v ===== *)
(** * The protocol-buffer messages of [pkg/pb] and [internal/ipb]

    Records for the messages the services exchange and store. A Go pointer
    field that may be nil is an [option]; a map is a [gmap] (proto3 does not
    tell an absent map from an empty one); a [double] is an IEEE 754 binary64
    value ([spec_float]), so comparisons with NaN and the infinities are Go's.
    The wire format and the well-known-type helpers are third-party code: they
    are the parameters of [Proto], whose documented behaviour is [ProtoLaws]. *)
From S2P Require Export Prelude.
From Stdlib Require Export SpecFloat.

Abbreviation float64 := spec_float.

#[global] Instance spec_float_eq_dec : EqDecision spec_float.
Proof. solve_decision. Defined.

#[global] Instance spec_float_inhabited : Inhabited spec_float := populate S754_nan.

(** Go's comparison operators on [float64]: false when an operand is NaN. *)
Definition f_lt (a b : float64) : bool := SFltb a b.
Definition f_le (a b : float64) : bool := SFleb a b.
Definition f_gt (a b : float64) : bool := SFltb b a.
Definition f_ge (a b : float64) : bool := SFleb b a.

(** [math.Inf(-1)]. *)
Definition f_neg_inf : float64 := S754_infinity true.

(** [math.Inf(1)], [math.NaN()], and the double nearest to an integer. *)
Definition f_inf : float64 := S754_infinity false.
Definition f_nan : float64 := S754_nan.
Definition f_int (z : Z) : float64 := SpecFloat.binary_normalize 53 1024 z 0 false.

(** [google.protobuf.Any] and [google.protobuf.Timestamp]. *)
Record Any := mkAny { any_url : string; any_value : string }.
Record Timestamp := mkTimestamp { ts_seconds : Z; ts_nanos : Z }.

#[global] Instance any_eq_dec : EqDecision Any.
Proof. solve_decision. Defined.
#[global] Instance timestamp_eq_dec : EqDecision Timestamp.
Proof. solve_decision. Defined.

Record Assignment := mkAssignment {
  a_Connection : string;
  a_Extensions : gmap string Any;
}.

Record SearchFields := mkSearchFields {
  sf_DoubleArgs : gmap string float64;
  sf_StringArgs : gmap string string;
  sf_Tags : list string;
}.

Record Ticket := mkTicket {
  t_Id : string;
  t_Assignment : option Assignment;
  t_SearchFields : option SearchFields;
  t_Extensions : gmap string Any;
  t_PersistentField : gmap string Any;
  t_CreateTime : option Timestamp;
}.

Record Backfill := mkBackfill {
  b_Id : string;
  b_SearchFields : option SearchFields;
  b_Extensions : gmap string Any;
  b_PersistentField : gmap string Any;
  b_CreateTime : option Timestamp;
  b_Generation : Z;  (* int64 *)
}.

(** What Redis stores for a backfill: the message and its tickets' ids. *)
Record BackfillInternal := mkBackfillInternal {
  bi_Backfill : option Backfill;
  bi_TicketIds : list string;
}.

Record Match := mkMatch {
  m_MatchId : string;
  m_MatchProfile : string;
  m_MatchFunction : string;
  m_Tickets : list Ticket;
  m_Extensions : gmap string Any;
  m_Backfill : option Backfill;
  m_AllocateGameserver : bool;
}.

(** A proto3 enum is open: a value this version does not name is kept. *)
Inductive DoubleRangeFilter_Exclude :=
| Exclude_NONE | Exclude_MIN | Exclude_MAX | Exclude_BOTH
| Exclude_unnamed (n : Z).

Record DoubleRangeFilter := mkDoubleRangeFilter {
  drf_DoubleArg : string;
  drf_Max : float64;
  drf_Min : float64;
  drf_Exclude : DoubleRangeFilter_Exclude;
}.

Record StringEqualsFilter := mkStringEqualsFilter {
  sef_StringArg : string;
  sef_Value : string;
}.

Record TagPresentFilter := mkTagPresentFilter { tpf_Tag : string }.

Record Pool := mkPool {
  p_Name : string;
  p_DoubleRangeFilters : list DoubleRangeFilter;
  p_StringEqualsFilters : list StringEqualsFilter;
  p_TagPresentFilters : list TagPresentFilter;
  p_CreatedBefore : option Timestamp;
  p_CreatedAfter : option Timestamp;
}.

Record MatchProfile := mkMatchProfile {
  mp_Name : string;
  mp_Pools : list Pool;
  mp_Extensions : gmap string Any;
}.

Inductive FunctionConfig_Type := FunctionConfig_GRPC | FunctionConfig_REST
| FunctionConfig_unnamed (n : Z).

Record FunctionConfig := mkFunctionConfig {
  fc_Host : string;
  fc_Port : Z;  (* int32 *)
  fc_Type : FunctionConfig_Type;
}.

Record FetchMatchesRequest := mkFetchMatchesRequest {
  fm_Config : option FunctionConfig;
  fm_Profile : option MatchProfile;
}.

Record AssignmentGroup := mkAssignmentGroup {
  ag_TicketIds : list string;
  ag_Assignment : option Assignment;
}.

Inductive AssignmentFailure_Cause := AssignmentFailure_UNKNOWN | AssignmentFailure_TICKET_NOT_FOUND.

Record AssignmentFailure := mkAssignmentFailure {
  af_TicketId : string;
  af_Cause : AssignmentFailure_Cause;
}.

Record AssignTicketsRequest := mkAssignTicketsRequest {
  atr_Assignments : list AssignmentGroup;
}.

Record AssignTicketsResponse := mkAssignTicketsResponse {
  atp_Failures : list AssignmentFailure;
}.

(** [internal/api/synchronizer.proto]. *)
Record SynchronizeResponse := mkSynchronizeResponse {
  sr_StartMmfs : bool;
  sr_CancelMmfs : bool;
  sr_MatchId : string;
}.

Record AcknowledgeBackfillResponse := mkAcknowledgeBackfillResponse {
  abr_Backfill : option Backfill;
  abr_Tickets : list Ticket;
}.

#[global] Instance assignment_eq_dec : EqDecision Assignment.
Proof. solve_decision. Defined.
#[global] Instance search_fields_eq_dec : EqDecision SearchFields.
Proof. solve_decision. Defined.
#[global] Instance ticket_eq_dec : EqDecision Ticket.
Proof. solve_decision. Defined.
#[global] Instance backfill_eq_dec : EqDecision Backfill.
Proof. solve_decision. Defined.
#[global] Instance backfill_internal_eq_dec : EqDecision BackfillInternal.
Proof. solve_decision. Defined.
#[global] Instance match_eq_dec : EqDecision Match.
Proof. solve_decision. Defined.

(** Field updates the code writes as assignments through a pointer. *)
Definition set_ticket_id (i : string) (t : Ticket) : Ticket :=
  mkTicket i (t_Assignment t) (t_SearchFields t) (t_Extensions t) (t_PersistentField t) (t_CreateTime t).
Definition set_ticket_create_time (c : option Timestamp) (t : Ticket) : Ticket :=
  mkTicket (t_Id t) (t_Assignment t) (t_SearchFields t) (t_Extensions t) (t_PersistentField t) c.
Definition set_ticket_assignment (a : option Assignment) (t : Ticket) : Ticket :=
  mkTicket (t_Id t) a (t_SearchFields t) (t_Extensions t) (t_PersistentField t) (t_CreateTime t).
Definition set_bf_id (i : string) (b : Backfill) : Backfill :=
  mkBackfill i (b_SearchFields b) (b_Extensions b) (b_PersistentField b) (b_CreateTime b) (b_Generation b).
Definition set_bf_create_time (c : option Timestamp) (b : Backfill) : Backfill :=
  mkBackfill (b_Id b) (b_SearchFields b) (b_Extensions b) (b_PersistentField b) c (b_Generation b).
Definition set_bf_generation (g : Z) (b : Backfill) : Backfill :=
  mkBackfill (b_Id b) (b_SearchFields b) (b_Extensions b) (b_PersistentField b) (b_CreateTime b) g.
Definition set_bf_search_fields (s : option SearchFields) (b : Backfill) : Backfill :=
  mkBackfill (b_Id b) s (b_Extensions b) (b_PersistentField b) (b_CreateTime b) (b_Generation b).
Definition set_bf_extensions (e : gmap string Any) (b : Backfill) : Backfill :=
  mkBackfill (b_Id b) (b_SearchFields b) e (b_PersistentField b) (b_CreateTime b) (b_Generation b).
Definition set_bf_persistent_field (e : gmap string Any) (b : Backfill) : Backfill :=
  mkBackfill (b_Id b) (b_SearchFields b) (b_Extensions b) e (b_CreateTime b) (b_Generation b).
Definition set_match_backfill (b : option Backfill) (m : Match) : Match :=
  mkMatch (m_MatchId m) (m_MatchProfile m) (m_MatchFunction m) (m_Tickets m) (m_Extensions m) b
    (m_AllocateGameserver m).

(** [time.Time] as nanoseconds since the Unix epoch; the zero time is
    January 1, year 1 UTC. *)
Definition time_zero : Z := -62135596800 * 10 ^ 9.
Definition time_IsZero (t : Z) : bool := t =? time_zero.
Definition time_After (t u : Z) : bool := u <? t.
Definition time_Before (t u : Z) : bool := t <? u.

(** ** Third-party serialisation

    [proto.Marshal]/[proto.Unmarshal] on the two stored messages, and the
    conversions of [ptypes] between timestamps and [time.Time]. [None] is an
    error result. *)
Class Proto := {
  marshal_ticket : Ticket -> option string;
  unmarshal_ticket : string -> option Ticket;
  marshal_backfill : BackfillInternal -> option string;
  unmarshal_backfill : string -> option BackfillInternal;
  TimestampNow : Z -> Timestamp;
  ptypes_Timestamp : Timestamp -> option Z;
}.

(** What their documentation promises and the code relies on: reading back
    what was written gives the message, and the proto of a time converts back
    to it. *)
Class ProtoLaws `{Proto} : Prop := {
  unmarshal_marshal_ticket t b : marshal_ticket t = Some b -> unmarshal_ticket b = Some t;
  unmarshal_marshal_backfill x b : marshal_backfill x = Some b -> unmarshal_backfill b = Some x;
  ptypes_Timestamp_Now z : 0 <= z < 253402300800 * 10 ^ 9 ->
    ptypes_Timestamp (TimestampNow z) = Some z;
}.
