(* ===== verification/Config.v ===== *)
(** * Configuration ([internal/config])

    [View] is the read-only view of the configuration every component takes;
    the values come from viper, so a view is a parameter of the model. *)
From S2P Require Export Data.

(** [config.View]. Durations are nanoseconds. *)
Record View := mkCfgView {
  IsSet : string -> bool;
  GetString : string -> string;
  GetInt : string -> Z;
  GetInt64 : string -> Z;
  GetFloat64 : string -> float64;
  GetStringSlice : string -> list string;
  GetBool : string -> bool;
  GetDuration : string -> Z;
}.

Definition time_Millisecond : Z := 10 ^ 6.
Definition time_Second : Z := 10 ^ 9.
Definition time_Minute : Z := 60 * time_Second.
Definition time_Hour : Z := 60 * time_Minute.
