(* ===== verification/Cacher.v ===== *)
(** * Objects built from the configuration ([internal/config/cacher.go])

    [Cacher] keeps an object (a connection) for as long as the configuration
    values read to build it are unchanged. The builder is a program over
    configuration reads ([reader]); reads go through [viewChangeDetector],
    which remembers each value. *)
From S2P Require Export Config.

(** ** Reading the configuration *)

(** One method call on a [View]. *)
Inductive read_op :=
| RIsSet (k : string) | RGetString (k : string) | RGetInt (k : string) | RGetInt64 (k : string)
| RGetFloat64 (k : string) | RGetStringSlice (k : string) | RGetBool (k : string) | RGetDuration (k : string).

Definition read_type (q : read_op) : Type :=
  match q with
  | RIsSet _ | RGetBool _ => bool
  | RGetString _ => string
  | RGetInt _ | RGetInt64 _ | RGetDuration _ => Z
  | RGetFloat64 _ => float64
  | RGetStringSlice _ => list string
  end.

Definition view_read (cfg : View) (q : read_op) : read_type q :=
  match q with
  | RIsSet k => IsSet cfg k
  | RGetString k => GetString cfg k
  | RGetInt k => GetInt cfg k
  | RGetInt64 k => GetInt64 cfg k
  | RGetFloat64 k => GetFloat64 cfg k
  | RGetStringSlice k => GetStringSlice cfg k
  | RGetBool k => GetBool cfg k
  | RGetDuration k => GetDuration cfg k
  end.

(** A function of a [View] that uses nothing else of it. *)
Inductive reader (A : Type) : Type :=
| RDone (a : A)
| RRead (q : read_op) (k : read_type q -> reader A).
Arguments RDone {A} a.
Arguments RRead {A} q k.

Fixpoint read_with {A} (cfg : View) (r : reader A) : A :=
  match r with
  | RDone a => a
  | RRead q k => read_with cfg (k (view_read cfg q))
  end.

Fixpoint reader_bind {A B} (r : reader A) (f : A -> reader B) : reader B :=
  match r with
  | RDone a => f a
  | RRead q k => RRead q (fun v => reader_bind (k v) f)
  end.

Lemma read_with_bind {A B} cfg (r : reader A) (f : A -> reader B) :
  read_with cfg (reader_bind r f) = read_with cfg (f (read_with cfg r)).
Proof. induction r as [a|q k IH]; cbn; [done|apply IH]. Qed.

Declare Scope reader_scope.
Notation "'read!' x := q 'in' e" := (RRead q (fun x => e))
  (at level 10, x name, q at level 99, e at level 200) : reader_scope.
Notation "'let*' x := r 'in' e" := (reader_bind r (fun x => e))
  (at level 10, x name, r at level 99, e at level 200) : reader_scope.

(** ** [viewChangeDetector] *)

Record viewChangeDetector := mkDetector {
  isSet : gmap string bool;
  getString : gmap string string;
  getInt : gmap string Z;
  getInt64 : gmap string Z;
  getFloat64 : gmap string float64;
  getStringSlice : gmap string (list string);
  getBool : gmap string bool;
  getDuration : gmap string Z;
}.

Definition newViewChangeDetector : viewChangeDetector := mkDetector ∅ ∅ ∅ ∅ ∅ ∅ ∅ ∅.

(** The detector's accessors: read the underlying view, remember the value
    (of a key read before, the last one). *)
Definition detector_record (q : read_op) : read_type q -> viewChangeDetector -> viewChangeDetector :=
  match q as q return read_type q -> viewChangeDetector -> viewChangeDetector with
  | RIsSet k => fun v r => mkDetector (<[k := v]> (isSet r)) (getString r) (getInt r) (getInt64 r) (getFloat64 r)
                             (getStringSlice r) (getBool r) (getDuration r)
  | RGetString k => fun v r => mkDetector (isSet r) (<[k := v]> (getString r)) (getInt r) (getInt64 r) (getFloat64 r)
                             (getStringSlice r) (getBool r) (getDuration r)
  | RGetInt k => fun v r => mkDetector (isSet r) (getString r) (<[k := v]> (getInt r)) (getInt64 r) (getFloat64 r)
                             (getStringSlice r) (getBool r) (getDuration r)
  | RGetInt64 k => fun v r => mkDetector (isSet r) (getString r) (getInt r) (<[k := v]> (getInt64 r)) (getFloat64 r)
                             (getStringSlice r) (getBool r) (getDuration r)
  | RGetFloat64 k => fun v r => mkDetector (isSet r) (getString r) (getInt r) (getInt64 r) (<[k := v]> (getFloat64 r))
                             (getStringSlice r) (getBool r) (getDuration r)
  | RGetStringSlice k => fun v r => mkDetector (isSet r) (getString r) (getInt r) (getInt64 r) (getFloat64 r)
                             (<[k := v]> (getStringSlice r)) (getBool r) (getDuration r)
  | RGetBool k => fun v r => mkDetector (isSet r) (getString r) (getInt r) (getInt64 r) (getFloat64 r)
                             (getStringSlice r) (<[k := v]> (getBool r)) (getDuration r)
  | RGetDuration k => fun v r => mkDetector (isSet r) (getString r) (getInt r) (getInt64 r) (getFloat64 r)
                             (getStringSlice r) (getBool r) (<[k := v]> (getDuration r))
  end.

(** Run a builder on the detector. The configuration is live: [cfgs n] is
    what the [n]-th read sees. *)
Fixpoint detect {A} (cfgs : nat -> View) (n : nat) (r : reader A) (d : viewChangeDetector) : A * viewChangeDetector :=
  match r with
  | RDone a => (a, d)
  | RRead q k =>
      let v := view_read (cfgs n) q in
      detect cfgs (S n) (k v) (detector_record q v d)
  end.

(** Go's [==] on the values: on floats NaN differs from itself and the two
    zeros are equal; slices are compared by length and elements. *)
Definition f_eq (a b : float64) : bool := SFeqb a b.

Fixpoint slice_eq (v actual : list string) : bool :=
  match v, actual with
  | [], [] => true
  | x :: v, y :: actual => bool_decide (x = y) && slice_eq v actual
  | _, _ => false
  end.

(** A range over one map that returns at the first changed value. *)
Definition changed {V} (eq : V -> V -> bool) (m : gmap string V) (get : string -> V) : bool :=
  existsb (fun '(k, v) => negb (eq (get k) v)) (map_to_list m).

Definition hasChanges (cfg : View) (r : viewChangeDetector) : bool :=
  changed Bool.eqb (isSet r) (IsSet cfg) ||
  changed String.eqb (getString r) (GetString cfg) ||
  changed Z.eqb (getInt r) (GetInt cfg) ||
  changed Z.eqb (getInt64 r) (GetInt64 cfg) ||
  changed f_eq (getFloat64 r) (GetFloat64 cfg) ||
  changed (fun actual v => slice_eq v actual) (getStringSlice r) (GetStringSlice cfg) ||
  changed Bool.eqb (getBool r) (GetBool cfg) ||
  changed Z.eqb (getDuration r) (GetDuration cfg).

(** ** [Cacher] *)
Section Cacher.
Context {V : Type}.

(** What [newInstance] returns: a value, a cleanup function or none, an error
    or none. Calls differ in more than the configuration (a dial succeeds or
    not): the builder is given the number of the call. *)
Record instance := mkInstance { i_value : option V; i_close : bool; i_err : option error }.

Variable newInstance : nat -> reader instance.

(** The fields; [c] names the call of [newInstance] whose cleanup function it
    is. History: what the calls returned and the cleanups run. *)
Record cacher := mkCacher {
  c_r : option viewChangeDetector;
  c_v : option V;
  c_c : option nat;
  c_made : list instance;
  c_closed : list nat;
}.

Definition NewCacher : cacher := mkCacher None None None [] [].

Definition locklessReset (c : cacher) : cacher :=
  mkCacher None None None (c_made c)
    (match c_c c with Some i => c_closed c ++ [i] | None => c_closed c end).

(** The mutex makes every call atomic; [cfg] is the configuration
    [hasChanges] sees, [cfgs] what the builder's reads see. *)
Definition Get (cfg : View) (cfgs : nat -> View) (c : cacher) : cacher * result (option V) :=
  if match c_r c with None => true | Some r => hasChanges cfg r end then
    let c := locklessReset c in
    let call := length (c_made c) in
    let '(i, r) := detect cfgs O (newInstance call) newViewChangeDetector in
    let c := mkCacher (Some r) (i_value i) (if i_close i then Some call else None) (c_made c ++ [i]) (c_closed c) in
    match i_err i with
    | Some err => (locklessReset c, Err err)
    | None => (c, Ok (c_v c))
    end
  else (c, Ok (c_v c)).

Definition ForceReset (c : cacher) : cacher := locklessReset c.

(** Any use of a cacher. *)
Inductive cacher_op := OpGet (cfg : View) (cfgs : nat -> View) | OpReset.

Definition cacher_step (c : cacher) (op : cacher_op) : cacher :=
  match op with OpGet cfg cfgs => (Get cfg cfgs c).1 | OpReset => ForceReset c end.

Definition use (ops : list cacher_op) : cacher := foldl cacher_step NewCacher ops.
End Cacher.
Arguments mkInstance {V}.

(** ** What the detector knows *)

Definition recorded (d : viewChangeDetector) (q : read_op) : option (read_type q) :=
  match q as q return option (read_type q) with
  | RIsSet k => isSet d !! k
  | RGetString k => getString d !! k
  | RGetInt k => getInt d !! k
  | RGetInt64 k => getInt64 d !! k
  | RGetFloat64 k => getFloat64 d !! k
  | RGetStringSlice k => getStringSlice d !! k
  | RGetBool k => getBool d !! k
  | RGetDuration k => getDuration d !! k
  end.

#[global] Instance read_op_eq_dec : EqDecision read_op.
Proof. solve_decision. Defined.

Lemma recorded_same q v d : recorded (detector_record q v d) q = Some v.
Proof. destruct q; cbn; apply lookup_insert_eq. Qed.

Lemma recorded_other q v d q' : q <> q' -> recorded (detector_record q v d) q' = recorded d q'.
Proof. intros Hne. destruct q, q'; cbn; try done; apply lookup_insert_ne; congruence. Qed.

Lemma unchanged {V} (eq : V -> V -> bool) (m : gmap string V) get k v :
  changed eq m get = false -> m !! k = Some v -> eq (get k) v = true.
Proof.
  unfold changed. intros Hc Hk. apply not_true_iff_false in Hc. apply not_false_iff_true. intros He.
  apply Hc, existsb_exists. exists (k, v). split; [by apply list_elem_of_In, elem_of_map_to_list|]. by rewrite He.
Qed.

Lemma slice_eq_true v w : slice_eq v w = true -> v = w.
Proof.
  revert w. induction v as [|x v IH]; intros [|y w]; cbn; try done.
  intros [->%bool_decide_eq_true ->%IH]%andb_true_iff. done.
Qed.

(** Equal doubles are the same value, unless they are the two zeros. *)
Lemma f_eq_true a b : f_eq a b = true -> a <> S754_zero true -> b <> S754_zero true -> a = b.
Proof.
  unfold f_eq, SFeqb, SFcompare.
  destruct a as [[]|[]| |[] m e], b as [[]|[]| |[] m' e']; intros H Ha Hb; try discriminate H; try congruence.
  all: destruct (Z.compare_spec e e'); try discriminate H; subst; cbn in H;
    change (Pos.compare_cont Eq m m') with (Pos.compare m m') in H;
    destruct (Pos.compare_spec m m'); try discriminate H; congruence.
Qed.

(** A configuration without negative zeros. *)
Definition proper (cfg : View) : Prop := forall k, GetFloat64 cfg k <> S754_zero true.

(** A configuration without changes answers every recorded read as before. *)
Lemma hasChanges_false cfg d q v :
  proper cfg -> (forall k, getFloat64 d !! k <> Some (S754_zero true)) ->
  hasChanges cfg d = false -> recorded d q = Some v -> view_read cfg q = v.
Proof.
  intros Hp Hd Hc Hr. unfold hasChanges in Hc. rewrite !orb_false_iff in Hc.
  destruct Hc as [[[[[[[H1 H2] H3] H4] H5] H6] H7] H8].
  destruct q as [k|k|k|k|k|k|k|k]; cbn in *.
  - by apply Bool.eqb_prop, (unchanged _ _ _ _ _ H1).
  - by apply String.eqb_eq, (unchanged _ _ _ _ _ H2).
  - by apply Z.eqb_eq, (unchanged _ _ _ _ _ H3).
  - by apply Z.eqb_eq, (unchanged _ _ _ _ _ H4).
  - apply (f_eq_true _ _ (unchanged _ _ _ _ _ H5 Hr)); [apply Hp|]. intros ->. by apply (Hd k).
  - symmetry. apply slice_eq_true, (unchanged _ _ _ _ _ H6 Hr).
  - by apply Bool.eqb_prop, (unchanged _ _ _ _ _ H7).
  - by apply Z.eqb_eq, (unchanged _ _ _ _ _ H8).
Qed.

(** Everything recorded is what a fixed configuration says. *)
Definition consistent (cfg : View) (d : viewChangeDetector) : Prop :=
  forall q v, recorded d q = Some v -> v = view_read cfg q.

Lemma consistent_record cfg d q : consistent cfg d -> consistent cfg (detector_record q (view_read cfg q) d).
Proof.
  intros Hd q' v. destruct (decide (q = q')) as [<-|Hne].
  - rewrite recorded_same. by intros [= <-].
  - rewrite recorded_other by done. apply Hd.
Qed.

Lemma detect_consistent {A} cfg n (r : reader A) d a d' :
  consistent cfg d -> detect (fun _ => cfg) n r d = (a, d') ->
  consistent cfg d' /\ forall q, is_Some (recorded d q) -> is_Some (recorded d' q).
Proof.
  revert n d. induction r as [x|q k IH]; intros n d Hd Hrun; cbn in Hrun; [by simplify_eq|].
  apply IH in Hrun as [? Hmono]; [|by apply consistent_record]. split; [done|]. intros q' Hq'. apply Hmono.
  destruct (decide (q = q')) as [<-|Hne]; [rewrite recorded_same; eauto|by rewrite recorded_other].
Qed.

(** The builder returns the same under any configuration without changes. *)
Lemma detect_replay {A} cfg0 cfg n (r : reader A) d a d' :
  proper cfg0 -> proper cfg -> consistent cfg0 d ->
  detect (fun _ => cfg0) n r d = (a, d') -> hasChanges cfg d' = false -> read_with cfg r = a.
Proof.
  intros Hp0 Hp. revert n d. induction r as [x|q k IH]; intros n d Hd Hrun Hc; cbn in Hrun; [by simplify_eq/=|].
  cbn. pose proof (detect_consistent _ _ _ _ _ _ (consistent_record _ _ q Hd) Hrun) as [Hcons Hmono].
  destruct (Hmono q) as [v Hv]; [rewrite recorded_same; eauto|].
  assert (view_read cfg q = view_read cfg0 q) as ->; [|eapply IH; [exact (consistent_record _ _ q Hd)|exact Hrun|exact Hc]].
  rewrite <- (Hcons q v Hv). eapply hasChanges_false; [done| |done..].
  intros k' Hz. specialize (Hcons (RGetFloat64 k') _ Hz). by apply (Hp0 k').
Qed.

(** ** The guarantees *)
Section Guarantees.
Context {V : Type} (newInstance : nat -> reader (@instance V)).

(** The calls of [newInstance] that returned a cleanup function. *)
Fixpoint closers (n : nat) (made : list (@instance V)) : list nat :=
  match made with
  | [] => []
  | i :: made => if i_close i then n :: closers (S n) made else closers (S n) made
  end.

Lemma closers_snoc n made i :
  closers n (made ++ [i]) = closers n made ++ (if i_close i then [(n + length made)%nat] else []).
Proof.
  revert n. induction made as [|x made IH]; intros n; cbn.
  - rewrite Nat.add_0_r. by destruct (i_close i).
  - rewrite IH, Nat.add_succ_r. by destruct (i_close x).
Qed.

Lemma closers_range n made j : j ∈ closers n made -> (n <= j)%nat.
Proof.
  revert n. induction made as [|x made IH]; intros n; cbn; [by intros ?%not_elem_of_nil|].
  destruct (i_close x); [rewrite elem_of_cons; intros [->|Hj]; [done|]|intros Hj]; apply IH in Hj; lia.
Qed.

Lemma closers_NoDup n made : NoDup (closers n made).
Proof.
  revert n. induction made as [|x made IH]; intros n; cbn; [constructor|].
  destruct (i_close x); [|done]. constructor; [|done]. intros Hj%closers_range. lia.
Qed.

(** The cleanup of the object held, if it has one. *)
Definition live (c : @cacher V) : list nat := match c_c c with Some i => [i] | None => [] end.

Lemma reset_closed (c : @cacher V) : c_closed (locklessReset c) = c_closed c ++ live c.
Proof. unfold live. cbn. by destruct (c_c c); [|rewrite app_nil_r]. Qed.

(** C35. Cleanups run exactly once: after any sequence of [Get]s and
    [ForceReset]s, under a configuration that may change at every read, the
    cleanups already run followed by that of the object held are those of the
    calls of [newInstance] that returned one, each once and in order. So no
    object leaks, none is closed twice, and the one handed out is open. A
    call that returns an error together with a cleanup has it run too. *)
Theorem cacher_closes_once ops :
  let c := use newInstance ops in
  c_closed c ++ live c = closers 0 (c_made c) /\ NoDup (c_closed c ++ live c).
Proof.
  intros c. enough (c_closed c ++ live c = closers 0 (c_made c)) as Heq.
  { split; [done|]. rewrite Heq. apply closers_NoDup. }
  unfold c, use. assert (forall s, c_closed s ++ live s = closers 0 (c_made s) ->
    c_closed (foldl (cacher_step newInstance) s ops) ++ live (foldl (cacher_step newInstance) s ops) =
    closers 0 (c_made (foldl (cacher_step newInstance) s ops))) as Hinv; [|by apply Hinv].
  induction ops as [|op ops IH]; intros s Hs; cbn; [done|]. apply IH.
  destruct op as [cfg cfgs|]; cbn [cacher_step].
  - unfold Get. destruct (match c_r s with Some _ => _ | None => _ end); [|done].
    destruct (detect _ _ _ _) as [i r]. cbn [c_made locklessReset].
    assert (closers 0 (c_made s ++ [i]) = c_closed s ++ live s ++ (if i_close i then [length (c_made s)] else [])) as Hi.
    { by rewrite closers_snoc, <- Hs, <- app_assoc. }
    destruct (i_err i); cbn [fst c_made]; [|unfold live at 1];
      destruct (i_close i) eqn:Hcl; cbn in *; rewrite Hi; unfold live; cbn; destruct (c_c s); cbn;
      rewrite ?app_nil_r, <- ?app_assoc; done.
  - unfold ForceReset. rewrite reset_closed. unfold live at 2. cbn. by rewrite app_nil_r.
Qed.

(** What is held was built under some configuration by a call that
    succeeded. *)
Definition built (c : @cacher V) : Prop :=
  forall d, c_r c = Some d ->
    exists cfg0 i a, proper cfg0 /\ detect (fun _ => cfg0) 0 (newInstance a) newViewChangeDetector = (i, d) /\
      i_err i = None /\ c_v c = i_value i /\ c_made c !! a = Some i.

Lemma Get_built cfg c : proper cfg -> built c -> built (Get newInstance cfg (fun _ => cfg) c).1.
Proof.
  intros Hp Hb. unfold Get. destruct (match c_r c with Some _ => _ | None => _ end); [|done].
  destruct (detect _ _ _ _) as [i r] eqn:Hd. destruct (i_err i) eqn:He; [done|].
  cbn. intros d [= <-]. exists cfg, i, (length (c_made c)). split_and!; [done..|].
  cbn. by rewrite lookup_app_r, Nat.sub_diag by done.
Qed.

(** Uses under configurations that do not change during a call. *)
Definition steady (op : cacher_op) : Prop :=
  match op with OpGet cfg cfgs => proper cfg /\ cfgs = fun _ => cfg | OpReset => True end.

Lemma use_built ops : Forall steady ops -> built (use newInstance ops).
Proof.
  unfold use. assert (built (@NewCacher V)) as Hb by done. revert Hb. generalize (@NewCacher V).
  intros s Hb Hops. revert s Hb. induction Hops as [|op ops Hop Hops IH]; intros s Hb; [done|]. cbn. apply IH.
  destruct op as [cfg cfgs|]; [|done]. destruct Hop as [Hp ->]. by apply Get_built.
Qed.

(** C36. The cache cannot be told from building the object afresh: after any
    uses, when the configuration does not change during a call and holds no
    negative zero, [Get] returns what one of the calls of [newInstance] made
    so far returns when it is run on the current configuration: its value, or
    its error. In particular a value built from settings that have changed is
    never returned. *)
Theorem cacher_transparent ops cfg c' r (Hops : Forall steady ops) (Hcfg : proper cfg)
  (Hget : Get newInstance cfg (fun _ => cfg) (use newInstance ops) = (c', r)) :
  exists a i, c_made c' !! a = Some i /\ read_with cfg (newInstance a) = i /\
    r = match i_err i with Some e => Err e | None => Ok (i_value i) end.
Proof.
  pose proof (use_built ops Hops) as Hb. revert Hget. set (c := use newInstance ops) in *. unfold Get.
  destruct (c_r c) as [d|] eqn:Hr; [destruct (hasChanges cfg d) eqn:Hc|].
  2: { intros [= <- <-]. destruct (Hb d Hr) as (cfg0 & i & a & Hp0 & Hd & He & Hv & Ha).
       exists a, i. split_and!; [done| |by rewrite He, Hv].
       eapply detect_replay; [exact Hp0|exact Hcfg| |exact Hd|exact Hc]. by intros []. }
  all: destruct (detect _ _ _ _) as [i r'] eqn:Hd; intros Hget; exists (length (c_made c)), i;
    assert (read_with cfg (newInstance (length (c_made c))) = i) as Hread
      by (clear -Hd; revert Hd; generalize newViewChangeDetector, 0%nat;
          induction (newInstance _) as [x|q k IH]; intros d0 n Hd; cbn in *; [by simplify_eq|by eapply IH]);
    destruct (i_err i); simplify_eq/=; split_and!; try done; by rewrite lookup_app_r, Nat.sub_diag by done.
Qed.
End Guarantees.

(** ** A concrete use

    The builder reads a host and a port; a call returns its number and the
    address. *)
Definition demo_builder (a : nat) : reader (@instance (nat * string)) :=
  RRead (RGetString "host") (fun host =>
  RRead (RGetInt64 "port") (fun port =>
  RDone (if bool_decide (host = "") then mkInstance None false (Some (EPlain "no host"))
         else mkInstance (Some (a, host +:+ ":" +:+ itoa port)) true None))).

Definition demo_view (host : string) (port : Z) : View :=
  mkCfgView (fun _ => true) (fun _ => host) (fun _ => 0) (fun _ => port) (fun _ => S754_zero false) (fun _ => [])
    (fun _ => false) (fun _ => 0).

Definition same (cfg : View) : cacher_op := OpGet cfg (fun _ => cfg).

(** The second [Get] finds nothing changed; the third rebuilds. *)
Lemma cacher_transparent_witness :
  let ops := [same (demo_view "a" 1); same (demo_view "a" 1)] in
  let x := Get demo_builder (demo_view "a" 2) (fun _ => demo_view "a" 2) (use demo_builder ops) in
  x.2 = Ok (Some (1%nat, "a:2")) /\
  exists a i, c_made x.1 !! a = Some i /\ read_with (demo_view "a" 2) (demo_builder a) = i /\
    x.2 = match i_err i with Some e => Err e | None => Ok (i_value i) end.
Proof.
  intros ops x. split; [vm_compute; reflexivity|].
  apply (cacher_transparent demo_builder ops (demo_view "a" 2)).
  - repeat constructor; discriminate.
  - intros k. discriminate.
  - apply surjective_pairing.
Defined.
