(* ===== verification/Rpc.v ===== *)
(** * Client connections ([internal/rpc/clients.go], [clientcache.go],
      [internal/logging/logging.go], [internal/app/backend/synchronizer_client.go])

    How Open Match's components and match functions are called: the options a
    connection is made with, its credentials, and the cache of connections by
    address. *)
From S2P Require Export Cacher.
#[local] Open Scope reader_scope.

(** ** Logging levels *)

(** [strings.ToLower], on the ASCII letters: the code compares its result
    with ASCII text only, and no other letter has an ASCII lower case but the
    Kelvin sign, a [k]. *)
Definition ascii_lower (c : ascii) : ascii :=
  let n := Ascii.nat_of_ascii c in
  if (65 <=? n)%nat && (n <=? 90)%nat then Ascii.ascii_of_nat (n + 32) else c.
Fixpoint to_lower (s : string) : string :=
  match s with
  | EmptyString => EmptyString
  | String c s => String (ascii_lower c) (to_lower s)
  end.

Inductive Level := TraceLevel | DebugLevel | InfoLevel | WarnLevel | ErrorLevel | FatalLevel | PanicLevel.

Definition toLevel (level : string) : Level :=
  let l := to_lower level in
  if bool_decide (l = "trace") then TraceLevel
  else if bool_decide (l = "debug") then DebugLevel
  else if bool_decide (l = "warn") then WarnLevel
  else if bool_decide (l = "warning") then WarnLevel
  else if bool_decide (l = "error") then ErrorLevel
  else if bool_decide (l = "fatal") then FatalLevel
  else if bool_decide (l = "panic") then PanicLevel
  else InfoLevel.

Definition isDebugLevel (level : Level) : bool :=
  match level with TraceLevel | DebugLevel => true | _ => false end.

Definition IsDebugEnabled : reader bool :=
  read! level := RGetString "logging.level" in RDone (isDebugLevel (toLevel level)).

(** ** Connections *)

Definition ConfigNameEnableRPCLogging : string := "logging.rpc".
Definition ConfigNameEnableMetrics : string := "telemetry.prometheus.enable".
Definition configNameServerRootCertificatePath : string := "api.tls.rootCertificateFile".
Definition configNameClientTrustedCertificatePath : string := configNameServerRootCertificatePath.

(** The files of the machine, and the library functions the outcome depends
    on: [x509.CertPool.AppendCertsFromPEM], [url.Parse] followed by
    [URL.String], and whether [grpc.Dial] accepts an address. *)
Class Host := {
  os_Stat : string -> option error;
  ReadFile : string -> result string;
  AppendCertsFromPEM : string -> bool;
  url_Parse : string -> option string;
  dial_error : string -> option error;
}.

Inductive interceptor := Tracing | PayloadLogging | RequestLogging.

Inductive DialOption :=
| WithStreamInterceptor (chain : list interceptor)
| WithUnaryInterceptor (chain : list interceptor)
| WithDefaultServiceConfig (json : string)
| WithKeepaliveParams (time timeout : Z) (permitWithoutStream : bool)
| WithStatsHandler
| WithTransportCredentials (pool : string)  (* the PEM data of the trusted certificates *)
| WithInsecure.

(** A [grpc.ClientConn]: what it was dialled with. *)
Record ClientConn := mkConn { conn_target : string; conn_options : list DialOption }.

(** An [http.Client]'s chain of transports; [None] is [http.DefaultTransport]. *)
Inductive transport :=
| DefaultTransport
| TLSTransport (serverName pool : string)
| LoggingTransport (base : transport) (logPayloads : bool)
| OcHttpTransport (base : transport).

Record HttpClient := mkHttpClient { hc_Transport : option transport; hc_Timeout : Z }.

Record ClientParams := mkClientParams {
  Address : string;
  TrustedCertificate : string;
  EnableRPCLogging : bool;
  EnableRPCPayloadLogging : bool;
  EnableMetrics : bool;
}.

Section Clients.
Context `{Host}.

Definition trustedCertificateFromFileData (publicCertFileData : string) : result string :=
  if AppendCertsFromPEM publicCertFileData then Ok publicCertFileData
  else Err (EPlain "trustedCertificateFromFileData: failed to append certificates").

(** [len(p.TrustedCertificate) > 0]. *)
Definition usingTLS (p : ClientParams) : bool := negb (bool_decide (TrustedCertificate p = "")).

Definition newGRPCDialOptions (enableMetrics enableRPCLogging enableRPCPayloadLogging : bool) : list DialOption :=
  let chain := [Tracing] ++
    (if enableRPCLogging then if enableRPCPayloadLogging then [PayloadLogging] else [RequestLogging] else []) in
  [WithStreamInterceptor chain; WithUnaryInterceptor chain;
   WithDefaultServiceConfig ("{" +:+ quoted "loadBalancingPolicy" +:+ ":" +:+ quoted "round_robin" +:+ "}");
   WithKeepaliveParams (20 * time_Second) (10 * time_Second) true] ++
  (if enableMetrics then [WithStatsHandler] else []).

Definition toAddress (hostname : string) (port : Z) : string := hostname +:+ ":" +:+ itoa port.

(** [grpc.Dial]. *)
Definition Dial (address : string) (opts : list DialOption) : result ClientConn :=
  match dial_error address with
  | Some err => Err err
  | None => Ok (mkConn address opts)
  end.

Definition GRPCClientFromParams (params : ClientParams) : result ClientConn :=
  let grpcOptions := newGRPCDialOptions (EnableMetrics params) (EnableRPCLogging params) (EnableRPCPayloadLogging params) in
  if usingTLS params then
    result_bind (trustedCertificateFromFileData (TrustedCertificate params)) (fun pool =>
    Dial (Address params) (grpcOptions ++ [WithTransportCredentials pool]))
  else Dial (Address params) (grpcOptions ++ [WithInsecure]).

(** The passage the constructors repeat: the trusted certificate's file if
    the configuration names one. *)
Definition read_trusted : reader (result (option string)) :=
  read! path := RGetString configNameClientTrustedCertificatePath in
  if bool_decide (path = "") then RDone (Ok None)
  else
    read! path := RGetString configNameClientTrustedCertificatePath in
    match os_Stat path with
    | Some err => RDone (Err err)
    | None =>
        read! path := RGetString configNameClientTrustedCertificatePath in
        RDone (result_bind (ReadFile path) (fun data => Ok (Some data)))
    end.

(** [ClientParams] with the settings read in the order of the code. *)
Definition client_params (address : string) : reader ClientParams :=
  read! rpcLogging := RGetBool ConfigNameEnableRPCLogging in
  let* debug := IsDebugEnabled in
  read! metrics := RGetBool ConfigNameEnableMetrics in
  RDone (mkClientParams address "" rpcLogging debug metrics).

Definition with_certificate (params : ClientParams) (data : option string) : ClientParams :=
  mkClientParams (Address params) (default (TrustedCertificate params) data) (EnableRPCLogging params)
    (EnableRPCPayloadLogging params) (EnableMetrics params).

Definition GRPCClientFromConfig (prefix : string) : reader (result ClientConn) :=
  read! host := RGetString (prefix +:+ ".hostname") in
  read! port := RGetInt (prefix +:+ ".grpcport") in
  let* params := client_params (toAddress host port) in
  let* trusted := read_trusted in
  RDone (result_bind trusted (fun data => GRPCClientFromParams (with_certificate params data))).

Definition GRPCClientFromEndpoint (address : string) : reader (result ClientConn) :=
  read! metrics := RGetBool ConfigNameEnableMetrics in
  read! rpcLogging := RGetBool ConfigNameEnableRPCLogging in
  let* debug := IsDebugEnabled in
  let grpcOptions := newGRPCDialOptions metrics rpcLogging debug in
  let* trusted := read_trusted in
  RDone (result_bind trusted (fun data =>
    match data with
    | Some trustedCertificate =>
        result_bind (trustedCertificateFromFileData trustedCertificate) (fun pool =>
        Dial address (grpcOptions ++ [WithTransportCredentials pool]))
    | None => Dial address (grpcOptions ++ [WithInsecure])
    end)).

(** [strings.HasPrefix]. *)
Definition HasPrefix (s prefix : string) : bool := String.prefix prefix s.

Definition has_scheme (address : string) : bool :=
  let lca := to_lower address in HasPrefix lca "http://" || HasPrefix lca "https://".

Definition sanitizeHTTPAddress (address : string) (preferHTTPS : bool) : result string :=
  let address := if has_scheme address then address
                 else if preferHTTPS then "https://" +:+ address else "http://" +:+ address in
  match url_Parse address with
  | None => Err (EPlain (address +:+ " is not a valid HTTP(S) address"))
  | Some u => Ok u
  end.

Definition attachTransport (client : HttpClient) (wrapper : transport -> transport) : HttpClient :=
  mkHttpClient (Some (wrapper (default DefaultTransport (hc_Transport client)))) (hc_Timeout client).

(** The client and the base URL of its requests. *)
Definition HTTPClientFromParams (params : ClientParams) : result (HttpClient * string) :=
  let httpClient := mkHttpClient None (time_Second * 3) in
  result_bind
    (if usingTLS params then
       result_bind (sanitizeHTTPAddress (Address params) true) (fun baseURL =>
       result_bind (trustedCertificateFromFileData (TrustedCertificate params)) (fun pool =>
       Ok (mkHttpClient (Some (TLSTransport (Address params) pool)) (hc_Timeout httpClient), baseURL)))
     else
       result_bind (sanitizeHTTPAddress (Address params) false) (fun baseURL => Ok (httpClient, baseURL)))
    (fun '(httpClient, baseURL) =>
      let httpClient := if EnableRPCLogging params
        then attachTransport httpClient (fun t => LoggingTransport t (EnableRPCPayloadLogging params)) else httpClient in
      let httpClient := if EnableMetrics params then attachTransport httpClient OcHttpTransport else httpClient in
      Ok (httpClient, baseURL)).

Definition HTTPClientFromConfig (prefix : string) : reader (result (HttpClient * string)) :=
  read! host := RGetString (prefix +:+ ".hostname") in
  read! port := RGetInt (prefix +:+ ".httpport") in
  let* params := client_params (toAddress host port) in
  let* trusted := read_trusted in
  RDone (result_bind trusted (fun data => HTTPClientFromParams (with_certificate params data))).

Definition HTTPClientFromEndpoint (address : string) : reader (result (HttpClient * string)) :=
  let* params := client_params address in
  let* trusted := read_trusted in
  RDone (result_bind trusted (fun data => HTTPClientFromParams (with_certificate params data))).
End Clients.

(** ** [ClientCache]

    A [sync.Map] from addresses to clients of either kind. A client made is
    identified by its number, so that two connections to an address are told
    apart. *)
Inductive cached := cachedGRPCClient (n : nat) (client : ClientConn) | cachedHTTPClient (n : nat) (client : HttpClient) (baseURL : string).

Record ClientCache := mkClientCache { cc_cache : gmap string cached; cc_made : nat }.

Definition NewClientCache : ClientCache := mkClientCache ∅ O.

Section ClientCache.
Context `{Host}.

Definition GetGRPC (cfg : View) (cc : ClientCache) (address : string) : ClientCache * result (nat * ClientConn) :=
  match cc_cache cc !! address with
  | Some (cachedGRPCClient n client) => (cc, Ok (n, client))
  | _ =>
      match read_with cfg (GRPCClientFromEndpoint address) with
      | Err err => (cc, Err err)
      | Ok conn =>
          let n := cc_made cc in
          (mkClientCache (<[address := cachedGRPCClient n conn]> (cc_cache cc)) (S n), Ok (n, conn))
      end
  end.

Definition GetHTTP (cfg : View) (cc : ClientCache) (address : string) :
    ClientCache * result (nat * HttpClient * string) :=
  match cc_cache cc !! address with
  | Some (cachedHTTPClient n client baseURL) => (cc, Ok (n, client, baseURL))
  | _ =>
      match read_with cfg (HTTPClientFromEndpoint address) with
      | Err err => (cc, Err err)
      | Ok (client, baseURL) =>
          let n := cc_made cc in
          (mkClientCache (<[address := cachedHTTPClient n client baseURL]> (cc_cache cc)) (S n), Ok (n, client, baseURL))
      end
  end.

(** Uses of the cache, each under the configuration of the moment. *)
Inductive cache_use := UseGRPC (cfg : View) (address : string) | UseHTTP (cfg : View) (address : string).

Definition use_cache (cc : ClientCache) (u : cache_use) : ClientCache :=
  match u with
  | UseGRPC cfg address => (GetGRPC cfg cc address).1
  | UseHTTP cfg address => (GetHTTP cfg cc address).1
  end.

(** ** The synchronizer's client *)

Definition newSynchronizerClient : reader (@instance ClientConn) :=
  let* r := GRPCClientFromConfig "api.synchronizer" in
  RDone (match r with
         | Ok conn => mkInstance (Some conn) true None
         | Err err => mkInstance None false (Some err)
         end).

(** [call conn] is the outcome of [Synchronize] on the connection. *)
Definition synchronize {S} (cfg : View) (cfgs : nat -> View) (c : @cacher ClientConn) (call : ClientConn -> result S) :
    @cacher ClientConn * result S :=
  let '(c, client) := Get (fun _ => newSynchronizerClient) cfg cfgs c in
  match client with
  | Err err => (c, Err err)
  | Ok None => (c, Err EPanic)
  | Ok (Some conn) => (c, call conn)
  end.
End ClientCache.

(** ** Credentials *)
Section Credentials.
Context `{Host}.

Definition is_credentials (o : DialOption) : bool :=
  match o with WithTransportCredentials _ | WithInsecure => true | _ => false end.
Definition conn_credentials (c : ClientConn) : list DialOption := List.filter is_credentials (conn_options c).

(** The transport a client's wrappers end in. *)
Fixpoint base_transport (t : transport) : transport :=
  match t with LoggingTransport t _ | OcHttpTransport t => base_transport t | _ => t end.
Definition client_transport (c : HttpClient) : transport := base_transport (default DefaultTransport (hc_Transport c)).

Definition certificate_path (cfg : View) : string := GetString cfg configNameClientTrustedCertificatePath.

Lemma read_with_trusted cfg :
  read_with cfg read_trusted =
    if bool_decide (certificate_path cfg = "") then Ok None
    else match os_Stat (certificate_path cfg) with
         | Some err => Err err
         | None => result_bind (ReadFile (certificate_path cfg)) (fun data => Ok (Some data))
         end.
Proof.
  unfold read_trusted, certificate_path. cbn. destruct (bool_decide _); [done|]. cbn. by destruct (os_Stat _).
Qed.

(** A connection made: to the address, with the credentials added. *)
Lemma dial_ok address m l p cred conn : is_credentials cred = true ->
  Dial address (newGRPCDialOptions m l p ++ [cred]) = Ok conn ->
  conn_target conn = address /\ conn_credentials conn = [cred].
Proof.
  intros Hc. unfold Dial. destruct (dial_error address); [done|]. intros [= <-]. split; [done|].
  unfold conn_credentials. destruct m; cbn; by rewrite Hc.
Qed.

Lemma trusted_ok data pool : trustedCertificateFromFileData data = Ok pool ->
  pool = data /\ AppendCertsFromPEM data = true.
Proof. unfold trustedCertificateFromFileData. destruct (AppendCertsFromPEM data) eqn:He; [by intros [= <-]|done]. Qed.

Lemma params_credentials params conn : GRPCClientFromParams params = Ok conn ->
  conn_target conn = Address params /\
  if usingTLS params
  then conn_credentials conn = [WithTransportCredentials (TrustedCertificate params)] /\
       AppendCertsFromPEM (TrustedCertificate params) = true
  else conn_credentials conn = [WithInsecure].
Proof.
  unfold GRPCClientFromParams. destruct (usingTLS params).
  - destruct (trustedCertificateFromFileData _) as [pool|] eqn:Hp; [|done]. cbn.
    apply trusted_ok in Hp as [-> Hok]. intros Hd%dial_ok; [|done]. tauto.
  - by intros Hd%dial_ok.
Qed.

Lemma http_params_transport params c u : HTTPClientFromParams params = Ok (c, u) ->
  sanitizeHTTPAddress (Address params) (usingTLS params) = Ok u /\
  client_transport c =
    if usingTLS params then TLSTransport (Address params) (TrustedCertificate params) else DefaultTransport.
Proof.
  unfold HTTPClientFromParams. destruct (usingTLS params).
  - destruct (sanitizeHTTPAddress _ _) as [base|]; [|done]. cbn.
    destruct (trustedCertificateFromFileData _) as [pool|] eqn:Hp; [|done]. apply trusted_ok in Hp as [-> _]. cbn.
    destruct (EnableRPCLogging params), (EnableMetrics params); cbn; intros [= <- <-]; done.
  - destruct (sanitizeHTTPAddress _ _) as [base|]; [|done]. cbn.
    destruct (EnableRPCLogging params), (EnableMetrics params); cbn; intros [= <- <-]; done.
Qed.

Lemma read_with_params cfg address :
  read_with cfg (client_params address) =
    mkClientParams address "" (GetBool cfg ConfigNameEnableRPCLogging)
      (isDebugLevel (toLevel (GetString cfg "logging.level"))) (GetBool cfg ConfigNameEnableMetrics).
Proof. done. Qed.

(** With a certificate file named, what was read from it. *)
Lemma trusted_named cfg x : certificate_path cfg <> "" ->
  read_with cfg read_trusted = Ok x -> exists data, x = Some data /\ ReadFile (certificate_path cfg) = Ok data.
Proof.
  intros Hp. rewrite read_with_trusted. rewrite bool_decide_eq_false_2 by done.
  destruct (os_Stat _); [done|]. destruct (ReadFile _) as [data|]; [|done]. intros [= <-]. eauto.
Qed.

(** A client made from the configuration, its settings and certificate read. *)
Lemma read_client {A} cfg address (k : ClientParams -> result A) r :
  certificate_path cfg <> "" ->
  read_with cfg (let* params := client_params address in let* trusted := read_trusted in
    RDone (result_bind trusted (fun data => k (with_certificate params data)))) = Ok r ->
  exists data params, ReadFile (certificate_path cfg) = Ok data /\ k params = Ok r /\
    Address params = address /\ TrustedCertificate params = data.
Proof.
  intros Hp. rewrite !read_with_bind. cbn [read_with].
  destruct (read_with cfg read_trusted) as [x|] eqn:Ht; [|done].
  destruct (trusted_named cfg x Hp Ht) as (data & -> & Hd). cbn [result_bind].
  intros Hk. eexists data, _. split_and!; [done|exact Hk|done..].
Qed.

(** What a client for HTTP and its base URL are, given the address and the
    certificate's bytes: an address that names its scheme keeps it, any other
    is reached over HTTPS exactly when the certificate is not empty. *)
Definition http_client_for (address data : string) (c : HttpClient) (u : string) : Prop :=
  (client_transport c = if bool_decide (data = "") then DefaultTransport else TLSTransport address data) /\
  url_Parse (if has_scheme address then address
             else (if bool_decide (data = "") then "http://" else "https://") +:+ address) = Some u /\
  (data <> "" -> AppendCertsFromPEM data = true).

Lemma sanitize_url address tls u : sanitizeHTTPAddress address tls = Ok u ->
  url_Parse (if has_scheme address then address else (if tls then "https://" else "http://") +:+ address) = Some u.
Proof.
  unfold sanitizeHTTPAddress. destruct (has_scheme address), tls; destruct (url_Parse _); by intros [= ->].
Qed.

Lemma http_params_client params c u : HTTPClientFromParams params = Ok (c, u) ->
  http_client_for (Address params) (TrustedCertificate params) c u.
Proof.
  intros Hk. pose proof (http_params_transport _ _ _ Hk) as [Hu Htr]. unfold http_client_for.
  unfold usingTLS in *. unfold HTTPClientFromParams, usingTLS in Hk.
  destruct (bool_decide (TrustedCertificate params = "")) eqn:Hd; cbn [negb] in *.
  - apply bool_decide_eq_true in Hd. by apply sanitize_url in Hu.
  - apply sanitize_url in Hu. split_and!; [done..|]. intros _.
    destruct (sanitizeHTTPAddress _ _) as [base|]; [|done]. cbn in Hk.
    destruct (trustedCertificateFromFileData _) as [pool|] eqn:Hp; [|done]. by apply trusted_ok in Hp as [_ ?].
Qed.

(** C39. With [api.tls.rootCertificateFile] set, every client is made from that
    file. A gRPC client for an endpoint never connects in the clear: its only
    credentials are the file's certificates. A gRPC client for a configured
    service has them too, unless the file is empty: then it connects in the
    clear. An HTTP client, for a configured service or for an endpoint, trusts
    the file's certificates, unless the file is empty, and its base URL is then
    an HTTPS one unless the address itself says otherwise: an address that
    begins with http:// keeps its scheme, and requests to it go in the clear. *)
Theorem clients_keep_tls cfg (Hpath : certificate_path cfg <> "") :
  (forall address conn, read_with cfg (GRPCClientFromEndpoint address) = Ok conn ->
     exists data, ReadFile (certificate_path cfg) = Ok data /\ AppendCertsFromPEM data = true /\
       conn_target conn = address /\ conn_credentials conn = [WithTransportCredentials data]) /\
  (forall prefix conn, read_with cfg (GRPCClientFromConfig prefix) = Ok conn ->
     exists data, ReadFile (certificate_path cfg) = Ok data /\
       conn_target conn = toAddress (GetString cfg (prefix +:+ ".hostname")) (GetInt cfg (prefix +:+ ".grpcport")) /\
       conn_credentials conn = [if bool_decide (data = "") then WithInsecure else WithTransportCredentials data]) /\
  (forall address c u, read_with cfg (HTTPClientFromEndpoint address) = Ok (c, u) ->
     exists data, ReadFile (certificate_path cfg) = Ok data /\ http_client_for address data c u) /\
  (forall prefix c u, read_with cfg (HTTPClientFromConfig prefix) = Ok (c, u) ->
     exists data, ReadFile (certificate_path cfg) = Ok data /\
       http_client_for (toAddress (GetString cfg (prefix +:+ ".hostname")) (GetInt cfg (prefix +:+ ".httpport"))) data c u).
Proof.
  split_and!.
  - intros address conn. unfold GRPCClientFromEndpoint. cbn [read_with]. rewrite !read_with_bind. cbn [read_with].
    destruct (read_with cfg read_trusted) as [x|] eqn:Ht; [|done].
    destruct (trusted_named cfg x Hpath Ht) as (data & -> & Hd). cbn [result_bind].
    destruct (trustedCertificateFromFileData data) as [pool|] eqn:Hp; [|done]. apply trusted_ok in Hp as [-> Ha].
    cbn [result_bind]. intros [? ?]%dial_ok; [|done]. eauto.
  - intros prefix conn Hc. apply (read_client cfg _ GRPCClientFromParams conn Hpath) in Hc as (data & params & Hd & Hk & Ha & Ht).
    apply params_credentials in Hk as [Htar Hcr]. exists data. rewrite Htar, Ha. split_and!; [done..|].
    revert Hcr. unfold usingTLS. rewrite Ht. destruct (bool_decide (data = "")); cbn; tauto.
  - intros address c u Hc. apply (read_client cfg _ HTTPClientFromParams (c, u) Hpath) in Hc as (data & params & Hd & Hk & Ha & Ht).
    apply http_params_client in Hk. rewrite Ha, Ht in Hk. eauto.
  - intros prefix c u Hc. apply (read_client cfg _ HTTPClientFromParams (c, u) Hpath) in Hc as (data & params & Hd & Hk & Ha & Ht).
    apply http_params_client in Hk. rewrite Ha, Ht in Hk. eauto.
Qed.

(** *** The cache *)

Lemma use_cache_ne cc u address : (match u with UseGRPC _ a | UseHTTP _ a => a end) <> address ->
  cc_cache (use_cache cc u) !! address = cc_cache cc !! address.
Proof.
  intros Hne. destruct u as [cfg a|cfg a]; cbn.
  - unfold GetGRPC. destruct (cc_cache cc !! a) as [[]|]; try done.
    all: destruct (read_with cfg (GRPCClientFromEndpoint a)); cbn; by rewrite ?lookup_insert_ne.
  - unfold GetHTTP. destruct (cc_cache cc !! a) as [[]|]; try done.
    all: destruct (read_with cfg (HTTPClientFromEndpoint a)) as [[]|]; cbn; by rewrite ?lookup_insert_ne.
Qed.

Definition same_kind (u1 u2 : cache_use) : Prop :=
  match u1, u2 with
  | UseGRPC _ a, UseGRPC _ b | UseHTTP _ a, UseHTTP _ b => True
  | UseGRPC _ a, UseHTTP _ b | UseHTTP _ a, UseGRPC _ b => a <> b
  end.

Lemma use_cache_keeps_grpc cc us cfg address n conn :
  Forall (same_kind (UseGRPC cfg address)) us ->
  cc_cache cc !! address = Some (cachedGRPCClient n conn) ->
  cc_cache (foldl use_cache cc us) !! address = Some (cachedGRPCClient n conn).
Proof.
  intros Hus. revert cc. induction Hus as [|u us Hu _ IH]; intros cc Hc; cbn; [done|]. apply IH.
  destruct u as [cfg' a|cfg' a]; [|by rewrite use_cache_ne].
  destruct (decide (a = address)) as [->|]; [|by rewrite use_cache_ne]. cbn. unfold GetGRPC. by rewrite Hc.
Qed.

Lemma use_cache_keeps_http cc us cfg address n c u :
  Forall (same_kind (UseHTTP cfg address)) us ->
  cc_cache cc !! address = Some (cachedHTTPClient n c u) ->
  cc_cache (foldl use_cache cc us) !! address = Some (cachedHTTPClient n c u).
Proof.
  intros Hus. revert cc. induction Hus as [|x us Hx _ IH]; intros cc Hc; cbn; [done|]. apply IH.
  destruct x as [cfg' a|cfg' a]; [by rewrite use_cache_ne|].
  destruct (decide (a = address)) as [->|]; [|by rewrite use_cache_ne]. cbn. unfold GetHTTP. by rewrite Hc.
Qed.

(** One client per address: after a client was obtained for an address, and
    whatever other clients are asked for in between under whatever
    configuration, asking again gives the same one without dialling, as long
    as no client of the other protocol was asked for at that address. *)
Theorem client_cache_reuses cc cfg cfg' address us :
  (Forall (same_kind (UseGRPC cfg address)) us ->
   forall cc1 n conn, GetGRPC cfg cc address = (cc1, Ok (n, conn)) ->
     let cc2 := foldl use_cache cc1 us in GetGRPC cfg' cc2 address = (cc2, Ok (n, conn))) /\
  (Forall (same_kind (UseHTTP cfg address)) us ->
   forall cc1 n c u, GetHTTP cfg cc address = (cc1, Ok (n, c, u)) ->
     let cc2 := foldl use_cache cc1 us in GetHTTP cfg' cc2 address = (cc2, Ok (n, c, u))).
Proof.
  split; intros Hus.
  - intros cc1 n conn Hg. assert (cc_cache cc1 !! address = Some (cachedGRPCClient n conn)) as Hc.
    { unfold GetGRPC in Hg. destruct (cc_cache cc !! address) as [[n' c'|n' c' u']|] eqn:Hl; [by simplify_eq| |].
      all: destruct (read_with cfg _); [|done]; injection Hg as <- <- <-; cbn; apply lookup_insert_eq. }
    cbv zeta. unfold GetGRPC. by rewrite (use_cache_keeps_grpc cc1 us cfg address n conn Hus Hc).
  - intros cc1 n c u Hg. assert (cc_cache cc1 !! address = Some (cachedHTTPClient n c u)) as Hc.
    { unfold GetHTTP in Hg. destruct (cc_cache cc !! address) as [[n' c'|n' c' u']|] eqn:Hl; [|by simplify_eq|].
      all: destruct (read_with cfg _) as [[]|]; [|done]; injection Hg as <- <- <- <-; cbn; apply lookup_insert_eq. }
    cbv zeta. unfold GetHTTP. by rewrite (use_cache_keeps_http cc1 us cfg address n c u Hus Hc).
Qed.
End Credentials.

(** A machine with one certificate file. *)
Definition demo_host : Host := {|
  os_Stat p := if bool_decide (p = "ca.pem") then None else Some (EPlain "no such file");
  ReadFile p := if bool_decide (p = "ca.pem") then Ok "PEM" else Err (EPlain "no such file");
  AppendCertsFromPEM data := bool_decide (data = "PEM");
  url_Parse := Some;
  dial_error _ := None;
|}.
Definition tls_view : View :=
  mkCfgView (fun _ => true) (fun k => if bool_decide (k = configNameClientTrustedCertificatePath) then "ca.pem" else "om")
    (fun _ => 50505) (fun _ => 50505) (fun _ => S754_zero false) (fun _ => []) (fun _ => true) (fun _ => 0).

Lemma clients_keep_tls_witness :
  exists conn c u c' u',
    read_with tls_view (@GRPCClientFromConfig demo_host "api.synchronizer") = Ok conn /\
    conn_target conn = "om:50505" /\ conn_credentials conn = [WithTransportCredentials "PEM"] /\
    read_with tls_view (@HTTPClientFromConfig demo_host "api.frontend") = Ok (c, u) /\
    u = "https://om:50505" /\ client_transport c = TLSTransport "om:50505" "PEM" /\
    read_with tls_view (@HTTPClientFromEndpoint demo_host "http://om:51505") = Ok (c', u') /\ u' = "http://om:51505".
Proof.
  destruct (@clients_keep_tls demo_host tls_view ltac:(discriminate)) as (_ & Hc & He & Hh).
  assert (exists conn, read_with tls_view (@GRPCClientFromConfig demo_host "api.synchronizer") = Ok conn) as [conn Hconn]
    by (eexists; vm_compute; reflexivity).
  assert (exists x, read_with tls_view (@HTTPClientFromConfig demo_host "api.frontend") = Ok x) as [[c u] Hcu]
    by (eexists; vm_compute; reflexivity).
  assert (exists x, read_with tls_view (@HTTPClientFromEndpoint demo_host "http://om:51505") = Ok x) as [[c' u'] Hcu']
    by (eexists; vm_compute; reflexivity).
  exists conn, c, u, c', u'. destruct (Hc _ _ Hconn) as (data & Hd & Htar & Hcr). destruct (Hh _ _ _ Hcu) as (data1 & Hd1 & Ht1 & Hu1 & _).
  destruct (He _ _ _ Hcu') as (data2 & Hd2 & _ & Hu2 & _).
  rewrite Htar, Hcr, Ht1, Hconn, Hcu, Hcu'. vm_compute in Hd, Hd1, Hd2. injection Hd as <-. injection Hd1 as <-. injection Hd2 as <-.
  vm_compute in Hu1, Hu2. injection Hu1 as <-. injection Hu2 as <-. repeat split.
Defined.

Lemma client_cache_reuses_witness :
  let cc1 := (@GetGRPC demo_host tls_view NewClientCache "mmf:50502").1 in
  let us := [UseHTTP tls_view "other:1"; UseGRPC tls_view "third:2"] in
  let cc2 := foldl (@use_cache demo_host) cc1 us in
  cc_made cc2 = 3%nat /\ (@GetGRPC demo_host tls_view cc2 "mmf:50502").1 = cc2.
Proof.
  intros cc1 us cc2. split; [vm_compute; reflexivity|].
  destruct (@client_cache_reuses demo_host NewClientCache tls_view tls_view "mmf:50502" us) as [Hg _].
  assert (exists conn, @GetGRPC demo_host tls_view NewClientCache "mmf:50502" = (cc1, Ok (O, conn))) as [conn Hconn]
    by (eexists; vm_compute; reflexivity).
  specialize (Hg ltac:(repeat constructor; discriminate) _ _ _ Hconn). cbv zeta in Hg. subst cc2. rewrite Hg. reflexivity.
Defined.
