(* ===== verification/Server.v ===== *)
(** * Serving ([internal/rpc/server.go], [insecure.go], [tls_server.go],
      [internal/telemetry/probe.go], [internal/appmain/appmain.go])

    How a component is brought up and down: its listeners, its gRPC and HTTP
    servers, its health probe, and the application that owns them and closes
    what was opened. *)
From S2P Require Export Rpc.

(** ** [ServerParams] *)

(** Functions the components register are named by numbers; a listener by the
    number of the call of [listen] that made it. *)
Record ServerParams := mkServerParams {
  ServeMux : list string;               (* the patterns registered *)
  handlersForGrpc : list nat;
  handlersForGrpcProxy : list nat;
  handlersForHealthCheck : list nat;
  grpcListener : nat;
  grpcProxyListener : nat;
  rootCaPublicCertificateFileData : string;
  publicCertificateFileData : string;
  privateKeyFileData : string;
  sp_enableRPCLogging : bool;
  sp_enableRPCPayloadLogging : bool;
  sp_enableMetrics : bool;
}.

Definition configNameServerPublicCertificateFile : string := "api.tls.certificateFile".
Definition configNameServerPrivateKeyFile : string := "api.tls.privateKey".

Definition NewServerParamsFromListeners (grpcL proxyL : nat) : ServerParams :=
  mkServerParams [] [] [] [] grpcL proxyL "" "" "" false false false.

Definition SetTLSConfiguration (root public private : string) (p : ServerParams) : ServerParams :=
  mkServerParams (ServeMux p) (handlersForGrpc p) (handlersForGrpcProxy p) (handlersForHealthCheck p)
    (grpcListener p) (grpcProxyListener p) (if bool_decide (root = "") then public else root) public private
    (sp_enableRPCLogging p) (sp_enableRPCPayloadLogging p) (sp_enableMetrics p).

Definition set_flags (rpc payload metrics : bool) (p : ServerParams) : ServerParams :=
  mkServerParams (ServeMux p) (handlersForGrpc p) (handlersForGrpcProxy p) (handlersForHealthCheck p)
    (grpcListener p) (grpcProxyListener p) (rootCaPublicCertificateFileData p) (publicCertificateFileData p)
    (privateKeyFileData p) rpc payload metrics.

Definition server_usingTLS (p : ServerParams) : bool := negb (bool_decide (publicCertificateFileData p = "")).

(** A nil function is not added. *)
Definition add_handler (o : option nat) (l : list nat) : list nat := match o with Some h => l ++ [h] | None => l end.

Definition AddHandleFunc (handlerFunc grpcProxyHandler : option nat) (p : ServerParams) : ServerParams :=
  mkServerParams (ServeMux p) (add_handler handlerFunc (handlersForGrpc p))
    (add_handler grpcProxyHandler (handlersForGrpcProxy p)) (handlersForHealthCheck p)
    (grpcListener p) (grpcProxyListener p) (rootCaPublicCertificateFileData p) (publicCertificateFileData p)
    (privateKeyFileData p) (sp_enableRPCLogging p) (sp_enableRPCPayloadLogging p) (sp_enableMetrics p).

Definition AddHealthCheckFunc (f : option nat) (p : ServerParams) : ServerParams :=
  mkServerParams (ServeMux p) (handlersForGrpc p) (handlersForGrpcProxy p) (add_handler f (handlersForHealthCheck p))
    (grpcListener p) (grpcProxyListener p) (rootCaPublicCertificateFileData p) (publicCertificateFileData p)
    (privateKeyFileData p) (sp_enableRPCLogging p) (sp_enableRPCPayloadLogging p) (sp_enableMetrics p).

(** [http.ServeMux.Handle] panics on an empty pattern and on one registered
    before. *)
Definition mux_Handle (pattern : string) (mux : list string) : result (list string) :=
  if decide (pattern = "" \/ pattern ∈ mux) then Err EPanic else Ok (mux ++ [pattern]).

(** The pattern a path is served by: one that ends in a slash names a subtree,
    the longest that matches wins. *)
Fixpoint last_char (s : string) : option Ascii.ascii :=
  match s with EmptyString => None | String c EmptyString => Some c | String _ s => last_char s end.

Definition subtree_matches (pattern path : string) : bool :=
  bool_decide (pattern = path) ||
  (bool_decide (last_char pattern = Some "/"%char) && String.prefix pattern path).

Fixpoint mux_longest (mux : list string) (path : string) (best : option string) : option string :=
  match mux with
  | [] => best
  | pattern :: mux =>
      let longer := match best with Some b => bool_decide (String.length b < String.length pattern)%nat | None => true end in
      mux_longest mux path (if subtree_matches pattern path && longer then Some pattern else best)
  end.

Definition mux_pattern (mux : list string) (path : string) : option string := mux_longest mux path None.

Definition set_mux (mux : list string) (p : ServerParams) : ServerParams :=
  mkServerParams mux (handlersForGrpc p) (handlersForGrpcProxy p) (handlersForHealthCheck p)
    (grpcListener p) (grpcProxyListener p) (rootCaPublicCertificateFileData p) (publicCertificateFileData p)
    (privateKeyFileData p) (sp_enableRPCLogging p) (sp_enableRPCPayloadLogging p) (sp_enableMetrics p).

(** What is done with listeners. *)
Inductive listener_event := Opened (l : nat) | Closed (l : nat).

Section Params.
Context `{Host} (listen : nat -> string -> option error).

Definition invalidate (p : ServerParams) : list listener_event := [Closed (grpcListener p); Closed (grpcProxyListener p)].

(** Read a file of the TLS setup; on failure the listeners are closed. *)
Definition read_file (what file : string) : result string :=
  match ReadFile file with
  | Ok data => Ok data
  | Err err => Err (EPlain ("cannot read TLS server " +:+ what +:+ " file, " +:+ file +:+ ", " +:+ err_string err))
  end.

Definition load_tls (cfg : View) (certFile privateKeyFile : string) (p : ServerParams) : result ServerParams :=
  result_bind (read_file "public certificate" certFile) (fun publicCertData =>
  result_bind (read_file "private key" privateKeyFile) (fun privateKeyData =>
  let rootCertFile := GetString cfg configNameServerRootCertificatePath in
  result_bind (if bool_decide (rootCertFile = "") then Ok publicCertData else read_file "root certificate" rootCertFile)
    (fun rootPublicCertData => Ok (SetTLSConfiguration rootPublicCertData publicCertData privateKeyData p)))).

(** [listen n] is the outcome of the [n]-th call. *)
Definition NewServerParamsFromConfig (cfg : View) (prefix : string) : list listener_event * result ServerParams :=
  match listen 0 (":" +:+ itoa (GetInt cfg (prefix +:+ ".grpcport"))) with
  | Some err => ([], Err (EWrap "can't start listener for grpc" err))
  | None =>
      match listen 1 (":" +:+ itoa (GetInt cfg (prefix +:+ ".httpport"))) with
      | Some err => ([Opened 0; Closed 0], Err (EWrap "can't start listener for http" err))
      | None =>
          let opened := [Opened 0; Opened 1] in
          let p := NewServerParamsFromListeners 0 1 in
          let certFile := GetString cfg configNameServerPublicCertificateFile in
          let privateKeyFile := GetString cfg configNameServerPrivateKeyFile in
          match
            (if negb (bool_decide (certFile = "")) && negb (bool_decide (privateKeyFile = ""))
             then load_tls cfg certFile privateKeyFile p else Ok p)
          with
          | Err err => (opened ++ invalidate p, Err err)
          | Ok p =>
              (opened, Ok (set_flags (GetBool cfg ConfigNameEnableRPCLogging)
                             (isDebugLevel (toLevel (GetString cfg "logging.level")))
                             (GetBool cfg ConfigNameEnableMetrics) p))
          end
      end
  end.
End Params.

(** ** The servers *)

Inductive server_interceptor := Recovery | Validator | ServerTracing | ServerPayloadLogging | ServerRequestLogging | LogErrors.

Inductive ServerOption :=
| StatsHandler
| StreamInterceptor (chain : list server_interceptor)
| UnaryInterceptor (chain : list server_interceptor)
| KeepaliveEnforcementPolicy (minTime : Z) (permitWithoutStream : bool)
| Creds (public private : string).

Definition newGRPCServerOptions (params : ServerParams) : list ServerOption :=
  let chain := [Recovery; Validator; ServerTracing] ++
    (if sp_enableRPCLogging params
     then if sp_enableRPCPayloadLogging params then [ServerPayloadLogging] else [ServerRequestLogging] else []) ++
    [LogErrors] in
  (if sp_enableMetrics params then [StatsHandler] else []) ++
  [StreamInterceptor chain; UnaryInterceptor chain; KeepaliveEnforcementPolicy (10 * time_Second) true].

(** How the HTTP mux is wrapped. *)
Inductive http_handler := MuxHandler (patterns : list string) | OcHttpHandler (h : http_handler)
| LoggingHandler (h : http_handler) (logPayloads : bool).

Definition instrumentHTTPHandler (handler : http_handler) (params : ServerParams) : http_handler :=
  let handler := if sp_enableMetrics params then OcHttpHandler handler else handler in
  if sp_enableRPCLogging params then LoggingHandler handler (sp_enableRPCPayloadLogging params) else handler.

(** A started server: what gRPC serves, how the proxy dials it, and what
    HTTP serves ([None]: not serving). *)
Record server := mkServer {
  sv_tls : bool;
  sv_grpc : option (list ServerOption * list nat);
  sv_proxied : list nat;
  sv_proxy_options : list DialOption;
  sv_http : option http_handler;
}.

Definition HealthCheckEndpoint : string := "/healthz".

Section Start.
Context `{Host} (X509KeyPair : string -> string -> option error) (SplitHostPort : nat -> option error)
  (proxy_error : nat -> option error).

Definition certificateFromFileData (public private : string) : result unit :=
  match X509KeyPair public private with Some err => Err err | None => Ok tt end.

(** Bind the proxy handlers in order, stopping at the first failure. *)
Fixpoint bind_proxies (bound hs : list nat) : list nat * option error :=
  match hs with
  | [] => (bound, None)
  | h :: hs =>
      match proxy_error h with
      | Some err => (bound, Some err)
      | None => bind_proxies (bound ++ [h]) hs
      end
  end.

(** The end of both [start] functions, after gRPC is served. *)
Definition start_http (tls : bool) (grpcOpts : list ServerOption) (dialOpts : list DialOption) (params : ServerParams) :
    server * result unit :=
  let '(bound, err) := bind_proxies [] (handlersForGrpcProxy params) in
  let s := mkServer tls (Some (grpcOpts, handlersForGrpc params)) bound dialOpts None in
  match err with
  | Some err => (s, Err err)
  | None =>
      match result_bind (mux_Handle HealthCheckEndpoint (ServeMux params)) (mux_Handle "/") with
      | Err err => (s, Err err)
      | Ok mux =>
          (mkServer tls (sv_grpc s) bound dialOpts (Some (instrumentHTTPHandler (MuxHandler mux) params)), Ok tt)
      end
  end.

Definition params_dial_options (params : ServerParams) : list DialOption :=
  newGRPCDialOptions (sp_enableMetrics params) (sp_enableRPCLogging params) (sp_enableRPCPayloadLogging params).

Definition insecure_start (params : ServerParams) : server * result unit :=
  start_http false (newGRPCServerOptions params) (params_dial_options params ++ [WithInsecure]) params.

Definition not_started (tls : bool) : server := mkServer tls None [] [] None.

Definition tls_start (params : ServerParams) : server * result unit :=
  let fail err := (not_started true, Err err) in
  match SplitHostPort (grpcListener params) with
  | Some err => fail err
  | None =>
      match trustedCertificateFromFileData (rootCaPublicCertificateFileData params) with
      | Err err => fail err
      | Ok _ =>
          match trustedCertificateFromFileData (publicCertificateFileData params) with
          | Err err => fail err
          | Ok certPoolForGrpcEndpoint =>
              match certificateFromFileData (publicCertificateFileData params) (privateKeyFileData params) with
              | Err err => fail err
              | Ok _ =>
                  start_http true
                    (newGRPCServerOptions params ++ [Creds (publicCertificateFileData params) (privateKeyFileData params)])
                    (params_dial_options params ++ [WithTransportCredentials certPoolForGrpcEndpoint]) params
              end
          end
      end
  end.

Definition Start (p : ServerParams) : server * result unit :=
  if server_usingTLS p then tls_start p else insecure_start p.
End Start.

(** [Shutdown] of the HTTP server, whose error is returned, then
    [GracefulStop] of the gRPC server. *)
Definition server_stop (shutdown_err : option error) (s : server) : server * option error :=
  (mkServer (sv_tls s) None (sv_proxied s) (sv_proxy_options s) None, shutdown_err).

(** ** No listener is lost *)
Section ServerProps.
Context `{Host}.

Definition opened (log : list listener_event) : list nat := omap (fun e => match e with Opened l => Some l | _ => None end) log.
Definition closed (log : list listener_event) : list nat := omap (fun e => match e with Closed l => Some l | _ => None end) log.

(** Both files of the TLS setup are named. *)
Definition tls_configured (cfg : View) : bool :=
  negb (bool_decide (GetString cfg configNameServerPublicCertificateFile = "")) &&
  negb (bool_decide (GetString cfg configNameServerPrivateKeyFile = "")).

Lemma load_tls_ok cfg certFile keyFile p p' : load_tls cfg certFile keyFile p = Ok p' ->
  exists root public private, ReadFile certFile = Ok public /\ ReadFile keyFile = Ok private /\
    p' = SetTLSConfiguration root public private p /\
    (GetString cfg configNameServerRootCertificatePath = "" -> root = public) /\
    (GetString cfg configNameServerRootCertificatePath <> "" ->
       ReadFile (GetString cfg configNameServerRootCertificatePath) = Ok root).
Proof.
  unfold load_tls, read_file. destruct (ReadFile certFile) as [public|]; [|done]. cbn.
  destruct (ReadFile keyFile) as [private|]; [|done]. cbn. case_bool_decide as Hr; cbn.
  - intros [= <-]. eexists public, public, private. by split_and!.
  - destruct (ReadFile (GetString cfg _)) as [root|] eqn:Hd; [|done]. cbn. intros [= <-].
    exists root, public, private. by split_and!.
Qed.

(** A server's parameters own their listeners: when they cannot be made,
    every listener opened was closed again; when they are made, exactly the
    two listeners they hold are open, and they serve TLS when both the
    certificate and the key file are configured and the certificate file is
    not empty, with the root certificate defaulting to the server's own. *)
Theorem server_params_own_listeners listen cfg prefix :
  let '(log, r) := NewServerParamsFromConfig listen cfg prefix in
  match r with
  | Err _ => closed log = opened log
  | Ok p =>
      opened log = [grpcListener p; grpcProxyListener p] /\ closed log = [] /\
      grpcListener p <> grpcProxyListener p /\
      if tls_configured cfg then
        exists public private root,
          ReadFile (GetString cfg configNameServerPublicCertificateFile) = Ok public /\
          ReadFile (GetString cfg configNameServerPrivateKeyFile) = Ok private /\
          server_usingTLS p = negb (bool_decide (public = "")) /\
          (publicCertificateFileData p, privateKeyFileData p) = (public, private) /\
          rootCaPublicCertificateFileData p = (if bool_decide (root = "") then public else root) /\
          (GetString cfg configNameServerRootCertificatePath = "" -> root = public) /\
          (GetString cfg configNameServerRootCertificatePath <> "" ->
             ReadFile (GetString cfg configNameServerRootCertificatePath) = Ok root)
      else server_usingTLS p = false
  end.
Proof.
  unfold NewServerParamsFromConfig, tls_configured. destruct (listen 0%nat _); [done|]. destruct (listen 1%nat _); [done|].
  destruct (negb _ && negb _) eqn:Htls; cbv zeta; [|by split_and!].
  destruct (load_tls cfg _ _ _) as [p|err] eqn:Hl; [|done].
  apply load_tls_ok in Hl as (root & public & private & Hpub & Hpri & -> & Hr1 & Hr2).
  split_and!; [done..|]. exists public, private, root. by split_and!.
Qed.

(** Starting serves nothing over HTTP unless it succeeds, and gRPC and HTTP
    agree on TLS with the parameters. *)
Lemma start_outcome X509KeyPair SplitHostPort proxy_error p :
  let '(s, r) := Start X509KeyPair SplitHostPort proxy_error p in
  sv_tls s = server_usingTLS p /\
  (is_ok r = true <-> is_Some (sv_http s)) /\
  (is_ok r = true -> sv_proxied s = handlersForGrpcProxy p /\ exists opts, sv_grpc s = Some (opts, handlersForGrpc p)).
Proof.
  assert (forall hs bound, (bind_proxies proxy_error bound hs).2 = None -> (bind_proxies proxy_error bound hs).1 = bound ++ hs) as Hb.
  { induction hs as [|h hs IH]; intros bound; cbn; [by rewrite app_nil_r|]. destruct (proxy_error h); [done|].
    intros Hn. by rewrite IH, <- app_assoc. }
  assert (forall tls opts dials, let '(s, r) := start_http proxy_error tls opts dials p in
    sv_tls s = tls /\ (is_ok r = true <-> is_Some (sv_http s)) /\
    (is_ok r = true -> sv_proxied s = handlersForGrpcProxy p /\ exists o, sv_grpc s = Some (o, handlersForGrpc p))) as Hs.
  { intros tls opts dials. unfold start_http. pose proof (Hb (handlersForGrpcProxy p) []) as Hbp.
    destruct (bind_proxies proxy_error [] _) as [bound [err|]]; cbn in Hbp.
    - split_and!; [done|split; [done|by intros [? ?]]|done].
    - destruct (result_bind _ _) as [mux|err]; cbn.
      + rewrite Hbp by done. split_and!; [done|split; eauto|eauto].
      + split_and!; [done|split; [done|by intros [? ?]]|done]. }
  unfold Start. destruct (server_usingTLS p) eqn:Htls; [|exact (Hs _ _ _)]. unfold tls_start.
  destruct (SplitHostPort _); [by split_and!; [|split; [|intros [? ?]]|]|].
  destruct (trustedCertificateFromFileData (rootCaPublicCertificateFileData p)); [|by split_and!; [|split; [|intros [? ?]]|]].
  destruct (trustedCertificateFromFileData (publicCertificateFileData p)); [|by split_and!; [|split; [|intros [? ?]]|]].
  destruct (certificateFromFileData _ _ _); [|by split_and!; [|split; [|intros [? ?]]|]]. exact (Hs _ _ _).
Qed.
End ServerProps.
