(* ===== verification/Logging.v ===== *)
(** * Logging around calls ([rpc/server.go], [rpc/clients.go])

    The wrappers that log requests and errors. A wrapper returns what it logs
    with the result of what it wraps; dumping a request or a response is the
    library's. *)
From S2P Require Export Server.

Inductive log_line := LogDebug (text : string) | LogDebugError (text : string) (err : error) | LogError (err : error).

(** A handler's answer and its error, which Go returns together. *)
Definition serverUnaryInterceptor {A} (handler : A * option error) : list log_line * (A * option error) :=
  let '(h, err) := handler in
  (match err with Some err => [LogError err] | None => [] end, (h, err)).

Definition serverStreamInterceptor (handler : option error) : list log_line * option error :=
  (match handler with Some err => [LogError err] | None => [] end, handler).

Definition log_dump (failed : string) (dump : result string) : log_line :=
  match dump with
  | Ok dumpReqLog => LogDebug dumpReqLog
  | Err dumpReqErr => LogDebugError failed dumpReqErr
  end.

Section Wrapped.
Context {request response : Type} (logPayloads : bool).
Variable (DumpRequest : request -> bool -> result string) (DumpResponse : response -> bool -> result string).

(** [loggingHTTPHandler]: [handler] is what the wrapped handler does. *)
Definition loggingHTTPHandler_ServeHTTP {A} (handler : request -> A) (req : request) : list log_line * A :=
  ([log_dump "cannot dump request" (DumpRequest req logPayloads)], handler req).

(** [loggingHTTPClient]. *)
Definition RoundTrip (transport : request -> result response) (req : request) : list log_line * result response :=
  let sent := log_dump "cannot dump request" (DumpRequest req logPayloads) in
  let resp := transport req in
  ([sent;
    match resp with
    | Ok r => log_dump "request was successful but cannot dump response" (DumpResponse r logPayloads)
    | Err err => LogDebugError "request failed" err
    end], resp).

(** A server whose mux is wrapped as its parameters say, serving a request:
    the wrappers from the outside in. [Handler] of ochttp measures and calls
    what it wraps. *)
Fixpoint serve_wrapped {A} (h : http_handler) (mux : list string -> request -> A) (req : request) : list log_line * A :=
  match h with
  | MuxHandler patterns => ([], mux patterns req)
  | OcHttpHandler h => serve_wrapped h mux req
  | LoggingHandler h payloads =>
      let x := serve_wrapped h mux req in
      (log_dump "cannot dump request" (DumpRequest req payloads) :: x.1, x.2)
  end.

(** Whatever is switched on, the mux answers the request; the request is
    logged, once, exactly when RPC logging is on, with its payload exactly when
    that is on too. *)
Lemma instrumented_serves {A} patterns (mux : list string -> request -> A) params req :
  serve_wrapped (instrumentHTTPHandler (MuxHandler patterns) params) mux req =
  (if sp_enableRPCLogging params
   then [log_dump "cannot dump request" (DumpRequest req (sp_enableRPCPayloadLogging params))] else [],
   mux patterns req).
Proof. unfold instrumentHTTPHandler. by destruct (sp_enableRPCLogging params), (sp_enableMetrics params). Qed.

(** The wrapper of a client changes neither the answer nor the error; of a
    failed call the error is what is logged last. *)
Lemma round_trip_transparent transport req :
  (RoundTrip transport req).2 = transport req /\
  (forall err, transport req = Err err -> last (RoundTrip transport req).1 = Some (LogDebugError "request failed" err)).
Proof. split; [done|]. unfold RoundTrip. by intros err ->. Qed.
End Wrapped.
