(* ===== verification/App.v ===== *)
(** * Applications ([internal/appmain/appmain.go], [internal/telemetry/probe.go])

    The application that owns a server and what was opened for it, and the
    health probe it serves. *)
From S2P Require Export Server.

(** ** The health probe *)

Definition healthStateFirstProbe : Z := 0.
Definition healthStateHealthy : Z := 1.
Definition healthStateUnhealthy : Z := 2.

Inductive health_log := ContinuesToFail | HealthFailed | HealthyAgain | ReportingHealthy.

Record health_response := mkHealthResponse { hr_status : Z; hr_body : string }.

Definition newline : string := String (Ascii.ascii_of_nat 10) "".

(** The probes' answers are functions of the request; [query] is whether the
    URL has a query. The state is swapped atomically, after the probes. *)
Fixpoint first_failure (probes : list (option error)) : option error :=
  match probes with
  | [] => None
  | Some err :: _ => Some err
  | None :: probes => first_failure probes
  end.

Definition statefulProbe_ServeHTTP (query : bool) (probes : list (option error)) (healthState : Z) :
    Z * list health_log * health_response :=
  if query then
    match first_failure probes with
    | Some err =>
        (healthStateUnhealthy,
         [if healthState =? healthStateUnhealthy then ContinuesToFail else HealthFailed],
         (* http.Error ends the body with a newline *)
         mkHealthResponse 503 (err_string err +:+ newline))
    | None =>
        (healthStateHealthy,
         (if healthState =? healthStateUnhealthy then [HealthyAgain]
          else if healthState =? healthStateFirstProbe then [ReportingHealthy] else []),
         mkHealthResponse 200 "ok")
    end
  else (healthState, [], mkHealthResponse 200 "ok").

(** ** Closers and bindings *)

(** A function to call when the application stops; the last is the server's. *)
Inductive closer := CloseFunc (n : nat) | CloseErrFunc (n : nat) | Unregister (views : nat) | StopServer.

(** What [Bindings] offers. *)
Inductive bind_op :=
| BAddHealthCheckFunc (f : option nat)
| BRegisterViews (views : nat)
| BAddHandleFunc (handlerFunc grpcProxyHandler : option nat)
| BTelemetryHandle (pattern : string)
| BAddCloser (n : nat)
| BAddCloserErr (n : nat).

Record Bindings := mkBindings { b_sp : ServerParams; b_closers : list closer; firstErr : option error }.

(** A [Bind] function: the calls it makes on its bindings and the error it
    returns. *)
Record Bind := mkBind { bind_calls : list bind_op; bind_error : option error }.

Section Application.
(** [view.Register] on a group of views, and how each closer ends. *)
Context (register_views : nat -> option error) (close : closer -> option error).

Definition AddCloser (c : closer) (b : Bindings) : Bindings :=
  mkBindings (b_sp b) (b_closers b ++ [c]) (firstErr b).

Definition RegisterViews (views : nat) (b : Bindings) : Bindings :=
  match register_views views with
  | Some err => mkBindings (b_sp b) (b_closers b) (match firstErr b with None => Some err | e => e end)
  | None => AddCloser (Unregister views) b
  end.

Definition bind_step (b : Bindings) (op : bind_op) : result Bindings :=
  match op with
  | BAddHealthCheckFunc f => Ok (mkBindings (AddHealthCheckFunc f (b_sp b)) (b_closers b) (firstErr b))
  | BRegisterViews views => Ok (RegisterViews views b)
  | BAddHandleFunc h p => Ok (mkBindings (AddHandleFunc h p (b_sp b)) (b_closers b) (firstErr b))
  | BTelemetryHandle pattern =>
      result_bind (mux_Handle pattern (ServeMux (b_sp b))) (fun mux =>
      Ok (mkBindings (set_mux mux (b_sp b)) (b_closers b) (firstErr b)))
  | BAddCloser n => Ok (AddCloser (CloseFunc n) b)
  | BAddCloserErr n => Ok (AddCloser (CloseErrFunc n) b)
  end.

(** The calls in order; a panic ends the process. *)
Fixpoint bind_run (b : Bindings) (ops : list bind_op) : result Bindings :=
  match ops with
  | [] => Ok b
  | op :: ops => result_bind (bind_step b op) (fun b => bind_run b ops)
  end.

(** [telemetry.Setup] and [bindAll]: the functions in order, up to the first
    that fails. *)
Fixpoint run_binds (b : Bindings) (fs : list Bind) : result (Bindings * option error) :=
  match fs with
  | [] => Ok (b, None)
  | f :: fs =>
      result_bind (bind_run b (bind_calls f)) (fun b =>
      match bind_error f with
      | Some err => Ok (b, Some err)
      | None => run_binds b fs
      end)
  end.

(** [App.Stop]: the closers run, from the last added to the first, and the
    error returned. *)
Fixpoint stop_from (i : nat) (closers : list closer) (ran : list closer) (firstErr : option error) :
    list closer * option error :=
  match i with
  | O => (ran, firstErr)
  | S i =>
      match closers !! i with
      | None => (ran, Some EPanic)
      | Some c => stop_from i closers (ran ++ [c]) (match firstErr with None => close c | e => e end)
      end
  end.
Definition Stop (closers : list closer) : list closer * option error :=
  stop_from (length closers) closers [] None.

(** How starting an application ends: the process exits ([Fatalf], a panic),
    an error after the closers run, or a running application. *)
Inductive app_outcome :=
| Fatal
| Failed (ran : list closer) (err : error)
| RunningApp (closers : list closer) (s : server).

Context `{Host} (listen : nat -> string -> option error)
  (X509KeyPair : string -> string -> option error) (SplitHostPort : nat -> option error) (proxy_error : nat -> option error).

(** [getCfg] and the [Bind] functions of telemetry and of the application. *)
Definition NewApplication (serviceName : string) (telemetry : list Bind) (bindService : Bind) (getCfg : result View) :
    app_outcome :=
  match getCfg with
  | Err _ => Fatal
  | Ok cfg =>
      match (NewServerParamsFromConfig listen cfg ("api." +:+ serviceName)).2 with
      | Err _ => Fatal
      | Ok sp =>
          match run_binds (mkBindings sp [] None) telemetry with
          | Err _ => Fatal
          | Ok (b, Some err) => Failed (Stop (b_closers b)).1 err
          | Ok (b, None) =>
              match run_binds b [bindService] with
              | Err _ => Fatal
              | Ok (b, Some err) => Failed (Stop (b_closers b)).1 err
              | Ok (b, None) =>
                  match firstErr b with
                  | Some err => Failed (Stop (b_closers b)).1 err
                  | None =>
                      let '(s, started) := Start X509KeyPair SplitHostPort proxy_error (b_sp b) in
                      match started with
                      | Err EPanic => Fatal
                      | Err err => Failed (Stop (b_closers b)).1 err
                      | Ok _ => RunningApp (b_closers b ++ [StopServer]) s
                      end
                  end
              end
          end
      end
  end.

(** [RunApplication]: the signal arrives, the application stops; the error is
    the one of [logger.Fatal], after which the process exits with a failure. *)
Definition RunApplication (serviceName : string) (bindService : Bind) (telemetry : list Bind) (readConfig : result View) :
    list closer * option error :=
  match NewApplication serviceName telemetry bindService readConfig with
  | Fatal => ([], Some EPanic)
  | Failed ran err => (ran, Some err)
  | RunningApp closers _ => Stop closers
  end.
End Application.

(** ** What the application closes *)
Section AppProps.
Context (register_views : nat -> option error) (close : closer -> option error).

Lemma first_failure_app l1 l2 :
  first_failure (l1 ++ l2) = match first_failure l1 with Some e => Some e | None => first_failure l2 end.
Proof. by induction l1 as [|[]]. Qed.

Lemma stop_from_spec i closers ran e : (i <= length closers)%nat ->
  stop_from close i closers ran e =
    (ran ++ reverse (take i closers),
     match e with Some e => Some e | None => first_failure (close <$> reverse (take i closers)) end).
Proof.
  revert ran e. induction i as [|i IH]; intros ran e Hi; cbn [stop_from].
  { rewrite take_0, app_nil_r. by destruct e. }
  destruct (lookup_lt_is_Some_2 closers i) as [c Hc]; [lia|]. rewrite Hc, IH by lia.
  rewrite (take_S_r _ _ _ Hc), reverse_snoc. cbn. rewrite <- app_assoc. f_equal. by destruct e, (close c).
Qed.

Lemma Stop_spec closers : Stop close closers = (reverse closers, first_failure (close <$> reverse closers)).
Proof. unfold Stop. rewrite stop_from_spec by done. by rewrite take_ge. Qed.

(** The functions that were called: up to the first that failed. *)
Fixpoint reached (fs : list Bind) : list Bind :=
  match fs with
  | [] => []
  | f :: fs => f :: match bind_error f with Some _ => [] | None => reached fs end
  end.
Definition calls (fs : list Bind) : list bind_op := concat (bind_calls <$> reached fs).

Definition closer_of (op : bind_op) : option closer :=
  match op with
  | BRegisterViews v => match register_views v with None => Some (Unregister v) | Some _ => None end
  | BAddCloser n => Some (CloseFunc n)
  | BAddCloserErr n => Some (CloseErrFunc n)
  | _ => None
  end.
Definition registration (op : bind_op) : option error :=
  match op with BRegisterViews v => register_views v | _ => None end.

Definition added (fs : list Bind) : list closer := omap closer_of (calls fs).
Definition register_error (fs : list Bind) : option error := first_failure (registration <$> calls fs).
Definition binding_error (fs : list Bind) : option error := first_failure (bind_error <$> reached fs).

Lemma bind_run_spec ops b b' : bind_run register_views b ops = Ok b' ->
  b_closers b' = b_closers b ++ omap closer_of ops /\
  firstErr b' = match firstErr b with Some e => Some e | None => first_failure (registration <$> ops) end.
Proof.
  revert b. induction ops as [|op ops IH]; intros b; cbn; [intros [= <-]; rewrite app_nil_r; split; [done|by destruct (firstErr b)]|].
  destruct (bind_step register_views b op) as [b1|] eqn:Hop; [|done]. cbn. intros [-> ->]%IH.
  destruct op; cbn in Hop; simplify_eq/=; try by split.
  - unfold RegisterViews. destruct (register_views views); cbn; [by destruct (firstErr b)|].
    by rewrite <- app_assoc.
  - destruct (mux_Handle _ _); [|done]. cbn in Hop. by simplify_eq/=.
  - by rewrite <- app_assoc.
  - by rewrite <- app_assoc.
Qed.

Lemma run_binds_spec fs b b' e : run_binds register_views b fs = Ok (b', e) ->
  b_closers b' = b_closers b ++ added fs /\
  firstErr b' = match firstErr b with Some e => Some e | None => register_error fs end /\
  e = binding_error fs /\ (e = None -> reached fs = fs).
Proof.
  revert b. induction fs as [|f fs IH]; intros b; cbn.
  { intros [= <- <-]. rewrite app_nil_r. split_and!; try done. by destruct (firstErr b). }
  destruct (bind_run _ b (bind_calls f)) as [b1|] eqn:Hf; [|done]. apply bind_run_spec in Hf as [Hc He]. cbn.
  unfold added, register_error, binding_error, calls. cbn. destruct (bind_error f) as [err|] eqn:Hb; cbn.
  - intros [= <- <-]. rewrite Hc, He, app_nil_r. by split_and!.
  - intros (Hc' & He' & -> & Hr)%IH. rewrite Hc', He', Hc, He, omap_app, fmap_app, first_failure_app, app_assoc.
    split_and!; [done| |done|]; [by destruct (firstErr b), (first_failure (registration <$> bind_calls f))|]. intros Hn. by rewrite Hr.
Qed.

Lemma reached_app fs f : reached fs = fs -> binding_error fs = None -> reached (fs ++ [f]) = fs ++ [f].
Proof.
  induction fs as [|g fs IH]; cbn; [by destruct (bind_error f)|]. unfold binding_error in *. cbn.
  destruct (bind_error g); cbn; [done|]. intros [= Hr] He. by rewrite IH.
Qed.

Lemma reached_stop fs f : binding_error fs <> None -> reached (fs ++ [f]) = reached fs.
Proof.
  induction fs as [|g fs IH]; cbn; [done|]. unfold binding_error in *. cbn.
  destruct (bind_error g); cbn; [done|]. intros He. by rewrite IH.
Qed.

Context `{Host}.

(** C40. What an application opens, it closes. When it fails to start, everything
    added to it so far has been closed, the last added first, and the error is
    the one that stopped it: a binding's, else the first failed registration
    of views, else the server's. When it runs, it holds everything its
    bindings added and then the server, and stopping it stops the server
    first and runs every closer once in the reverse of the order they were
    added, whatever errors occur; the first of those is returned. *)
Theorem application_closes listen X509KeyPair SplitHostPort proxy_error serviceName telemetry bindService getCfg :
  let fs := telemetry ++ [bindService] in
  match NewApplication register_views close listen X509KeyPair SplitHostPort proxy_error
          serviceName telemetry bindService getCfg with
  | Fatal => True
  | Failed ran err =>
      ran = reverse (added fs) /\
      (binding_error fs = Some err \/
       (binding_error fs = None /\ register_error fs = Some err) \/
       (binding_error fs = None /\ register_error fs = None /\
        exists p s, Start X509KeyPair SplitHostPort proxy_error p = (s, Err err)))
  | RunningApp closers s =>
      binding_error fs = None /\ register_error fs = None /\ is_Some (sv_http s) /\
      closers = added fs ++ [StopServer] /\
      Stop close closers =
        (StopServer :: reverse (added fs), first_failure (close <$> StopServer :: reverse (added fs)))
  end.
Proof.
  intros fs. unfold NewApplication. destruct getCfg as [cfg|]; [|done].
  destruct (NewServerParamsFromConfig _ _ _) as [log [sp|]]; [|done]. cbn [snd].
  destruct (run_binds _ (mkBindings sp [] None) telemetry) as [[b1 e1]|] eqn:H1; [|done].
  apply run_binds_spec in H1 as (Hc1 & He1 & -> & Hr1). cbn in Hc1, He1.
  destruct (binding_error telemetry) as [err|] eqn:Hb1.
  { rewrite Stop_spec. cbn. assert (reached fs = reached telemetry) as Hr by (apply reached_stop; congruence).
    unfold added, binding_error, calls in *. rewrite Hr, Hc1. auto. }
  destruct (run_binds _ b1 [bindService]) as [[b2 e2]|] eqn:H2; [|done].
  apply run_binds_spec in H2 as (Hc2 & He2 & -> & Hr2).
  assert (reached fs = fs) as Hr by (apply reached_app; auto).
  assert (added fs = b_closers b2 /\ register_error fs = firstErr b2 /\ binding_error fs = binding_error [bindService])
    as (-> & -> & ->).
  { rewrite Hc2, Hc1, He2, He1. unfold added, register_error, binding_error, calls in *. rewrite Hr. unfold fs.
    rewrite !fmap_app, concat_app, omap_app, fmap_app, !first_failure_app. rewrite Hr1 by done. rewrite Hr1 in Hb1 by done.
    assert (reached [bindService] = [bindService]) as -> by (cbn; by destruct (bind_error bindService)). by rewrite Hb1. }
  destruct (binding_error [bindService]) as [err|]; [rewrite Stop_spec; auto|].
  destruct (firstErr b2) as [err|]; [rewrite Stop_spec; cbn; eauto|].
  pose proof (start_outcome X509KeyPair SplitHostPort proxy_error (b_sp b2)) as Hs.
  destruct (Start _ _ _ (b_sp b2)) as [s [[]|err]] eqn:Hst.
  - rewrite Stop_spec, reverse_snoc. split_and!; try done. by apply Hs.
  - destruct err; try done; rewrite Stop_spec; cbn; split; eauto 10.
Qed.
End AppProps.
