(* ===== verification/Telemetry.v ===== *)
(** * Telemetry ([internal/telemetry])

    What the set-up of telemetry registers with an application, as [Bind]
    functions of [App]: exporters, their closers and the debugging pages. The
    exporters themselves are made by other packages; whether making one fails
    is an argument. *)
From S2P Require Export App Config.

(** ** Binding pages and closers *)
Section Pages.
Context (register_views : nat -> option error).

Definition pattern_of (op : bind_op) : option string := match op with BTelemetryHandle p => Some p | _ => None end.
Definition page_or_closer (op : bind_op) : Prop :=
  match op with BTelemetryHandle _ | BAddCloser _ | BAddCloserErr _ => True | _ => False end.
Definition closers_of (ops : list bind_op) : list closer :=
  omap (fun op => match op with BAddCloser n => Some (CloseFunc n) | BAddCloserErr n => Some (CloseErrFunc n) | _ => None end) ops.

Lemma bind_run_pages ops b : Forall page_or_closer ops -> NoDup (ServeMux (b_sp b)) -> "" ∉ ServeMux (b_sp b) ->
  let mux := ServeMux (b_sp b) ++ omap pattern_of ops in
  bind_run register_views b ops =
    if decide (("" ∉ mux) /\ NoDup mux)
    then Ok (mkBindings (set_mux mux (b_sp b)) (b_closers b ++ closers_of ops) (firstErr b)) else Err EPanic.
Proof.
  intros Hops. revert b. induction Hops as [|op ops Hop Hops IH]; intros b Hn He; cbn.
  - rewrite !app_nil_r, decide_True by done. destruct b as [[] ? ?]. done.
  - destruct op as [| | |p|n|n]; cbn in Hop; try done; cbn [bind_step result_bind].
    + unfold mux_Handle. case_decide as Hp; cbn [result_bind].
      * rewrite decide_False; [done|]. intros [He' Hn']. destruct Hp as [->|Hp]; [apply He', elem_of_app; right; by left|].
        apply NoDup_app in Hn' as (_ & Hd & _). apply (Hd p Hp). by left.
      * rewrite IH; cbn; [by rewrite <- app_assoc| |].
        -- apply NoDup_app. split; [done|]. split; [|apply NoDup_singleton]. set_solver.
        -- set_solver.
    + rewrite IH by done. cbn. by rewrite <- app_assoc.
    + rewrite IH by done. cbn. by rewrite <- app_assoc.
Qed.

Lemma run_binds_ok fs b : Forall (fun f => bind_error f = None) fs ->
  run_binds register_views b fs = result_bind (bind_run register_views b (concat (bind_calls <$> fs))) (fun b => Ok (b, None)).
Proof.
  intros Hfs. revert b. induction Hfs as [|f fs Hf Hfs IH]; intros b; [done|]. cbn. rewrite Hf.
  assert (forall ops ops' b, bind_run register_views b (ops ++ ops') =
    result_bind (bind_run register_views b ops) (fun b => bind_run register_views b ops')) as Happ.
  { clear. induction ops as [|op ops IH]; intros ops' b; cbn; [done|]. destruct (bind_step _ b op); [apply IH|done]. }
  rewrite Happ. destruct (bind_run _ b (bind_calls f)); cbn; [apply IH|done].
Qed.
End Pages.

(** ** The exporters and pages *)
Section Setup.
Context (cfg : View) (ParseDuration : string -> result Z)
  (jaeger stackdriver ocagent process_collector go_collector prometheus : option error).

Definition no_bind : Bind := mkBind [] None.
Definition failed_bind (msg : string) (err : error) : Bind := mkBind [] (Some (EWrap msg err)).

(** Sampling and reporting are set for the process; only the period can be
    wrong. *)
Definition configureOpenCensus : Bind :=
  match ParseDuration (GetString cfg "telemetry.reportingPeriod") with
  | Err err => failed_bind "Unable to parse telemetry.reportingPeriod" err
  | Ok _ => no_bind
  end.

(** The closers, by exporter. *)
Definition jaeger_closer : nat := 0.
Definition prometheus_closer : nat := 1.
Definition stackdriver_closer : nat := 2.
Definition ocagent_closer : nat := 3.

Definition bindJaeger : Bind :=
  if negb (GetBool cfg "telemetry.jaeger.enable") then no_bind
  else
    match jaeger with
    | Some err => failed_bind "Failed to create the Jaeger exporter" err
    | None => mkBind [BAddCloser jaeger_closer] None
    end.

Definition bindPrometheus : Bind :=
  if negb (GetBool cfg "telemetry.prometheus.enable") then no_bind
  else
    match process_collector, go_collector, prometheus with
    | Some err, _, _ | None, Some err, _ => failed_bind "Failed to register prometheus collector" err
    | None, None, Some err => failed_bind "Failed to initialize OpenCensus exporter to Prometheus" err
    | None, None, None => mkBind [BAddCloser prometheus_closer; BTelemetryHandle (GetString cfg "telemetry.prometheus.endpoint")] None
    end.

Definition bindStackDriverMetrics : Bind :=
  if negb (GetBool cfg "telemetry.stackdriverMetrics.enable") then no_bind
  else
    match stackdriver with
    | Some err => failed_bind "Failed to initialize OpenCensus exporter to Stack Driver" err
    | None => mkBind [BAddCloser stackdriver_closer] None
    end.

Definition bindOpenCensusAgent : Bind :=
  if negb (GetBool cfg "telemetry.opencensusAgent.enable") then no_bind
  else
    match ocagent with
    | Some err => failed_bind "Failed to create a new ocagent exporter" err
    | None => mkBind [BAddCloserErr ocagent_closer] None
    end.

Definition configNameTelemetryZpagesEnabled : string := "telemetry.zpages.enable".
Definition debugEndpoint : string := "/debug".
Definition helpEndpoint : string := "/help".
Definition helpSecondaryEndpoint : string := "/sos".
Definition configEndpoint : string := "/configz".

(** The patterns of the debugging mux, behind [debugEndpoint]. *)
Definition debug_patterns : list string :=
  (fun p => debugEndpoint +:+ p) <$> ["/rpcz"; "/tracez"; "/pprof/"; "/pprof/cmdline"; "/pprof/profile"; "/pprof/symbol"; "/pprof/trace"].

Definition bindZpages : Bind :=
  if negb (GetBool cfg configNameTelemetryZpagesEnabled) then no_bind else mkBind [BTelemetryHandle debugEndpoint] None.
Definition bindHelp : Bind :=
  if negb (GetBool cfg configNameTelemetryZpagesEnabled) then no_bind
  else mkBind [BTelemetryHandle helpEndpoint; BTelemetryHandle helpSecondaryEndpoint] None.
Definition bindConfigz : Bind :=
  if negb (GetBool cfg configNameTelemetryZpagesEnabled) then no_bind else mkBind [BTelemetryHandle configEndpoint] None.

Definition Setup : list Bind :=
  [configureOpenCensus; bindJaeger; bindPrometheus; bindStackDriverMetrics; bindOpenCensusAgent; bindZpages; bindHelp; bindConfigz].

(** *** What it comes to *)
Definition enabled {A} (name : string) (x : list A) : list A := if GetBool cfg name then x else [].

Definition telemetry_patterns : list string :=
  enabled "telemetry.prometheus.enable" [GetString cfg "telemetry.prometheus.endpoint"] ++
  enabled configNameTelemetryZpagesEnabled [debugEndpoint; helpEndpoint; helpSecondaryEndpoint; configEndpoint].

Definition telemetry_closers : list closer :=
  enabled "telemetry.jaeger.enable" [CloseFunc jaeger_closer] ++
  enabled "telemetry.prometheus.enable" [CloseFunc prometheus_closer] ++
  enabled "telemetry.stackdriverMetrics.enable" [CloseFunc stackdriver_closer] ++
  enabled "telemetry.opencensusAgent.enable" [CloseErrFunc ocagent_closer].

Context (register_views : nat -> option error).

(** When the exporters can be made and the period can be parsed, the set-up
    registers exactly the closers and the pages of what is enabled, on top of
    what the server has, unless the Prometheus endpoint is empty or one of the
    pages: then the process panics. *)
Theorem telemetry_setup sp period
  (Hperiod : ParseDuration (GetString cfg "telemetry.reportingPeriod") = Ok period)
  (Hok : jaeger = None /\ stackdriver = None /\ ocagent = None /\ process_collector = None /\ go_collector = None /\ prometheus = None)
  (Hmux : ServeMux sp = []) :
  if decide (("" ∉ telemetry_patterns) /\ NoDup telemetry_patterns)
  then run_binds register_views (mkBindings sp [] None) Setup =
         Ok (mkBindings (set_mux telemetry_patterns sp) telemetry_closers None, None)
  else run_binds register_views (mkBindings sp [] None) Setup = Err EPanic.
Proof.
  destruct Hok as (Hj & Hs & Ho & Hpc & Hgc & Hp).
  assert (Forall (fun f => bind_error f = None) Setup) as Herr.
  { unfold Setup, configureOpenCensus, bindJaeger, bindPrometheus, bindStackDriverMetrics, bindOpenCensusAgent, bindZpages,
      bindHelp, bindConfigz. rewrite Hperiod, Hj, Hs, Ho, Hpc, Hgc, Hp. repeat constructor; by destruct (GetBool _ _). }
  rewrite run_binds_ok by done.
  assert (Forall page_or_closer (concat (bind_calls <$> Setup)) /\ omap pattern_of (concat (bind_calls <$> Setup)) = telemetry_patterns /\
    closers_of (concat (bind_calls <$> Setup)) = telemetry_closers) as (Hops & Hpat & Hclo).
  { unfold Setup, configureOpenCensus, bindJaeger, bindPrometheus, bindStackDriverMetrics, bindOpenCensusAgent, bindZpages,
      bindHelp, bindConfigz, telemetry_patterns, telemetry_closers, enabled. rewrite Hperiod, Hj, Hs, Ho, Hpc, Hgc, Hp.
    repeat destruct (GetBool _ _); (split; [repeat constructor|by split]). }
  pose proof (bind_run_pages register_views _ (mkBindings sp [] None) Hops) as Hrun.
  cbv zeta in Hrun. cbn [b_sp b_closers firstErr] in Hrun. rewrite Hmux in Hrun.
  rewrite Hrun by (constructor || apply not_elem_of_nil). rewrite Hpat, Hclo. cbn [app].
  repeat case_decide; done.
Qed.
End Setup.

(** ** The pages that are served

    The server serves the registered patterns besides its own two; no path
    below [/debug] is an instance of the pattern [/debug], so the debugging mux
    never sees a request that it has a page for, and the links of the help
    page lead to the gateway. *)
Lemma debug_pages_unreachable endpoint path : path ∈ debug_patterns -> last_char endpoint <> Some "/"%char -> endpoint ∉ debug_patterns ->
  mux_pattern ([endpoint; debugEndpoint; helpEndpoint; helpSecondaryEndpoint; configEndpoint] ++ [HealthCheckEndpoint; "/"]) path = Some "/".
Proof.
  intros Hp Hl He. unfold mux_pattern. cbn [app mux_longest].
  assert (subtree_matches endpoint path = false) as ->.
  { unfold subtree_matches. rewrite (bool_decide_eq_false_2 (endpoint = path)) by congruence.
    by rewrite bool_decide_eq_false_2. }
  revert path Hp. apply Forall_forall. repeat constructor.
Qed.
