(* ===== verification/Components.v ===== *)
(** * The components of Open Match ([internal/app/*/BindService])

    What each component registers with the application that runs it, and the
    all-in-one [minimatch]. Only the registrations are here: the services are
    modelled by [Frontend], [Backend], [Query], [Synchronizer] and
    [Evaluators]. *)
From S2P Require Export App.

(** The functions registered: the service's gRPC handler, its HTTP proxy and
    its views share its number; the state store's health check. *)
Definition FrontendService : nat := 1.
Definition BackendService : nat := 2.
Definition QueryService : nat := 3.
Definition SynchronizerService : nat := 4.
Definition EvaluatorService : nat := 5.
Definition store_HealthCheck : nat := 0.

Definition frontend_BindService : Bind :=
  mkBind [BAddHealthCheckFunc (Some store_HealthCheck);
          BAddHandleFunc (Some FrontendService) (Some FrontendService);
          BRegisterViews FrontendService] None.

Definition backend_BindService : Bind :=
  mkBind [BAddHealthCheckFunc (Some store_HealthCheck);
          BAddHandleFunc (Some BackendService) (Some BackendService);
          BRegisterViews BackendService] None.

(** [newTicketCache] and [newBackfillCache] each add the health check. *)
Definition query_BindService : Bind :=
  mkBind [BAddHealthCheckFunc (Some store_HealthCheck); BAddHealthCheckFunc (Some store_HealthCheck);
          BAddHandleFunc (Some QueryService) (Some QueryService);
          BRegisterViews QueryService] None.

(** The synchronizer is internal: it has no HTTP proxy. *)
Definition synchronizer_BindService : Bind :=
  mkBind [BAddHealthCheckFunc (Some store_HealthCheck);
          BAddHandleFunc (Some SynchronizerService) None;
          BRegisterViews SynchronizerService] None.

Definition evaluator_BindServiceFor : Bind :=
  mkBind [BAddHandleFunc (Some EvaluatorService) (Some EvaluatorService); BRegisterViews EvaluatorService] None.

(** Bind functions one after the other, up to the first that fails. *)
Definition bind_sequence (fs : list Bind) : Bind := mkBind (calls fs) (binding_error fs).

Definition minimatch_BindService : Bind :=
  bind_sequence [backend_BindService; frontend_BindService; query_BindService; synchronizer_BindService].

(** Minimatch serves all four services over gRPC and all but the
    synchronizer over HTTP, and its health needs the state store of each. *)
Lemma minimatch_binds register_views b b' : bind_run register_views b (bind_calls minimatch_BindService) = Ok b' ->
  handlersForGrpc (b_sp b') = handlersForGrpc (b_sp b) ++ [BackendService; FrontendService; QueryService; SynchronizerService] /\
  handlersForGrpcProxy (b_sp b') = handlersForGrpcProxy (b_sp b) ++ [BackendService; FrontendService; QueryService] /\
  handlersForHealthCheck (b_sp b') = handlersForHealthCheck (b_sp b) ++ replicate 5 store_HealthCheck.
Proof.
  cbn. unfold RegisterViews. intros [= <-].
  destruct (register_views BackendService), (register_views FrontendService), (register_views QueryService),
    (register_views SynchronizerService); cbn; by rewrite <- !app_assoc.
Qed.
