(* ===== verification/Metrics.v ===== *)
(** * Metrics ([internal/telemetry/metrics.go] and the views of the services)

    What the services measure and the views that show it. The registry of
    views belongs to OpenCensus and is an argument; its documentation promises
    that views with names of their own can be registered. *)
From Stdlib Require Import QArith.
From S2P Require Export Components.

#[local] Open Scope Z_scope.

Record Measure := mkMeasure { ms_Name : string; ms_Description : string; ms_Unit : string }.

Inductive aggregation := Count | Sum | LastValue | Distribution (bounds : list Q).

Record MetricView := mkMetricView {
  mv_Measure : Measure; mv_Name : string; mv_Description : string; mv_Aggregation : aggregation }.

#[global] Instance measure_eq_dec : EqDecision Measure.
Proof. solve_decision. Defined.

(** ** [telemetry/metrics.go] *)

Definition int_bounds (zs : list Z) : list Q := inject_Z <$> zs.

Definition DefaultBytesDistribution : aggregation :=
  Distribution (int_bounds [64; 128; 256; 512; 1024; 2048; 4096; 16384; 65536; 262144; 1048576]).
Definition DefaultMillisecondsDistribution : aggregation :=
  Distribution ([1 # 100; 5 # 100; 1 # 10; 3 # 10; 6 # 10; 8 # 10]%Q ++
    int_bounds [1; 2; 3; 4; 5; 6; 8; 10; 13; 16; 20; 25; 30; 40; 50; 65; 80; 100; 130; 160; 200; 250; 300; 400; 500;
                650; 800; 1000; 2000; 5000; 10000; 20000; 50000; 100000]).
Definition DefaultCountDistribution : aggregation :=
  Distribution (int_bounds [1; 2; 4; 8; 16; 32; 64; 128; 256; 512; 1024; 2048; 4096; 8192; 16384; 32768; 65536]).

Class ViewRegistry := {
  view_Register : list MetricView -> list MetricView -> list MetricView * option error;
}.

(** Views that share a name are the same view. *)
Definition names_apart (vs : list MetricView) : Prop :=
  forall v v', v ∈ vs -> v' ∈ vs -> mv_Name v = mv_Name v' -> v = v'.

Class ViewRegistryLaws `{ViewRegistry} : Prop := {
  view_Register_ok registered vs : names_apart (registered ++ vs) ->
    exists registered', view_Register registered vs = (registered', None) /\
      forall v, v ∈ registered' <-> v ∈ registered ++ vs;
}.

Section Instruments.
Context `{ViewRegistry} (registered : list MetricView).

(** A view that cannot be registered is only logged. *)
Definition register_one (v : MetricView) : MetricView * list MetricView := (v, (view_Register registered [v]).1).

Definition histogramView (s : Measure) (bounds : list Q) :=
  register_one (mkMetricView s (ms_Name s) (ms_Description s) (Distribution bounds)).
Definition gaugeView (s : Measure) := register_one (mkMetricView s (ms_Name s) (ms_Description s) LastValue).
Definition counterView (s : Measure) := register_one (mkMetricView s (ms_Name s) (ms_Description s) Count).

Definition Gauge (name description : string) : Measure * list MetricView :=
  let s := mkMeasure name description "1" in (s, (gaugeView s).2).
Definition Counter (name description : string) : Measure * list MetricView :=
  let s := mkMeasure name ("Count of " +:+ description +:+ ".") "1" in (s, (counterView s).2).
Definition HistogramWithBounds (name description unit : string) (bounds : list Q) : Measure * list MetricView :=
  let s := mkMeasure name description unit in (s, (histogramView s bounds).2).
End Instruments.

(** ** The services *)
(** [app/frontend/frontend.go] *)
Definition totalBytesPerTicket : Measure := mkMeasure "open-match.dev/frontend/total_bytes_per_ticket" "Total bytes per ticket" "By".
Definition searchFieldsPerTicket : Measure := mkMeasure "open-match.dev/frontend/searchfields_per_ticket" "Searchfields per ticket" "1".
Definition totalBytesPerBackfill : Measure := mkMeasure "open-match.dev/frontend/total_bytes_per_backfill" "Total bytes per backfill" "By".
Definition searchFieldsPerBackfill : Measure := mkMeasure "open-match.dev/frontend/searchfields_per_backfill" "Searchfields per backfill" "1".
Definition totalBytesPerTicketView : MetricView := mkMetricView totalBytesPerTicket "open-match.dev/frontend/total_bytes_per_ticket" "Total bytes per ticket" DefaultBytesDistribution.
Definition searchFieldsPerTicketView : MetricView := mkMetricView searchFieldsPerTicket "open-match.dev/frontend/searchfields_per_ticket" "SearchFields per ticket" DefaultCountDistribution.
Definition totalBytesPerBackfillView : MetricView := mkMetricView totalBytesPerBackfill "open-match.dev/frontend/total_bytes_per_backfill" "Total bytes per backfill" DefaultBytesDistribution.
Definition searchFieldsPerBackfillView : MetricView := mkMetricView searchFieldsPerBackfill "open-match.dev/frontend/searchfields_per_backfill" "SearchFields per backfill" DefaultCountDistribution.
Definition frontend_views : list MetricView := [totalBytesPerTicketView; searchFieldsPerTicketView; totalBytesPerBackfillView; searchFieldsPerBackfillView].

(** [app/backend/backend.go] *)
Definition totalBytesPerMatch : Measure := mkMeasure "open-match.dev/backend/total_bytes_per_match" "Total bytes per match" "By".
Definition ticketsPerMatch : Measure := mkMeasure "open-match.dev/backend/tickets_per_match" "Number of tickets per match" "1".
Definition ticketsReleased : Measure := mkMeasure "open-match.dev/backend/tickets_released" "Number of tickets released per request" "1".
Definition ticketsAssigned : Measure := mkMeasure "open-match.dev/backend/tickets_assigned" "Number of tickets assigned per request" "1".
Definition ticketsTimeToAssignment : Measure := mkMeasure "open-match.dev/backend/ticket_time_to_assignment" "Time to assignment for tickets" "ms".
Definition totalMatchesView : MetricView := mkMetricView totalBytesPerMatch "open-match.dev/backend/total_matches" "Total number of matches" Count.
Definition totalBytesPerMatchView : MetricView := mkMetricView totalBytesPerMatch "open-match.dev/backend/total_bytes_per_match" "Total bytes per match" DefaultBytesDistribution.
Definition ticketsPerMatchView : MetricView := mkMetricView ticketsPerMatch "open-match.dev/backend/tickets_per_match" "Tickets per ticket" DefaultCountDistribution.
Definition ticketsAssignedView : MetricView := mkMetricView ticketsAssigned "open-match.dev/backend/tickets_assigned" "Number of tickets assigned per request" Sum.
Definition ticketsReleasedView : MetricView := mkMetricView ticketsReleased "open-match.dev/backend/tickets_released" "Number of tickets released per request" Sum.
Definition ticketsTimeToAssignmentView : MetricView := mkMetricView ticketsTimeToAssignment "open-match.dev/backend/ticket_time_to_assignment" "Time to assignment for tickets" DefaultMillisecondsDistribution.
Definition backend_views : list MetricView := [totalMatchesView; totalBytesPerMatchView; ticketsPerMatchView; ticketsAssignedView; ticketsReleasedView; ticketsTimeToAssignmentView].

(** [app/query/query.go] *)
Definition ticketsPerQuery : Measure := mkMeasure "open-match.dev/query/tickets_per_query" "Number of tickets per query" "1".
Definition totalActiveTickets : Measure := mkMeasure "open-match.dev/query/total_active_tickets" "Number of tickets" "1".
Definition backfillsPerQuery : Measure := mkMeasure "open-match.dev/query/backfills_per_query" "Number of backfills per query" "1".
Definition totalBackfillsTickets : Measure := mkMeasure "open-match.dev/query/total_backfill_tickets" "Number of current backfills" "1".
Definition totalPendingTickets : Measure := mkMeasure "open-match.dev/query/tickets_pending_release" "Number of tickets per query" "1".
Definition cacheTotalItems : Measure := mkMeasure "open-match.dev/query/total_cache_items" "Total number of items query service cached" "1".
Definition cacheFetchedItems : Measure := mkMeasure "open-match.dev/query/fetched_items" "Number of fetched items in total" "1".
Definition cacheWaitingQueries : Measure := mkMeasure "open-match.dev/query/waiting_queries" "Number of waiting queries in the last update" "1".
Definition cacheUpdateLatency : Measure := mkMeasure "open-match.dev/query/update_latency" "Time elapsed of each query cache update" "ms".
Definition ticketsPerQueryView : MetricView := mkMetricView ticketsPerQuery "open-match.dev/query/tickets_per_query" "Tickets per query" DefaultCountDistribution.
Definition ticketsActiveTotalView : MetricView := mkMetricView totalActiveTickets "open-match.dev/query/total_active_tickets" "Total tickets" LastValue.
Definition backfillsPerQueryView : MetricView := mkMetricView ticketsPerQuery "open-match.dev/query/backfills_per_query" "Backfills per query" DefaultCountDistribution.
Definition backfillTotalTicketsView : MetricView := mkMetricView totalBackfillsTickets "open-match.dev/query/total_backfill_tickets" "Total number of backfill tickets" LastValue.
Definition pendingTotalTicketsView : MetricView := mkMetricView totalPendingTickets "open-match.dev/query/total_pending_tickets" "Total number of pending tickets" LastValue.
Definition cacheTotalItemsView : MetricView := mkMetricView cacheTotalItems "open-match.dev/query/total_cached_items" "Total number of cached items" LastValue.
Definition cacheFetchedItemsView : MetricView := mkMetricView cacheFetchedItems "open-match.dev/query/total_fetched_items" "Total number of fetched tickets" Sum.
Definition cacheUpdateView : MetricView := mkMetricView cacheWaitingQueries "open-match.dev/query/cache_updates" "Number of query cache updates in total" Count.
Definition cacheWaitingQueriesView : MetricView := mkMetricView cacheWaitingQueries "open-match.dev/query/waiting_requests" "Number of waiting requests in total" DefaultCountDistribution.
Definition cacheUpdateLatencyView : MetricView := mkMetricView cacheUpdateLatency "open-match.dev/query/update_latency" "Time elapsed of each query cache update" DefaultMillisecondsDistribution.
Definition query_views : list MetricView := [ticketsPerQueryView; ticketsActiveTotalView; backfillsPerQueryView; backfillTotalTicketsView; pendingTotalTicketsView; cacheTotalItemsView; cacheUpdateView; cacheFetchedItemsView; cacheWaitingQueriesView; cacheUpdateLatencyView].

(** [app/synchronizer/synchronizer.go] *)
Definition iterationLatency : Measure := mkMeasure "open-match.dev/synchronizer/iteration_latency" "Time elapsed of each synchronizer iteration" "ms".
Definition registrationWaitTime : Measure := mkMeasure "open-match.dev/synchronizer/registration_wait_time" "Time elapsed of registration wait time" "ms".
Definition registrationMMFDoneTime : Measure := mkMeasure "open-match.dev/synchronizer/registration_mmf_done_time" "Time elapsed wasted in registration window with done MMFs" "ms".
Definition iterationLatencyView : MetricView := mkMetricView iterationLatency "open-match.dev/synchronizer/iteration_latency" "Time elapsed of each synchronizer iteration" DefaultMillisecondsDistribution.
Definition registrationWaitTimeView : MetricView := mkMetricView registrationWaitTime "open-match.dev/synchronizer/registration_wait_time" "Time elapsed of registration wait time" DefaultMillisecondsDistribution.
Definition registrationMMFDoneTimeView : MetricView := mkMetricView registrationMMFDoneTime "open-match.dev/synchronizer/registration_mmf_done_time" "Time elapsed wasted in registration window with done MMFs" DefaultMillisecondsDistribution.
Definition synchronizer_views : list MetricView := [iterationLatencyView; registrationWaitTimeView; registrationMMFDoneTimeView].

(** [app/evaluator/evaluator.go] *)
Definition matchesPerEvaluateRequest : Measure := mkMeasure "open-match.dev/evaluator/matches_per_request" "Number of matches sent to the evaluator per request" "1".
Definition matchesPerEvaluateResponse : Measure := mkMeasure "open-match.dev/evaluator/matches_per_response" "Number of matches returned by the evaluator per response" "1".
Definition matchesPerEvaluateRequestView : MetricView := mkMetricView matchesPerEvaluateRequest "open-match.dev/evaluator/matches_per_request" "Number of matches sent to the evaluator per request" DefaultCountDistribution.
Definition matchesPerEvaluateResponseView : MetricView := mkMetricView matchesPerEvaluateResponse "open-match.dev/evaluator/matches_per_response" "Number of matches sent to the evaluator per response" DefaultCountDistribution.
Definition evaluator_views : list MetricView := [matchesPerEvaluateRequestView; matchesPerEvaluateResponseView].

(** [app/evaluator/defaulteval/evaluator.go] *)
Definition collidedMatchesPerEvaluate : Measure := mkMeasure "open-match.dev/defaulteval/collided_matches_per_call" "Number of collided matches per default evaluator call" "1".
Definition collidedMatchesPerEvaluateView : MetricView := mkMetricView collidedMatchesPerEvaluate "open-match.dev/defaulteval/collided_matches_per_call" "Number of collided matches per default evaluator call" Sum.
Definition defaulteval_views : list MetricView := [collidedMatchesPerEvaluateView].

(** ** Registering them *)

(** [Bindings.RegisterViews] of one component after the other. *)
Fixpoint register_batches `{ViewRegistry} (batches : list (list MetricView)) (registered : list MetricView) :
    list MetricView * option error :=
  match batches with
  | [] => (registered, None)
  | vs :: batches =>
      match view_Register registered vs with
      | (registered, Some err) => (registered, Some err)
      | (registered, None) => register_batches batches registered
      end
  end.

Definition all_batches : list (list MetricView) :=
  [frontend_views; backend_views; query_views; synchronizer_views; evaluator_views; defaulteval_views].

(** Every measure that is the first argument of a [stats.Record]. *)
Definition recorded : list Measure :=
  [searchFieldsPerTicket; totalBytesPerTicket; searchFieldsPerBackfill; totalBytesPerBackfill;
   totalBytesPerMatch; ticketsPerMatch; ticketsReleased; ticketsAssigned; ticketsTimeToAssignment;
   cacheWaitingQueries; cacheTotalItems; totalActiveTickets; cacheFetchedItems; cacheUpdateLatency; totalPendingTickets;
   totalBackfillsTickets; ticketsPerQuery; backfillsPerQuery;
   registrationWaitTime; registrationMMFDoneTime; iterationLatency;
   matchesPerEvaluateRequest; matchesPerEvaluateResponse; collidedMatchesPerEvaluate].

Definition shown (m : Measure) (registered : list MetricView) : Prop := exists v, v ∈ registered /\ mv_Measure v = m.

Lemma names_apart_nodup vs : NoDup (mv_Name <$> vs) -> names_apart vs.
Proof.
  intros Hn v v' [i Hi]%list_elem_of_lookup [j Hj]%list_elem_of_lookup Heq.
  assert (i = j) as ->; [|congruence].
  eapply (NoDup_lookup (mv_Name <$> vs)); [done|by rewrite list_lookup_fmap, Hi|]. by rewrite list_lookup_fmap, Hj, Heq.
Qed.

Lemma register_batches_ok `{ViewRegistryLaws} batches registered : names_apart (registered ++ concat batches) ->
  exists registered', register_batches batches registered = (registered', None) /\
    forall v, v ∈ registered' <-> v ∈ registered ++ concat batches.
Proof.
  revert registered. induction batches as [|vs batches IH]; intros registered Hn; cbn [register_batches concat].
  { exists registered. split; [done|]. intros v. by rewrite app_nil_r. }
  cbn [concat] in Hn. destruct (view_Register_ok registered vs) as (r1 & -> & Hr1).
  { intros v v' Hv Hv'. apply Hn; rewrite !elem_of_app in *; tauto. }
  destruct (IH r1) as (r2 & -> & Hr2).
  { intros v v' Hv Hv'. apply Hn; rewrite !elem_of_app, ?Hr1, !elem_of_app in *; tauto. }
  exists r2. split; [done|]. intros v. rewrite Hr2, !elem_of_app, Hr1, elem_of_app. tauto.
Qed.

(** The components can run in one process, all of them or some and in any
    order: no two views of theirs have one name, so all of them are
    registered. With all components every measure recorded is shown by some
    view, but for the backfills per query, whose view shows the tickets per
    query again. *)
Theorem metrics_registered `{ViewRegistryLaws} batches (Hb : batches ⊆+ all_batches) :
  (exists registered, register_batches batches [] = (registered, None) /\
     forall v, v ∈ registered <-> v ∈ concat batches) /\
  (batches ≡ₚ all_batches ->
     forall registered, register_batches batches [] = (registered, None) ->
     forall m, m ∈ recorded -> shown m registered <-> m <> backfillsPerQuery).
Proof.
  assert (names_apart (concat batches)) as Hn.
  { apply submseteq_Permutation in Hb as [rest Hb]. apply names_apart_nodup.
    assert (NoDup (mv_Name <$> concat all_batches)) as Hall by (apply (bool_decide_unpack _); vm_compute; exact I).
    rewrite Hb, concat_app, fmap_app in Hall. by apply NoDup_app in Hall as [? _]. }
  destruct (register_batches_ok batches []) as (r & Hr & Hin); [done|]. split; [by exists r|].
  intros Hp registered Hreg m Hm. rewrite Hr in Hreg. injection Hreg as <-.
  assert (forall v, v ∈ r <-> v ∈ concat all_batches) as Hall by (intros v; by rewrite Hin, Hp).
  unfold shown. setoid_rewrite Hall.
  assert (Forall (fun m => bool_decide (m ∈ (mv_Measure <$> concat all_batches)) = bool_decide (m <> backfillsPerQuery)) recorded)
    as Hd by (apply (bool_decide_unpack _); vm_compute; exact I).
  rewrite Forall_forall in Hd. specialize (Hd m Hm). rewrite <- (bool_decide_spec (m <> _)), <- Hd, bool_decide_spec, list_elem_of_fmap.
  naive_solver.
Qed.

(** The boundaries of the distributions increase. *)
Lemma bounds_increase : Forall (fun a => match a with Distribution bs => Sorted Qlt bs | _ => True end)
  [DefaultBytesDistribution; DefaultMillisecondsDistribution; DefaultCountDistribution].
Proof. repeat constructor. Qed.
