(* ===== verification/Effects.v ===== *)
(** * Effects: Redis, clock, ids and locks

    The code reaches the outside world through a Redis client (redigo), a
    distributed mutex (redsync), the wall clock and an id generator (xid).
    A Go function that does so is a [prog]: a tree of the effects it performs,
    each continued by its answer. What the effects do is third-party
    behaviour: [estep] writes down what its documentation promises, as a
    relation between the state before ([view]), the answer and the state
    after; an [Environment] is anything that handles the effects within that
    relation. Theorems hold for every environment. *)
From S2P Require Export Data.

(** ** Commands and replies *)

Inductive command :=
| SET (k v : string)
| SETXX (k v : string) (px : Z)     (* SET k v PX px XX *)
| SETNX (k v : string)
| GET (k : string)
| DEL (k : string)
| MGET (ks : list string)
| SADD (k m : string)
| SREM (k m : string)
| SMEMBERS (k : string)
| ZADD (k : string) (l : list (Z * string))
| ZREM (k : string) (l : list string)
| ZRANGEBYSCORE (k : string) (lo hi : Z)
| ZSCORE (k m : string)
| HSET (k f v : string)
| HDEL (k f : string)
| HGETALL (k : string)
| MULTI
| EXEC
| PING.

(** The reply after redigo's conversion ([redis.Bytes], [redis.Int], ...):
    [None] in an option reply is redigo's [ErrNil]. *)
Definition reply (c : command) : Type :=
  match c with
  | SET _ _ | MULTI | PING => unit
  | GET _ => option string
  | SETXX _ _ _ => option string
  | SETNX _ _ | DEL _ | SADD _ _ | SREM _ _ | ZADD _ _ | ZREM _ _ | HSET _ _ _ | HDEL _ _ => Z
  | MGET _ => list (option string)
  | SMEMBERS _ | ZRANGEBYSCORE _ _ _ => list string
  | ZSCORE _ _ => option Z
  | HGETALL _ => gmap string string
  | EXEC => list (option string)
  end.

Inductive pool := RedisPool | HealthCheckPool.

Definition conn := nat.

Inductive eff :=
| GetConn (p : pool)                  (* pool.GetContext *)
| Do (c : conn) (cmd : command)       (* conn.Do *)
| Send (c : conn) (cmd : command)     (* conn.Send *)
| CloseConn (c : conn)                (* conn.Close *)
| Now                                 (* time.Now *)
| NewXid                              (* xid.New().String() *)
| Lock (name : string) (expiry : Z)   (* mutex.LockContext; [expiry] in nanoseconds *)
| Unlock (name token : string)        (* mutex.UnlockContext *)
| ClosePool                           (* pool.Close *)
| Sched.                              (* the Go scheduler's choices *)

(** The answer: [inr] and [Some] carry an error's text. A mutex that was
    taken answers the value it wrote in Redis, by which it is given back. In
    what order goroutines run is up to the scheduler: asked when they start,
    it answers the list of its choices, which nothing constrains. *)
Definition resp (e : eff) : Type :=
  match e with
  | GetConn _ => conn + string
  | Do _ cmd => reply cmd + string
  | Send _ _ | ClosePool => option string
  | Lock _ _ => string + string
  | Unlock _ _ => bool + string
  | Sched => list nat
  | CloseConn _ => unit
  | Now => Z
  | NewXid => string
  end.

(** ** Programs *)

Inductive prog (A : Type) : Type :=
| Ret (a : A)
| Vis (e : eff) (k : resp e -> prog A).
Arguments Ret {A} a.
Arguments Vis {A} e k.

Fixpoint prog_bind {A B} (p : prog A) (f : A -> prog B) : prog B :=
  match p with
  | Ret a => f a
  | Vis e k => Vis e (fun r => prog_bind (k r) f)
  end.

#[global] Instance prog_ret : MRet prog := fun A a => Ret a.
#[global] Instance prog_mbind : MBind prog := fun A B f p => prog_bind p f.

Definition trigger (e : eff) : prog (resp e) := Vis e Ret.

Definition ended {A} (p : prog A) : bool := match p with Ret _ => true | _ => false end.

(** Sequencing of functions that return an error: the code's
    [if err != nil { return err }]. *)
Definition rbind {A B} (p : prog (result A)) (f : A -> prog (result B)) : prog (result B) :=
  prog_bind p (fun r => match r with Ok a => f a | Err e => Ret (Err e) end).

Declare Scope prog_scope.
Delimit Scope prog_scope with prog.
Notation "x ←? p ; q" := (rbind p (fun x => q))
  (at level 20, p at level 100, q at level 200, only parsing) : prog_scope.
Notation "' x ←? p ; q" := (rbind p (fun x => q))
  (at level 20, x pattern, p at level 100, q at level 200, only parsing) : prog_scope.
Notation "x ←! p ; q" := (prog_bind p (fun x => q))
  (at level 20, p at level 100, q at level 200, only parsing) : prog_scope.
#[global] Open Scope prog_scope.

Definition ret_ok {A} (a : A) : prog (result A) := Ret (Ok a).
Definition ret_err {A} (e : error) : prog (result A) := Ret (Err e).

(** [conn.Do(...)] followed by [if err != nil { return mk(err) }]. *)
Definition redis_do (c : conn) (cmd : command) (mk : string -> error) : prog (result (reply cmd)) :=
  Vis (Do c cmd) (fun r => match r with inl a => Ret (Ok a) | inr m => Ret (Err (mk m)) end).

Definition redis_send (c : conn) (cmd : command) (mk : string -> error) : prog (result unit) :=
  Vis (Send c cmd) (fun r => match r with None => Ret (Ok tt) | Some m => Ret (Err (mk m)) end).

(** [conn, err := pool.GetContext(ctx)], its error return, and the deferred
    [handleConnectionClose]. *)
Definition with_conn {A} (p : pool) (mk : string -> error) (body : conn -> prog (result A)) :
    prog (result A) :=
  Vis (GetConn p) (fun r =>
    match r with
    | inr m => Ret (Err (mk m))
    | inl c => x ←! body c; Vis (CloseConn c) (fun _ => Ret x)
    end).

(** ** The keyspace *)

Inductive rval :=
| RStr (s : string)
| RSet (s : gset string)
| RZSet (z : gmap string Z)
| RHash (h : gmap string string).

(** A value and the relative expiry in milliseconds it was written with. *)
Record entry := mkEntry { e_val : rval; e_px : option Z }.

Abbreviation db := (gmap string entry).

Definition get_str (d : db) (k : string) : option string :=
  match d !! k with Some (mkEntry (RStr s) _) => Some s | _ => None end.

(** The typed reading of an aggregate key: absent reads as empty, a key of
    another type does not read. *)
Definition get_set (d : db) (k : string) : option (gset string) :=
  match d !! k with
  | None => Some ∅ | Some (mkEntry (RSet s) _) => Some s | _ => None
  end.
Definition get_zset (d : db) (k : string) : option (gmap string Z) :=
  match d !! k with
  | None => Some ∅ | Some (mkEntry (RZSet z) _) => Some z | _ => None
  end.
Definition get_hash (d : db) (k : string) : option (gmap string string) :=
  match d !! k with
  | None => Some ∅ | Some (mkEntry (RHash h) _) => Some h | _ => None
  end.

(** Redis removes an aggregate that becomes empty. *)
Definition put_set (d : db) (k : string) (s : gset string) : db :=
  if decide (s = ∅) then delete k d else <[k := mkEntry (RSet s) None]> d.
Definition put_zset (d : db) (k : string) (z : gmap string Z) : db :=
  if decide (z = ∅) then delete k d else <[k := mkEntry (RZSet z) None]> d.
Definition put_hash (d : db) (k : string) (h : gmap string string) : db :=
  if decide (h = ∅) then delete k d else <[k := mkEntry (RHash h) None]> d.
Definition put_str (d : db) (k v : string) (px : option Z) : db :=
  <[k := mkEntry (RStr v) px]> d.

(** What is not fixed by the documentation: whether calls may fail for
    reasons outside the program (network, server), and how Redis rounds a
    64-bit integer to the double a sorted set keeps, a monotone function. *)
Class Sys := {
  sys_faulty : bool;
  sys_score : Z -> Z;
  sys_score_mono a b : a <= b -> sys_score a <= sys_score b;
}.

Definition zadd_all `{Sys} (z : gmap string Z) (l : list (Z * string)) : gmap string Z :=
  foldl (fun z '(s, m) => <[m := sys_score s]> z) z l.

Definition zrem_all (z : gmap string Z) (l : list string) : gmap string Z :=
  foldl (fun z m => delete m z) z l.

(** ** The documented effect of one command *)
Section Commands.
Context `{Sys}.

Definition setxx (d : db) (k v : string) (px : Z) : option string * db :=
  match d !! k with
  | Some _ => (Some "OK", put_str d k v (Some px))
  | None => (None, d)
  end.

Definition cmd_ok (d : db) (c : command) : reply c -> db -> Prop :=
  match c with
  | SET k v => fun r d' => d' = put_str d k v None
  | SETXX k v px => fun r d' => (r, d') = setxx d k v px
  | SETNX k v => fun r d' =>
      match d !! k with
      | None => r = 1 /\ d' = put_str d k v None
      | Some _ => r = 0 /\ d' = d
      end
  | GET k => fun r d' =>
      match d !! k with
      | None => r = None /\ d' = d
      | Some (mkEntry (RStr s) _) => r = Some s /\ d' = d
      | Some _ => False
      end
  | DEL k => fun r d' => r = (if decide (is_Some (d !! k)) then 1 else 0) /\ d' = delete k d
  | MGET ks => fun r d' => r = get_str d <$> ks /\ d' = d
  | SADD k m => fun r d' =>
      match get_set d k with
      | Some s => r = (if decide (m ∈ s) then 0 else 1) /\ d' = put_set d k ({[m]} ∪ s)
      | None => False
      end
  | SREM k m => fun r d' =>
      match get_set d k with
      | Some s => r = (if decide (m ∈ s) then 1 else 0) /\ d' = put_set d k (s ∖ {[m]})
      | None => False
      end
  | SMEMBERS k => fun r d' =>
      match get_set d k with
      | Some s => NoDup r /\ (list_to_set r : gset string) = s /\ d' = d
      | None => False
      end
  | ZADD k l => fun r d' =>
      match get_zset d k with
      | Some z => d' = put_zset d k (zadd_all z l)
      | None => False
      end
  | ZREM k l => fun r d' =>
      match get_zset d k with
      | Some z => d' = put_zset d k (zrem_all z l)
      | None => False
      end
  | ZRANGEBYSCORE k lo hi => fun r d' =>
      match get_zset d k with
      | Some z => NoDup r /\ d' = d /\
          (forall m, m ∈ r <-> exists s, z !! m = Some s /\ sys_score lo <= s <= sys_score hi)
      | None => False
      end
  | ZSCORE k m => fun r d' =>
      match get_zset d k with
      | Some z => r = z !! m /\ d' = d
      | None => False
      end
  | HSET k f v => fun r d' =>
      match get_hash d k with
      | Some h => d' = put_hash d k (<[f := v]> h)
      | None => False
      end
  | HDEL k f => fun r d' =>
      match get_hash d k with
      | Some h => d' = put_hash d k (delete f h)
      | None => False
      end
  | HGETALL k => fun r d' =>
      match get_hash d k with
      | Some h => r = h /\ d' = d
      | None => False
      end
  | MULTI | PING => fun r d' => d' = d
  | EXEC => fun r d' => r = [] /\ d' = d
  end.

(** A command on a key of another type is refused (WRONGTYPE). *)
Definition wrong_type (d : db) (c : command) : Prop :=
  match c with
  | GET k => is_Some (d !! k) /\ get_str d k = None
  | SADD k _ | SREM k _ | SMEMBERS k => get_set d k = None
  | ZADD k _ | ZREM k _ | ZRANGEBYSCORE k _ _ | ZSCORE k _ => get_zset d k = None
  | HSET k _ _ | HDEL k _ | HGETALL k => get_hash d k = None
  | _ => False
  end.

Definition cmd_effect (d : db) (c : command) (d' : db) : Prop :=
  (exists r, cmd_ok d c r d') \/ (wrong_type d c /\ d' = d).

(** The commands sent and not yet executed, run in order. *)
Fixpoint pipeline (d : db) (cs : list command) (d' : db) : Prop :=
  match cs with
  | [] => d' = d
  | c :: cs => exists d1, cmd_effect d c d1 /\ pipeline d1 cs d'
  end.

(** The queue of a transaction, executed atomically by EXEC. Only the
    command the program queues is described. *)
Fixpoint multi (d : db) (cs : list command) (rs : list (option string)) (d' : db) : Prop :=
  match cs with
  | [] => rs = [] /\ d' = d
  | SETXX k v px :: cs =>
      match rs with
      | r :: rs => r = (setxx d k v px).1 /\ multi (setxx d k v px).2 cs rs d'
      | [] => False
      end
  | _ => True
  end.
End Commands.

(** ** The state and the steps of the outside world *)

(** The keyspace; the commands each open connection has sent and not yet
    executed; the last clock reading; the ids handed out; the mutexes, each
    with the value its holder wrote and the time until which Redis keeps it. *)
Record view := mkView {
  v_db : db;
  v_pend : gmap conn (list command);
  v_now : Z;
  v_xids : gset string;
  v_locks : gmap string (string * Z);
}.

Definition set_db (v : view) (d : db) : view :=
  mkView d (v_pend v) (v_now v) (v_xids v) (v_locks v).
Definition set_pend (v : view) (p : gmap conn (list command)) : view :=
  mkView (v_db v) p (v_now v) (v_xids v) (v_locks v).
Definition set_now (v : view) (t : Z) : view :=
  mkView (v_db v) (v_pend v) t (v_xids v) (v_locks v).
Definition set_xids (v : view) (s : gset string) : view :=
  mkView (v_db v) (v_pend v) (v_now v) s (v_locks v).
Definition set_locks (v : view) (m : gmap string (string * Z)) : view :=
  mkView (v_db v) (v_pend v) (v_now v) (v_xids v) m.

(** The mutex [redsync] keeps in Redis: SET n token NX PX expiry, in whole
    milliseconds; free when it is not there or has run out. Giving it back
    deletes it if it is still the one that was taken. *)
Definition lock_until (t expiry : Z) : Z := t + expiry `quot` 10 ^ 6 * 10 ^ 6.

Definition lock_free (v : view) (n : string) (t : Z) : Prop :=
  match v_locks v !! n with Some (_, until) => until <= t | None => True end.

#[global] Instance lock_free_dec v n t : Decision (lock_free v n t).
Proof. unfold lock_free. destruct (v_locks v !! n) as [[? ?]|]; apply _. Defined.

Definition lock_taken (v : view) (n token : string) (expiry t : Z) : view :=
  set_locks (set_now v t) (<[n := (token, lock_until t expiry)]> (v_locks v)).

Definition unlocked (v : view) (n token : string) : view :=
  match v_locks v !! n with
  | Some (token', _) => if decide (token' = token) then set_locks v (delete n (v_locks v)) else v
  | None => v
  end.

Definition open_conn (v : view) (c : conn) : view := set_pend v (<[c := []]> (v_pend v)).

(** A generated id is a non-empty string over the alphabet of xid, [0-9a-v]. *)
Definition xid_char (c : ascii) : bool :=
  let n := nat_of_ascii c in
  ((48 <=? n) && (n <=? 57) || (97 <=? n) && (n <=? 118))%nat.

Fixpoint xid_chars (s : string) : bool :=
  match s with "" => true | String c s => xid_char c && xid_chars s end.

Definition is_xid (s : string) : bool :=
  match s with "" => false | _ => xid_chars s end.

Section Steps.
Context `{Sys}.

(** A command on a connection with nothing pending: its documented result,
    a type error, or, when calls may fail, a lost reply whose command was
    or was not executed. *)
Definition do_step (v : view) (cmd : command) : reply cmd + string -> view -> Prop :=
  fun r v' =>
    match r with
    | inl a => exists d', cmd_ok (v_db v) cmd a d' /\ v' = set_db v d'
    | inr _ =>
        (wrong_type (v_db v) cmd /\ v' = v) \/
        (sys_faulty = true /\
           (v' = v \/ exists a d', cmd_ok (v_db v) cmd a d' /\ v' = set_db v d'))
    end.

(** EXEC after MULTI and queued commands. *)
Definition exec_step (v : view) (c : conn) (cs : list command) :
    list (option string) + string -> view -> Prop :=
  fun r v' =>
    let done d' := set_db (open_conn v c) d' in
    match r with
    | inl a => exists d', multi (v_db v) cs a d' /\ v' = done d'
    | inr _ => (sys_faulty = true) /\
        (v' = open_conn v c \/ exists a d', multi (v_db v) cs a d' /\ v' = done d')
    end.

Definition is_multi (cs : list command) : bool :=
  match cs with MULTI :: _ => true | _ => false end.

(** Closing flushes what was sent (its replies are dropped), except that an
    open transaction is discarded. *)
Definition close_step (v : view) (cs : list command) (d' : db) : Prop :=
  if is_multi cs then d' = v_db v
  else pipeline (v_db v) cs d' \/
       (sys_faulty = true /\ exists n, pipeline (v_db v) (take n cs) d').

(** A mutex is refused while another holds it; what its expiry is, at least
    the millisecond Redis asks for, is the caller's. Giving back one that has
    run out is answered [false] or an error. Calls on a closed pool are among
    those that fail for outside reasons. *)
Definition estep (v : view) (e : eff) : resp e -> view -> Prop :=
  match e with
  | GetConn _ => fun r v' =>
      match r with
      | inl c => v_pend v !! c = None /\ v' = open_conn v c
      | inr _ => sys_faulty = true /\ v' = v
      end
  | Do c cmd =>
      match v_pend v !! c with
      | Some [] => do_step v cmd
      | Some (MULTI :: cs) =>
          match cmd as cmd return reply cmd + string -> view -> Prop with
          | EXEC => exec_step v c cs
          | _ => fun _ _ => True
          end
      | _ => fun _ _ => True
      end
  | Send c cmd => fun r v' =>
      match r with
      | None => v' = set_pend v (<[c := default [] (v_pend v !! c) ++ [cmd]]> (v_pend v))
      | Some _ => sys_faulty = true /\ v' = v
      end
  | CloseConn c => fun _ v' =>
      match v_pend v !! c with
      | Some cs => exists d', close_step v cs d' /\
                     v' = set_pend (set_db v d') (delete c (v_pend v))
      | None => v' = v
      end
  | Now => fun t v' => v_now v <= t /\ v' = set_now v t
  | NewXid => fun i v' =>
      (i ∉ v_xids v) /\ is_xid i = true /\ v' = set_xids v ({[i]} ∪ v_xids v)
  | Lock n expiry => fun r v' =>
      match r with
      | inl token => exists t, v_now v <= t /\ lock_free v n t /\ v' = lock_taken v n token expiry t
      | inr _ => (~ lock_free v n (v_now v) /\ v' = v) \/
          (sys_faulty = true /\
             (v' = v \/ exists token t, v_now v <= t /\ lock_free v n t /\ v' = lock_taken v n token expiry t))
      end
  | Unlock n token => fun r v' =>
      match r with
      | inl b => (b = true -> exists until, v_locks v !! n = Some (token, until)) /\ v' = unlocked v n token
      | inr _ => v' = unlocked v n token \/ (sys_faulty = true /\ v' = v)
      end
  | ClosePool => fun r v' => (r <> None -> sys_faulty = true) /\ v' = v
  | Sched => fun _ v' => v' = v
  end.

(** [wp p v Q]: every run of [p] from [v], whatever the outside world
    answers, ends with a value and a state satisfying [Q]. *)
Fixpoint wp {A} (p : prog A) (v : view) (Q : A -> view -> Prop) : Prop :=
  match p with
  | Ret a => Q a v
  | Vis e k => forall r v', estep v e r v' -> wp (k r) v' Q
  end.
End Steps.

(** An implementation of the outside world, executable: its own state, a
    handler for the effects, and the [view] its states present. *)
Class Environment `{Sys} := {
  env_state : Type;
  env_view : env_state -> view;
  env_handle : forall e : eff, env_state -> resp e * env_state;
}.

(** It behaves as documented. *)
Class EnvironmentLaws `{Environment} : Prop :=
  env_ok : forall e w r w', env_handle e w = (r, w') -> estep (env_view w) e r (env_view w').

Fixpoint run `{Environment} {A} (p : prog A) (w : env_state) : A * env_state :=
  match p with
  | Ret a => (a, w)
  | Vis e k => let '(r, w') := env_handle e w in run (k r) w'
  end.

(** ** The program logic *)
Section Logic.
Context `{Sys}.

Lemma wp_ret {A} (a : A) v (Q : A -> view -> Prop) : Q a v -> wp (Ret a) v Q.
Proof. done. Qed.

Lemma wp_mono {A} (p : prog A) v (Q R : A -> view -> Prop) :
  wp p v Q -> (forall a v', Q a v' -> R a v') -> wp p v R.
Proof.
  revert v. induction p as [a|e k IH]; cbn; intros v Hp HQR; [auto|].
  intros r v' Hstep. eauto.
Qed.

Lemma wp_bind {A B} (p : prog A) (f : A -> prog B) v Q :
  wp p v (fun a v' => wp (f a) v' Q) -> wp (prog_bind p f) v Q.
Proof.
  revert v. induction p as [a|e k IH]; cbn; intros v Hp; [done|].
  intros r v' Hstep. eauto.
Qed.

Lemma wp_rbind {A B} (p : prog (result A)) (f : A -> prog (result B)) v Q :
  wp p v (fun r v' => match r with Ok a => wp (f a) v' Q | Err e => Q (Err e) v' end) ->
  wp (rbind p f) v Q.
Proof.
  intros Hp. unfold rbind. apply wp_bind. eapply wp_mono; [exact Hp|].
  intros [a|e] v'; cbn; auto.
Qed.

Lemma wp_and {A} (p : prog A) v Q R : wp p v Q -> wp p v R -> wp p v (fun a v' => Q a v' /\ R a v').
Proof.
  revert v. induction p as [a|e k IH]; cbn; intros v HQ HR; [done|].
  intros r v' Hstep. apply IH; eauto.
Qed.

(** Every program ends. *)
Lemma wp_true {A} (p : prog A) v : wp p v (fun _ _ => True).
Proof. revert v. induction p as [a|e k IH]; cbn; auto. Qed.

(** A postcondition under a hypothesis. *)
Lemma wp_impl {A} (p : prog A) v (P : Prop) (Q : A -> view -> Prop) :
  (P -> wp p v Q) -> wp p v (fun a v' => P -> Q a v').
Proof.
  revert v. induction p as [a|e k IH]; cbn; intros v HQ; [done|].
  intros r v' Hs. apply IH. intros HP. by apply HQ.
Qed.
End Logic.

Section Adequacy.
Context `{EnvironmentLaws}.

(** What [wp] promises holds of every run in every lawful environment. *)
Lemma run_wp {A} (p : prog A) w Q a w' :
  wp p (env_view w) Q -> run p w = (a, w') -> Q a (env_view w').
Proof.
  revert w. induction p as [x|e k IH]; cbn; intros w Hwp Hrun; [by simplify_eq|].
  destruct (env_handle e w) as [r w1] eqn:He.
  eapply IH; [|exact Hrun]. apply Hwp, (env_ok _ _ _ _ He).
Qed.
End Adequacy.

(** ** Rules for connections

    Inside a function that holds connection [c] the state is kept in the form
    [sent_conn v c cs]: the caller's state [v], in which [c] is not open, with
    [c] open and the commands [cs] sent and pending. *)

Definition sent_conn (v : view) (c : conn) (cs : list command) : view :=
  set_pend v (<[c := cs]> (v_pend v)).

Lemma set_db_id v : set_db v (v_db v) = v.
Proof. by destruct v. Qed.

Section ConnRules.
Context `{Sys}.
Context {A : Type}.
Implicit Types (v : view) (c : conn) (d : db) (Q : A -> view -> Prop).

(** A command that returned an error. *)
Definition cmd_failed (d : db) (cmd : command) (d' : db) : Prop :=
  (wrong_type d cmd /\ d' = d) \/
  (sys_faulty = true /\ (d' = d \/ exists a, cmd_ok d cmd a d')).

Lemma wp_get_conn p k v Q :
  (sys_faulty = true -> forall m, wp (k (inr m)) v Q) ->
  (forall c, v_pend v !! c = None -> wp (k (inl c)) (sent_conn v c []) Q) ->
  wp (Vis (GetConn p) k) v Q.
Proof. intros Hm Hc [c|m] v' Hs; cbn in Hs; destruct Hs as [? ->]; auto. Qed.

Lemma wp_do c cmd k v Q :
  v_pend v !! c = None ->
  (forall r d', cmd_ok (v_db v) cmd r d' -> wp (k (inl r)) (sent_conn (set_db v d') c []) Q) ->
  (forall m d', cmd_failed (v_db v) cmd d' -> wp (k (inr m)) (sent_conn (set_db v d') c []) Q) ->
  wp (Vis (Do c cmd) k) (sent_conn v c []) Q.
Proof.
  intros Hc Hok Herr r v' Hs. cbn -[do_step] in Hs.
  rewrite lookup_insert_eq in Hs. destruct r as [r|m]; cbn in Hs.
  - destruct Hs as (d' & Hd & ->). by apply Hok.
  - destruct Hs as [[Hw ->]|[Hf [->|(a & d' & Hd & ->)]]].
    + rewrite <- (set_db_id v). apply Herr. by left.
    + rewrite <- (set_db_id v). apply Herr. by right; auto.
    + apply (Herr m d'). right; eauto.
Qed.

Lemma wp_send c cmd cs k v Q :
  (sys_faulty = true -> forall m, wp (k (Some m)) (sent_conn v c cs) Q) ->
  wp (k None) (sent_conn v c (cs ++ [cmd])) Q ->
  wp (Vis (Send c cmd) k) (sent_conn v c cs) Q.
Proof.
  intros Herr Hok [m|] v' Hs; cbn in Hs.
  - destruct Hs as [? ->]; auto.
  - subst v'. rewrite lookup_insert_eq; cbn. by rewrite insert_insert_eq.
Qed.

Lemma wp_exec c cs k v Q :
  v_pend v !! c = None ->
  (forall r d', multi (v_db v) cs r d' -> wp (k (inl r)) (sent_conn (set_db v d') c []) Q) ->
  (forall m d', sys_faulty = true -> (d' = v_db v \/ exists r, multi (v_db v) cs r d') ->
     wp (k (inr m)) (sent_conn (set_db v d') c []) Q) ->
  wp (Vis (Do c EXEC) k) (sent_conn v c (MULTI :: cs)) Q.
Proof.
  intros Hc Hok Herr r v' Hs. cbn -[exec_step] in Hs.
  rewrite lookup_insert_eq in Hs. destruct r as [r|m]; cbn in Hs.
  - destruct Hs as (d' & Hd & ->). cbn.
    unfold open_conn, set_pend; cbn. rewrite insert_insert_eq. by apply (Hok r d').
  - destruct Hs as [Hf [->|(a & d' & Hd & ->)]]; cbn;
      unfold open_conn, set_pend; cbn; rewrite insert_insert_eq.
    + destruct v; apply (Herr m v_db0); auto.
    + apply (Herr m d'); eauto.
Qed.

Lemma wp_close c cs k v Q :
  v_pend v !! c = None ->
  (forall d', close_step v cs d' -> wp (k tt) (set_db v d') Q) ->
  wp (Vis (CloseConn c) k) (sent_conn v c cs) Q.
Proof.
  intros Hc HQ [] v' Hs. cbn in Hs. rewrite lookup_insert_eq in Hs.
  destruct Hs as (d' & Hd & ->). rewrite delete_insert_id by done. by apply HQ.
Qed.

Lemma close_idle v d' : close_step v [] d' -> d' = v_db v.
Proof. intros [?|[_ [n Hn]]]; [done|]. by destruct n. Qed.

Lemma wp_close_idle c k v Q :
  v_pend v !! c = None -> wp (k tt) v Q -> wp (Vis (CloseConn c) k) (sent_conn v c []) Q.
Proof.
  intros Hc HQ. apply wp_close; [done|]. intros d' ->%close_idle. by rewrite set_db_id.
Qed.

Lemma wp_now k v Q :
  (forall t, v_now v <= t -> wp (k t) (set_now v t) Q) -> wp (Vis Now k) v Q.
Proof. intros HQ t v' [? ->]. by apply HQ. Qed.

Lemma wp_now_conn c cs k v Q :
  (forall t, v_now v <= t -> wp (k t) (sent_conn (set_now v t) c cs) Q) ->
  wp (Vis Now k) (sent_conn v c cs) Q.
Proof. intros HQ t v' [? ->]. by apply HQ. Qed.

Lemma wp_new_xid k v Q :
  (forall i, i ∉ v_xids v -> is_xid i = true ->
     wp (k i) (set_xids v ({[i]} ∪ v_xids v)) Q) ->
  wp (Vis NewXid k) v Q.
Proof. intros HQ i v' (? & ? & ->). by apply HQ. Qed.

Lemma wp_lock n expiry k v Q :
  (forall token t, v_now v <= t -> lock_free v n t -> wp (k (inl token)) (lock_taken v n token expiry t) Q) ->
  (forall m, ~ lock_free v n (v_now v) -> wp (k (inr m)) v Q) ->
  (sys_faulty = true -> forall m, wp (k (inr m)) v Q) ->
  (sys_faulty = true -> forall m token t, v_now v <= t -> lock_free v n t ->
     wp (k (inr m)) (lock_taken v n token expiry t) Q) ->
  wp (Vis (Lock n expiry) k) v Q.
Proof.
  intros Hok Hheld Herr Hlost [token|m] v' Hs; cbn in Hs.
  - destruct Hs as (t & Ht & Hn & ->). auto.
  - destruct Hs as [[Hn ->]|[Hf [->|(token & t & Ht & Hn & ->)]]]; auto.
Qed.

Lemma wp_unlock n token k v Q :
  (forall r, wp (k r) (unlocked v n token) Q) ->
  (sys_faulty = true -> forall m, wp (k (inr m)) v Q) ->
  wp (Vis (Unlock n token) k) v Q.
Proof. intros Hok Herr [b|m] v' Hs; cbn in Hs; [destruct Hs as [_ ->]|destruct Hs as [->|[? ->]]]; auto. Qed.

Lemma wp_close_pool k v Q :
  wp (k None) v Q -> (sys_faulty = true -> forall m, wp (k (Some m)) v Q) -> wp (Vis ClosePool k) v Q.
Proof. intros Hok Herr [m|] v' [Hr ->]; [|done]. apply Herr. by apply Hr. Qed.

Lemma wp_sched k v Q : (forall l, wp (k l) v Q) -> wp (Vis Sched k) v Q.
Proof. intros HQ l v' ->. apply HQ. Qed.

(** What giving a mutex back leaves. *)
Lemma unlocked_taken v n token expiry t v' : v_locks v' = v_locks (lock_taken v n token expiry t) ->
  unlocked v' n token = set_locks v' (delete n (v_locks v)).
Proof. intros Hl. unfold unlocked. rewrite Hl. cbn. rewrite lookup_insert_eq, decide_True by done. by rewrite delete_insert_eq. Qed.

Lemma unlocked_db v n token : v_db (unlocked v n token) = v_db v.
Proof. unfold unlocked. by repeat case_match. Qed.

End ConnRules.

(** One symbolic step of a program, the state kept in [sent_conn] form. *)
Ltac wp_step :=
  match goal with
  | |- wp (Ret _) _ _ => cbn [wp]
  | |- wp (Vis (GetConn _) _) _ _ => apply wp_get_conn; [intros ? ?|intros ? ?]
  | |- wp (Vis (Do _ _) _) _ _ => apply wp_do; [done| intros ? ? ?|intros ? ? ?]
  | |- wp (Vis (Send _ _) _) _ _ => apply wp_send; [intros ? ?|]
  | |- wp (Vis Now _) _ _ => apply wp_now; intros ? ?
  | |- wp (Vis NewXid _) _ _ => apply wp_new_xid; intros ? ? ?
  end.

(** Expose the head effect of a program. *)
Ltac prog_cbn := cbn [rbind redis_do redis_send prog_bind ret_ok ret_err trigger mret prog_ret].

Section WithConn.
Context `{Sys}.

Lemma wp_with_conn {A} p mk (body : conn -> prog (result A)) v (Q : result A -> view -> Prop) :
  (sys_faulty = true -> forall m, Q (Err (mk m)) v) ->
  (forall c, v_pend v !! c = None ->
     wp (body c) (sent_conn v c [])
       (fun r v' => wp (Vis (CloseConn c) (fun _ => Ret r)) v' Q)) ->
  wp (with_conn p mk body) v Q.
Proof.
  intros Herr Hok. apply wp_get_conn; [exact Herr|]. intros c Hc.
  apply wp_bind. eapply wp_mono; [by apply Hok|]. done.
Qed.

(** The common shape: one command on a fresh connection. *)
Lemma wp_with_conn_do {A} p mk cmd mk' (k : reply cmd -> result A) v (Q : result A -> view -> Prop) :
  (sys_faulty = true -> forall m, Q (Err (mk m)) v) ->
  (forall m d', cmd_failed (v_db v) cmd d' -> Q (Err (mk' m)) (set_db v d')) ->
  (forall r d', cmd_ok (v_db v) cmd r d' -> Q (k r) (set_db v d')) ->
  wp (with_conn p mk (fun c => rbind (redis_do c cmd mk') (fun r => Ret (k r)))) v Q.
Proof.
  intros Hc Herr Hok. apply wp_with_conn; [done|]. intros c Hc'.
  apply wp_do; [done|intros r d' Hd|intros m d' Hd]; prog_cbn;
    apply wp_ret, wp_close_idle; cbn; auto.
Qed.

Lemma wp_with_conn_send {A} p mk cmd mk' (a : A) v (Q : result A -> view -> Prop) :
  is_multi [cmd] = false ->
  (sys_faulty = true -> forall m, Q (Err (mk m)) v) ->
  (sys_faulty = true -> forall m, Q (Err (mk' m)) v) ->
  (sys_faulty = true -> Q (Ok a) v) ->
  (forall d', cmd_effect (v_db v) cmd d' -> Q (Ok a) (set_db v d')) ->
  wp (with_conn p mk (fun c => rbind (redis_send c cmd mk') (fun _ => Ret (Ok a)))) v Q.
Proof.
  intros Hm Hc Herr Hlost Hok. apply wp_with_conn; [done|]. intros c Hc'.
  apply wp_send; [intros Hf m|]; prog_cbn; apply wp_ret.
  - apply wp_close_idle; cbn; auto.
  - apply wp_close; [done|]. intros d' Hd. unfold close_step in Hd. cbn [app] in Hd. rewrite Hm in Hd.
    assert (forall n, pipeline (v_db v) (take n [cmd]) d' -> cmd_effect (v_db v) cmd d' \/ d' = v_db v) as Hp.
    { intros [|n]; cbn; [auto|]. rewrite take_nil; cbn. intros (d1 & ? & ->); auto. }
    destruct Hd as [(d1 & He & Hd)|[Hf [n Hn]]]; cbn in *.
    + subst d'. by apply Hok.
    + destruct (Hp n Hn) as [He|Heq]; [by apply Hok|]. subst. rewrite set_db_id. auto.
Qed.
End WithConn.

(** The value of a function body is known: close the connection and return. *)
Ltac wp_done := apply wp_ret, wp_close_idle; [done|]; apply wp_ret.

(** One command on the held connection, then the rest of the body. *)
Tactic Notation "wp_do" "as" simple_intropattern(r) simple_intropattern(d) simple_intropattern(H)
    "|" simple_intropattern(m) simple_intropattern(d') simple_intropattern(H') :=
  apply wp_do; [done|intros r d H|intros m d' H']; prog_cbn.
