(* ===== verification/Conns.v ===== *)
(** * A program's own connections

    A step of a program that uses the connections it opened leaves those of
    every other program as they are. *)
From S2P Require Export Effects.

#[global] Instance command_eq_dec : EqDecision command.
Proof. solve_decision. Defined.

Section Conns.
Context `{Sys}.
Implicit Types (v : view) (C : gmap conn (list command)).

(** One command at a time, a pipeline or a transaction, on connections of
    one's own; [C] holds what has been sent on each. *)
Definition conn_ok C (e : eff) : Prop :=
  match e with
  | Do c cmd => C !! c = Some [] \/ cmd = EXEC /\ exists cs, C !! c = Some (MULTI :: cs)
  | Send c _ | CloseConn c => is_Some (C !! c)
  | _ => True
  end.

(** One's connections after a step. *)
Definition pend_after (e : eff) : resp e -> gmap conn (list command) -> gmap conn (list command) :=
  match e with
  | GetConn _ => fun r C => match r with inl c => <[c := []]> C | inr _ => C end
  | Send c cmd => fun r C => match r with None => <[c := default [] (C !! c) ++ [cmd]]> C | Some _ => C end
  | CloseConn c => fun _ C => delete c C
  | Do c EXEC => fun _ C => <[c := []]> C
  | _ => fun _ C => C
  end.

(** A command touches the keyspace only; a transaction also empties its
    connection. *)
Lemma do_step_db v cmd r v' : do_step v cmd r v' -> exists d', v' = set_db v d'.
Proof.
  destruct r as [a|m]; cbn; [intros (d' & _ & ->); eauto|].
  intros [[_ ->]|[_ [->|(a & d' & _ & ->)]]]; [exists (v_db v)..|eauto]; by rewrite set_db_id.
Qed.

Lemma exec_step_db v c cs r v' : exec_step v c cs r v' -> exists d', v' = set_db (open_conn v c) d'.
Proof.
  destruct r as [a|m]; cbn; [intros (d' & _ & ->); eauto|].
  intros [_ [->|(a & d' & _ & ->)]]; [|eauto]. exists (v_db v). by destruct v.
Qed.

Lemma open_idle v c : v_pend v !! c = Some [] -> open_conn v c = v.
Proof. intros Hc. unfold open_conn, set_pend. rewrite insert_id by done. by destruct v. Qed.

(** What the step does to the connections, one's own and the others. *)
Record conn_frame C v C' v' : Prop := mkConnFrame {
  cf_own : C' ⊆ v_pend v';
  cf_new c : is_Some (C' !! c) -> is_Some (C !! c) \/ v_pend v !! c = None;
  cf_rest c : C !! c = None -> C' !! c = None -> v_pend v' !! c = v_pend v !! c;
  cf_closed c : is_Some (C !! c) -> C' !! c = None -> v_pend v' !! c = None;
}.

Lemma cf_others C v C' v' c cs : conn_frame C v C' v' -> C !! c = None -> v_pend v !! c = Some cs -> v_pend v' !! c = Some cs.
Proof.
  intros [_ Hn Hr _] Hc Hv. rewrite Hr; [done..|]. destruct (C' !! c) eqn:HC; [|done].
  destruct (Hn c ltac:(by rewrite HC)) as [[? ?]|?]; congruence.
Qed.

Lemma frame_same C v v' : C ⊆ v_pend v -> v_pend v' = v_pend v -> conn_frame C v C v'.
Proof. intros HC Hv. split; rewrite ?Hv; auto. intros c [? Hc]. congruence. Qed.

Lemma frame_set C v c cs v' : C ⊆ v_pend v -> is_Some (C !! c) \/ v_pend v !! c = None ->
  v_pend v' = <[c := cs]> (v_pend v) -> conn_frame C v (<[c := cs]> C) v'.
Proof.
  intros HC Hc Hv. split; rewrite ?Hv.
  - by apply insert_mono.
  - intros c'. rewrite lookup_insert_is_Some. intros [<-|[_ ?]]; auto.
  - intros c' _ [_ Hne]%lookup_insert_None. by rewrite lookup_insert_ne.
  - intros c' [? Hc'] [Hn _]%lookup_insert_None. congruence.
Qed.

Lemma step_conns C v e r v' : conn_ok C e -> C ⊆ v_pend v -> estep v e r v' -> conn_frame C v (pend_after e r C) v'.
Proof.
  intros Ha HC Hs. destruct e as [q|c cmd|c cmd|c| | |n expiry|n token| |]; cbn -[do_step exec_step close_step] in *.
  - destruct r as [c|m]; destruct Hs as [Hc ->]; [|by apply frame_same]. apply frame_set; auto.
  - destruct (decide (cmd = EXEC)) as [->|Hex].
    + assert (exists d', v' = set_db (open_conn v c) d') as [d' ->].
      { destruct Ha as [Ha|[_ [cs Ha]]]; rewrite (lookup_weaken _ _ _ _ Ha HC) in Hs; [|by eapply exec_step_db].
        rewrite (open_idle v c) by (by eapply lookup_weaken). by eapply do_step_db. }
      apply frame_set; [done| |done]. left. destruct Ha as [->|[_ [cs ->]]]; by eexists.
    + destruct Ha as [Ha|[? _]]; [|done]. rewrite (lookup_weaken _ _ _ _ Ha HC) in Hs. apply do_step_db in Hs as [d' ->].
      destruct cmd; try done; by apply frame_same.
  - destruct Ha as [cs Hcs]. destruct r as [m|]; [destruct Hs as [_ ->]; by apply frame_same|]. subst v'.
    rewrite (lookup_weaken _ _ _ _ Hcs HC), Hcs. apply frame_set; [done|left; by eexists|done].
  - destruct Ha as [cs Hcs]. rewrite (lookup_weaken _ _ _ _ Hcs HC) in Hs. destruct Hs as (d' & _ & ->). split; cbn.
    + by apply delete_mono.
    + intros c'. rewrite lookup_delete_is_Some. intros [_ ?]; auto.
    + intros c' Hc' _. rewrite lookup_delete_ne by congruence. done.
    + intros c' [x Hc'] [->|?]%lookup_delete_None; [apply lookup_delete_eq|congruence].
  - destruct Hs as [_ ->]. by apply frame_same.
  - destruct Hs as (_ & _ & ->). by apply frame_same.
  - assert (v_pend v' = v_pend v) as Hp; [|by apply frame_same].
    destruct r as [tok|m]; [by destruct Hs as (t & _ & _ & ->)|]. destruct Hs as [[_ ->]|[_ [->|(tok & t & _ & _ & ->)]]]; done.
  - assert (v_pend (unlocked v n token) = v_pend v) as Hu by (unfold unlocked; by repeat case_match).
    destruct r as [b|m]; [destruct Hs as [_ ->]|destruct Hs as [->|[_ ->]]]; by apply frame_same.
  - destruct Hs as [_ ->]. by apply frame_same.
  - subst v'. by apply frame_same.
Qed.

(** Redis's connections have nothing to do with the clock, the ids and the
    mutexes. *)
Lemma step_rest C v e r v' : conn_ok C e -> C ⊆ v_pend v ->
  match e with GetConn _ | Do _ _ | Send _ _ | CloseConn _ => True | _ => False end -> estep v e r v' ->
  v_now v' = v_now v /\ v_xids v' = v_xids v /\ v_locks v' = v_locks v.
Proof.
  intros Ha HC Hk Hs. destruct e as [q|c cmd|c cmd|c| | |n expiry|n token| |]; try done; cbn -[do_step exec_step close_step] in *.
  - destruct r; by destruct Hs as [_ ->].
  - destruct Ha as [Ha|[-> [cs Ha]]]; rewrite (lookup_weaken _ _ _ _ Ha HC) in Hs.
    + by apply do_step_db in Hs as [d' ->].
    + by apply exec_step_db in Hs as [d' ->].
  - destruct r; [by destruct Hs as [_ ->]|by subst v'].
  - destruct Ha as [cs Hcs]. rewrite (lookup_weaken _ _ _ _ Hcs HC) in Hs. by destruct Hs as (d' & _ & ->).
Qed.
End Conns.
