(* ===== verification/MemEnv.v ===== *)
(** * A concrete outside world

    An in-memory Redis with its connections, mutexes, a clock that advances
    at every reading and an id counter, and a concrete encoding of the stored
    messages. They satisfy the laws assumed of the real ones, so that the
    theorems can be run on concrete inputs. *)
From S2P Require Export Effects Config.

(** ** Encoding of the stored messages *)

#[global] Instance spec_float_countable : Countable spec_float :=
  inj_countable'
    (fun f => match f with
              | S754_zero s => inl (inl s)
              | S754_infinity s => inl (inr s)
              | S754_nan => inr (inl tt)
              | S754_finite s m e => inr (inr (s, m, e))
              end)
    (fun x => match x with
              | inl (inl s) => S754_zero s
              | inl (inr s) => S754_infinity s
              | inr (inl _) => S754_nan
              | inr (inr (s, m, e)) => S754_finite s m e
              end) ltac:(by intros []).

#[global] Instance any_countable : Countable Any :=
  inj_countable' (fun a => (any_url a, any_value a)) (fun x => mkAny x.1 x.2) ltac:(by intros []).

#[global] Instance timestamp_countable : Countable Timestamp :=
  inj_countable' (fun a => (ts_seconds a, ts_nanos a)) (fun x => mkTimestamp x.1 x.2) ltac:(by intros []).

#[global] Instance assignment_countable : Countable Assignment :=
  inj_countable' (fun a => (a_Connection a, a_Extensions a)) (fun x => mkAssignment x.1 x.2)
    ltac:(by intros []).

#[global] Instance search_fields_countable : Countable SearchFields :=
  inj_countable' (fun a => (sf_DoubleArgs a, sf_StringArgs a, sf_Tags a))
    (fun '(d, s, t) => mkSearchFields d s t) ltac:(by intros []).

#[global] Instance ticket_countable : Countable Ticket :=
  inj_countable'
    (fun a => ((t_Id a, t_Assignment a), (t_SearchFields a, t_Extensions a),
               (t_PersistentField a, t_CreateTime a)))
    (fun '((i, a), (s, e), (p, c)) => mkTicket i a s e p c) ltac:(by intros []).

#[global] Instance backfill_countable : Countable Backfill :=
  inj_countable'
    (fun a => ((b_Id a, b_SearchFields a), (b_Extensions a, b_PersistentField a),
               (b_CreateTime a, b_Generation a)))
    (fun '((i, s), (e, p), (c, g)) => mkBackfill i s e p c g) ltac:(by intros []).

#[global] Instance backfill_internal_countable : Countable BackfillInternal :=
  inj_countable' (fun a => (bi_Backfill a, bi_TicketIds a)) (fun x => mkBackfillInternal x.1 x.2)
    ltac:(by intros []).

Fixpoint bits_of_pos (p : positive) : string :=
  match p with
  | xH => ""
  | xO p => String "0"%char (bits_of_pos p)
  | xI p => String "1"%char (bits_of_pos p)
  end.

Fixpoint pos_of_bits (s : string) : positive :=
  match s with
  | "" => xH
  | String "1"%char s => xI (pos_of_bits s)
  | String _ s => xO (pos_of_bits s)
  end.

Lemma pos_of_bits_of_pos p : pos_of_bits (bits_of_pos p) = p.
Proof. induction p as [p IH|p IH|]; cbn; by rewrite ?IH. Qed.

Definition encode_str {A} `{Countable A} (a : A) : string := bits_of_pos (encode a).
Definition decode_str {A} `{Countable A} (s : string) : option A := decode (pos_of_bits s).

Lemma decode_encode_str {A} `{Countable A} (a : A) : decode_str (encode_str a) = Some a.
Proof. unfold decode_str, encode_str. by rewrite pos_of_bits_of_pos, decode_encode. Qed.

(** The bytes of a message start with its type. *)
Definition untag {A} `{Countable A} (tag : ascii) (s : string) : option A :=
  match s with
  | String c s => if decide (c = tag) then decode_str s else None
  | "" => None
  end.

#[global] Instance mem_proto : Proto := {
  marshal_ticket t := Some (String "T" (encode_str t));
  unmarshal_ticket := untag "T";
  marshal_backfill b := Some (String "B" (encode_str b));
  unmarshal_backfill := untag "B";
  TimestampNow t := mkTimestamp (t / 10 ^ 9) (t mod 10 ^ 9);
  ptypes_Timestamp ts :=
    if (-62135596800 <=? ts_seconds ts) && (ts_seconds ts <? 253402300800)
       && (0 <=? ts_nanos ts) && (ts_nanos ts <? 10 ^ 9)
    then Some (ts_seconds ts * 10 ^ 9 + ts_nanos ts) else None;
}.

#[global] Instance mem_proto_laws : ProtoLaws.
Proof.
  split.
  - intros t b [= <-]. apply decode_encode_str.
  - intros t b [= <-]. apply decode_encode_str.
  - intros z Hz. cbn -[Z.mul Z.pow].
    pose proof (Z.div_mod z (10 ^ 9) ltac:(lia)) as Hd.
    pose proof (Z.mod_pos_bound z (10 ^ 9) ltac:(lia)) as Hm.
    rewrite (proj2 (Z.leb_le _ _)) by lia. rewrite (proj2 (Z.ltb_lt _ 253402300800)) by lia.
    rewrite (proj2 (Z.leb_le 0 _)) by lia. rewrite (proj2 (Z.ltb_lt _ (10 ^ 9))) by lia.
    cbn [andb]. f_equal. lia.
Qed.

(** ** The keyspace *)

(** No faults; scores at the spacing of doubles near current nanosecond
    clocks. *)
#[global] Instance mem_sys : Sys := {
  sys_faulty := false;
  sys_score z := (z + 128) / 256 * 256;
  sys_score_mono a b H := Z.mul_le_mono_nonneg_r _ _ 256 ltac:(lia)
    (Z.div_le_mono (a + 128) (b + 128) 256 ltac:(lia) ltac:(lia));
}.

Definition zrange (z : gmap string Z) (lo hi : Z) : list string :=
  (filter (fun p => sys_score lo <= p.2 <= sys_score hi) (map_to_list z)).*1.

Definition need {A B} (o : option A) (d : db) (f : A -> B * db) : (B + string) * db :=
  match o with
  | Some a => let '(b, d') := f a in (inl b, d')
  | None => (inr "WRONGTYPE Operation against a key holding the wrong kind of value", d)
  end.

Definition mem_exec (d : db) (c : command) : (reply c + string) * db :=
  match c with
  | SET k v => (inl tt, put_str d k v None)
  | SETXX k v px => (inl (setxx d k v px).1, (setxx d k v px).2)
  | SETNX k v => match d !! k with None => (inl 1, put_str d k v None) | Some _ => (inl 0, d) end
  | GET k =>
      match d !! k with
      | None => (inl None, d)
      | Some (mkEntry (RStr s) _) => (inl (Some s), d)
      | Some _ => (inr "WRONGTYPE Operation against a key holding the wrong kind of value", d)
      end
  | DEL k => (inl (if decide (is_Some (d !! k)) then 1 else 0), delete k d)
  | MGET ks => (inl (get_str d <$> ks), d)
  | SADD k m => need (get_set d k) d (fun s => (if decide (m ∈ s) then 0 else 1, put_set d k ({[m]} ∪ s)))
  | SREM k m => need (get_set d k) d (fun s => (if decide (m ∈ s) then 1 else 0, put_set d k (s ∖ {[m]})))
  | SMEMBERS k => need (get_set d k) d (fun s => (elements s, d))
  | ZADD k l => need (get_zset d k) d (fun z =>
      (Z.of_nat (size (zadd_all z l)) - Z.of_nat (size z), put_zset d k (zadd_all z l)))
  | ZREM k l => need (get_zset d k) d (fun z =>
      (Z.of_nat (size z) - Z.of_nat (size (zrem_all z l)), put_zset d k (zrem_all z l)))
  | ZRANGEBYSCORE k lo hi => need (get_zset d k) d (fun z => (zrange z lo hi, d))
  | ZSCORE k m => need (get_zset d k) d (fun z => (z !! m, d))
  | HSET k f v => need (get_hash d k) d (fun h =>
      (if decide (is_Some (h !! f)) then 0 else 1, put_hash d k (<[f := v]> h)))
  | HDEL k f => need (get_hash d k) d (fun h =>
      (if decide (is_Some (h !! f)) then 1 else 0, put_hash d k (delete f h)))
  | HGETALL k => need (get_hash d k) d (fun h => (h, d))
  | MULTI | PING => (inl tt, d)
  | EXEC => (inl [], d)
  end.

Lemma mem_exec_ok d c :
  match mem_exec d c with
  | (inl r, d') => cmd_ok d c r d'
  | (inr _, d') => wrong_type d c /\ d' = d
  end.
Proof.
  assert (forall k m z, NoDup (zrange z k m) /\
    (forall x, x ∈ zrange z k m <-> exists s, z !! x = Some s /\ sys_score k <= s <= sys_score m)) as Hz.
  { intros lo hi z. split.
    - unfold zrange. eapply sublist_NoDup; [apply (NoDup_fst_map_to_list z)|].
      apply fmap_sublist, sublist_filter.
    - intros m. unfold zrange. rewrite list_elem_of_fmap. setoid_rewrite list_elem_of_filter. split.
      + intros ([k' s] & -> & Hs & Hin). exists s. split; [by apply elem_of_map_to_list|done].
      + intros (s & Hm & Hs). exists (m, s). split; [done|]. split; [done|]. by apply elem_of_map_to_list. }
  destruct c; cbn -[zadd_all zrange]; try done.
  { by destruct (setxx d k v px). }
  all: try by unfold need; repeat case_match; simplify_eq; cbn; auto.
  - unfold get_str. destruct (d !! k) as [[[] ?]|]; cbn; repeat split; eauto.
  - unfold need. destruct (get_set d k); [|done].
    repeat split; [apply NoDup_elements|apply list_to_set_elements_L].
  - unfold need. destruct (get_zset d k) as [z|]; [|done].
    destruct (Hz lo hi z) as [Hn He]. split; [exact Hn|]. split; [done|exact He].
Qed.

(** ** The world *)

Record mem := mkMem {
  m_db : db;
  m_pend : gmap conn (list command);
  m_now : Z;
  m_ids : nat;
  m_locks : gmap string (string * Z);
}.

Fixpoint mem_id (n : nat) : string :=
  match n with O => "0" | S n => String "1"%char (mem_id n) end.

Definition mem_view (w : mem) : view :=
  mkView (m_db w) (m_pend w) (m_now w) (list_to_set (mem_id <$> seq 0 (m_ids w))) (m_locks w).

Fixpoint mem_multi (d : db) (cs : list command) : list (option string) * db :=
  match cs with
  | SETXX k v px :: cs =>
      let '(r, d) := setxx d k v px in
      let '(rs, d) := mem_multi d cs in (r :: rs, d)
  | _ => ([], d)
  end.

Definition mem_do (w : mem) (c : conn) (cmd : command) : (reply cmd + string) * mem :=
  match m_pend w !! c with
  | Some [] =>
      let '(r, d) := mem_exec (m_db w) cmd in
      (r, mkMem d (m_pend w) (m_now w) (m_ids w) (m_locks w))
  | Some (MULTI :: cs) =>
      match cmd as cmd return (reply cmd + string) * mem with
      | EXEC =>
          let '(rs, d) := mem_multi (m_db w) cs in
          (inl rs, mkMem d (<[c := []]> (m_pend w)) (m_now w) (m_ids w) (m_locks w))
      | _ => (inr "unexpected command in a transaction", w)
      end
  | _ => (inr "unexpected pending commands", w)
  end.

Definition mem_close (w : mem) (c : conn) : mem :=
  match m_pend w !! c with
  | Some cs =>
      let d := if is_multi cs then m_db w else foldl (fun d cmd => (mem_exec d cmd).2) (m_db w) cs in
      mkMem d (delete c (m_pend w)) (m_now w) (m_ids w) (m_locks w)
  | None => w
  end.

(** A mutex is taken at the current time; its value is that time. *)
Definition mem_lock (w : mem) (n : string) (expiry : Z) : (string + string) * mem :=
  let token := itoa (m_now w) in
  (inl token, mkMem (m_db w) (m_pend w) (m_now w) (m_ids w) (<[n := (token, lock_until (m_now w) expiry)]> (m_locks w))).

Definition mem_unlock (w : mem) (n token : string) : (bool + string) * mem :=
  match m_locks w !! n with
  | Some (token', _) =>
      if decide (token' = token)
      then (inl true, mkMem (m_db w) (m_pend w) (m_now w) (m_ids w) (delete n (m_locks w)))
      else (inl false, w)
  | None => (inl false, w)
  end.

(** Three goroutines take turns. *)
Definition mem_schedule : list nat := concat (replicate 40 [0; 1; 2]%nat).

(** The clock advances by a millisecond at every reading. *)
Definition mem_handle (e : eff) (w : mem) : resp e * mem :=
  match e as e return resp e * mem with
  | GetConn _ =>
      let c := fresh (dom (m_pend w)) in
      (inl c, mkMem (m_db w) (<[c := []]> (m_pend w)) (m_now w) (m_ids w) (m_locks w))
  | Do c cmd => mem_do w c cmd
  | Send c cmd =>
      (None, mkMem (m_db w) (<[c := default [] (m_pend w !! c) ++ [cmd]]> (m_pend w)) (m_now w)
               (m_ids w) (m_locks w))
  | CloseConn c => (tt, mem_close w c)
  | Now =>
      let t := m_now w + 10 ^ 6 in (t, mkMem (m_db w) (m_pend w) t (m_ids w) (m_locks w))
  | NewXid => (mem_id (m_ids w), mkMem (m_db w) (m_pend w) (m_now w) (S (m_ids w)) (m_locks w))
  | Lock n expiry =>
      match m_locks w !! n with
      | Some (_, until) =>
          if m_now w <? until then (inr "lock already taken", w) else mem_lock w n expiry
      | None => mem_lock w n expiry
      end
  | Unlock n token => mem_unlock w n token
  | ClosePool => (None, w)
  | Sched => (mem_schedule, w)
  end.

#[global] Instance mem_env : Environment := {
  env_state := mem;
  env_view := mem_view;
  env_handle := mem_handle;
}.

(** Empty, at a clock reading of the year 2021. *)
Definition mem_init : env_state := mkMem ∅ ∅ (1614556800 * 10 ^ 9) 0 ∅.

Lemma mem_id_inj n m : mem_id n = mem_id m -> n = m.
Proof. revert m. induction n as [|n IH]; intros [|m] [=]; auto. Qed.

Lemma mem_id_xid n : is_xid (mem_id n) = true.
Proof.
  assert (xid_chars (mem_id n) = true) as Hc by (induction n; [done|]; cbn in *; done).
  by destruct n.
Qed.

Lemma mem_multi_ok d cs : multi d cs (mem_multi d cs).1 (mem_multi d cs).2.
Proof.
  revert d. induction cs as [|[] cs IH]; intros d; cbn; try done.
  destruct (setxx d k v px) as [r d1] eqn:Hs. specialize (IH d1).
  destruct (mem_multi d1 cs) as [rs d2] eqn:Hm. cbn in *. done.
Qed.

Lemma mem_pipeline_ok d cs : pipeline d cs (foldl (fun d cmd => (mem_exec d cmd).2) d cs).
Proof.
  revert d. induction cs as [|c cs IH]; intros d; cbn; [done|].
  exists (mem_exec d c).2. split; [|apply IH].
  pose proof (mem_exec_ok d c) as He. destruct (mem_exec d c) as [[r|m] d1]; cbn;
    [left; eauto|right; done].
Qed.

#[global] Instance mem_env_laws : EnvironmentLaws.
Proof.
  intros e w r w' He. destruct e as [p|c cmd|c cmd|c| | |n expiry|n token| |]; cbn -[do_step exec_step close_step] in *;
    simplify_eq.
  - split; [|done]. apply not_elem_of_dom, is_fresh.
  - unfold mem_do in He. destruct (m_pend w !! c) as [[|[] cs]|]; try done.
    + pose proof (mem_exec_ok (m_db w) cmd) as Hx. destruct (mem_exec (m_db w) cmd) as [rr d].
      simplify_eq. destruct r as [a|m]; cbn; [eauto|]. destruct Hx as [? ->]. left. by destruct w.
    + destruct cmd; try done. pose proof (mem_multi_ok (m_db w) cs) as Hx.
      destruct (mem_multi (m_db w) cs) as [rs d]. simplify_eq. cbn. eauto.
  - done.
  - unfold mem_close. destruct (m_pend w !! c) as [cs|] eqn:Hc; [|done].
    eexists; split; [|done]. unfold close_step. cbn. destruct (is_multi cs); [done|].
    left. apply mem_pipeline_ok.
  - split; [lia|done].
  - split; [|split; [apply mem_id_xid|]].
    + rewrite elem_of_list_to_set, list_elem_of_fmap. intros (n & Hn%mem_id_inj & Hin).
      apply elem_of_seq in Hin. lia.
    + unfold mem_view, set_xids. cbn -[seq]. f_equal.
      rewrite seq_S, fmap_app, list_to_set_app_L. cbn. set_solver.
  - assert (forall r w', mem_lock w n expiry = (r, w') -> lock_free (mem_view w) n (m_now w) ->
      estep (mem_view w) (Lock n expiry) r (mem_view w')) as Hok.
    { intros r1 w1 [= <- <-] Hn. exists (m_now w). by repeat split. }
    destruct (m_locks w !! n) as [[tok until]|] eqn:Hl.
    + case_match; simplify_eq; [|apply Hok; [done|]; unfold lock_free; cbn; rewrite Hl; lia].
      left. split; [|done]. unfold lock_free. cbn. rewrite Hl. lia.
    + apply Hok; [done|]. unfold lock_free. cbn. by rewrite Hl.
  - unfold mem_unlock in He. unfold unlocked. cbn. destruct (m_locks w !! n) as [[tok until]|]; [|by simplify_eq].
    case_decide; simplify_eq; [|done]. split; [by eexists|done].
  - done.
  - done.
Qed.

(** ** Concrete inputs *)

#[global] Instance mem_order : MapOrder := {
  map_iter A m := map_to_list m;
  set_iter s := elements s;
  map_iter_perm A m := reflexivity _;
  set_iter_perm s := reflexivity _;
}.


(** A configuration: one-minute timeouts, no metrics. *)
Definition mem_cfg : View := {|
  IsSet _ := false;
  GetString _ := "";
  GetInt _ := 0;
  GetInt64 _ := 0;
  GetFloat64 _ := S754_nan;
  GetStringSlice _ := [];
  GetBool _ := false;
  GetDuration _ := time_Minute;
|}.

Definition mem_ticket (id : string) : Ticket :=
  mkTicket id None (Some (mkSearchFields ∅ {["mode" := "demo"]} ["beta"])) ∅ ∅
    (Some (mkTimestamp 1614556800 0)).

Definition mem_backfill (id : string) (gen : Z) : Backfill :=
  mkBackfill id None ∅ ∅ (Some (mkTimestamp 1614556800 0)) gen.

(** The answer and the world after a run. *)
Abbreviation ans p w := (run p w).1.
Abbreviation after p w := (run p w).2.

(** Discharge a hypothesis of a theorem at a concrete input. *)
Ltac concrete :=
  lazymatch goal with
  | |- _ = (_.1, _.2) => apply surjective_pairing
  | |- _ = _ => first [vm_compute; reflexivity | done | apply surjective_pairing]
  | |- _ <= _ => vm_compute; discriminate
  | |- _ < _ => vm_compute; reflexivity
  | |- _ => first [refine (bool_decide_unpack _ _); vm_compute; exact I | done | solve [vm_compute; eauto 10]]
  end.
