(* ===== verification/FlakyEnv.v ===== *)
(** * An outside world that fails

    The in-memory world of [MemEnv] behind a network that loses commands or
    their replies according to a plan: it satisfies the laws of an outside
    world in which calls may fail. Its instances are used only where they are
    declared. *)
From S2P Require Export MemEnv.

(** What happens to the next fallible effect: nothing, it is lost, or it is
    performed and its answer is lost. *)
Inductive mishap := Fine | Lost | LostReply.

Record flaky := mkFlaky { fl_mem : mem; fl_plan : list mishap }.

Definition flaky_sys : Sys := {|
  sys_faulty := true;
  sys_score := @sys_score mem_sys;
  sys_score_mono := @sys_score_mono mem_sys;
|}.

Definition next_mishap (w : flaky) : mishap := default Fine (head (fl_plan w)).
Definition broken : string := "broken pipe".

(** A command on a connection: performed when it is not lost. *)
Definition flaky_do (m : mem) (x : mishap) (c : conn) (cmd : command) : (reply cmd + string) * mem :=
  match x with
  | Fine => mem_do m c cmd
  | LostReply => (inr broken, (mem_do m c cmd).2)
  | Lost =>
      (inr broken,
       match m_pend m !! c with
       | Some (MULTI :: _) => mkMem (m_db m) (<[c := []]> (m_pend m)) (m_now m) (m_ids m) (m_locks m)
       | _ => m
       end)
  end.

Definition flaky_effect (x : mishap) (e : eff) (m : mem) : resp e * mem :=
  match e as e return resp e * mem with
  | GetConn p => match x with Fine => mem_handle (GetConn p) m | _ => (inr broken, m) end
  | Do c cmd => flaky_do m x c cmd
  | Send c cmd => match x with Fine => mem_handle (Send c cmd) m | _ => (Some broken, m) end
  | Lock n expiry =>
      match x with
      | Fine => mem_handle (Lock n expiry) m
      | Lost => (inr broken, m)
      | LostReply => (inr broken, (mem_handle (Lock n expiry) m).2)
      end
  | Unlock n token =>
      match x with
      | Fine => mem_unlock m n token
      | Lost => (inr broken, m)
      | LostReply => (inr broken, (mem_unlock m n token).2)
      end
  | ClosePool => match x with Fine => (None, m) | _ => (Some broken, m) end
  | e => mem_handle e m
  end.

(** Effects that cannot fail leave the plan as it is. *)
Definition fallible (e : eff) : bool :=
  match e with GetConn _ | Do _ _ | Send _ _ | Lock _ _ | Unlock _ _ | ClosePool => true | _ => false end.

Definition flaky_handle (e : eff) (w : flaky) : resp e * flaky :=
  let '(r, m) := flaky_effect (next_mishap w) e (fl_mem w) in
  (r, mkFlaky m (if fallible e then tail (fl_plan w) else fl_plan w)).

Definition flaky_env : @Environment flaky_sys := {|
  env_state := flaky;
  env_view w := mem_view (fl_mem w);
  env_handle := flaky_handle;
|}.

(** What may happen without faults may happen with them. *)
Lemma estep_weaken v e r v' : @estep mem_sys v e r v' -> @estep flaky_sys v e r v'.
Proof.
  destruct e as [p|c cmd|c cmd|c| | |n expiry|n token| |]; cbn; try done.
  - destruct r; [done|by intros [? _]].
  - destruct (v_pend v !! c) as [[|[] cs]|]; try done.
    + unfold do_step. destruct r as [a|m]; [done|]. intros [?|[? _]]; [by left|done].
    + destruct cmd; try done. unfold exec_step. destruct r as [a|m]; [done|by intros [? _]].
  - destruct r; [by intros [? _]|done].
  - destruct (v_pend v !! c) as [cs|]; [|done]. intros (d' & Hd & ->). exists d'. split; [|done].
    unfold close_step in *. destruct (is_multi cs); [done|]. destruct Hd as [?|[? _]]; [by left|done].
  - destruct r; [done|]. intros [?|[? _]]; [by left|done].
  - destruct r; [done|]. intros [?|[? _]]; [by left|done].
  - by intros [? ->].
Qed.

Lemma flaky_do_ok m x c cmd r m' : flaky_do m x c cmd = (r, m') -> @estep flaky_sys (mem_view m) (Do c cmd) r (mem_view m').
Proof.
  intros Hx. destruct x; cbn [flaky_do] in Hx.
  { apply estep_weaken. apply (mem_env_laws (Do c cmd) m). exact Hx. }
  - injection Hx as <- <-. cbn. destruct (m_pend m !! c) as [[|[] cs]|]; try done.
    + right. by split; [|left].
    + destruct cmd; try done. unfold exec_step. split; [done|by left].
  - injection Hx as <- <-. pose proof (mem_env_laws (Do c cmd) m (mem_do m c cmd).1 (mem_do m c cmd).2 (surjective_pairing _)) as Hs.
    cbn in *. destruct (m_pend m !! c) as [[|[] cs]|]; try done.
    + unfold do_step in *. destruct (mem_do m c cmd).1 as [a|e]; [right; split; [done|right; eauto]|].
      destruct Hs as [?|[? _]]; [by left|done].
    + destruct cmd; try done. unfold exec_step in *. split; [done|].
      destruct (mem_do m c EXEC).1 as [a|e]; [right; eauto|]. by destruct Hs as [? _].
Qed.

Lemma flaky_mutex_ok m x e : match e with Lock _ _ | Unlock _ _ => True | _ => False end ->
  @estep flaky_sys (mem_view m) e (flaky_effect x e m).1 (mem_view (flaky_effect x e m).2).
Proof.
  intros He. pose proof (mem_env_laws e m (mem_handle e m).1 (mem_handle e m).2 (surjective_pairing _)) as Hs.
  destruct e as [p|c cmd|c cmd|c| | |n expiry|n token| |]; try done.
  - unfold flaky_effect.
    destruct (mem_handle (Lock n expiry) m) as [r m1] eqn:Hm. destruct x; cbn [fst snd].
    { by apply estep_weaken. }
    { right. auto. }
    destruct r as [tok|err]; cbn in Hs |- *.
    + destruct Hs as (t & Ht & Hn & Hv). right. split; [done|]. right. by exists tok, t.
    + destruct Hs as [?|[? _]]; [by left|done].
  - change (mem_handle (Unlock n token) m) with (mem_unlock m n token) in Hs. unfold flaky_effect.
    destruct (mem_unlock m n token) as [r m1]. destruct x; cbn [fst snd].
    { by apply estep_weaken. }
    { right. auto. }
    left. destruct r as [b|err]; cbn in Hs; [by destruct Hs|by destruct Hs as [?|[? _]]].
Qed.

Lemma flaky_env_laws : @EnvironmentLaws flaky_sys flaky_env.
Proof.
  intros e w r w' Hx. cbn in Hx. unfold flaky_handle in Hx.
  destruct (flaky_effect (next_mishap w) e (fl_mem w)) as [r1 m1] eqn:He. injection Hx as <- <-.
  change (@estep flaky_sys (mem_view (fl_mem w)) e r1 (mem_view m1)).
  assert (mem_handle e (fl_mem w) = (r1, m1) -> @estep flaky_sys (mem_view (fl_mem w)) e r1 (mem_view m1)) as Hok
    by (intros Hm; by apply estep_weaken, (mem_env_laws e (fl_mem w))).
  assert (match e with Lock _ _ | Unlock _ _ => True | _ => False end -> @estep flaky_sys (mem_view (fl_mem w)) e r1 (mem_view m1)) as Hmu.
  { intros Hl. pose proof (flaky_mutex_ok (fl_mem w) (next_mishap w) e Hl) as Hf. by rewrite He in Hf. }
  destruct e as [p|c cmd|c cmd|c| | |n expiry|n token| |]; cbn [flaky_effect] in He; try by apply Hok.
  2: by apply (flaky_do_ok _ (next_mishap w)).
  3-4: by apply Hmu.
  all: destruct (next_mishap w); [by apply Hok|injection He as <- <-; cbn; auto..].
Qed.
