(* ===== verification/Store.v ===== *)
(** * The state-store interface ([internal/statestore/public.go])

    [Service] is the interface the frontend, the backend, the query service
    and the synchronizer are written against. [ServiceSpec] is what it
    promises, stated on the keyspace through the readings [ticket_at],
    [backfill_at], [index], [pending], [acks] and [bindex]; clients are
    verified against it, the Redis back end (files [StoreTicket],
    [StoreBackfill], [StoreRedis]) and the instrumented wrapper implement it. *)
From S2P Require Export Effects Config.

(** The keys that are not entity ids. *)
Definition allTickets : string := "allTickets".
Definition proposedTicketIDs : string := "proposed_ticket_ids".
Definition backfillLastAckTime : string := "backfill_last_ack_time".
Definition allBackfills : string := "allBackfills".

Definition reserved : list string :=
  [allTickets; proposedTicketIDs; backfillLastAckTime; allBackfills].

(** [statestore.Service], with [NewMutex(key)] split into its two methods:
    [Lock] answers the value the mutex keeps for [Unlock]. *)
Record Service := mkService {
  svc_HealthCheck : prog (result unit);
  svc_Close : prog (result unit);
  svc_CreateTicket : Ticket -> prog (result unit);
  svc_GetTicket : string -> prog (result Ticket);
  svc_DeleteTicket : string -> prog (result unit);
  svc_IndexTicket : Ticket -> prog (result unit);
  svc_DeindexTicket : string -> prog (result unit);
  svc_GetIndexedIDSet : prog (result (gset string));
  svc_GetTickets : list string -> prog (result (list Ticket));
  svc_UpdateAssignments : AssignTicketsRequest -> prog (result (AssignTicketsResponse * list Ticket));
  svc_GetAssignments : forall S : Type, (S -> option Assignment -> S * result unit) ->
    nat -> string -> S -> prog (S * option error);
  svc_AddTicketsToPendingRelease : list string -> prog (result unit);
  svc_DeleteTicketsFromPendingRelease : list string -> prog (result unit);
  svc_ReleaseAllTickets : prog (result unit);
  svc_CreateBackfill : Backfill -> list string -> prog (result unit);
  svc_GetBackfill : string -> prog (result (option Backfill * list string));
  svc_GetBackfills : list string -> prog (result (list Backfill));
  svc_DeleteBackfill : string -> prog (result unit);
  svc_DeleteBackfillCompletely : string -> prog (result unit);
  svc_UpdateBackfill : Backfill -> list string -> prog (result unit);
  svc_Lock : string -> prog (result string);
  svc_Unlock : string -> string -> prog (result bool);
  svc_CleanupBackfills : prog (result unit);
  svc_UpdateAcknowledgmentTimestamp : string -> prog (result unit);
  svc_GetExpiredBackfillIDs : prog (result (list string));
  svc_IndexBackfill : Backfill -> prog (result unit);
  svc_DeindexBackfill : string -> prog (result unit);
  svc_GetIndexedBackfills : prog (result (gmap string Z));
}.

(** ** Reading the keyspace *)
Section Readings.
Context `{Sys} `{Proto}.

Definition ticket_at (d : db) (id : string) : option Ticket := get_str d id ≫= unmarshal_ticket.
Definition backfill_at (d : db) (id : string) : option BackfillInternal :=
  get_str d id ≫= unmarshal_backfill.
Definition index (d : db) : gset string := default ∅ (get_set d allTickets).
Definition pending (d : db) : gmap string Z := default ∅ (get_zset d proposedTicketIDs).
Definition acks (d : db) : gmap string Z := default ∅ (get_zset d backfillLastAckTime).
Definition bindex (d : db) : gmap string string := default ∅ (get_hash d allBackfills).

(** The four shared keys hold what they should. *)
Definition typed (d : db) : Prop :=
  is_Some (get_set d allTickets) /\ is_Some (get_zset d proposedTicketIDs) /\
  is_Some (get_zset d backfillLastAckTime) /\ is_Some (get_hash d allBackfills).

#[export] Instance typed_dec d : Decision (typed d).
Proof. unfold typed. apply _. Defined.

Definition put_index (d : db) (s : gset string) : db := put_set d allTickets s.
Definition put_pending (d : db) (z : gmap string Z) : db := put_zset d proposedTicketIDs z.
Definition put_acks (d : db) (z : gmap string Z) : db := put_zset d backfillLastAckTime z.
Definition put_bindex (d : db) (h : gmap string string) : db := put_hash d allBackfills h.

(** Whether a member's score lies between two clock readings, as Redis
    compares them. *)
Definition in_window (z : gmap string Z) (lo hi : Z) (m : string) : Prop :=
  exists s, z !! m = Some s /\ sys_score lo <= s <= sys_score hi.

Definition add_pending (d : db) (ids : list string) (t : Z) : db :=
  match ids with
  | [] => d
  | _ => put_pending d (zadd_all (pending d) ((fun id => (t, id)) <$> ids))
  end.

Definition remove_pending (d : db) (ids : list string) : db :=
  match ids with
  | [] => d
  | _ => put_pending d (zrem_all (pending d) ids)
  end.
End Readings.

(** The same state with another keyspace and clock. *)
Definition upd (v : view) (d : db) (t : Z) : view :=
  mkView d (v_pend v) t (v_xids v) (v_locks v).

Lemma upd_id v : upd v (v_db v) (v_now v) = v.
Proof. by destruct v. Qed.

(** ** The contract *)
Section Contract.
Context `{Sys} `{Proto} (cfg : View).

(** A call that failed for an outside reason may have had its effect [R]
    on the keyspace, or none. *)
Definition fault (v v' : view) (R : db -> Prop) : Prop :=
  sys_faulty = true /\
  exists d' t, v_now v <= t /\ (d' = v_db v \/ R d') /\ v' = upd v d' t.

Definition create_ticket_post (ticket : Ticket) (v : view) (r : result unit) (v' : view) : Prop :=
  let stored d' := exists b, marshal_ticket ticket = Some b /\ d' = put_str (v_db v) (t_Id ticket) b None in
  match r with
  | Ok _ => exists d', stored d' /\ v' = set_db v d'
  | Err e =>
      (status_of e = Some Internal /\ marshal_ticket ticket = None /\ v' = v) \/
      ((status_of e = Some Internal \/ status_of e = Some Unavailable) /\ fault v v' stored)
  end.

Definition get_ticket_post (id : string) (v : view) (r : result Ticket) (v' : view) : Prop :=
  v' = v /\
  match r with
  | Ok t => ticket_at (v_db v) id = Some t
  | Err e =>
      (status_of e = Some NotFound /\ v_db v !! id = None) \/
      (status_of e = Some Internal /\ is_Some (v_db v !! id) /\ ticket_at (v_db v) id = None) \/
      ((status_of e = Some Internal \/ status_of e = Some Unavailable) /\ sys_faulty = true)
  end.

Definition delete_post (id : string) (v : view) (r : result unit) (v' : view) : Prop :=
  match r with
  | Ok _ => is_Some (v_db v !! id) /\ v' = set_db v (delete id (v_db v))
  | Err e =>
      (status_of e = Some NotFound /\ v_db v !! id = None /\ v' = v) \/
      ((status_of e = Some Internal \/ status_of e = Some Unavailable) /\
         fault v v' (fun d' => d' = delete id (v_db v)))
  end.

(** An index update: performed when the call returns no error, unless the
    connection loses it. *)
Definition indexing_post (d1 : db) (v : view) (r : result unit) (v' : view) : Prop :=
  match r with
  | Ok _ => v' = set_db v d1 \/ (sys_faulty = true /\ v' = v)
  | Err e => (status_of e = Some Internal \/ status_of e = Some Unavailable) /\
             sys_faulty = true /\ v' = v
  end.

Definition get_indexed_post (v : view) (r : result (gset string)) (v' : view) : Prop :=
  exists t, v_now v <= t /\ v' = upd v (v_db v) t /\
  match r with
  | Ok ids => forall id, id ∈ ids <->
      id ∈ index (v_db v) /\
      ~ in_window (pending (v_db v)) (t - GetDuration cfg "pendingReleaseTimeout") (t + time_Hour) id
  | Err _ => sys_faulty = true
  end.

Definition get_tickets_post (ids : list string) (v : view) (r : result (list Ticket)) (v' : view) : Prop :=
  v' = v /\
  match r with
  | Ok ts => ts = omap (ticket_at (v_db v)) ids /\
      Forall (fun id => get_str (v_db v) id <> None -> is_Some (ticket_at (v_db v) id)) ids
  | Err e =>
      (status_of e = Some Internal /\
         exists id, id ∈ ids /\ get_str (v_db v) id <> None /\ ticket_at (v_db v) id = None) \/
      sys_faulty = true
  end.

Definition add_pending_post (ids : list string) (v : view) (r : result unit) (v' : view) : Prop :=
  match r with
  | Ok _ => exists t, v_now v <= t /\ v' = upd v (add_pending (v_db v) ids t) t
  | Err _ => fault v v' (fun d' => exists t, v_now v <= t /\ d' = add_pending (v_db v) ids t)
  end.

Definition remove_pending_post (ids : list string) (v : view) (r : result unit) (v' : view) : Prop :=
  match r with
  | Ok _ => v' = set_db v (remove_pending (v_db v) ids)
  | Err _ => fault v v' (fun d' => d' = remove_pending (v_db v) ids)
  end.

Definition release_all_post (v : view) (r : result unit) (v' : view) : Prop :=
  match r with
  | Ok _ => v' = set_db v (delete proposedTicketIDs (v_db v))
  | Err _ => fault v v' (fun d' => d' = delete proposedTicketIDs (v_db v))
  end.

Definition get_backfill_post (id : string) (v : view)
    (r : result (option Backfill * list string)) (v' : view) : Prop :=
  v' = v /\
  match r with
  | Ok (b, ids) => backfill_at (v_db v) id = Some (mkBackfillInternal b ids)
  | Err e =>
      (status_of e = Some NotFound /\ v_db v !! id = None) \/
      (status_of e = Some Internal /\ is_Some (v_db v !! id) /\ backfill_at (v_db v) id = None) \/
      ((status_of e = Some Internal \/ status_of e = Some Unavailable) /\ sys_faulty = true)
  end.

(** *** Assignments *)

Definition group_ids (groups : list AssignmentGroup) : list string :=
  concat (ag_TicketIds <$> groups).

(** Every group carries an assignment, some ticket is named, none twice. *)
Definition valid_assign (groups : list AssignmentGroup) : Prop :=
  Forall (fun g => is_Some (ag_Assignment g)) groups /\
  NoDup (group_ids groups) /\ group_ids groups <> [].

Fixpoint assignment_of (groups : list AssignmentGroup) (id : string) : option Assignment :=
  match groups with
  | [] => None
  | g :: groups => if decide (id ∈ ag_TicketIds g) then ag_Assignment g else assignment_of groups id
  end.

Definition assigned_ticket (groups : list AssignmentGroup) (t : Ticket) : Ticket :=
  set_ticket_assignment (assignment_of groups (t_Id t)) t.

(** The keyspace after the call: each named ticket that exists carries its
    assignment and expires, nothing else changes. *)
Definition assign_db (groups : list AssignmentGroup) (px : Z) (d d' : db) : Prop :=
  forall k,
    match (if decide (k ∈ group_ids groups) then ticket_at d k else None) with
    | Some t => exists b, marshal_ticket (assigned_ticket groups t) = Some b /\
                          d' !! k = Some (mkEntry (RStr b) (Some px))
    | None => d' !! k = d !! k
    end.

Definition assigned_delete_timeout_ms : Z :=
  (if IsSet cfg "assignedDeleteTimeout" then GetDuration cfg "assignedDeleteTimeout"
   else 10 * time_Minute) `quot` time_Millisecond.

(** The tickets of a list of ids are stored under their own id. *)
Definition well_keyed (ids : list string) (d : db) : Prop :=
  forall id t, id ∈ ids -> ticket_at d id = Some t -> t_Id t = id.

Definition missing_failures (d : db) (ids : list string) : list AssignmentFailure :=
  (fun id => mkAssignmentFailure id AssignmentFailure_TICKET_NOT_FOUND) <$>
    filter (fun id => get_str d id = None) ids.

Definition update_assignments_post (req : AssignTicketsRequest) (v : view)
    (r : result (AssignTicketsResponse * list Ticket)) (v' : view) : Prop :=
  let groups := atr_Assignments req in
  let ids := group_ids groups in
  match r with
  | Ok (resp, tickets) =>
      (groups = [] /\ resp = mkAssignTicketsResponse [] /\ tickets = [] /\ v' = v) \/
      (valid_assign groups /\
       atp_Failures resp = missing_failures (v_db v) ids /\
       tickets = assigned_ticket groups <$> omap (ticket_at (v_db v)) ids /\
       exists d', assign_db groups assigned_delete_timeout_ms (v_db v) d' /\ v' = set_db v d')
  | Err e =>
      (status_of e = Some InvalidArgument /\ groups <> [] /\ ~ valid_assign groups /\ v' = v) \/
      (status_of e = Some Internal /\ valid_assign groups /\ v' = v /\
       exists id, id ∈ ids /\ get_str (v_db v) id <> None /\
         forall t, ticket_at (v_db v) id = Some t -> marshal_ticket (assigned_ticket groups t) = None) \/
      fault v v' (assign_db groups assigned_delete_timeout_ms (v_db v))
  end.

(** *** Backfills *)

Definition release_ttl : Z := GetDuration cfg "pendingReleaseTimeout" `quot` 5 * 4.

Definition acked (d : db) (id : string) (t : Z) : db :=
  put_acks d (<[id := sys_score t]> (acks d)).

Definition create_backfill_post (bf : Backfill) (ids : list string) (v : view)
    (r : result unit) (v' : view) : Prop :=
  let enc := marshal_backfill (mkBackfillInternal (Some bf) ids) in
  match r with
  | Ok _ => exists b t, enc = Some b /\ v_db v !! b_Id bf = None /\ v_now v <= t /\
      v' = upd v (acked (put_str (v_db v) (b_Id bf) b None) (b_Id bf) t) t
  | Err e =>
      (status_of e = Some Internal /\ enc = None /\ v' = v) \/
      (status_of e = Some AlreadyExists /\ is_Some enc /\ is_Some (v_db v !! b_Id bf) /\ v' = v) \/
      fault v v' (fun d' => exists b, enc = Some b /\ v_db v !! b_Id bf = None /\
        let d1 := put_str (v_db v) (b_Id bf) b None in
        (d' = d1 \/ exists t, v_now v <= t /\ d' = acked d1 (b_Id bf) t))
  end.

Definition backfill_of (d : db) (id : string) : option Backfill := backfill_at d id ≫= bi_Backfill.

Definition bf_keyed (ids : list string) (d : db) : Prop :=
  forall id b, id ∈ ids -> backfill_of d id = Some b -> b_Id b = id.

Definition get_backfills_post (ids : list string) (v : view) (r : result (list Backfill)) (v' : view) : Prop :=
  v' = v /\
  match r with
  | Ok bs => bf_keyed ids (v_db v) -> bs = omap (backfill_of (v_db v)) ids
  | Err e => sys_faulty = true \/
      exists id, id ∈ ids /\ get_str (v_db v) id <> None /\ backfill_at (v_db v) id = None
  end.

Definition delete_backfill_post (id : string) (v : view) (r : result unit) (v' : view) : Prop :=
  let d := v_db v in
  match r with
  | Ok _ => is_Some (d !! id) /\ v' = set_db v (put_acks (delete id d) (delete id (acks d)))
  | Err e =>
      (status_of e = Some NotFound /\ d !! id = None /\ v' = v) \/
      fault v v' (fun d' => d' = delete id d \/ d' = put_acks (delete id d) (delete id (acks d)))
  end.

(** Whether a backfill may still be used is decided by its last
    acknowledgement, read before the clock. *)
Definition alive (d : db) (id : string) (t : Z) : Prop :=
  exists la, acks d !! id = Some la /\ t - release_ttl <= la.

Definition not_alive (id : string) (v : view) (e : error) (v' : view) : Prop :=
  (status_of e = Some Internal /\ acks (v_db v) !! id = None /\ v' = v) \/
  (status_of e = Some Unavailable /\ exists t la, v_now v <= t /\ acks (v_db v) !! id = Some la /\
     la < t - release_ttl /\ v' = upd v (v_db v) t).

Definition update_backfill_post (bf : Backfill) (ids : list string) (v : view)
    (r : result unit) (v' : view) : Prop :=
  let enc := marshal_backfill (mkBackfillInternal (Some bf) ids) in
  match r with
  | Ok _ => exists b t, enc = Some b /\ v_now v <= t /\ alive (v_db v) (b_Id bf) t /\
      v' = upd v (put_str (v_db v) (b_Id bf) b None) t
  | Err e =>
      not_alive (b_Id bf) v e v' \/
      (status_of e = Some Internal /\ enc = None /\
         exists t, v_now v <= t /\ alive (v_db v) (b_Id bf) t /\ v' = upd v (v_db v) t) \/
      fault v v' (fun d' => exists b, enc = Some b /\ d' = put_str (v_db v) (b_Id bf) b None)
  end.

Definition update_ack_post (id : string) (v : view) (r : result unit) (v' : view) : Prop :=
  match r with
  | Ok _ => exists t1 t2, v_now v <= t1 /\ alive (v_db v) id t1 /\ t1 <= t2 /\
      v' = upd v (acked (v_db v) id t2) t2
  | Err e => not_alive id v e v' \/
      fault v v' (fun d' => exists t1 t2, v_now v <= t1 /\ alive (v_db v) id t1 /\ t1 <= t2 /\
        d' = acked (v_db v) id t2)
  end.

Definition get_expired_post (v : view) (r : result (list string)) (v' : view) : Prop :=
  exists t, v_now v <= t /\ v' = upd v (v_db v) t /\
  match r with
  | Ok ids => NoDup ids /\ forall id, id ∈ ids <-> in_window (acks (v_db v)) 0 (t - release_ttl) id
  | Err _ => sys_faulty = true
  end.

Definition get_indexed_backfills_post (v : view) (r : result (gmap string Z)) (v' : view) : Prop :=
  exists t, v_now v <= t /\ v' = upd v (v_db v) t /\
  match r with
  | Ok m => forall id g, m !! id = Some g <->
      in_window (acks (v_db v)) (t - release_ttl) (t + time_Hour) id /\
      bindex (v_db v) !! id ≫= atoi = Some g
  | Err _ => sys_faulty = true \/ exists id s, bindex (v_db v) !! id = Some s /\ atoi s = None
  end.

(** *** The mutex of a backfill *)

Definition mutex_name (key : string) : string := "lock/" +:+ key.

(** Taken, for [backfillLockTimeout], or refused; of a call that failed it is
    not known whether the mutex is taken. *)
Definition lock_post (key : string) (v : view) (r : result string) (v' : view) : Prop :=
  let taken token :=
    exists t, v_now v <= t /\ lock_free v (mutex_name key) t /\
      v' = lock_taken v (mutex_name key) token (GetDuration cfg "backfillLockTimeout") t in
  match r with
  | Ok token => taken token
  | Err _ => (~ lock_free v (mutex_name key) (v_now v) /\ v' = v) \/
             (sys_faulty = true /\ (v' = v \/ exists token, taken token))
  end.

(** Given back, if it is still the caller's; [true] says that it was. *)
Definition unlock_post (key token : string) (v : view) (r : result bool) (v' : view) : Prop :=
  (v' = unlocked v (mutex_name key) token \/ (sys_faulty = true /\ is_ok r = false /\ v' = v)) /\
  (r = Ok true -> exists until, v_locks v !! mutex_name key = Some (token, until)).

(** Everything that belongs to a backfill is gone: its index entry, the
    pending-release marks of its tickets, its value and its
    acknowledgement. *)
Definition completely (d : db) (id : string) : db :=
  let d1 := put_bindex d (delete id (bindex d)) in
  let tids := match backfill_at d id with Some bi => bi_TicketIds bi | None => [] end in
  let d2 := remove_pending d1 tids in
  match d !! id with
  | Some _ => put_acks (delete id d2) (delete id (acks d2))
  | None => d2
  end.

(** The shared keys keep their types; entities, acknowledgements and
    generations are at most removed. *)
Record only_removes (d d' : db) : Prop := mkOnlyRemoves {
  or_typed : typed d';
  or_entities k : k ∉ reserved -> d' !! k = d !! k \/ d' !! k = None;
  or_acks id : is_Some (acks d' !! id) -> is_Some (acks d !! id);
  or_bindex : bindex d' ⊆ bindex d;
}.

Definition delete_completely_post (id : string) (v : view) (r : result unit) (v' : view) : Prop :=
  only_removes (v_db v) (v_db v') /\
  (sys_faulty = false ->
   match r with
   | Ok _ => exists t, v_now v <= t /\ lock_free v (mutex_name id) t /\
       v' = set_locks (upd v (completely (v_db v) id) t) (delete (mutex_name id) (v_locks v))
   | Err _ => ~ lock_free v (mutex_name id) (v_now v) /\ v' = v
   end).

(** Without faults every expired backfill is removed but those whose mutex
    another holds. *)
Definition cleanup_post (v : view) (r : result unit) (v' : view) : Prop :=
  only_removes (v_db v) (v_db v') /\
  (sys_faulty = false ->
   exists t ids gone, v_now v <= t <= v_now v' /\ r = Ok tt /\ NoDup ids /\
     (forall id, id ∈ ids <-> in_window (acks (v_db v)) 0 (t - release_ttl) id) /\
     NoDup gone /\ (forall id, id ∈ gone -> id ∈ ids) /\
     (forall id, id ∈ ids -> id ∉ gone -> ~ lock_free v (mutex_name id) (v_now v)) /\
     v' = set_locks (upd v (foldl completely (v_db v) gone) (v_now v'))
            (foldr delete (v_locks v) (mutex_name <$> gone))).

(** The probe and the closing change nothing. *)
Definition probe_post (v : view) (r : result unit) (v' : view) : Prop :=
  v' = v /\ (is_ok r = false -> sys_faulty = true).

(** Watching: the callback is run on the assignment of the stored ticket, at
    most [attempts] times, until it returns an error, which ends the call; a
    ticket that is not there or does not read, or a poll that failed, ends it
    too. *)
Fixpoint polls {S} (callback : S -> option Assignment -> S * result unit) (a : option Assignment)
    (attempts : nat) (s : S) : S * option error :=
  match attempts with
  | O => (s, None)
  | Datatypes.S n =>
      match callback s a with
      | (s, Err err) => (s, Some err)
      | (s, Ok _) => polls callback a n s
      end
  end.

Definition get_assignments_post {S} (callback : S -> option Assignment -> S * result unit)
    (attempts : nat) (id : string) (s : S) (v : view) (x : S * option error) (v' : view) : Prop :=
  v' = v /\
  match ticket_at (v_db v) id with
  | Some t =>
      x = polls callback (t_Assignment t) attempts s \/
      (sys_faulty = true /\ exists k s' e, (k <= attempts)%nat /\
         polls callback (t_Assignment t) k s = (s', None) /\ x = (s', Some e))
  | None => x.1 = s /\ (attempts <> O -> exists e, x.2 = Some e /\
      (sys_faulty = true \/ status_of e = Some (if decide (v_db v !! id = None) then NotFound else Internal)))
  end.
End Contract.

(** The contract of the interface. The shared keys must hold their types, an
    entity id must not be one of them; each call then meets its
    postcondition, whatever the outside world does. *)
Class ServiceSpec `{Sys} `{Proto} (cfg : View) (s : Service) : Prop := {
  spec_HealthCheck v : wp (svc_HealthCheck s) v (probe_post v);
  spec_Close v : wp (svc_Close s) v (probe_post v);
  spec_GetAssignments S callback attempts id (x : S) v :
    wp (svc_GetAssignments s S callback attempts id x) v (get_assignments_post callback attempts id x v);
  spec_CreateTicket t v : wp (svc_CreateTicket s t) v (create_ticket_post t v);
  spec_GetTicket id v : wp (svc_GetTicket s id) v (get_ticket_post id v);
  spec_DeleteTicket id v : wp (svc_DeleteTicket s id) v (delete_post id v);
  spec_IndexTicket t v : typed (v_db v) ->
    wp (svc_IndexTicket s t) v (indexing_post (put_index (v_db v) ({[t_Id t]} ∪ index (v_db v))) v);
  spec_DeindexTicket id v : typed (v_db v) ->
    wp (svc_DeindexTicket s id) v (indexing_post (put_index (v_db v) (index (v_db v) ∖ {[id]})) v);
  spec_GetIndexedIDSet v : typed (v_db v) ->
    wp (svc_GetIndexedIDSet s) v (get_indexed_post cfg v);
  spec_GetTickets ids v : wp (svc_GetTickets s ids) v (get_tickets_post ids v);
  spec_UpdateAssignments req v : well_keyed (group_ids (atr_Assignments req)) (v_db v) ->
    wp (svc_UpdateAssignments s req) v (update_assignments_post cfg req v);
  spec_AddTicketsToPendingRelease ids v : typed (v_db v) ->
    wp (svc_AddTicketsToPendingRelease s ids) v (add_pending_post ids v);
  spec_DeleteTicketsFromPendingRelease ids v : typed (v_db v) ->
    wp (svc_DeleteTicketsFromPendingRelease s ids) v (remove_pending_post ids v);
  spec_ReleaseAllTickets v : wp (svc_ReleaseAllTickets s) v (release_all_post v);
  spec_CreateBackfill b ids v : typed (v_db v) -> b_Id b ∉ reserved ->
    wp (svc_CreateBackfill s b ids) v (create_backfill_post b ids v);
  spec_GetBackfill id v : wp (svc_GetBackfill s id) v (get_backfill_post id v);
  spec_GetBackfills ids v : wp (svc_GetBackfills s ids) v (get_backfills_post ids v);
  spec_DeleteBackfill id v : typed (v_db v) -> id ∉ reserved ->
    wp (svc_DeleteBackfill s id) v (delete_backfill_post id v);
  spec_DeleteBackfillCompletely id v : typed (v_db v) -> id ∉ reserved ->
    wp (svc_DeleteBackfillCompletely s id) v (delete_completely_post id v);
  spec_UpdateBackfill b ids v : typed (v_db v) ->
    wp (svc_UpdateBackfill s b ids) v (update_backfill_post cfg b ids v);
  spec_Lock key v : wp (svc_Lock s key) v (lock_post cfg key v);
  spec_Unlock key token v : wp (svc_Unlock s key token) v (unlock_post key token v);
  spec_CleanupBackfills v : typed (v_db v) ->
    (forall id, is_Some (acks (v_db v) !! id) -> id ∉ reserved) ->
    wp (svc_CleanupBackfills s) v (cleanup_post cfg v);
  spec_UpdateAcknowledgmentTimestamp id v : typed (v_db v) ->
    wp (svc_UpdateAcknowledgmentTimestamp s id) v (update_ack_post cfg id v);
  spec_GetExpiredBackfillIDs v : typed (v_db v) ->
    wp (svc_GetExpiredBackfillIDs s) v (get_expired_post cfg v);
  spec_IndexBackfill b v : typed (v_db v) ->
    wp (svc_IndexBackfill s b) v
      (indexing_post (put_bindex (v_db v) (<[b_Id b := itoa (b_Generation b)]> (bindex (v_db v)))) v);
  spec_DeindexBackfill id v : typed (v_db v) ->
    wp (svc_DeindexBackfill s id) v
      (indexing_post (put_bindex (v_db v) (delete id (bindex (v_db v)))) v);
  spec_GetIndexedBackfills v : typed (v_db v) ->
    wp (svc_GetIndexedBackfills s) v (get_indexed_backfills_post cfg v);
}.

(** ** Algebra of the readings

    Each reading is set by its own update and untouched by the others, and
    none is touched by storing or deleting an entity whose id is not one of
    the shared keys. *)

Definition not_reserved (id : string) : Prop := id ∉ reserved.

#[global] Instance not_reserved_dec id : Decision (not_reserved id).
Proof. unfold not_reserved. apply _. Defined.

Lemma xid_not_reserved i : is_xid i = true -> i ∉ reserved.
Proof.
  intros Hi Hin. unfold reserved in Hin. rewrite !elem_of_cons in Hin.
  destruct Hin as [->|[->|[->|[->|?%not_elem_of_nil]]]]; done.
Qed.

Lemma put_set_ne d k s k' : k <> k' -> put_set d k s !! k' = d !! k'.
Proof. intros. unfold put_set. case_decide; by simplify_map_eq. Qed.
Lemma put_zset_ne d k s k' : k <> k' -> put_zset d k s !! k' = d !! k'.
Proof. intros. unfold put_zset. case_decide; by simplify_map_eq. Qed.
Lemma put_hash_ne d k s k' : k <> k' -> put_hash d k s !! k' = d !! k'.
Proof. intros. unfold put_hash. case_decide; by simplify_map_eq. Qed.
Lemma put_str_ne d k s px k' : k <> k' -> put_str d k s px !! k' = d !! k'.
Proof. intros. unfold put_str. by simplify_map_eq. Qed.

Lemma get_put_set d k s : get_set (put_set d k s) k = Some s.
Proof. unfold get_set, put_set. case_decide; by simplify_map_eq. Qed.
Lemma get_put_zset d k s : get_zset (put_zset d k s) k = Some s.
Proof. unfold get_zset, put_zset. case_decide; by simplify_map_eq. Qed.
Lemma get_put_hash d k s : get_hash (put_hash d k s) k = Some s.
Proof. unfold get_hash, put_hash. case_decide; by simplify_map_eq. Qed.
Lemma get_put_str d k s px : get_str (put_str d k s px) k = Some s.
Proof. unfold get_str, put_str. by simplify_map_eq. Qed.

Ltac keys_ne :=
  match goal with
  | |- ?a <> ?b => solve [discriminate | congruence
      | let E := fresh in intros E; unfold not_reserved, reserved in *; subst; set_solver]
  end.

(** Reduce a reading of an update. *)
Ltac readings :=
  unfold index, pending, acks, bindex, ticket_at, backfill_at, put_index, put_pending, put_acks,
    put_bindex, get_str, get_set, get_zset, get_hash in *;
  repeat first
    [ rewrite put_set_ne by keys_ne | rewrite put_zset_ne by keys_ne
    | rewrite put_hash_ne by keys_ne | rewrite put_str_ne by keys_ne
    | rewrite lookup_delete_ne by keys_ne ].

Section ReadingLemmas.
Context `{Sys} `{Proto}.
Implicit Types (d : db).

Lemma index_put_index d s : index (put_index d s) = s.
Proof. unfold index, put_index. by rewrite get_put_set. Qed.
Lemma pending_put_pending d z : pending (put_pending d z) = z.
Proof. unfold pending, put_pending. by rewrite get_put_zset. Qed.
Lemma acks_put_acks d z : acks (put_acks d z) = z.
Proof. unfold acks, put_acks. by rewrite get_put_zset. Qed.
Lemma bindex_put_bindex d h : bindex (put_bindex d h) = h.
Proof. unfold bindex, put_bindex. by rewrite get_put_hash. Qed.

Lemma index_put_pending d z : index (put_pending d z) = index d.
Proof. by readings. Qed.
Lemma index_put_acks d z : index (put_acks d z) = index d.
Proof. by readings. Qed.
Lemma index_put_bindex d z : index (put_bindex d z) = index d.
Proof. by readings. Qed.
Lemma pending_put_index d s : pending (put_index d s) = pending d.
Proof. by readings. Qed.
Lemma pending_put_acks d z : pending (put_acks d z) = pending d.
Proof. by readings. Qed.
Lemma pending_put_bindex d z : pending (put_bindex d z) = pending d.
Proof. by readings. Qed.
Lemma acks_put_index d s : acks (put_index d s) = acks d.
Proof. by readings. Qed.
Lemma acks_put_pending d z : acks (put_pending d z) = acks d.
Proof. by readings. Qed.
Lemma acks_put_bindex d z : acks (put_bindex d z) = acks d.
Proof. by readings. Qed.
Lemma bindex_put_index d s : bindex (put_index d s) = bindex d.
Proof. by readings. Qed.
Lemma bindex_put_pending d z : bindex (put_pending d z) = bindex d.
Proof. by readings. Qed.
Lemma bindex_put_acks d z : bindex (put_acks d z) = bindex d.
Proof. by readings. Qed.

Section Entity.
Context (id : string) (Hid : not_reserved id).

Lemma index_put_str d b px : index (put_str d id b px) = index d.
Proof using Hid. by readings. Qed.
Lemma pending_put_str d b px : pending (put_str d id b px) = pending d.
Proof using Hid. by readings. Qed.
Lemma acks_put_str d b px : acks (put_str d id b px) = acks d.
Proof using Hid. by readings. Qed.
Lemma bindex_put_str d b px : bindex (put_str d id b px) = bindex d.
Proof using Hid. by readings. Qed.
Lemma index_delete d : index (delete id d) = index d.
Proof using Hid. by readings. Qed.
Lemma pending_delete d : pending (delete id d) = pending d.
Proof using Hid. by readings. Qed.
Lemma acks_delete d : acks (delete id d) = acks d.
Proof using Hid. by readings. Qed.
Lemma bindex_delete d : bindex (delete id d) = bindex d.
Proof using Hid. by readings. Qed.

Lemma lookup_put_index d s : put_index d s !! id = d !! id.
Proof using Hid. by readings. Qed.
Lemma lookup_put_pending d z : put_pending d z !! id = d !! id.
Proof using Hid. by readings. Qed.
Lemma lookup_put_acks d z : put_acks d z !! id = d !! id.
Proof using Hid. by readings. Qed.
Lemma lookup_put_bindex d z : put_bindex d z !! id = d !! id.
Proof using Hid. by readings. Qed.
Lemma lookup_add_pending d ids t : add_pending d ids t !! id = d !! id.
Proof using Hid. destruct ids; cbn; [done|]. apply lookup_put_pending. Qed.
Lemma lookup_remove_pending d ids : remove_pending d ids !! id = d !! id.
Proof using Hid. destruct ids; cbn; [done|]. apply lookup_put_pending. Qed.

Lemma typed_put_str d b px : typed d -> typed (put_str d id b px).
Proof using Hid. unfold typed. by readings. Qed.
Lemma typed_delete d : typed d -> typed (delete id d).
Proof using Hid. unfold typed. by readings. Qed.
End Entity.

Lemma get_str_ext d d' id : d !! id = d' !! id -> get_str d id = get_str d' id.
Proof. unfold get_str. by intros ->. Qed.
Lemma ticket_at_ext d d' id : d !! id = d' !! id -> ticket_at d id = ticket_at d' id.
Proof. unfold ticket_at. by intros ->%get_str_ext. Qed.
Lemma backfill_at_ext d d' id : d !! id = d' !! id -> backfill_at d id = backfill_at d' id.
Proof. unfold backfill_at. by intros ->%get_str_ext. Qed.

Lemma ticket_at_put_str d id b px : ticket_at (put_str d id b px) id = unmarshal_ticket b.
Proof. unfold ticket_at. by rewrite get_put_str. Qed.
Lemma backfill_at_put_str d id b px : backfill_at (put_str d id b px) id = unmarshal_backfill b.
Proof. unfold backfill_at. by rewrite get_put_str. Qed.

Lemma typed_put_index d s : typed d -> typed (put_index d s).
Proof.
  intros (_ & ? & ? & ?). split; [unfold put_index; by rewrite get_put_set|]. by readings.
Qed.
Lemma typed_put_pending d z : typed d -> typed (put_pending d z).
Proof.
  intros (? & _ & ? & ?). repeat split; [by readings| |by readings..].
  unfold put_pending. by rewrite get_put_zset.
Qed.
Lemma typed_put_acks d z : typed d -> typed (put_acks d z).
Proof.
  intros (? & ? & _ & ?). repeat split; [by readings..| |by readings].
  unfold put_acks. by rewrite get_put_zset.
Qed.
Lemma typed_put_bindex d h : typed d -> typed (put_bindex d h).
Proof.
  intros (? & ? & ? & _). repeat split; [by readings..|].
  unfold put_bindex. by rewrite get_put_hash.
Qed.
(** Deleting the whole sorted set of proposals. *)
Lemma delete_proposed d : delete proposedTicketIDs d = put_pending d ∅.
Proof. by unfold put_pending, put_zset. Qed.

Lemma typed_add_pending d ids t : typed d -> typed (add_pending d ids t).
Proof. destruct ids; cbn; [done|]. apply typed_put_pending. Qed.
Lemma typed_remove_pending d ids : typed d -> typed (remove_pending d ids).
Proof. destruct ids; cbn; [done|]. apply typed_put_pending. Qed.

Lemma index_add_pending d ids t : index (add_pending d ids t) = index d.
Proof. destruct ids; cbn; [done|]. apply index_put_pending. Qed.
Lemma index_remove_pending d ids : index (remove_pending d ids) = index d.
Proof. destruct ids; cbn; [done|]. apply index_put_pending. Qed.
Lemma pending_add_pending d ids t :
  pending (add_pending d ids t) = zadd_all (pending d) ((fun id => (t, id)) <$> ids).
Proof. destruct ids; cbn -[zadd_all]; [done|]. by rewrite pending_put_pending. Qed.
Lemma pending_remove_pending d ids : pending (remove_pending d ids) = zrem_all (pending d) ids.
Proof. destruct ids; cbn -[zrem_all]; [done|]. by rewrite pending_put_pending. Qed.
Lemma acks_add_pending d ids t : acks (add_pending d ids t) = acks d.
Proof. destruct ids; cbn; [done|]. apply acks_put_pending. Qed.
Lemma acks_remove_pending d ids : acks (remove_pending d ids) = acks d.
Proof. destruct ids; cbn; [done|]. apply acks_put_pending. Qed.
Lemma bindex_add_pending d ids t : bindex (add_pending d ids t) = bindex d.
Proof. destruct ids; cbn; [done|]. apply bindex_put_pending. Qed.
Lemma bindex_remove_pending d ids : bindex (remove_pending d ids) = bindex d.
Proof. destruct ids; cbn; [done|]. apply bindex_put_pending. Qed.

(** The members a ZADD at one time and a ZREM leave. *)
Lemma lookup_zadd_all (z : gmap string Z) ids t m :
  zadd_all z ((fun id => (t, id)) <$> ids) !! m =
  if decide (m ∈ ids) then Some (sys_score t) else z !! m.
Proof.
  revert z. induction ids as [|i ids IH]; intros z; cbn; [done|].
  unfold zadd_all in IH. rewrite IH.
  destruct (decide (m = i)) as [->|]; [|rewrite lookup_insert_ne by done];
    rewrite ?lookup_insert_eq; repeat case_decide; set_solver.
Qed.

Lemma lookup_zrem_all (z : gmap string Z) ids m :
  zrem_all z ids !! m = if decide (m ∈ ids) then None else z !! m.
Proof.
  revert z. induction ids as [|i ids IH]; intros z; cbn; [done|].
  unfold zrem_all in IH. rewrite IH.
  destruct (decide (m = i)) as [->|]; [|rewrite lookup_delete_ne by done];
    rewrite ?lookup_delete_eq; repeat case_decide; set_solver.
Qed.
End ReadingLemmas.

#[export] Hint Rewrite @index_put_index @pending_put_pending @acks_put_acks @bindex_put_bindex
  @index_put_pending @index_put_acks @index_put_bindex @pending_put_index @pending_put_acks
  @pending_put_bindex @acks_put_index @acks_put_pending @acks_put_bindex @bindex_put_index
  @bindex_put_pending @bindex_put_acks
  @index_add_pending @index_remove_pending @pending_add_pending @pending_remove_pending
  @acks_add_pending @acks_remove_pending @bindex_add_pending @bindex_remove_pending : om_rw.
#[export] Hint Rewrite @index_put_str @pending_put_str @acks_put_str @bindex_put_str
  @index_delete @pending_delete @acks_delete @bindex_delete
  @lookup_put_index @lookup_put_pending @lookup_put_acks @lookup_put_bindex
  @lookup_add_pending @lookup_remove_pending using (assumption) : om_rw.
#[export] Hint Resolve typed_put_str typed_delete typed_put_index typed_put_pending typed_put_acks
  typed_put_bindex typed_add_pending typed_remove_pending : om.

(** The readings of the shared keys depend on those keys only. *)
Lemma readings_ext `{Sys} (d d' : db) : (forall k, k ∈ reserved -> d' !! k = d !! k) ->
  index d' = index d /\ pending d' = pending d /\ acks d' = acks d /\ bindex d' = bindex d /\
  (typed d -> typed d').
Proof.
  intros Hk. unfold index, pending, acks, bindex, typed, get_set, get_zset, get_hash.
  rewrite (Hk allTickets), (Hk proposedTicketIDs), (Hk backfillLastAckTime), (Hk allBackfills)
    by (unfold reserved; set_solver). done.
Qed.

Lemma reserved_not_str d k : typed d -> k ∈ reserved -> get_str d k = None.
Proof.
  unfold typed, reserved, get_set, get_zset, get_hash, get_str. intros ([? Ha] & [? Hb] & [? Hc] & [? Hd]).
  rewrite !elem_of_cons. intros [->|[->|[->|[->|[]%not_elem_of_nil]]]]; by repeat case_match.
Qed.

(** ** Commands on the shared keys, and failed calls *)
Section TypedCommands.
Context `{Sys} `{Proto}.
Implicit Types (d : db) (v : view).

Lemma typed_index d : typed d -> get_set d allTickets = Some (index d).
Proof. intros ([s Hs] & _). unfold index. by rewrite Hs. Qed.
Lemma typed_pending d : typed d -> get_zset d proposedTicketIDs = Some (pending d).
Proof. intros (_ & [s Hs] & _). unfold pending. by rewrite Hs. Qed.
Lemma typed_acks d : typed d -> get_zset d backfillLastAckTime = Some (acks d).
Proof. intros (_ & _ & [s Hs] & _). unfold acks. by rewrite Hs. Qed.
Lemma typed_bindex d : typed d -> get_hash d allBackfills = Some (bindex d).
Proof. intros (_ & _ & _ & [s Hs]). unfold bindex. by rewrite Hs. Qed.

(** A failed call leaves the state in one of two places. *)
Lemma fault_intro v d' cmd (R : db -> Prop) :
  cmd_failed (v_db v) cmd d' -> ~ wrong_type (v_db v) cmd ->
  (forall a d1, cmd_ok (v_db v) cmd a d1 -> d1 = v_db v \/ R d1) ->
  fault v (set_db v d') R.
Proof.
  intros [[? _]|[Hf Hd]] Hw HR; [done|]. split; [done|].
  exists d', (v_now v). split; [lia|]. split; [|done].
  destruct Hd as [->|(a & Ha)]; [by left|eauto].
Qed.

(** The same after the clock was read. *)
Lemma fault_intro_now v t d' cmd (R : db -> Prop) :
  v_now v <= t -> cmd_failed (v_db v) cmd d' -> ~ wrong_type (v_db v) cmd ->
  (forall a d1, cmd_ok (v_db v) cmd a d1 -> d1 = v_db v \/ R d1) ->
  fault v (upd v d' t) R.
Proof.
  intros Ht [[? _]|[Hf Hd]] Hw HR; [done|]. split; [done|].
  exists d', t. split; [done|]. split; [|done].
  destruct Hd as [->|(a & Ha)]; [by left|eauto].
Qed.

(** A call that could not even be sent. *)
Lemma fault_none v R : sys_faulty = true -> fault v v R.
Proof.
  intros Hf. split; [done|]. exists (v_db v), (v_now v).
  rewrite upd_id. split; [lia|auto].
Qed.

Lemma failed_faulty d cmd d' :
  cmd_failed d cmd d' -> ~ wrong_type d cmd -> sys_faulty = true.
Proof. intros [[? _]|[? _]] ?; done. Qed.

(** A read that failed changed nothing. *)
Lemma failed_read d cmd d' :
  cmd_failed d cmd d' -> (forall a d1, cmd_ok d cmd a d1 -> d1 = d) -> d' = d.
Proof. intros [[_ ?]|[_ [?|(a & Ha)]]] Hr; eauto. Qed.

Lemma get_str_lookup d id s : get_str d id = Some s -> is_Some (d !! id).
Proof. unfold get_str. destruct (d !! id); [by eexists|done]. Qed.

Lemma ticket_at_lookup d id : is_Some (ticket_at d id) -> is_Some (d !! id).
Proof.
  unfold ticket_at. destruct (get_str d id) eqn:He; cbn; [|by intros [??]].
  intros _. by eapply get_str_lookup.
Qed.
End TypedCommands.

#[export] Hint Resolve fault_none : om.

(** ** Critical sections

    [m := store.NewMutex(key); err := m.Lock(ctx); if err != nil { return };
    defer m.Unlock(ctx)]: the body runs with the mutex held and its result is
    returned after the unlock, whose error is only logged. *)
Definition with_mutex {A} (lock : prog (result string)) (unlock : string -> prog (result bool))
    (body : prog (result A)) : prog (result A) :=
  token ←? lock;
  x ←! body;
  _ ←! unlock token;
  Ret x.

Section WithMutex.
Context `{Sys} `{Proto} (cfg : View).

(** The state in which the body starts. *)
Definition entered (key token : string) (t : Z) (v : view) : view :=
  lock_taken v (mutex_name key) token (GetDuration cfg "backfillLockTimeout") t.

Lemma wp_with_mutex {A} lock unlock key (body : prog (result A)) v (Q : result A -> view -> Prop) :
  (forall v, wp lock v (lock_post cfg key v)) ->
  (forall token v, wp (unlock token) v (unlock_post key token v)) ->
  (forall e, ~ lock_free v (mutex_name key) (v_now v) -> Q (Err e) v) ->
  (sys_faulty = true -> forall e v', v_db v' = v_db v -> Q (Err e) v') ->
  (forall token t, v_now v <= t -> lock_free v (mutex_name key) t ->
     wp body (entered key token t v)
       (fun r v' => Q r (unlocked v' (mutex_name key) token) /\ (sys_faulty = true -> Q r v'))) ->
  wp (with_mutex lock unlock body) v Q.
Proof.
  intros Hl Hu Hheld Herr Hok. apply wp_rbind. eapply wp_mono; [apply Hl|].
  intros [token|e] v' Hv'; cbn in Hv'.
  - destruct Hv' as (t & Ht & Hn & ->). apply wp_bind. eapply wp_mono; [by apply Hok|].
    intros r v1 [HQ HQf]. apply wp_bind. eapply wp_mono; [apply Hu|].
    intros u v2 [[->|(Hf & _ & ->)] _]; apply wp_ret; auto.
  - destruct Hv' as [[Hn ->]|[Hf [->|(token & t & _ & _ & ->)]]]; auto.
Qed.

(** Taking the mutex, changing the keyspace and the clock, and giving it back. *)
Lemma unlocked_entered key token t v d t' :
  unlocked (upd (entered key token t v) d t') (mutex_name key) token =
  set_locks (upd v d t') (delete (mutex_name key) (v_locks v)).
Proof. by rewrite (unlocked_taken v _ token (GetDuration cfg "backfillLockTimeout") t). Qed.

(** A property of the keyspace that the effects of a call keep holds after
    the call, whatever happened. *)
Lemma keep_indexing (I : db -> Prop) d1 v r v' :
  I (v_db v) -> I d1 -> indexing_post d1 v r v' -> I (v_db v').
Proof.
  intros Hv Hd. destruct r as [[]|e]; cbn; [intros [->|[_ ->]]|intros (_ & _ & ->)]; done.
Qed.

Lemma keep_fault (I : db -> Prop) v v' (R : db -> Prop) :
  I (v_db v) -> (forall d, R d -> I d) -> fault v v' R -> I (v_db v').
Proof. intros Hv HR (_ & d' & t & _ & [->|Hd] & ->); cbn; auto. Qed.

Lemma keep_remove_pending (I : db -> Prop) ids v r v' :
  I (v_db v) -> I (remove_pending (v_db v) ids) -> remove_pending_post ids v r v' -> I (v_db v').
Proof.
  intros Hv Hr. destruct r as [[]|e]; cbn; [by intros ->|]. apply keep_fault; [done|]. by intros d ->.
Qed.

Lemma keep_delete_backfill (I : db -> Prop) id v r v' :
  I (v_db v) -> I (delete id (v_db v)) -> I (put_acks (delete id (v_db v)) (delete id (acks (v_db v)))) ->
  delete_backfill_post id v r v' -> I (v_db v').
Proof.
  intros Hv Hd Ha. destruct r as [[]|e]; cbn; [by intros [_ ->]|].
  intros [(_ & _ & ->)|Hf]; [done|]. eapply keep_fault; [done| |exact Hf]. by intros d [->| ->].
Qed.

(** What only removes. *)
Lemma removes_refl d : typed d -> only_removes d d.
Proof. split; auto. Qed.

Lemma removes_put_bindex d0 d id : only_removes d0 d -> only_removes d0 (put_bindex d (delete id (bindex d))).
Proof.
  intros [Ht Hd Ha Hb]. split; [by apply typed_put_bindex| | |].
  - intros k Hk. rewrite lookup_put_bindex by done. auto.
  - intros i. rewrite acks_put_bindex. apply Ha.
  - rewrite bindex_put_bindex. etrans; [apply delete_subseteq|done].
Qed.

Lemma removes_remove_pending d0 d ids : only_removes d0 d -> only_removes d0 (remove_pending d ids).
Proof.
  intros [Ht Hd Ha Hb]. split; [by apply typed_remove_pending| | |].
  - intros k Hk. rewrite lookup_remove_pending by done. auto.
  - intros i. rewrite acks_remove_pending. apply Ha.
  - by rewrite bindex_remove_pending.
Qed.

Lemma removes_delete d0 d id : id ∉ reserved -> only_removes d0 d -> only_removes d0 (delete id d).
Proof.
  intros Hid [Ht Hd Ha Hb]. split; [by apply typed_delete| | |].
  - intros k Hk. destruct (decide (k = id)) as [->|]; [right; apply lookup_delete_eq|].
    rewrite lookup_delete_ne by done. auto.
  - intros i. rewrite acks_delete by done. apply Ha.
  - by rewrite bindex_delete.
Qed.

Lemma removes_unack d0 d id : id ∉ reserved -> only_removes d0 d ->
  only_removes d0 (put_acks (delete id d) (delete id (acks d))).
Proof.
  intros Hid Hr. destruct (removes_delete d0 d id Hid Hr) as [Ht Hd _ Hb]. split; [by apply typed_put_acks| | |].
  - intros k Hk. rewrite lookup_put_acks by done. auto.
  - intros i. rewrite acks_put_acks, lookup_delete_is_Some. intros [_ ?]. by apply Hr.
  - by rewrite bindex_put_acks.
Qed.
End WithMutex.

#[export] Hint Resolve removes_refl removes_put_bindex removes_remove_pending removes_delete removes_unack : om.
