(* ===== verification/StoreTicket.v ===== *)
(** * The ticket half of the Redis state store ([internal/statestore/ticket.go])

    Three Redis keys beside the tickets themselves, which are stored under
    their id: the set of indexed ids and the sorted set of ids proposed in a
    match, scored by the time of the proposal. *)
From S2P Require Export Store.


(** [errors.Wrapf(err, msg)] turned into a status error with [%v]. *)
Definition wrapped (c : code) (msg : string) (m : string) : error :=
  EStatus c (msg +:+ ": " +:+ m).

Section Ticket.
Context `{Sys} `{Proto} (cfg : View).

Definition CreateTicket (ticket : Ticket) : prog (result unit) :=
  with_conn RedisPool
    (fun m => EStatus Unavailable ("CreateTicket, id: " +:+ t_Id ticket +:+ ", failed to connect to redis: " +:+ m))
    (fun redisConn =>
      match marshal_ticket ticket with
      | None => ret_err (EStatus Internal ("failed to marshal the ticket proto, id: " +:+ t_Id ticket))
      | Some value =>
          _ ←? redis_do redisConn (SET (t_Id ticket) value)
                 (wrapped Internal ("failed to set the value for ticket, id: " +:+ t_Id ticket));
          ret_ok tt
      end).

Definition ticket_not_found (id : string) : error :=
  EStatus NotFound ("Ticket id: " +:+ id +:+ " not found").

Definition GetTicket (id : string) : prog (result Ticket) :=
  with_conn RedisPool
    (fun m => EStatus Unavailable ("GetTicket, id: " +:+ id +:+ ", failed to connect to redis: " +:+ m))
    (fun redisConn =>
      value ←? redis_do redisConn (GET id)
                 (wrapped Internal ("failed to get the ticket from state storage, id: " +:+ id));
      match value with
      | None => ret_err (ticket_not_found id)
      | Some value =>
          match unmarshal_ticket value with
          | None => ret_err (EStatus Internal ("failed to unmarshal the ticket proto, id: " +:+ id))
          | Some ticket => ret_ok ticket
          end
      end).

Definition DeleteTicket (id : string) : prog (result unit) :=
  with_conn RedisPool
    (fun m => EStatus Unavailable ("DeleteTicket, id: " +:+ id +:+ ", failed to connect to redis: " +:+ m))
    (fun redisConn =>
      value ←? redis_do redisConn (DEL id)
                 (wrapped Internal ("failed to delete the ticket from state storage, id: " +:+ id));
      if value =? 0 then ret_err (ticket_not_found id) else ret_ok tt).

Definition IndexTicket (ticket : Ticket) : prog (result unit) :=
  with_conn RedisPool
    (fun m => EStatus Unavailable ("IndexTicket, id: " +:+ t_Id ticket +:+ ", failed to connect to redis: " +:+ m))
    (fun redisConn =>
      _ ←? redis_send redisConn (SADD allTickets (t_Id ticket))
             (wrapped Internal ("failed to add ticket to all tickets, id: " +:+ t_Id ticket));
      ret_ok tt).

Definition DeindexTicket (id : string) : prog (result unit) :=
  with_conn RedisPool
    (fun m => EStatus Unavailable ("DeindexTicket, id: " +:+ id +:+ ", failed to connect to redis: " +:+ m))
    (fun redisConn =>
      _ ←? redis_send redisConn (SREM allTickets id)
             (wrapped Internal ("failed to remove ticket from all tickets, id: " +:+ id));
      ret_ok tt).

Definition GetIndexedIDSet : prog (result (gset string)) :=
  with_conn RedisPool
    (fun m => EStatus Unavailable ("GetIndexedIDSet, failed to connect to redis: " +:+ m))
    (fun redisConn =>
      let ttl := GetDuration cfg "pendingReleaseTimeout" in
      curTime ←! trigger Now;
      let endTimeInt := curTime + time_Hour in
      let startTimeInt := curTime - ttl in
      idsInPendingReleases ←?
        redis_do redisConn (ZRANGEBYSCORE proposedTicketIDs startTimeInt endTimeInt)
          (fun m => EStatus Internal ("error getting pending release " +:+ m));
      idsIndexed ←? redis_do redisConn (SMEMBERS allTickets)
          (fun m => EStatus Internal ("error getting all indexed ticket ids " +:+ m));
      let r : gset string := foldl (fun r id => {[id]} ∪ r) ∅ idsIndexed in
      let r := foldl (fun r id => r ∖ {[id]}) r idsInPendingReleases in
      ret_ok r).

(** The loop over the replies of MGET: missing tickets are skipped, one
    that does not unmarshal ends the call. *)
Fixpoint unmarshal_found (ids : list string) (bs : list (option string)) : result (list Ticket) :=
  match ids, bs with
  | id :: ids, Some b :: bs =>
      match unmarshal_ticket b with
      | None => Err (EStatus Internal ("failed to unmarshal ticket from redis, key " +:+ id))
      | Some t => result_bind (unmarshal_found ids bs) (fun r => Ok (t :: r))
      end
  | _ :: ids, None :: bs => unmarshal_found ids bs
  | _, _ => Ok []
  end.

Definition GetTickets (ids : list string) : prog (result (list Ticket)) :=
  match ids with
  | [] => ret_ok []
  | _ =>
      with_conn RedisPool
        (fun m => EStatus Unavailable ("GetTickets, failed to connect to redis: " +:+ m))
        (fun redisConn =>
          ticketBytes ←? redis_do redisConn (MGET ids) (wrapped Internal "failed to lookup tickets");
          Ret (unmarshal_found ids ticketBytes))
  end.

Definition AddTicketsToPendingRelease (ids : list string) : prog (result unit) :=
  match ids with
  | [] => ret_ok tt
  | _ =>
      with_conn RedisPool
        (fun m => EStatus Unavailable ("AddTicketsToPendingRelease, failed to connect to redis: " +:+ m))
        (fun redisConn =>
          currentTime ←! trigger Now;
          let cmds := (fun id => (currentTime, id)) <$> ids in
          _ ←? redis_do redisConn (ZADD proposedTicketIDs cmds)
                 (wrapped Internal "failed to append proposed tickets to pending release");
          ret_ok tt)
  end.

Definition DeleteTicketsFromPendingRelease (ids : list string) : prog (result unit) :=
  match ids with
  | [] => ret_ok tt
  | _ =>
      with_conn RedisPool
        (fun m => EStatus Unavailable ("DeleteTicketsFromPendingRelease, failed to connect to redis: " +:+ m))
        (fun redisConn =>
          _ ←? redis_do redisConn (ZREM proposedTicketIDs ids)
                 (wrapped Internal "failed to delete proposed tickets from pending release");
          ret_ok tt)
  end.

Definition ReleaseAllTickets : prog (result unit) :=
  with_conn RedisPool
    (fun m => EStatus Unavailable ("ReleaseAllTickets, failed to connect to redis: " +:+ m))
    (fun redisConn =>
      _ ←? redis_do redisConn (DEL proposedTicketIDs) EPlain;
      ret_ok tt).

(** [getAssignedDeleteTimeout]: ten minutes unless configured. *)
Definition getAssignedDeleteTimeout : Z :=
  if IsSet cfg "assignedDeleteTimeout" then GetDuration cfg "assignedDeleteTimeout"
  else 10 * time_Minute.

(** The two nested loops that collect the ids and their assignments: each
    group needs an assignment, no id may occur twice. *)
Fixpoint collect_group (a : Assignment) (tids : list string)
    (idToA : gmap string Assignment) (ids : list string) :
    result (gmap string Assignment * list string) :=
  match tids with
  | [] => Ok (idToA, ids)
  | id :: tids =>
      match idToA !! id with
      | Some _ => Err (EStatus InvalidArgument
          ("Ticket id " +:+ id +:+ " is assigned multiple times in one assign tickets call"))
      | None => collect_group a tids (<[id := a]> idToA) (ids ++ [id])
      end
  end.

Fixpoint collect_assignments (groups : list AssignmentGroup)
    (idToA : gmap string Assignment) (ids : list string) :
    result (gmap string Assignment * list string) :=
  match groups with
  | [] => Ok (idToA, ids)
  | g :: groups =>
      match ag_Assignment g with
      | None => Err (EStatus InvalidArgument "AssignmentGroup.Assignment is required")
      | Some a =>
          result_bind (collect_group a (ag_TicketIds g) idToA ids)
            (fun '(idToA, ids) => collect_assignments groups idToA ids)
      end
  end.

Definition not_found_failure (id : string) : AssignmentFailure :=
  mkAssignmentFailure id AssignmentFailure_TICKET_NOT_FOUND.

(** The loop over the replies of MGET: a missing ticket is a failure. *)
Fixpoint read_assigned (ids : list string) (bs : list (option string)) :
    result (list AssignmentFailure * list Ticket) :=
  match ids, bs with
  | id :: ids, None :: bs =>
      result_bind (read_assigned ids bs) (fun '(fs, ts) => Ok (not_found_failure id :: fs, ts))
  | id :: ids, Some b :: bs =>
      match unmarshal_ticket b with
      | None => Err (EStatus Internal ("failed to unmarshal ticket from redis " +:+ id))
      | Some t => result_bind (read_assigned ids bs) (fun '(fs, ts) => Ok (fs, t :: ts))
      end
  | _, _ => Ok ([], [])
  end.

(** Queue one SET per ticket in the open transaction; the tickets with
    their new assignment are what the call later returns. *)
Fixpoint send_assignments (redisConn : conn) (idToA : gmap string Assignment)
    (assignmentTimeout : Z) (tickets : list Ticket) : prog (result (list Ticket)) :=
  match tickets with
  | [] => ret_ok []
  | ticket :: tickets =>
      let ticket := set_ticket_assignment (idToA !! t_Id ticket) ticket in
      match marshal_ticket ticket with
      | None => ret_err (EStatus Internal ("failed to marshal ticket " +:+ t_Id ticket))
      | Some ticketByte =>
          _ ←? redis_send redisConn (SETXX (t_Id ticket) ticketByte assignmentTimeout)
                 (fun m => EWrap "error sending ticket assignment set" (EPlain m));
          rest ←? send_assignments redisConn idToA assignmentTimeout tickets;
          ret_ok (ticket :: rest)
      end
  end.

(** The loop over the replies of EXEC: a nil reply is a ticket that
    disappeared since it was read. *)
Fixpoint read_was_set (tickets : list Ticket) (wasSet : list (option string)) :
    result (list AssignmentFailure * list Ticket) :=
  match tickets, wasSet with
  | ticket :: tickets, None :: wasSet =>
      result_bind (read_was_set tickets wasSet)
        (fun '(fs, ts) => Ok (not_found_failure (t_Id ticket) :: fs, ts))
  | ticket :: tickets, Some v :: wasSet =>
      if decide (v = "OK") then
        result_bind (read_was_set tickets wasSet) (fun '(fs, ts) => Ok (fs, ticket :: ts))
      else Err (EStatus Internal ("unexpected response from redis: " +:+ v))
  | _, _ => Ok ([], [])
  end.

Definition UpdateAssignments (req : AssignTicketsRequest) :
    prog (result (AssignTicketsResponse * list Ticket)) :=
  match atr_Assignments req with
  | [] => ret_ok (mkAssignTicketsResponse [], [])
  | groups =>
      with_conn RedisPool
        (fun m => EStatus Unavailable ("UpdateAssignments, failed to connect to redis: " +:+ m))
        (fun redisConn =>
          '(idToA, ids) ←? Ret (collect_assignments groups ∅ []);
          match ids with
          | [] => ret_err (EStatus InvalidArgument "AssignmentGroupTicketIds is empty")
          | _ =>
              ticketBytes ←? redis_do redisConn (MGET ids) EPlain;
              '(failures, tickets) ←? Ret (read_assigned ids ticketBytes);
              let assignmentTimeout := getAssignedDeleteTimeout `quot` time_Millisecond in
              _ ←? redis_send redisConn MULTI
                     (fun m => EWrap "error starting redis multi" (EPlain m));
              tickets ←? send_assignments redisConn idToA assignmentTimeout tickets;
              wasSet ←? redis_do redisConn EXEC
                     (fun m => EWrap "error executing assignment set" (EPlain m));
              if decide (length wasSet <> length tickets) then
                ret_err (EStatus Internal "sent tickets to redis, but received a different number back")
              else
                '(lost, assignedTickets) ←? Ret (read_was_set tickets wasSet);
                ret_ok (mkAssignTicketsResponse (failures ++ lost), assignedTickets)
          end)
  end.

(** [GetAssignments] polls the ticket, handing its assignment to a callback
    with state [S], under [backoff.Retry] with a constant interval: every
    error of the callback or of the read is permanent and ends the call,
    anything else is tried again. [attempts] bounds the polls made; [None]
    is a call still waiting for its next poll. *)
Section GetAssignments.
Context {S : Type} (callback : S -> option Assignment -> S * result unit).

Definition backoffOperation (id : string) (s : S) : prog (S * option error) :=
  ticket ←! GetTicket id;
  match ticket with
  | Err err => Ret (s, Some err)
  | Ok ticket =>
      let '(s, r) := callback s (t_Assignment ticket) in
      Ret (s, match r with Err err => Some err | Ok _ => None end)
  end.

Fixpoint retry (attempts : nat) (id : string) (s : S) : prog (S * option error) :=
  match attempts with
  | O => Ret (s, None)
  | Datatypes.S n =>
      x ←! backoffOperation id s;
      match x with
      | (s, Some err) => Ret (s, Some err)
      | (s, None) => retry n id s
      end
  end.

Definition GetAssignments (attempts : nat) (id : string) (s : S) : prog (S * option error) :=
  Vis (GetConn RedisPool) (fun r =>
    match r with
    | inr m => Ret (s, Some (EStatus Unavailable
                 ("GetAssignments, id: " +:+ id +:+ ", failed to connect to redis: " +:+ m)))
    | inl redisConn =>
        x ←! retry attempts id s;
        Vis (CloseConn redisConn) (fun _ => Ret x)
    end).
End GetAssignments.

Definition HealthCheck : prog (result unit) :=
  with_conn HealthCheckPool (EStatus Unavailable)
    (fun redisConn =>
      _ ←? redis_do redisConn PING (EStatus Unavailable);
      ret_ok tt).
End Ticket.

(** ** Every operation meets its contract *)
Section TicketSpecs.
Context `{Sys} `{Proto} (cfg : View).
Implicit Types (v : view).

Lemma CreateTicket_spec t v : wp (CreateTicket t) v (create_ticket_post t v).
Proof.
  unfold CreateTicket.
  destruct (marshal_ticket t) as [b|] eqn:Hb; cycle 1.
  { apply wp_with_conn; [intros Hf m; cbn; right; auto with om|].
    intros c Hc. apply wp_ret, wp_close_idle; [done|]. apply wp_ret. cbn. auto. }
  apply (wp_with_conn_do _ _ _ _ (fun _ => Ok tt)); cbn -[put_str set_db].
  - intros Hf m. right; auto with om.
  - intros m d' Hd. right. split; [by left|].
    eapply fault_intro; [exact Hd|by intros []|]. intros a d1 ->. right; eauto.
  - intros a d' ->. eauto.
Qed.

Lemma GetTicket_spec id v : wp (GetTicket id) v (get_ticket_post id v).
Proof.
  unfold GetTicket. apply wp_with_conn; [intros Hf m; split; [done|]; cbn; auto|].
  intros c Hc. apply wp_do; [done|intros r d' Hd|intros m d' Hd]; prog_cbn.
  - cbn in Hd. unfold get_ticket_post, ticket_at, get_str.
    destruct (v_db v !! id) as [[[s| | |] px]|] eqn:He; try done; destruct Hd as [-> ->];
      prog_cbn; rewrite ?set_db_id; [destruct (unmarshal_ticket s) eqn:Hu|];
      apply wp_ret, wp_close_idle; try done; apply wp_ret; split; [done|..];
      cbn; rewrite ?Hu; eauto.
  - assert (d' = v_db v) as ->.
    { eapply failed_read; [exact Hd|]. intros a d1 Ha. cbn in Ha.
      by destruct (v_db v !! id) as [[[] ?]|]; destruct_and?. }
    rewrite set_db_id. apply wp_ret, wp_close_idle; [done|]. apply wp_ret.
    split; [done|]. cbn. destruct Hd as [[[Hs Hn] _]|[Hf _]]; [|auto].
    right; left. repeat split; [done|]. unfold ticket_at. by rewrite Hn.
Qed.

Lemma HealthCheck_spec v : wp HealthCheck v (probe_post v).
Proof.
  apply (wp_with_conn_do _ _ _ _ (fun _ => Ok tt)); [intros Hf m; by split..| |].
  - intros m d' Hd. assert (d' = v_db v) as -> by (eapply failed_read; [exact Hd|done]).
    rewrite set_db_id. split; [done|]. intros _. eapply failed_faulty; [exact Hd|by intros []].
  - intros r d' ->. by rewrite set_db_id.
Qed.

(** One poll. *)
Lemma backoffOperation_spec {S} (callback : S -> option Assignment -> S * result unit) id s v :
  wp (backoffOperation callback id s) v (fun x v' => v' = v /\
    match ticket_at (v_db v) id with
    | Some t => x = polls callback (t_Assignment t) 1 s \/ (sys_faulty = true /\ exists e, x = (s, Some e))
    | None => x.1 = s /\ exists e, x.2 = Some e /\
        (sys_faulty = true \/ status_of e = Some (if decide (v_db v !! id = None) then NotFound else Internal))
    end).
Proof.
  unfold backoffOperation. apply wp_bind. eapply wp_mono; [apply GetTicket_spec|]. intros [t|e] v' [-> Hr].
  - rewrite Hr. cbn. destruct (callback s (t_Assignment t)) as [s' [[]|e]]; split; auto.
  - apply wp_ret. split; [done|]. unfold ticket_at, get_str in *.
    destruct Hr as [[He Hn]|[(He & [x Hx] & Hn)|[_ Hf]]].
    + rewrite Hn. cbn. split; [done|]. exists e. split; [done|]. right. by rewrite decide_True.
    + rewrite Hn. split; [done|]. exists e. split; [done|]. right. by rewrite decide_False by congruence.
    + destruct (_ ≫= _); [right; eauto|]. split; [done|]. eauto.
Qed.

Lemma retry_spec {S} (callback : S -> option Assignment -> S * result unit) attempts id s v :
  wp (retry callback attempts id s) v (get_assignments_post callback attempts id s v).
Proof.
  revert s. induction attempts as [|n IH]; intros s; cbn [retry].
  { split; [done|]. destruct (ticket_at (v_db v) id); [by left|by split]. }
  apply wp_bind. eapply wp_mono; [apply backoffOperation_spec|]. intros [s' e] v' [-> Hx].
  unfold get_assignments_post. cbn [polls] in *. destruct (ticket_at (v_db v) id) as [t|] eqn:Ht.
  - destruct (callback s (t_Assignment t)) as [s1 r] eqn:Hc. destruct Hx as [Hx|[Hf [e' [= -> ->]]]]; cycle 1.
    { apply wp_ret. split; [done|]. right. split; [done|]. exists O, s, e'. split; [lia|done]. }
    destruct r as [[]|e1]; injection Hx as -> ->; [|apply wp_ret; auto].
    eapply wp_mono; [apply IH|]. intros x v' [-> Hp]. rewrite Ht in Hp. split; [done|].
    destruct Hp as [->|(Hf & k & s2 & e2 & Hk & Hp & ->)]; [by left|]. right. split; [done|].
    exists (Datatypes.S k), s2, e2. split; [lia|]. cbn [polls]. by rewrite Hc.
  - cbn in Hx. destruct Hx as [-> (e1 & -> & He)]. apply wp_ret. split; [done|]. cbn. eauto.
Qed.

Lemma GetAssignments_spec {S} (callback : S -> option Assignment -> S * result unit) attempts id s v :
  wp (GetAssignments callback attempts id s) v (get_assignments_post callback attempts id s v).
Proof.
  apply wp_get_conn.
  - intros Hf m. apply wp_ret. split; [done|]. destruct (ticket_at (v_db v) id) as [t|]; [|cbn; eauto].
    right. split; [done|]. exists O, s. eexists. split; [lia|done].
  - intros c Hc. apply wp_bind. eapply wp_mono; [apply retry_spec|]. intros x v' [-> Hx].
    apply wp_close_idle; [done|]. apply wp_ret. by split.
Qed.

Lemma DeleteTicket_spec id v : wp (DeleteTicket id) v (delete_post id v).
Proof.
  unfold DeleteTicket. apply wp_with_conn; [intros Hf m; cbn; auto with om|].
  intros c Hc. apply wp_do; [done|intros r d' [-> ->]|intros m d' Hd]; prog_cbn.
  - case_decide as Hs; cbn [Z.eqb]; (apply wp_ret, wp_close_idle; [done|]); apply wp_ret; cbn.
    + by split.
    + left. apply eq_None_not_Some in Hs. rewrite delete_id by done. by rewrite set_db_id.
  - apply wp_ret, wp_close_idle; [done|]. apply wp_ret. cbn. right. split; [by left|].
    eapply fault_intro; [exact Hd|by intros []|]. intros a d1 [_ ->]. auto.
Qed.

Lemma IndexTicket_spec t v : typed (v_db v) ->
  wp (IndexTicket t) v (indexing_post (put_index (v_db v) ({[t_Id t]} ∪ index (v_db v))) v).
Proof.
  intros Ht. apply (wp_with_conn_send _ _ _ _ tt); [done|cbn; auto..|].
  intros d' [[r Hd]|[Hw _]]; cbn in *; rewrite typed_index in * by done; [|done].
  destruct Hd as [_ ->]. by left.
Qed.

Lemma DeindexTicket_spec id v : typed (v_db v) ->
  wp (DeindexTicket id) v (indexing_post (put_index (v_db v) (index (v_db v) ∖ {[id]})) v).
Proof.
  intros Ht. apply (wp_with_conn_send _ _ _ _ tt); [done|cbn; auto..|].
  intros d' [[r Hd]|[Hw _]]; cbn in *; rewrite typed_index in * by done; [|done].
  destruct Hd as [_ ->]. by left.
Qed.

Lemma fold_add_ids (ids : list string) (r : gset string) :
  foldl (fun r id => {[id]} ∪ r) r ids = r ∪ list_to_set ids.
Proof. revert r. induction ids as [|i ids IH]; intros r; cbn; [set_solver|]. rewrite IH. set_solver. Qed.

Lemma fold_remove_ids (ids : list string) (r : gset string) :
  foldl (fun r id => r ∖ {[id]}) r ids = r ∖ list_to_set ids.
Proof. revert r. induction ids as [|i ids IH]; intros r; cbn; [set_solver|]. rewrite IH. set_solver. Qed.

Lemma GetIndexedIDSet_spec v : typed (v_db v) ->
  wp (GetIndexedIDSet cfg) v (get_indexed_post cfg v).
Proof.
  intros Ht. apply wp_with_conn.
  { intros Hf m. exists (v_now v). rewrite upd_id. split; [lia|done]. }
  intros c Hc. prog_cbn. apply wp_now_conn. intros t Hnow.
  wp_do as l d' Hd|m d' Hd; cycle 1.
  { assert (d' = v_db v) as ->.
    { eapply failed_read; [exact Hd|]. intros a d1 Ha. cbn in Ha.
      rewrite typed_pending in Ha by done. by destruct_and?. }
    wp_done. exists t. split; [done|]. split; [done|].
    eapply failed_faulty; [exact Hd|]. cbn. by rewrite typed_pending. }
  cbn in Hd. rewrite typed_pending in Hd by done. destruct Hd as (_ & -> & Hl).
  wp_do as l' d' Hd|m d' Hd; cycle 1.
  { assert (d' = v_db v) as ->.
    { eapply failed_read; [exact Hd|]. intros a d1 Ha. cbn in Ha.
      rewrite typed_index in Ha by done. by destruct_and?. }
    wp_done. exists t. split; [done|]. split; [done|].
    eapply failed_faulty; [exact Hd|]. cbn. by rewrite typed_index. }
  cbn in Hd. rewrite typed_index in Hd by done. destruct Hd as (_ & Hi & ->).
  wp_done. exists t. split; [done|]. split; [done|]. intros id.
  rewrite fold_remove_ids, fold_add_ids, <- Hi. unfold in_window. rewrite <- Hl. set_solver.
Qed.

Lemma unmarshal_found_spec d ids :
  match unmarshal_found ids (get_str d <$> ids) with
  | Ok ts => ts = omap (ticket_at d) ids /\
      Forall (fun id => get_str d id <> None -> is_Some (ticket_at d id)) ids
  | Err e => status_of e = Some Internal /\
      exists id, id ∈ ids /\ get_str d id <> None /\ ticket_at d id = None
  end.
Proof.
  induction ids as [|id ids IH]; [by split|]. cbn [fmap list_fmap unmarshal_found omap list_omap].
  unfold ticket_at at 1. destruct (get_str d id) as [b|] eqn:Hb; cbn.
  - assert (ticket_at d id = unmarshal_ticket b) as Ht by (unfold ticket_at; by rewrite Hb).
    destruct (unmarshal_ticket b) as [t|] eqn:Hu.
    + destruct (unmarshal_found ids (get_str d <$> ids)) as [ts|e]; cbn in *.
      * destruct IH as [-> IH]. split; [done|]. constructor; [by rewrite Ht|done].
      * destruct IH as (? & id' & ? & ?). split; [done|]. exists id'. set_solver.
    + cbn. split; [done|]. exists id. rewrite Hb, Ht. set_solver.
  - destruct (unmarshal_found ids (get_str d <$> ids)) as [ts|e]; cbn in *.
    + destruct IH as [-> IH]. split; [done|]. constructor; [by rewrite Hb|done].
    + destruct IH as (? & id' & ? & ?). split; [done|]. exists id'. set_solver.
Qed.

Lemma GetTickets_spec ids v : wp (GetTickets ids) v (get_tickets_post ids v).
Proof.
  unfold GetTickets. destruct ids as [|id ids]; [by repeat split|].
  set (all := id :: ids).
  apply (wp_with_conn_do _ _ (MGET all) _ (unmarshal_found all)).
  - intros Hf m. split; [done|by right].
  - intros m d' Hd. split; [|right; by eapply failed_faulty; [exact Hd|intros []]].
    assert (d' = v_db v) as -> by (eapply failed_read; [exact Hd|]; by intros a d1 [_ ->]).
    by rewrite set_db_id.
  - intros r d' [-> ->]. split; [by rewrite set_db_id|].
    pose proof (unmarshal_found_spec (v_db v) all) as Hs.
    destruct (unmarshal_found all _); [done|by left].
Qed.

Lemma AddTicketsToPendingRelease_spec ids v : typed (v_db v) ->
  wp (AddTicketsToPendingRelease ids) v (add_pending_post ids v).
Proof.
  intros Ht. unfold AddTicketsToPendingRelease. destruct ids as [|id ids].
  { exists (v_now v). rewrite upd_id. split; [lia|done]. }
  set (all := id :: ids).
  apply wp_with_conn; [intros Hf m; cbn; auto with om|]. intros c Hc.
  prog_cbn. apply wp_now_conn. intros t Hnow.
  wp_do as r d' Hd|m d' Hd; wp_done; cbn in Hd.
  - rewrite typed_pending in Hd by done. subst d'. exists t. by split.
  - change (set_db (set_now v t) d') with (upd v d' t).
    eapply fault_intro_now; [done|exact Hd|cbn; by rewrite typed_pending|].
    intros a d1 Ha. cbn in Ha. rewrite typed_pending in Ha by done. right. by exists t.
Qed.

Lemma DeleteTicketsFromPendingRelease_spec ids v : typed (v_db v) ->
  wp (DeleteTicketsFromPendingRelease ids) v (remove_pending_post ids v).
Proof.
  intros Ht. unfold DeleteTicketsFromPendingRelease. destruct ids as [|id ids].
  { cbn. by rewrite set_db_id. }
  apply (wp_with_conn_do _ _ _ _ (fun _ => Ok tt)); [intros Hf m; cbn; auto with om|..].
  - intros m d' Hd. eapply fault_intro; [exact Hd|cbn; by rewrite typed_pending|].
    intros a d1 Ha. cbn in Ha. rewrite typed_pending in Ha by done. by right.
  - intros r d' Hd. cbn in Hd. rewrite typed_pending in Hd by done. by subst d'.
Qed.

Lemma ReleaseAllTickets_spec v : wp ReleaseAllTickets v (release_all_post v).
Proof.
  apply (wp_with_conn_do _ _ _ _ (fun _ => Ok tt)); [intros Hf m; cbn; auto with om|..].
  - intros m d' Hd. eapply fault_intro; [exact Hd|by intros []|]. intros a d1 [_ ->]. by right.
  - by intros r d' [_ ->].
Qed.
End TicketSpecs.

(** ** [UpdateAssignments] *)
Section Assignments.
Context `{Sys} `{Proto} (cfg : View).
Implicit Types (v : view) (d : db) (m : gmap string Assignment).

Lemma collect_group_spec a tids m ids :
  match collect_group a tids m ids with
  | Ok (m', ids') =>
      NoDup tids /\ (forall id, id ∈ tids -> m !! id = None) /\ ids' = ids ++ tids /\
      forall k, m' !! k = if decide (k ∈ tids) then Some a else m !! k
  | Err e => status_of e = Some InvalidArgument /\
      ~ (NoDup tids /\ forall id, id ∈ tids -> m !! id = None)
  end.
Proof.
  revert m ids. induction tids as [|id tids IH]; intros m ids; cbn.
  { rewrite app_nil_r. repeat split; [constructor|set_solver]. }
  destruct (m !! id) as [a'|] eqn:Hm.
  { split; [done|]. intros [_ Hn]. specialize (Hn id ltac:(set_solver)). congruence. }
  specialize (IH (<[id:=a]> m) (ids ++ [id])).
  destruct (collect_group a tids _ _) as [[m' ids']|e].
  - destruct IH as (Hnd & Hfresh & -> & Hk).
    assert (id ∉ tids) as Hni.
    { intros Hi. specialize (Hfresh _ Hi). by rewrite lookup_insert_eq in Hfresh. }
    repeat split.
    + by constructor.
    + intros k [->|Hi]%elem_of_cons; [done|]. specialize (Hfresh _ Hi).
      rewrite lookup_insert_ne in Hfresh; [done|by intros ->].
    + by rewrite <- app_assoc.
    + intros k. rewrite Hk. destruct (decide (k = id)) as [->|].
      * rewrite lookup_insert_eq. repeat case_decide; set_solver.
      * rewrite lookup_insert_ne by done. repeat case_decide; set_solver.
  - destruct IH as [? Hn]. split; [done|]. intros [[Hni Hnd]%NoDup_cons Hf]. apply Hn.
    split; [done|]. intros k Hi. rewrite lookup_insert_ne by (intros ->; set_solver).
    apply Hf. set_solver.
Qed.

Lemma collect_assignments_spec groups m ids :
  let fresh := forall id, id ∈ group_ids groups -> m !! id = None in
  match collect_assignments groups m ids with
  | Ok (m', ids') =>
      Forall (fun g => is_Some (ag_Assignment g)) groups /\ NoDup (group_ids groups) /\ fresh /\
      ids' = ids ++ group_ids groups /\
      forall k, m' !! k = if decide (k ∈ group_ids groups) then assignment_of groups k else m !! k
  | Err e => status_of e = Some InvalidArgument /\
      ~ (Forall (fun g => is_Some (ag_Assignment g)) groups /\ NoDup (group_ids groups) /\ fresh)
  end.
Proof.
  revert m ids. induction groups as [|g groups IH]; intros m ids; cbn.
  { rewrite app_nil_r. repeat split; [constructor..|set_solver]. }
  destruct (ag_Assignment g) as [a|] eqn:Ha; cycle 1.
  { split; [done|]. intros [Hf%Forall_inv _]. rewrite Ha in Hf. by destruct Hf. }
  pose proof (collect_group_spec a (ag_TicketIds g) m ids) as Hg.
  destruct (collect_group a _ m ids) as [[m1 ids1]|e]; cbn [result_bind].
  2:{ destruct Hg as [? Hn]. split; [done|]. intros (_ & [Hnd _]%NoDup_app & Hfr).
      apply Hn. split; [done|]. intros id Hi. apply Hfr. set_solver. }
  destruct Hg as (Hnd & Hfr & -> & Hk).
  specialize (IH m1 (ids ++ ag_TicketIds g)). cbn in IH.
  fold (group_ids groups) in *.
  destruct (collect_assignments groups m1 _) as [[m2 ids2]|e].
  - destruct IH as (Hall & Hnd2 & Hfr2 & -> & Hk2).
    assert (forall id, id ∈ ag_TicketIds g -> id ∉ group_ids groups) as Hdisj.
    { intros id Hi Hi2. specialize (Hfr2 _ Hi2). rewrite Hk in Hfr2. by rewrite decide_True in Hfr2. }
    repeat split.
    + constructor; [by rewrite Ha|done].
    + apply NoDup_app. auto.
    + intros id [Hi|Hi]%elem_of_app; [by apply Hfr|].
      specialize (Hfr2 _ Hi). rewrite Hk in Hfr2. by case_decide.
    + by rewrite <- app_assoc.
    + intros k. rewrite Hk2, Hk. repeat case_decide; set_solver.
  - destruct IH as [? Hn]. split; [done|].
    intros (Hall%Forall_inv_tail & (_ & Hdisj & Hnd2)%NoDup_app & Hfr2). apply Hn.
    split; [done|]. split; [done|]. intros id Hi. rewrite Hk.
    rewrite decide_False by (intros Hi2; by apply (Hdisj id)). apply Hfr2. set_solver.
Qed.

Lemma collect_valid groups :
  match collect_assignments groups ∅ [] with
  | Ok (m, ids) => ids = group_ids groups /\ (ids <> [] -> valid_assign groups) /\
      forall k, k ∈ ids -> m !! k = assignment_of groups k
  | Err e => status_of e = Some InvalidArgument /\ ~ valid_assign groups
  end.
Proof.
  pose proof (collect_assignments_spec groups ∅ []) as Hs. cbn in Hs.
  destruct (collect_assignments groups ∅ []) as [[m ids]|e].
  - destruct Hs as (? & ? & _ & -> & Hk). repeat split; [done..|].
    intros k Hi. rewrite Hk. by rewrite decide_True.
  - destruct Hs as [? Hn]. split; [done|]. intros (? & ? & _). apply Hn.
    split; [done|]. split; [done|]. intros. apply lookup_empty.
Qed.

Lemma read_assigned_spec d ids :
  match read_assigned ids (get_str d <$> ids) with
  | Ok (fs, ts) => fs = missing_failures d ids /\ ts = omap (ticket_at d) ids
  | Err e => status_of e = Some Internal /\
      exists id, id ∈ ids /\ get_str d id <> None /\ ticket_at d id = None
  end.
Proof.
  induction ids as [|id ids IH]; [by split|].
  cbn [fmap list_fmap read_assigned omap list_omap]. unfold missing_failures.
  destruct (get_str d id) as [b|] eqn:Hb.
  - rewrite filter_cons_False by by rewrite Hb.
    assert (ticket_at d id = unmarshal_ticket b) as Ht by (unfold ticket_at; by rewrite Hb).
    rewrite Ht. destruct (unmarshal_ticket b) as [t|] eqn:Hu.
    + destruct (read_assigned ids _) as [[fs ts]|e]; cbn.
      * by destruct IH as [-> ->].
      * destruct IH as (? & id' & ? & ?). split; [done|]. exists id'. set_solver.
    + split; [done|]. exists id. rewrite Hb, Ht. set_solver.
  - rewrite filter_cons_True by done.
    replace (ticket_at d id) with (None : option Ticket) by (unfold ticket_at; by rewrite Hb).
    destruct (read_assigned ids _) as [[fs ts]|e]; cbn.
    + by destruct IH as [-> ->].
    + destruct IH as (? & id' & ? & ?). split; [done|]. exists id'. set_solver.
Qed.

(** The commands queued for a list of tickets with their encodings. *)
Definition set_cmds (px : Z) (ts : list Ticket) (bs : list string) : list command :=
  zip_with (fun t b => SETXX (t_Id t) b px) ts bs.

Lemma send_assignments_spec c m px ts v cs (Q : result (list Ticket) -> view -> Prop) :
  (forall bs, let ts' := (fun t => set_ticket_assignment (m !! t_Id t) t) <$> ts in
     Forall2 (fun t b => marshal_ticket t = Some b) ts' bs ->
     Q (Ok ts') (sent_conn v c (cs ++ set_cmds px ts' bs))) ->
  (forall e junk, (status_of e = Some Internal /\
       exists t, t ∈ ts /\ marshal_ticket (set_ticket_assignment (m !! t_Id t) t) = None) \/
     sys_faulty = true ->
     Q (Err e) (sent_conn v c (cs ++ junk))) ->
  wp (send_assignments c m px ts) (sent_conn v c cs) Q.
Proof.
  revert cs Q. induction ts as [|t ts IH]; intros cs Q Hok Herr; cbn [send_assignments].
  { apply wp_ret. rewrite <- (app_nil_r cs). apply (Hok []). constructor. }
  destruct (marshal_ticket (set_ticket_assignment (m !! t_Id t) t)) as [b|] eqn:Hb; cycle 1.
  { apply wp_ret. rewrite <- (app_nil_r cs). apply Herr. left. split; [done|].
    exists t. split; [set_solver|done]. }
  prog_cbn. apply wp_send; [intros Hf msg|]; prog_cbn.
  { apply wp_ret. rewrite <- (app_nil_r cs). apply Herr. by right. }
  apply wp_bind, IH.
  - intros bs ts' Hbs. prog_cbn. apply wp_ret. rewrite <- app_assoc.
    apply (Hok (b :: bs)). by constructor.
  - intros e junk He. prog_cbn. apply wp_ret. rewrite <- app_assoc. apply Herr.
    destruct He as [(? & t' & ? & ?)|]; [left|by right].
    split; [done|]. exists t'. set_solver.
Qed.

(** Queued SETs of existing, distinct keys all happen. *)
Lemma multi_set_cmds px ts bs d rs d' :
  length ts = length bs -> NoDup (t_Id <$> ts) ->
  Forall (fun t => is_Some (d !! t_Id t)) ts ->
  multi d (set_cmds px ts bs) rs d' ->
  rs = replicate (length ts) (Some "OK") /\
  (forall k, k ∉ t_Id <$> ts -> d' !! k = d !! k) /\
  (forall i t b, ts !! i = Some t -> bs !! i = Some b ->
     d' !! t_Id t = Some (mkEntry (RStr b) (Some px))).
Proof.
  revert bs d rs. induction ts as [|t ts IH]; intros [|b bs] d rs Hl Hnd Hd; try done.
  { cbn. intros [-> ->]. split; [done|]. split; [done|]. by intros []. }
  cbn. apply NoDup_cons in Hnd as [Hni Hnd]. apply Forall_cons in Hd as [[e He] Hd].
  destruct rs as [|r rs]; [done|]. unfold setxx. rewrite He. cbn. intros [-> Hm].
  assert (Forall (fun t0 => is_Some (put_str d (t_Id t) b (Some px) !! t_Id t0)) ts) as Hd'.
  { eapply Forall_impl; [exact Hd|]. intros t' Hs. cbn in Hs. unfold put_str.
    apply lookup_insert_is_Some'. by right. }
  destruct (IH bs _ rs ltac:(by injection Hl) Hnd Hd' Hm) as (-> & Hout & Hin).
  repeat split.
  - intros k Hk. rewrite Hout by set_solver. apply put_str_ne. set_solver.
  - intros [|i] t' b' Ht Hb; cbn in Ht, Hb; [simplify_eq|by eapply Hin].
    rewrite Hout by done. unfold put_str. apply lookup_insert_eq.
Qed.

Lemma read_was_set_ok ts :
  read_was_set ts (replicate (length ts) (Some "OK")) = Ok ([], ts).
Proof. induction ts as [|t ts IH]; cbn; [done|]. by rewrite IH. Qed.

Lemma omap_ids d ids : well_keyed ids d -> NoDup ids ->
  NoDup (t_Id <$> omap (ticket_at d) ids) /\
  (forall k, k ∈ t_Id <$> omap (ticket_at d) ids <-> k ∈ ids /\ is_Some (ticket_at d k)).
Proof.
  intros Hwk Hnd.
  assert (forall k, k ∈ t_Id <$> omap (ticket_at d) ids <-> k ∈ ids /\ is_Some (ticket_at d k)) as Hk.
  { intros k. rewrite list_elem_of_fmap. setoid_rewrite list_elem_of_omap. split.
    - intros (t & -> & id & Hi & Ht). rewrite (Hwk _ _ Hi Ht). split; [done|by rewrite Ht].
    - intros [Hi [t Ht]]. exists t. split; [by rewrite (Hwk _ _ Hi Ht)|eauto]. }
  split; [|done]. clear Hk. induction Hnd as [|id ids Hni Hnd IH]; cbn; [constructor|].
  assert (well_keyed ids d) as Hwk' by (intros ???; apply Hwk; set_solver).
  destruct (ticket_at d id) as [t|] eqn:Ht; [|auto]. cbn. constructor; [|auto].
  rewrite (Hwk id t ltac:(set_solver) Ht), list_elem_of_fmap. intros (t' & -> & Hi).
  apply list_elem_of_omap in Hi as (id' & Hi & Ht'). by rewrite (Hwk' _ _ Hi Ht') in Hni.
Qed.

Lemma ids_assigned groups (ts : list Ticket) : t_Id <$> (assigned_ticket groups <$> ts) = t_Id <$> ts.
Proof. rewrite <- list_fmap_compose. by apply list_fmap_ext. Qed.

Lemma assign_db_intro groups px d rs bs d' :
  well_keyed (group_ids groups) d -> NoDup (group_ids groups) ->
  let found := omap (ticket_at d) (group_ids groups) in
  Forall2 (fun t b => marshal_ticket t = Some b) (assigned_ticket groups <$> found) bs ->
  multi d (set_cmds px (assigned_ticket groups <$> found) bs) rs d' ->
  rs = replicate (length found) (Some "OK") /\ assign_db groups px d d'.
Proof.
  intros Hwk Hnd found Hbs Hm.
  destruct (omap_ids d (group_ids groups) Hwk Hnd) as [Hnd' Hin']. fold found in Hnd', Hin'.
  apply multi_set_cmds in Hm as (-> & Hout & Hin).
  - rewrite length_fmap. split; [done|]. intros k. rewrite ids_assigned in Hout.
    destruct (decide (k ∈ group_ids groups)) as [Hi|]; cycle 1.
    { apply Hout. rewrite Hin'. tauto. }
    destruct (ticket_at d k) as [t|] eqn:Ht.
    + assert (t ∈ found) as Hf by (apply list_elem_of_omap; eauto).
      apply list_elem_of_lookup in Hf as [j Hj].
      assert ((assigned_ticket groups <$> found) !! j = Some (assigned_ticket groups t)) as Hj'
        by by rewrite list_lookup_fmap, Hj.
      destruct (Forall2_lookup_l _ _ _ _ _ Hbs Hj') as (b & Hb & Hmb).
      exists b. split; [done|]. rewrite <- (Hwk _ _ Hi Ht). by apply (Hin j (assigned_ticket groups t) b).
    + apply Hout. rewrite Hin', Ht. intros [_ [? ?]]; done.
  - by eapply Forall2_length.
  - by rewrite ids_assigned.
  - apply Forall_fmap, Forall_forall. intros t Hf. cbn. apply list_elem_of_omap in Hf as (id & Hi & Ht).
    rewrite (Hwk _ _ Hi Ht). eapply ticket_at_lookup. by rewrite Ht.
Qed.

Lemma UpdateAssignments_spec req v : well_keyed (group_ids (atr_Assignments req)) (v_db v) ->
  wp (UpdateAssignments cfg req) v (update_assignments_post cfg req v).
Proof.
  intros Hwk. unfold UpdateAssignments, update_assignments_post.
  destruct (atr_Assignments req) as [|g gs]; [by left|]. set (groups := g :: gs) in *.
  apply wp_with_conn; [intros Hf m; right; right; auto with om|]. intros c Hc.
  pose proof (collect_valid groups) as Hcol.
  destruct (collect_assignments groups ∅ []) as [[m ids]|e]; prog_cbn; cycle 1.
  { wp_done. left. destruct Hcol. auto. }
  destruct Hcol as (-> & Hv & Hm). destruct (group_ids groups) as [|id0 ids0] eqn:Hids.
  { wp_done. left. split; [done|]. split; [done|]. split; [|done]. intros (_ & _ & Hne). by rewrite Hids in Hne. }
  specialize (Hv ltac:(done)). rewrite <- Hids in *. clear id0 ids0 Hids.
  wp_do as r d' [-> ->]|msg d' Hd; cycle 1.
  { assert (d' = v_db v) as -> by (eapply failed_read; [exact Hd|]; by intros a d1 [_ ->]).
    rewrite set_db_id. wp_done. right; right. apply fault_none. eapply failed_faulty; [exact Hd|by intros []]. }
  rewrite set_db_id. pose proof (read_assigned_spec (v_db v) (group_ids groups)) as Hread.
  destruct (read_assigned _ _) as [[fs found]|e]; prog_cbn; cycle 1.
  { wp_done. right; left. destruct Hread as (? & id & ? & ? & Hn).
    split; [done|]. split; [done|]. split; [done|]. exists id. split; [done|]. split; [done|]. by rewrite Hn. }
  destruct Hread as [-> ->]. apply wp_send; [intros Hf msg|]; prog_cbn.
  { wp_done. right; right; auto with om. }
  destruct (omap_ids _ _ Hwk ltac:(apply Hv)) as [_ Hin].
  set (found := omap (ticket_at (v_db v)) (group_ids groups)) in *.
  assert (forall t, t ∈ found -> set_ticket_assignment (m !! t_Id t) t = assigned_ticket groups t) as Hass.
  { intros t Ht. unfold assigned_ticket. rewrite Hm; [done|].
    apply Hin. by apply list_elem_of_fmap_2. }
  apply wp_bind, send_assignments_spec; cycle 1.
  { intros e junk He. prog_cbn. apply wp_ret, wp_close; [done|].
    intros d' Hd. cbn in Hd. subst d'. rewrite set_db_id. apply wp_ret.
    destruct He as [(? & t & Ht & Hn)|]; [|right; right; auto with om].
    right; left. rewrite (Hass t Ht) in Hn. apply list_elem_of_omap in Ht as (id & Hi & Ht).
    split; [done|]. split; [done|]. split; [done|]. exists id. split; [done|]. split.
    - intros Hs. unfold ticket_at in Ht. by rewrite Hs in Ht.
    - intros t' Ht'. congruence. }
  intros bs ts' Hbs. prog_cbn. cbn [app].
  assert (ts' = assigned_ticket groups <$> found) as -> by (by apply Forall_fmap_ext_1, Forall_forall).
  apply wp_exec; [done|intros r d' Hd|intros msg d' Hf Hd]; prog_cbn; cycle 1.
  { wp_done. right; right. split; [done|]. exists d', (v_now v). split; [lia|]. split; [|done].
    destruct Hd as [->|[r Hd]]; [by left|right].
    by apply assign_db_intro in Hd as [_ Hd]; [|done|apply Hv|done]. }
  apply assign_db_intro in Hd as [-> Hd]; [|done|apply Hv|done].
  rewrite decide_False by (rewrite length_replicate, length_fmap; by intros Hne).
  assert (length found = length (assigned_ticket groups <$> found)) as Hlen by by rewrite length_fmap.
  fold found. rewrite Hlen, read_was_set_ok. prog_cbn. wp_done. right.
  split; [done|]. rewrite app_nil_r. split; [done|]. split; [done|]. eauto.
Qed.
End Assignments.
