(* ===== verification/StoreBackfill.v ===== *)
(** * The backfill half of the Redis state store ([internal/statestore/backfill.go])

    A backfill is stored under its id with the ids of its tickets; the sorted
    set [backfill_last_ack_time] scores its last acknowledgement and the hash
    [allBackfills] maps each indexed id to its generation. *)
From S2P Require Export StoreTicket.

Section Backfill.
Context `{Sys} `{Proto} (cfg : View).

Definition backfill_not_found (id : string) : error :=
  EStatus NotFound ("Backfill id: " +:+ id +:+ " not found").

(** Four fifths of the pending-release timeout, in Go's integer division. *)
Definition getBackfillReleaseTimeout : Z :=
  GetDuration cfg "pendingReleaseTimeout" `quot` 5 * 4.

Definition doUpdateAcknowledgmentTimestamp (c : conn) (backfillID : string) : prog (result unit) :=
  currentTime ←! trigger Now;
  _ ←? redis_do c (ZADD backfillLastAckTime [(currentTime, backfillID)])
         (wrapped Internal "failed to store backfill's last acknowledgement time");
  ret_ok tt.

Definition CreateBackfill (backfill : Backfill) (ticketIDs : list string) : prog (result unit) :=
  with_conn RedisPool
    (fun m => EStatus Unavailable ("CreateBackfill, id: " +:+ b_Id backfill +:+ ", failed to connect to redis: " +:+ m))
    (fun redisConn =>
      let bf := mkBackfillInternal (Some backfill) ticketIDs in
      match marshal_backfill bf with
      | None => ret_err (EStatus Internal ("failed to marshal the backfill proto, id: " +:+ b_Id backfill))
      | Some value =>
          res ←? redis_do redisConn (SETNX (b_Id backfill) value)
                   (wrapped Internal ("failed to set the value for backfill, id: " +:+ b_Id backfill));
          if res =? 0 then
            ret_err (EStatus AlreadyExists ("backfill already exists, id: " +:+ b_Id backfill))
          else doUpdateAcknowledgmentTimestamp redisConn (b_Id backfill)
      end).

Definition GetBackfill (id : string) : prog (result (option Backfill * list string)) :=
  with_conn RedisPool
    (fun m => EStatus Unavailable ("GetBackfill, id: " +:+ id +:+ ", failed to connect to redis: " +:+ m))
    (fun redisConn =>
      value ←? redis_do redisConn (GET id)
                 (wrapped Internal ("failed to get the backfill from state storage, id: " +:+ id));
      match value with
      | None => ret_err (backfill_not_found id)
      | Some value =>
          match unmarshal_backfill value with
          | None => ret_err (EStatus Internal ("failed to unmarshal internal backfill, id: " +:+ id))
          | Some bi => ret_ok (bi_Backfill bi, bi_TicketIds bi)
          end
      end).

(** The replies of MGET into a map keyed by the id inside each backfill. *)
Fixpoint backfill_map (ids : list string) (bs : list (option string)) (m : gmap string Backfill) :
    result (gmap string Backfill) :=
  match ids, bs with
  | id :: ids, Some s :: bs =>
      match unmarshal_backfill s with
      | None => Err (EStatus Internal ("failed to unmarshal backfill from redis, key: " +:+ id))
      | Some b =>
          backfill_map ids bs
            (match bi_Backfill b with Some b => <[b_Id b := b]> m | None => m end)
      end
  | _ :: ids, None :: bs => backfill_map ids bs m
  | _, _ => Ok m
  end.

Definition GetBackfills (ids : list string) : prog (result (list Backfill)) :=
  match ids with
  | [] => ret_ok []
  | _ =>
      with_conn RedisPool
        (fun m => EStatus Unavailable ("GetBackfills, failed to connect to redis: " +:+ m))
        (fun redisConn =>
          slices ←? redis_do redisConn (MGET ids) (wrapped Internal "failed to lookup backfills");
          m ←? Ret (backfill_map ids slices ∅);
          ret_ok (omap (fun id => m !! id) ids))
  end.

Definition deleteExpiredBackfillID (c : conn) (backfillID : string) : prog (result unit) :=
  _ ←? redis_do c (ZREM backfillLastAckTime [backfillID])
         (fun m => EStatus Internal ("failed to delete expired backfill ID " +:+ backfillID
                     +:+ " from Sorted Set " +:+ m));
  ret_ok tt.

Definition DeleteBackfill (id : string) : prog (result unit) :=
  with_conn RedisPool
    (fun m => EStatus Unavailable ("DeleteBackfill, id: " +:+ id +:+ ", failed to connect to redis: " +:+ m))
    (fun redisConn =>
      value ←? redis_do redisConn (DEL id)
                 (wrapped Internal ("failed to delete the backfill from state storage, id: " +:+ id));
      if value =? 0 then ret_err (backfill_not_found id)
      else deleteExpiredBackfillID redisConn id).

(** Expired: last acknowledged strictly more than [ttl] ago. A backfill
    with no recorded acknowledgement is an error ([redis.ErrNil]). *)
Definition isBackfillExpired (c : conn) (id : string) (ttl : Z) : prog (result bool) :=
  let failed := wrapped Internal ("failed to get backfill's last acknowledgement time, id: " +:+ id) in
  lastAckTime ←? redis_do c (ZSCORE backfillLastAckTime id) failed;
  match lastAckTime with
  | None => ret_err (failed "redigo: nil returned")
  | Some lastAckTime =>
      now ←! trigger Now;
      let endTime := now - ttl in
      ret_ok (lastAckTime <? endTime)
  end.

Definition UpdateBackfill (backfill : Backfill) (ticketIDs : list string) : prog (result unit) :=
  with_conn RedisPool
    (fun m => EStatus Unavailable ("UpdateBackfill, id: " +:+ b_Id backfill +:+ ", failed to connect to redis: " +:+ m))
    (fun redisConn =>
      expired ←? isBackfillExpired redisConn (b_Id backfill) getBackfillReleaseTimeout;
      if (expired : bool) then
        ret_err (EStatus Unavailable ("can not update an expired backfill, id: " +:+ b_Id backfill))
      else
        let bf := mkBackfillInternal (Some backfill) ticketIDs in
        match marshal_backfill bf with
        | None => ret_err (EStatus Internal ("failed to marshal the backfill proto, id: " +:+ b_Id backfill))
        | Some value =>
            _ ←? redis_do redisConn (SET (b_Id backfill) value)
                   (wrapped Internal ("failed to set the value for backfill, id: " +:+ b_Id backfill));
            ret_ok tt
        end).

Definition UpdateAcknowledgmentTimestamp (id : string) : prog (result unit) :=
  with_conn RedisPool
    (fun m => EStatus Unavailable ("UpdateAcknowledgmentTimestamp, id: " +:+ id +:+ ", failed to connect to redis: " +:+ m))
    (fun redisConn =>
      expired ←? isBackfillExpired redisConn id getBackfillReleaseTimeout;
      if (expired : bool) then
        ret_err (EStatus Unavailable ("can not acknowledge an expired backfill, id: " +:+ id))
      else doUpdateAcknowledgmentTimestamp redisConn id).

Definition GetExpiredBackfillIDs : prog (result (list string)) :=
  with_conn RedisPool
    (fun m => EStatus Unavailable ("GetExpiredBackfillIDs, failed to connect to redis: " +:+ m))
    (fun redisConn =>
      let ttl := getBackfillReleaseTimeout in
      curTime ←! trigger Now;
      let endTimeInt := curTime - ttl in
      let startTimeInt := 0 in
      expiredBackfillIds ←?
        redis_do redisConn (ZRANGEBYSCORE backfillLastAckTime startTimeInt endTimeInt)
          (fun m => EStatus Internal ("error getting expired backfills " +:+ m));
      ret_ok (expiredBackfillIds : list string)).

Definition IndexBackfill (backfill : Backfill) : prog (result unit) :=
  with_conn RedisPool
    (fun m => EStatus Unavailable ("IndexBackfill, id: " +:+ b_Id backfill +:+ ", failed to connect to redis: " +:+ m))
    (fun redisConn =>
      _ ←? redis_send redisConn (HSET allBackfills (b_Id backfill) (itoa (b_Generation backfill)))
             (wrapped Internal ("failed to add backfill to all backfills, id: " +:+ b_Id backfill));
      ret_ok tt).

Definition DeindexBackfill (id : string) : prog (result unit) :=
  with_conn RedisPool
    (fun m => EStatus Unavailable ("DeindexBackfill, id: " +:+ id +:+ ", failed to connect to redis: " +:+ m))
    (fun redisConn =>
      _ ←? redis_send redisConn (HDEL allBackfills id)
             (wrapped Internal ("failed to remove ID from backfill index, id: " +:+ id));
      ret_ok tt).

(** The acknowledged ids that are indexed, with their generation. *)
Fixpoint indexed_generations (ids : list string) (index : gmap string string) (r : gmap string Z) :
    result (gmap string Z) :=
  match ids with
  | [] => Ok r
  | id :: ids =>
      match index !! id with
      | None => indexed_generations ids index r
      | Some generation =>
          match atoi generation with
          | None => Err (EStatus Internal "error while parsing generation into number")
          | Some gen => indexed_generations ids index (<[id := gen]> r)
          end
      end
  end.

Definition GetIndexedBackfills : prog (result (gmap string Z)) :=
  with_conn RedisPool
    (fun m => EStatus Unavailable ("GetIndexedBackfills, failed to connect to redis: " +:+ m))
    (fun redisConn =>
      let ttl := getBackfillReleaseTimeout in
      curTime ←! trigger Now;
      let endTimeInt := curTime + time_Hour in
      let startTimeInt := curTime - ttl in
      acknowledgedIds ←?
        redis_do redisConn (ZRANGEBYSCORE backfillLastAckTime startTimeInt endTimeInt)
          (fun m => EStatus Internal ("error getting acknowledged backfills " +:+ m));
      index ←? redis_do redisConn (HGETALL allBackfills)
          (fun m => EStatus Internal ("error getting all indexed backfill ids " +:+ m));
      Ret (indexed_generations acknowledgedIds index ∅)).

(** [NewMutex(key)] with its [Lock] and [Unlock]: the mutex keeps the value
    it wrote in Redis, by which it is given back. *)
Definition mutex_Lock (key : string) : prog (result string) :=
  r ←! trigger (Lock (mutex_name key) (GetDuration cfg "backfillLockTimeout"));
  Ret (match r with inl token => Ok token | inr m => Err (EPlain m) end).

Definition mutex_Unlock (key token : string) : prog (result bool) :=
  r ←! trigger (Unlock (mutex_name key) token);
  Ret (match r with inl b => Ok b | inr m => Err (EPlain m) end).

(** Deindex, release the associated tickets, delete: after the deindexing
    every step is attempted whatever the previous ones returned. *)
Definition DeleteBackfillCompletely (id : string) : prog (result unit) :=
  with_mutex (mutex_Lock id) (mutex_Unlock id) (
    _ ←? DeindexBackfill id;
    got ←! GetBackfill id;
    let associatedTickets := match got with Ok (_, ids) => ids | Err _ => [] end in
    _ ←! DeleteTicketsFromPendingRelease associatedTickets;
    _ ←! DeleteBackfill id;
    ret_ok tt).
End Backfill.

(** ** Every operation meets its contract *)
Section BackfillSpecs.
Context `{Sys} `{Proto} (cfg : View).
Implicit Types (v : view) (d : db).

Lemma read_typed_acks d cmd a d1 : typed d ->
  match cmd with
  | ZRANGEBYSCORE k _ _ | ZSCORE k _ => k = backfillLastAckTime
  | _ => False
  end -> cmd_ok d cmd a d1 -> d1 = d.
Proof.
  intros Ht Hc. destruct cmd; try done; subst; cbn; rewrite typed_acks by done; by intros; destruct_and?.
Qed.

(** [doUpdateAcknowledgmentTimestamp] on a held connection. *)
Lemma doUpdateAck_spec c id v (Q : result unit -> view -> Prop) :
  v_pend v !! c = None -> typed (v_db v) ->
  (forall t, v_now v <= t -> Q (Ok tt) (sent_conn (upd v (acked (v_db v) id t) t) c [])) ->
  (forall e t d', sys_faulty = true -> v_now v <= t -> (d' = v_db v \/ d' = acked (v_db v) id t) ->
     Q (Err e) (sent_conn (upd v d' t) c [])) ->
  wp (doUpdateAcknowledgmentTimestamp c id) (sent_conn v c []) Q.
Proof.
  intros Hc Ht Hok Herr. unfold doUpdateAcknowledgmentTimestamp. prog_cbn.
  apply wp_now_conn. intros t Hnow. wp_do as r d' Hd|m d' Hd; apply wp_ret.
  - cbn in Hd. rewrite typed_acks in Hd by done. subst d'. by apply Hok.
  - apply (Herr _ t d').
    + eapply failed_faulty; [exact Hd|]. cbn. by rewrite typed_acks.
    + done.
    + destruct Hd as [[_ ?]|[_ [?|(a & Ha)]]]; [by left..|].
      cbn in Ha. rewrite typed_acks in Ha by done. by right.
Qed.

Lemma CreateBackfill_spec b ids v : typed (v_db v) -> b_Id b ∉ reserved ->
  wp (CreateBackfill b ids) v (create_backfill_post b ids v).
Proof.
  intros Ht Hres. unfold CreateBackfill, create_backfill_post.
  apply wp_with_conn; [intros Hf m; right; right; auto with om|]. intros c Hc.
  destruct (marshal_backfill _) as [enc|] eqn:Henc; [|wp_done; auto].
  wp_do as r d' Hd|m d' Hd; cbn in Hd; cycle 1.
  { wp_done. right; right. eapply fault_intro; [exact Hd|by intros []|].
    intros a d1 Ha. cbn in Ha. destruct (v_db v !! b_Id b) eqn:He; destruct Ha as [_ ->]; [by left|].
    right. exists enc. auto. }
  destruct (v_db v !! b_Id b) eqn:He; destruct Hd as [-> ->]; cbn [Z.eqb].
  { wp_done. right; left. rewrite set_db_id. eauto. }
  apply doUpdateAck_spec; [done|by apply typed_put_str|intros t Hnow|intros e t d' Hf Hnow Hd];
    (apply wp_close_idle; [done|]); apply wp_ret.
  - exists enc, t. auto.
  - right; right. split; [done|]. exists d', t. split; [done|]. split; [|done].
    right. exists enc. repeat split; [done..|]. destruct Hd as [->| ->]; [by left|right; eauto].
Qed.

Lemma GetBackfill_spec id v : wp (GetBackfill id) v (get_backfill_post id v).
Proof.
  unfold GetBackfill. apply wp_with_conn; [intros Hf m; split; [done|]; cbn; auto|].
  intros c Hc. wp_do as r d' Hd|m d' Hd.
  - cbn in Hd. unfold get_backfill_post, backfill_at, get_str.
    destruct (v_db v !! id) as [[[s| | |] px]|] eqn:He; try done; destruct Hd as [-> ->];
      prog_cbn; rewrite ?set_db_id; [destruct (unmarshal_backfill s) as [[]|] eqn:Hu|];
      wp_done; split; try done; cbn; rewrite ?Hu; eauto.
  - assert (d' = v_db v) as ->.
    { eapply failed_read; [exact Hd|]. intros a d1 Ha. cbn in Ha.
      by destruct (v_db v !! id) as [[[] ?]|]; destruct_and?. }
    rewrite set_db_id. wp_done.
    split; [done|]. cbn. destruct Hd as [[[Hs Hn] _]|[Hf _]]; [|auto].
    right; left. repeat split; [done|]. unfold backfill_at. by rewrite Hn.
Qed.

(** What the map of [GetBackfills] holds. *)
Lemma backfill_map_spec d ids m :
  match backfill_map ids (get_str d <$> ids) m with
  | Ok m' => bf_keyed ids d -> forall id,
      m' !! id = if decide (id ∈ ids) then (match backfill_of d id with Some b => Some b | None => m !! id end)
                 else m !! id
  | Err e => exists id, id ∈ ids /\ get_str d id <> None /\ backfill_at d id = None
  end.
Proof.
  revert m. induction ids as [|i ids IH]; intros m; [done|]. cbn [fmap list_fmap backfill_map].
  destruct (get_str d i) as [s|] eqn:Hs.
  - assert (backfill_at d i = unmarshal_backfill s) as Hat by (unfold backfill_at; by rewrite Hs).
    destruct (unmarshal_backfill s) as [bi|] eqn:Hu; cycle 1.
    { exists i. rewrite Hs, Hat. set_solver. }
    specialize (IH (match bi_Backfill bi with Some b => <[b_Id b := b]> m | None => m end)).
    destruct (backfill_map _ _ _) as [m'|e]; cycle 1.
    { destruct IH as (id & ? & ?). exists id. set_solver. }
    intros Hk id. rewrite IH by (intros ???; apply Hk; set_solver).
    assert (backfill_of d i = bi_Backfill bi) as Hof by (unfold backfill_of; by rewrite Hat).
    destruct (bi_Backfill bi) as [b|].
    + rewrite (Hk i b ltac:(set_solver) Hof). destruct (decide (id = i)) as [->|].
      * rewrite lookup_insert_eq, Hof. repeat case_decide; set_solver.
      * rewrite lookup_insert_ne by done. repeat case_decide; set_solver.
    + destruct (decide (id = i)) as [->|]; [rewrite Hof|]; repeat case_decide; set_solver.
  - assert (backfill_of d i = None) as Hof by (unfold backfill_of, backfill_at; by rewrite Hs).
    specialize (IH m). destruct (backfill_map _ _ _) as [m'|e]; cycle 1.
    { destruct IH as (id & ? & ?). exists id. set_solver. }
    intros Hk id. rewrite IH by (intros ???; apply Hk; set_solver).
    destruct (decide (id = i)) as [->|]; [rewrite Hof|]; repeat case_decide; set_solver.
Qed.

Lemma GetBackfills_spec ids v : wp (GetBackfills ids) v (get_backfills_post ids v).
Proof.
  unfold GetBackfills. destruct ids as [|id0 ids0]; [by split|]. set (ids := id0 :: ids0).
  apply wp_with_conn; [intros Hf m; split; [done|by left]|]. intros c Hc.
  wp_do as r d' [-> ->]|m d' Hd; cycle 1.
  { assert (d' = v_db v) as -> by (eapply failed_read; [exact Hd|]; by intros a d1 [_ ->]).
    rewrite set_db_id. wp_done. split; [done|]. left. eapply failed_faulty; [exact Hd|by intros []]. }
  rewrite set_db_id. pose proof (backfill_map_spec (v_db v) ids ∅) as Hm.
  destruct (backfill_map ids _ ∅) as [m|e]; prog_cbn; wp_done; (split; [done|]); [|by right].
  intros Hk. specialize (Hm Hk). change (omap (fun id => m !! id) ids = omap (backfill_of (v_db v)) ids).
  assert (forall l, l ⊆ ids -> omap (fun id => m !! id) l = omap (backfill_of (v_db v)) l) as Hl.
  { induction l as [|i l IH]; intros Hl; [done|]. cbn. rewrite Hm, decide_True by set_solver.
    rewrite IH by set_solver. by destruct (backfill_of (v_db v) i); rewrite ?lookup_empty. }
  by apply Hl.
Qed.

Lemma DeleteBackfill_spec id v : typed (v_db v) -> id ∉ reserved ->
  wp (DeleteBackfill id) v (delete_backfill_post id v).
Proof.
  intros Ht Hres. unfold DeleteBackfill, delete_backfill_post.
  apply wp_with_conn; [intros Hf m; auto with om|]. intros c Hc.
  wp_do as r d' [-> ->]|m d' Hd; cycle 1.
  { wp_done. right. eapply fault_intro; [exact Hd|by intros []|]. intros a d1 [_ ->]. auto. }
  case_decide as Hs; cbn [Z.eqb]; cycle 1.
  { wp_done. left. apply eq_None_not_Some in Hs. rewrite delete_id by done. by rewrite set_db_id. }
  assert (typed (delete id (v_db v))) as Ht' by by apply typed_delete.
  unfold deleteExpiredBackfillID. wp_do as r d' Hd|m d' Hd; wp_done; cbn in Hd.
  - rewrite typed_acks in Hd by done. subst d'. split; [done|].
    cbn. unfold put_acks. by rewrite acks_delete.
  - right. split; [eapply failed_faulty; [exact Hd|]; cbn; by rewrite typed_acks|].
    exists d', (v_now v). split; [lia|]. split; [right|done].
    destruct Hd as [[_ ->]|[_ [->|(a & Ha)]]]; [by left..|right].
    cbn in Ha. rewrite typed_acks in Ha by done. subst d'. unfold put_acks. by rewrite acks_delete.
Qed.

Lemma isBackfillExpired_spec c id ttl v (Q : result bool -> view -> Prop) :
  v_pend v !! c = None -> typed (v_db v) ->
  (forall e, status_of e = Some Internal -> acks (v_db v) !! id = None \/ sys_faulty = true ->
     Q (Err e) (sent_conn v c [])) ->
  (forall la t, acks (v_db v) !! id = Some la -> v_now v <= t ->
     Q (Ok (la <? t - ttl)) (sent_conn (set_now v t) c [])) ->
  wp (isBackfillExpired c id ttl) (sent_conn v c []) Q.
Proof.
  intros Hc Ht Herr Hok. unfold isBackfillExpired. wp_do as r d' Hd|m d' Hd.
  - cbn in Hd. rewrite typed_acks in Hd by done. destruct Hd as [-> ->]. rewrite set_db_id.
    destruct (acks (v_db v) !! id) as [la|] eqn:Hla; prog_cbn.
    + apply wp_now_conn. intros t Hnow. apply wp_ret. by apply Hok.
    + apply wp_ret, Herr; auto.
  - assert (d' = v_db v) as ->.
    { eapply failed_read; [exact Hd|]. intros a d1. by apply read_typed_acks. }
    rewrite set_db_id. apply wp_ret, Herr; [done|]. right.
    eapply failed_faulty; [exact Hd|]. cbn. by rewrite typed_acks.
Qed.

Lemma UpdateBackfill_spec b ids v : typed (v_db v) ->
  wp (UpdateBackfill cfg b ids) v (update_backfill_post cfg b ids v).
Proof.
  intros Ht. unfold UpdateBackfill, update_backfill_post.
  apply wp_with_conn; [intros Hf m; right; right; auto with om|]. intros c Hc.
  apply wp_rbind, isBackfillExpired_spec; [done|done|intros e He Hn|intros la t Hla Hnow].
  { apply wp_close_idle; [done|]. apply wp_ret.
    destruct Hn as [Hn|]; [left; left; auto|right; right; auto with om]. }
  destruct (Z.ltb_spec la (t - getBackfillReleaseTimeout cfg)) as [Hlt|Hge].
  { wp_done. left; right. split; [done|]. exists t, la. auto. }
  destruct (marshal_backfill _) as [enc|] eqn:Henc; prog_cbn; cycle 1.
  { wp_done. right; left. split; [done|]. split; [done|]. exists t. repeat split; [done|]. by exists la. }
  wp_do as r d' Hd|m d' Hd; wp_done; cbn in Hd.
  - subst d'. exists enc, t. repeat split; [done..|]. by exists la.
  - right; right. change (set_db (set_now v t) d') with (upd v d' t).
    eapply fault_intro_now; [done|exact Hd|by intros []|]. intros a d1 ->. right. eauto.
Qed.

Lemma UpdateAcknowledgmentTimestamp_spec id v : typed (v_db v) ->
  wp (UpdateAcknowledgmentTimestamp cfg id) v (update_ack_post cfg id v).
Proof.
  intros Ht. unfold UpdateAcknowledgmentTimestamp, update_ack_post.
  apply wp_with_conn; [intros Hf m; right; auto with om|]. intros c Hc.
  apply wp_rbind, isBackfillExpired_spec; [done|done|intros e He Hn|intros la t Hla Hnow].
  { apply wp_close_idle; [done|]. apply wp_ret.
    destruct Hn as [Hn|]; [left; left; auto|right; auto with om]. }
  destruct (Z.ltb_spec la (t - getBackfillReleaseTimeout cfg)) as [Hlt|Hge].
  { wp_done. left; right. split; [done|]. exists t, la. auto. }
  apply doUpdateAck_spec; [done|done|intros t2 Hnow2|intros e t2 d' Hf Hnow2 Hd];
    (apply wp_close_idle; [done|]); apply wp_ret; cbn in Hnow2.
  - exists t, t2. repeat split; [done| |done]. by exists la.
  - right. split; [done|]. exists d', t2. split; [lia|]. split; [|done].
    destruct Hd as [->| ->]; [by left|]. right. exists t, t2. repeat split; [done| |done]. by exists la.
Qed.

Lemma GetExpiredBackfillIDs_spec v : typed (v_db v) ->
  wp (GetExpiredBackfillIDs cfg) v (get_expired_post cfg v).
Proof.
  intros Ht. apply wp_with_conn.
  { intros Hf m. exists (v_now v). rewrite upd_id. split; [lia|done]. }
  intros c Hc. prog_cbn. apply wp_now_conn. intros t Hnow.
  wp_do as l d' Hd|m d' Hd; (wp_done; exists t; split; [done|]).
  - cbn in Hd. rewrite typed_acks in Hd by done. destruct Hd as (? & -> & ?). split; [done|]. by split.
  - assert (d' = v_db v) as ->.
    { eapply failed_read; [exact Hd|]. intros a d1. by apply read_typed_acks. }
    split; [done|]. eapply failed_faulty; [exact Hd|]. cbn. by rewrite typed_acks.
Qed.

Lemma IndexBackfill_spec b v : typed (v_db v) ->
  wp (IndexBackfill b) v
    (indexing_post (put_bindex (v_db v) (<[b_Id b := itoa (b_Generation b)]> (bindex (v_db v)))) v).
Proof.
  intros Ht. apply (wp_with_conn_send _ _ _ _ tt); [done|cbn; auto..|].
  intros d' [[r Hd]|[Hw _]]; cbn in *; rewrite typed_bindex in * by done; [|done].
  subst d'. by left.
Qed.

Lemma DeindexBackfill_spec id v : typed (v_db v) ->
  wp (DeindexBackfill id) v
    (indexing_post (put_bindex (v_db v) (delete id (bindex (v_db v)))) v).
Proof.
  intros Ht. apply (wp_with_conn_send _ _ _ _ tt); [done|cbn; auto..|].
  intros d' [[r Hd]|[Hw _]]; cbn in *; rewrite typed_bindex in * by done; [|done].
  subst d'. by left.
Qed.

Lemma indexed_generations_spec ids index r :
  NoDup ids ->
  match indexed_generations ids index r with
  | Ok m => forall id g, m !! id = Some g <->
      if decide (id ∈ ids /\ is_Some (index !! id)) then index !! id ≫= atoi = Some g
      else r !! id = Some g
  | Err _ => exists id s, index !! id = Some s /\ atoi s = None
  end.
Proof.
  revert r. induction ids as [|i ids IH]; intros r Hnd; cbn.
  { intros id g. rewrite decide_False; [done|]. set_solver. }
  apply NoDup_cons in Hnd as [Hni Hnd]. destruct (index !! i) as [s|] eqn:Hs.
  - destruct (atoi s) as [g|] eqn:Hg; [|eauto]. specialize (IH (<[i:=g]> r) Hnd).
    destruct (indexed_generations _ _ _) as [m|e]; [|done]. intros id g'. rewrite IH.
    destruct (decide (id = i)) as [->|Hne].
    + rewrite (decide_False (P := i ∈ ids /\ _)) by tauto. rewrite decide_True by (split; [set_solver|by rewrite Hs]).
      rewrite lookup_insert_eq, Hs. cbn. by rewrite Hg.
    + rewrite lookup_insert_ne by done. repeat case_decide; set_solver.
  - specialize (IH r Hnd). destruct (indexed_generations _ _ _) as [m|e]; [|done].
    intros id g'. rewrite IH. destruct (decide (id = i)) as [->|Hne].
    + rewrite Hs. rewrite !decide_False; [done|by intros [_ [? ?]]..].
    + repeat case_decide; set_solver.
Qed.

Lemma GetIndexedBackfills_spec v : typed (v_db v) ->
  wp (GetIndexedBackfills cfg) v (get_indexed_backfills_post cfg v).
Proof.
  intros Ht. apply wp_with_conn.
  { intros Hf m. exists (v_now v). rewrite upd_id. split; [lia|auto]. }
  intros c Hc. prog_cbn. apply wp_now_conn. intros t Hnow.
  wp_do as l d' Hd|m d' Hd; cycle 1.
  { wp_done; exists t; split; [done|]. assert (d' = v_db v) as ->.
    { eapply failed_read; [exact Hd|]. intros a d1. by apply read_typed_acks. }
    split; [done|]. left. eapply failed_faulty; [exact Hd|]. cbn. by rewrite typed_acks. }
  cbn in Hd. rewrite typed_acks in Hd by done. destruct Hd as (Hnd & -> & Hl).
  wp_do as h d' Hd|m d' Hd; (wp_done; exists t; split; [done|]); cycle 1.
  { assert (d' = v_db v) as ->.
    { eapply failed_read; [exact Hd|]. intros a d1 Ha. cbn in Ha.
      rewrite typed_bindex in Ha by done. by destruct_and?. }
    split; [done|]. left. eapply failed_faulty; [exact Hd|]. cbn. by rewrite typed_bindex. }
  cbn in Hd. rewrite typed_bindex in Hd by done. destruct Hd as [-> ->]. split; [done|].
  pose proof (indexed_generations_spec l (bindex (v_db v)) ∅ Hnd) as Hg.
  destruct (indexed_generations _ _ _) as [m|e]; [|by right]. intros id g. rewrite Hg.
  fold (in_window (acks (v_db v)) (t - release_ttl cfg) (t + time_Hour) id).
  unfold in_window. rewrite <- Hl. case_decide as Hdec; [tauto|]. rewrite lookup_empty. split; [done|].
  intros [Hi Hb]. destruct Hdec. split; [done|]. by destruct (bindex (v_db v) !! id).
Qed.

Lemma mutex_Lock_spec key v : wp (mutex_Lock cfg key) v (lock_post cfg key v).
Proof.
  unfold mutex_Lock. prog_cbn. apply wp_lock.
  - intros token t Ht Hn. apply wp_ret. by exists t.
  - intros m Hn. apply wp_ret. by left.
  - intros Hf m. apply wp_ret. right. auto.
  - intros Hf m token t Ht Hn. apply wp_ret. right. split; [done|]. right. by exists token, t.
Qed.

Lemma mutex_Unlock_spec key token v : wp (mutex_Unlock key token) v (unlock_post key token v).
Proof.
  unfold mutex_Unlock. prog_cbn. intros [b|m] v' Hs; cbn in Hs; apply wp_ret; split.
  - left. apply Hs.
  - intros [= ->]. by apply Hs.
  - destruct Hs as [->|[Hf ->]]; [by left|by right].
  - done.
Qed.

Lemma DeleteBackfillCompletely_removes d0 id v : only_removes d0 (v_db v) -> id ∉ reserved ->
  wp (DeleteBackfillCompletely cfg id) v (fun _ v' => only_removes d0 (v_db v')).
Proof.
  intros Hrm Hid. apply (wp_with_mutex cfg _ _ id); [apply mutex_Lock_spec|apply mutex_Unlock_spec|done|by intros _ _ v' ->|].
  intros token t Ht Hn. set (v0 := entered _ _ _ _ _). assert (only_removes d0 (v_db v0)) as Ht0 by done.
  eapply (wp_mono _ _ (fun _ v' => only_removes d0 (v_db v'))); [|by intros r v' Hv'; rewrite unlocked_db].
  apply wp_rbind. eapply wp_mono; [by apply DeindexBackfill_spec; apply Ht0|]. intros r v1 H1.
  apply (keep_indexing (only_removes d0)) in H1; [|by eauto with om..].
  destruct r as [[]|e]; [|eauto].
  apply wp_bind. eapply wp_mono; [apply GetBackfill_spec|]. intros r v2 [-> _].
  apply wp_bind. eapply wp_mono; [by apply DeleteTicketsFromPendingRelease_spec; apply H1|].
  intros r' v2 H2. apply (keep_remove_pending (only_removes d0)) in H2; [|by eauto with om..].
  apply wp_bind. eapply wp_mono; [by apply DeleteBackfill_spec; [apply H2|]|].
  intros r'' v3 H3. apply (keep_delete_backfill (only_removes d0)) in H3; [|by eauto 6 with om..].
  by apply wp_ret.
Qed.

(** What happens under the mutex. *)
Lemma completely_body id v : sys_faulty = false -> typed (v_db v) -> id ∉ reserved ->
  wp (_ ←? DeindexBackfill id;
      got ←! GetBackfill id;
      _ ←! DeleteTicketsFromPendingRelease (match got with Ok (_, ids) => ids | Err _ => [] end);
      _ ←! DeleteBackfill id;
      ret_ok tt) v (fun r v' => r = Ok tt /\ v' = set_db v (completely (v_db v) id)).
Proof.
  intros Hf Ht Hid. assert (forall v1 R, ~ fault v v1 R) as Hnf by (intros ?? [? _]; congruence).
  apply wp_rbind. eapply wp_mono; [by apply DeindexBackfill_spec|].
  intros [[]|e] v1 H1; cbn in H1; [|destruct H1 as (_ & ? & _); congruence].
  destruct H1 as [->|[? _]]; [|congruence]. set (d1 := put_bindex _ _).
  assert (typed d1) as Ht1 by by apply typed_put_bindex.
  assert (d1 !! id = v_db v !! id) as Hd1 by by apply lookup_put_bindex.
  apply wp_bind. eapply wp_mono; [apply GetBackfill_spec|]. intros r v2 [-> Hr].
  set (tids := match backfill_at (v_db v) id with Some bi => bi_TicketIds bi | None => [] end).
  assert (match r with Ok (_, ids) => ids | Err _ => [] end = tids) as ->.
  { unfold tids. rewrite <- (backfill_at_ext d1 _ _ Hd1). cbn in Hr. destruct r as [[b ids]|e].
    - by rewrite Hr.
    - destruct Hr as [[_ Hr]|[(_ & _ & ->)|[_ Hr]]]; [|done|congruence].
      unfold backfill_at, get_str. by rewrite Hr. }
  apply wp_bind. eapply wp_mono; [by apply DeleteTicketsFromPendingRelease_spec|].
  intros r' v2 H2. destruct r' as [[]|e]; [|destruct H2; congruence]. cbn in H2. subst v2.
  set (d2 := remove_pending d1 tids). assert (typed d2) as Ht2 by by apply typed_remove_pending.
  assert (d2 !! id = v_db v !! id) as Hd2 by (unfold d2; by rewrite lookup_remove_pending).
  apply wp_bind. eapply wp_mono; [by apply DeleteBackfill_spec|].
  intros r'' v3 H3. apply wp_ret. split; [done|].
  unfold delete_backfill_post in H3. cbn [v_db set_db] in H3. fold d2 in H3.
  unfold completely. fold d1 tids d2. rewrite Hd2 in H3. destruct r'' as [[]|e].
  - destruct H3 as [[en He] ->]. by rewrite He.
  - destruct H3 as [(_ & -> & ->)|[? _]]; [done|congruence].
Qed.

Lemma DeleteBackfillCompletely_spec id v : typed (v_db v) -> id ∉ reserved ->
  wp (DeleteBackfillCompletely cfg id) v (delete_completely_post id v).
Proof.
  intros Ht Hid. unfold delete_completely_post. apply wp_and; [by apply DeleteBackfillCompletely_removes; [apply removes_refl|]|].
  apply wp_impl. intros Hf.
  apply (wp_with_mutex cfg _ _ id); [apply mutex_Lock_spec|apply mutex_Unlock_spec|by intros|congruence|].
  intros token t Hnow Hn. eapply wp_mono; [by apply completely_body|]. intros r v' [-> ->].
  split; [|congruence]. exists t. split; [done|]. split; [done|]. apply unlocked_entered.
Qed.

Lemma completely_typed d id : typed d -> id ∉ reserved -> typed (completely d id).
Proof.
  intros Ht Hid. unfold completely.
  destruct (d !! id); [apply typed_put_acks, typed_delete; [done|]|];
    by apply typed_remove_pending, typed_put_bindex.
Qed.
End BackfillSpecs.
