(* ===== verification/Removal.v ===== *)
(** * Removing things from the keyspace

    Deleting backfills only removes: names from the index of backfills,
    tickets from the set of proposals, records, acknowledgements. What has
    been removed is a set, so that removals by several processes add up in any
    order. *)
From S2P Require Export StoreBackfill.

(** ** Sets of removed things *)
Record gone := mkGone {
  g_index : gset string;     (* fields of [allBackfills] *)
  g_tickets : gset string;   (* members of [proposed_ticket_ids] *)
  g_records : gset string;   (* keys *)
  g_acks : gset string;      (* members of [backfill_last_ack_time] *)
}.

#[global] Instance gone_empty : Empty gone := mkGone ∅ ∅ ∅ ∅.
#[global] Instance gone_union : Union gone := fun a b =>
  mkGone (g_index a ∪ g_index b) (g_tickets a ∪ g_tickets b) (g_records a ∪ g_records b) (g_acks a ∪ g_acks b).

Lemma gone_eq a b : g_index a = g_index b -> g_tickets a = g_tickets b -> g_records a = g_records b ->
  g_acks a = g_acks b -> a = b.
Proof. destruct a, b. cbn. congruence. Qed.

#[global] Instance gone_empty_l : LeftId (=@{gone}) ∅ (∪).
Proof. intros a. apply gone_eq; exact (left_id_L ∅ (∪) _). Qed.
#[global] Instance gone_empty_r : RightId (=@{gone}) ∅ (∪).
Proof. intros a. apply gone_eq; exact (right_id_L ∅ (∪) _). Qed.
#[global] Instance gone_comm : Comm (=@{gone}) (∪).
Proof. intros a b. apply gone_eq; exact (comm_L (∪) _ _). Qed.
#[global] Instance gone_assoc : Assoc (=@{gone}) (∪).
Proof. intros a b c. apply gone_eq; exact (assoc_L (∪) _ _ _). Qed.

(** A map without some keys. *)
Definition without {A} (m : gmap string A) (s : gset string) : gmap string A := filter (fun kv => kv.1 ∉ s) m.

Lemma lookup_without {A} (m : gmap string A) s k : without m s !! k = if decide (k ∈ s) then None else m !! k.
Proof.
  unfold without. rewrite map_lookup_filter. destruct (m !! k) as [x|]; cbn; [|by case_decide].
  case_guard; case_decide; cbn in *; done.
Qed.

Lemma without_union {A} (m : gmap string A) s s' : without (without m s) s' = without m (s' ∪ s).
Proof. apply map_eq. intros k. rewrite !lookup_without. repeat case_decide; set_solver. Qed.

Lemma without_none {A} (m : gmap string A) : without m ∅ = m.
Proof. apply map_eq. intros k. rewrite lookup_without. by rewrite decide_False by set_solver. Qed.

Lemma without_empty {A} s : without (∅ : gmap string A) s = ∅.
Proof. apply map_eq. intros k. rewrite lookup_without, lookup_empty. by case_decide. Qed.

Lemma delete_without {A} (m : gmap string A) k : delete k m = without m {[k]}.
Proof.
  apply map_eq. intros i. rewrite lookup_without. destruct (decide (i = k)) as [->|]; simplify_map_eq.
  - by rewrite decide_True by set_solver.
  - by rewrite decide_False by set_solver.
Qed.

Lemma zrem_without (z : gmap string Z) ids : zrem_all z ids = without z (list_to_set ids).
Proof.
  apply map_eq. intros i. rewrite lookup_zrem_all, lookup_without.
  apply decide_ext. by rewrite elem_of_list_to_set.
Qed.

(** What an aggregate becomes when members go; nothing is written when none
    was asked for. *)
Definition shrunk {A} (mk : gmap string A -> rval) (s : gset string) (x : entry) (m : gmap string A) : option entry :=
  if decide (s = ∅) then Some x
  else if decide (without m s = ∅) then None else Some (mkEntry (mk (without m s)) None).

Definition shrink (g : gone) (k : string) (x : entry) : option entry :=
  if decide (k = allBackfills) then
    match e_val x with RHash h => shrunk RHash (g_index g) x h | _ => Some x end
  else if decide (k = proposedTicketIDs) then
    match e_val x with RZSet z => shrunk RZSet (g_tickets g) x z | _ => Some x end
  else if decide (k = backfillLastAckTime) then
    match e_val x with RZSet z => shrunk RZSet (g_acks g) x z | _ => Some x end
  else if decide (k ∈ g_records g) then None else Some x.

Definition removed (d : db) (g : gone) : db := map_imap (shrink g) d.

Section Removal.
Context `{Sys} `{Proto}.
Implicit Types (d : db) (g : gone).

Lemma lookup_removed d g k : removed d g !! k = d !! k ≫= shrink g k.
Proof. apply map_lookup_imap. Qed.

Lemma shrunk_union {A} (mk : gmap string A -> rval) (m : gmap string A) s s' x :
  match shrunk mk s x m with
  | Some y => shrunk mk s' y (if decide (s = ∅) then m else without m s)
  | None => None
  end = shrunk mk (s' ∪ s) x m.
Proof.
  unfold shrunk. destruct (decide (s = ∅)) as [->|Hs]; [by rewrite (right_id_L ∅ (∪))|].
  rewrite (decide_False (P := s' ∪ s = ∅)) by set_solver. rewrite <- without_union.
  destruct (decide (without m s = ∅)) as [He|Hne].
  - by rewrite He, without_empty, decide_True.
  - destruct (decide (s' = ∅)) as [->|Hs']; [|done]. by rewrite without_none, decide_False.
Qed.

Lemma shrink_union g g' k x : shrink g k x ≫= shrink g' k = shrink (g' ∪ g) k x.
Proof.
  unfold shrink. cbn [g_index g_tickets g_records g_acks union gone_union].
  assert (forall A (mk : gmap string A -> rval) (get : rval -> option (gmap string A)) s s' (m : gmap string A),
    (forall h, get (mk h) = Some h) -> get (e_val x) = Some m ->
    shrunk mk s x m ≫= (fun y => match get (e_val y) with Some h => shrunk mk s' y h | None => Some y end) =
    shrunk mk (s' ∪ s) x m) as Hagg.
  { intros A mk get s s' m Hget Hx. rewrite <- shrunk_union. destruct (shrunk mk s x m) as [y|] eqn:Hy; [|done]. cbn.
    assert (get (e_val y) = Some (if decide (s = ∅) then m else without m s)) as ->; [|done].
    unfold shrunk in Hy. repeat case_decide; simplify_eq; cbn; auto. }
  pose proof (Hagg _ RHash (fun r => match r with RHash h => Some h | _ => None end) (g_index g) (g_index g')) as Hb.
  pose proof (Hagg _ RZSet (fun r => match r with RZSet h => Some h | _ => None end) (g_tickets g) (g_tickets g')) as Hp.
  pose proof (Hagg _ RZSet (fun r => match r with RZSet h => Some h | _ => None end) (g_acks g) (g_acks g')) as Ha.
  destruct (decide (k = allBackfills)) as [_|_]; [|destruct (decide (k = proposedTicketIDs)) as [_|_];
    [|destruct (decide (k = backfillLastAckTime)) as [_|_]]].
  - destruct (e_val x) as [s|s|z|h] eqn:Hx; cbn; rewrite ?Hx; [done..|].
    rewrite <- (Hb h) by done. apply option_bind_ext; [|done]. intros y. by destruct (e_val y).
  - destruct (e_val x) as [s|s|z|h] eqn:Hx; cbn; rewrite ?Hx; [done..| |done].
    rewrite <- (Hp z) by done. apply option_bind_ext; [|done]. intros y. by destruct (e_val y).
  - destruct (e_val x) as [s|s|z|h] eqn:Hx; cbn; rewrite ?Hx; [done..| |done].
    rewrite <- (Ha z) by done. apply option_bind_ext; [|done]. intros y. by destruct (e_val y).
  - repeat case_decide; cbn; try rewrite decide_False by set_solver; set_solver.
Qed.

Lemma removed_removed d g g' : removed (removed d g) g' = removed d (g' ∪ g).
Proof.
  apply map_eq. intros k. rewrite !lookup_removed. destruct (d !! k) as [x|]; [|done]. cbn. apply shrink_union.
Qed.

Lemma removed_none d : removed d ∅ = d.
Proof.
  apply map_eq. intros k. rewrite lookup_removed. destruct (d !! k) as [x|]; [|done]. cbn. unfold shrink.
  assert (forall A (mk : gmap string A -> rval) m, shrunk mk ∅ x m = Some x) as Hs by (intros; unfold shrunk; by rewrite decide_True).
  repeat case_decide; try done; by destruct (e_val x).
Qed.

(** Records. *)
Lemma removed_record d g k : k ∉ reserved -> removed d g !! k = if decide (k ∈ g_records g) then None else d !! k.
Proof.
  intros Hk. rewrite lookup_removed. unfold reserved in Hk. rewrite !not_elem_of_cons in Hk.
  destruct Hk as (_ & H1 & H2 & H3 & _). destruct (d !! k); cbn; [|by case_decide].
  unfold shrink. by rewrite !(decide_False (P := k = _)).
Qed.

(** Typed keyspaces: the shared keys. *)
Lemma removed_bindex d g : typed d -> get_hash (removed d g) allBackfills = Some (without (bindex d) (g_index g)).
Proof.
  intros Ht. pose proof (typed_bindex d Ht) as Hb. unfold get_hash in *. rewrite lookup_removed.
  destruct (d !! allBackfills) as [[[s|s|z|h] px]|]; try done; cbn; [|injection Hb as <-; by rewrite without_empty].
  injection Hb as <-. unfold shrink. rewrite decide_True by done. cbn. unfold shrunk.
  destruct (decide (g_index g = ∅)) as [He|]; [by rewrite He, without_none|]. case_decide as Hw; [by rewrite Hw|done].
Qed.

Lemma removed_pending d g : typed d -> get_zset (removed d g) proposedTicketIDs = Some (without (pending d) (g_tickets g)).
Proof.
  intros Ht. pose proof (typed_pending d Ht) as Hb. unfold get_zset in *. rewrite lookup_removed.
  destruct (d !! proposedTicketIDs) as [[[s|s|z|h] px]|]; try done; cbn; [|injection Hb as <-; by rewrite without_empty].
  injection Hb as <-. unfold shrink. rewrite decide_False, decide_True by done. cbn. unfold shrunk.
  destruct (decide (g_tickets g = ∅)) as [He|]; [by rewrite He, without_none|]. case_decide as Hw; [by rewrite Hw|done].
Qed.

Lemma removed_acks d g : typed d -> get_zset (removed d g) backfillLastAckTime = Some (without (acks d) (g_acks g)).
Proof.
  intros Ht. pose proof (typed_acks d Ht) as Hb. unfold get_zset in *. rewrite lookup_removed.
  destruct (d !! backfillLastAckTime) as [[[s|s|z|h] px]|]; try done; cbn; [|injection Hb as <-; by rewrite without_empty].
  injection Hb as <-. unfold shrink. rewrite !decide_False, decide_True by done. cbn. unfold shrunk.
  destruct (decide (g_acks g = ∅)) as [He|]; [by rewrite He, without_none|]. case_decide as Hw; [by rewrite Hw|done].
Qed.

(** No shared key is among the records removed. *)
Definition sound_gone (g : gone) : Prop := forall k, k ∈ g_records g -> k ∉ reserved.

Lemma removed_index d g : sound_gone g -> removed d g !! allTickets = d !! allTickets.
Proof.
  intros Hg. rewrite lookup_removed. destruct (d !! allTickets) as [x|]; [|done]. cbn. unfold shrink.
  rewrite !decide_False; [done| |done..]. intros Hk. apply (Hg _ Hk). by left.
Qed.

Lemma typed_removed d g : sound_gone g -> typed d -> typed (removed d g).
Proof.
  intros Hg Ht. pose proof Ht as (Hi & _). split; [unfold get_set; by rewrite removed_index|].
  rewrite removed_bindex, removed_pending, removed_acks by done. eauto.
Qed.

Lemma removed_only d g : sound_gone g -> typed d -> only_removes d (removed d g).
Proof.
  intros Hg Ht. split; [by apply typed_removed| | |].
  - intros k Hk. rewrite removed_record by done. case_decide; auto.
  - intros i. unfold acks at 1. rewrite removed_acks by done. cbn. rewrite lookup_without. case_decide; [by intros [? ?]|done].
  - unfold bindex at 1. rewrite removed_bindex by done. cbn. apply map_subseteq_spec. intros k x.
    rewrite lookup_without. by case_decide.
Qed.

(** ** The commands that remove *)

Definition gone_index (s : gset string) : gone := mkGone s ∅ ∅ ∅.
Definition gone_tickets (s : gset string) : gone := mkGone ∅ s ∅ ∅.
Definition gone_record (k : string) : gone := mkGone ∅ ∅ {[k]} ∅.
Definition gone_acks (s : gset string) : gone := mkGone ∅ ∅ ∅ s.

(** One shared key changes. *)
Lemma shared_removed d d' g k : (forall k', k' <> k -> d' !! k' = d !! k') ->
  (forall k' x, k' <> k -> shrink g k' x = Some x) -> d' !! k = d !! k ≫= shrink g k -> d' = removed d g.
Proof.
  intros Hd Hs Hkk. apply map_eq. intros k'. rewrite lookup_removed. destruct (decide (k' = k)) as [->|Hne]; [done|].
  rewrite Hd by done. destruct (d !! k') as [x|]; [|done]. cbn. by rewrite Hs.
Qed.

Lemma shrunk_none {A} (mk : gmap string A -> rval) x m : shrunk mk ∅ x m = Some x.
Proof. unfold shrunk. by rewrite decide_True. Qed.

Ltac shrink_id :=
  intros k' x Hk'; unfold shrink; cbn;
  repeat case_decide; try done; rewrite ?shrunk_none; try set_solver; by destruct (e_val x); rewrite ?shrunk_none.

Lemma put_bindex_removed d s : typed d -> s <> ∅ -> put_bindex d (without (bindex d) s) = removed d (gone_index s).
Proof.
  intros Ht Hs. apply (shared_removed _ _ _ allBackfills); [intros k' Hk'; by apply put_hash_ne|shrink_id|].
  pose proof (typed_bindex d Ht) as Hb. unfold get_hash in Hb. unfold put_bindex, put_hash.
  destruct (d !! allBackfills) as [[[?|?|?|h] px]|]; try done; cbn; injection Hb as <-.
  - change (shrink _ _ _) with (shrunk RHash s (mkEntry (RHash h) px) h). unfold shrunk. rewrite (decide_False (P := s = ∅)) by done.
    case_decide; by simplify_map_eq.
  - rewrite without_empty. rewrite decide_True by done. apply lookup_delete_eq.
Qed.

Lemma put_pending_removed d s : typed d -> s <> ∅ -> put_pending d (without (pending d) s) = removed d (gone_tickets s).
Proof.
  intros Ht Hs. apply (shared_removed _ _ _ proposedTicketIDs); [intros k' Hk'; by apply put_zset_ne|shrink_id|].
  pose proof (typed_pending d Ht) as Hb. unfold get_zset in Hb. unfold put_pending, put_zset.
  destruct (d !! proposedTicketIDs) as [[[?|?|z|?] px]|]; try done; cbn; injection Hb as <-.
  - change (shrink _ _ _) with (shrunk RZSet s (mkEntry (RZSet z) px) z). unfold shrunk. rewrite (decide_False (P := s = ∅)) by done.
    case_decide; by simplify_map_eq.
  - rewrite without_empty. rewrite decide_True by done. apply lookup_delete_eq.
Qed.

Lemma put_acks_removed d s : typed d -> s <> ∅ -> put_acks d (without (acks d) s) = removed d (gone_acks s).
Proof.
  intros Ht Hs. apply (shared_removed _ _ _ backfillLastAckTime); [intros k' Hk'; by apply put_zset_ne|shrink_id|].
  pose proof (typed_acks d Ht) as Hb. unfold get_zset in Hb. unfold put_acks, put_zset.
  destruct (d !! backfillLastAckTime) as [[[?|?|z|?] px]|]; try done; cbn; injection Hb as <-.
  - change (shrink _ _ _) with (shrunk RZSet s (mkEntry (RZSet z) px) z). unfold shrunk. rewrite (decide_False (P := s = ∅)) by done.
    case_decide; by simplify_map_eq.
  - rewrite without_empty. rewrite decide_True by done. apply lookup_delete_eq.
Qed.

Lemma delete_removed d k : k ∉ reserved -> delete k d = removed d (gone_record k).
Proof.
  intros Hk. apply (shared_removed _ _ _ k); [intros k' Hk'; by apply lookup_delete_ne|shrink_id|].
  rewrite lookup_delete_eq. destruct (d !! k) as [x|] eqn:Hx; [|done]. cbn.
  pose proof (removed_record d (gone_record k) k Hk) as Hr. rewrite lookup_removed, Hx in Hr. cbn in Hr.
  by rewrite Hr, decide_True by set_solver.
Qed.

Lemma remove_pending_removed d ids : typed d -> remove_pending d ids = removed d (gone_tickets (list_to_set ids)).
Proof.
  intros Ht. destruct ids as [|i ids].
  - cbn. symmetry. apply removed_none.
  - unfold remove_pending. rewrite zrem_without. apply put_pending_removed; [done|set_solver].
Qed.

(** What deleting a backfill completely removes. *)
Definition part (d : db) (id : string) : gone :=
  gone_acks (if decide (is_Some (d !! id)) then {[id]} else ∅) ∪ (gone_record id ∪
    (gone_tickets (list_to_set (match backfill_at d id with Some bi => bi_TicketIds bi | None => [] end)) ∪ gone_index {[id]})).

Lemma sound_union g g' : sound_gone g -> sound_gone g' -> sound_gone (g ∪ g').
Proof. intros Hg Hg' k [Hk|Hk]%elem_of_union; auto. Qed.

Lemma sound_record k : k ∉ reserved -> sound_gone (gone_record k).
Proof. intros Hk i Hi. change (i ∈ ({[k]} : gset string)) in Hi. by apply elem_of_singleton in Hi as ->. Qed.

Lemma sound_part d id : id ∉ reserved -> sound_gone (part d id).
Proof. intros Hid. apply sound_union; [done|]. apply sound_union; [by apply sound_record|done]. Qed.

Lemma gone_acks_none : gone_acks ∅ = ∅.
Proof. done. Qed.

Lemma completely_removed d id : typed d -> id ∉ reserved -> completely d id = removed d (part d id).
Proof.
  intros Ht Hid. unfold completely, part. rewrite (delete_without (bindex d)), put_bindex_removed by (done || set_solver).
  assert (forall ids, sound_gone (gone_tickets ids)) as Hst by done. assert (forall ids, sound_gone (gone_index ids)) as Hsi by done.
  assert (typed (removed d (gone_index {[id]}))) as Ht1 by by apply typed_removed.
  rewrite remove_pending_removed by done. set (ts := gone_tickets _). set (d2 := removed (removed _ _) _).
  assert (d2 = removed d (ts ∪ gone_index {[id]})) as Hd2 by apply removed_removed.
  assert (d2 !! id = d !! id) as Hid2 by (rewrite Hd2, removed_record by done; by rewrite decide_False by set_solver).
  destruct (d !! id) as [x|] eqn:Hx.
  - rewrite decide_True by eauto. assert (typed (delete id d2)) as Ht3.
    { rewrite Hd2. apply typed_delete; [done|]. apply typed_removed; [by apply sound_union|done]. }
    rewrite <- (acks_delete id Hid d2), (delete_without (acks _)), put_acks_removed by (done || set_solver).
    rewrite delete_removed by done. rewrite Hd2, !removed_removed. by rewrite (assoc (∪) (gone_acks _)).
  - rewrite decide_False by (by intros [? ?]). rewrite gone_acks_none, (left_id ∅ (∪)).
    rewrite <- removed_removed, <- Hd2, <- delete_removed by done. by rewrite delete_id.
Qed.

(** It depends on the record only. *)
Lemma part_removed d g id : id ∉ reserved -> id ∉ g_records g -> part (removed d g) id = part d id.
Proof.
  intros Hid Hg. assert (removed d g !! id = d !! id) as Hr by (rewrite removed_record by done; by rewrite decide_False).
  unfold part. by rewrite Hr, (backfill_at_ext _ _ _ Hr).
Qed.

Lemma g_records_part d id : g_records (part d id) = {[id]}.
Proof. unfold part. cbn. set_solver. Qed.

(** Several backfills. *)
Definition parts (d : db) (ids : list string) : gone := foldr (fun id g => part d id ∪ g) ∅ ids.

Lemma g_records_parts d ids : g_records (parts d ids) = list_to_set ids.
Proof.
  induction ids as [|id ids IH]; [done|]. change (g_records (part d id) ∪ g_records (parts d ids) = {[id]} ∪ list_to_set ids).
  by rewrite g_records_part, IH.
Qed.

Lemma sound_parts d ids : Forall (fun id => id ∉ reserved) ids -> sound_gone (parts d ids).
Proof. intros Hids k Hk. rewrite g_records_parts in Hk. rewrite Forall_forall in Hids. apply Hids. set_solver. Qed.

Lemma foldl_completely d ids g : typed d -> sound_gone g -> NoDup ids -> Forall (fun id => id ∉ reserved) ids ->
  (forall id, id ∈ ids -> id ∉ g_records g) ->
  foldl completely (removed d g) ids = removed d (parts d ids ∪ g).
Proof.
  intros Ht. revert g. induction ids as [|id ids IH]; intros g Hg Hnd Hids Hdis; cbn [foldl parts foldr].
  { by rewrite (left_id ∅ (∪)). }
  apply NoDup_cons in Hnd as [Hni Hnd]. apply Forall_cons in Hids as [Hid Hids].
  rewrite completely_removed by (done || by apply typed_removed). rewrite part_removed, removed_removed by set_solver.
  rewrite IH; [|by apply sound_union; [apply sound_part|]|done..|].
  - f_equal. rewrite (assoc (∪)). by rewrite (comm (∪) (part d id) (parts d ids)).
  - intros i Hi. change (i ∉ g_records (part d id) ∪ g_records g). rewrite g_records_part. set_solver.
Qed.

Lemma cleaned_removed d ids : typed d -> NoDup ids -> Forall (fun id => id ∉ reserved) ids ->
  foldl completely d ids = removed d (parts d ids).
Proof.
  intros Ht Hnd Hids. rewrite <- (removed_none d) at 1. rewrite foldl_completely by (done || set_solver).
  by rewrite (right_id ∅ (∪)).
Qed.
End Removal.
