(* ===== verification/Cleanup.v ===== *)
(** * The sweep of expired backfills ([CleanupBackfills])

    Three goroutines take the expired ids from a channel and delete each
    completely; the runtime decides whose next effect is carried out. What they
    remove adds up to the same keyspace on every schedule. *)
From S2P Require Export Removal.
From S2P Require Import Conns.

(** ** The workers *)
Section Workers.
Context `{Sys} `{Proto} (cfg : View).

Fixpoint one_by_one (ps : list (prog (result unit))) : prog unit :=
  match ps with
  | [] => Ret tt
  | p :: ps => _ ←! p; one_by_one ps
  end.

(** The workers [ws] on the channel [backfillIDsCh], which is filled and
    closed. A worker whose program is over (its error is only logged) is at
    the head of its loop: its next turn receives an id and starts to delete it,
    or ends it. [sched] says whose turn is next; what it leaves undone is done
    one after the other. *)
Fixpoint cleanupWorker (sched : list nat) (backfillIDsCh : list string) (ws : list (prog (result unit))) : prog unit :=
  match sched with
  | [] => one_by_one (ws ++ (DeleteBackfillCompletely cfg <$> backfillIDsCh))
  | w :: sched =>
      match ws !! w with
      | Some (Vis e k) => Vis e (fun r => cleanupWorker sched backfillIDsCh (<[w := k r]> ws))
      | Some (Ret _) =>
          match backfillIDsCh with
          | id :: ids => cleanupWorker sched ids (<[w := DeleteBackfillCompletely cfg id]> ws)
          | [] => cleanupWorker sched [] ws
          end
      | None => cleanupWorker sched backfillIDsCh ws
      end
  end.

Definition CleanupBackfills : prog (result unit) :=
  expiredBfIDs ←? GetExpiredBackfillIDs cfg;
  sched ←! trigger Sched;
  _ ←! cleanupWorker sched expiredBfIDs (replicate 3 (ret_ok tt));
  ret_ok tt.
End Workers.

(** ** One deletion among others

    What it knows: its connections, what it has removed and where it is with
    its mutex. *)
Inductive stage := Before | Under (token : string) | After.

Record job := mkJob { j_pend : gmap conn (list command); j_gone : gone; j_stage : stage }.

Definition unstarted : job := mkJob ∅ ∅ Before.

Section Job.
Context `{Sys} `{Proto} (cfg : View) (v0 : view) (id : string).
Implicit Types (v : view) (l : job) (δ : gone).

Definition lock_at (s : stage) v : Prop :=
  match s with
  | Before => v_locks v !! mutex_name id = v_locks v0 !! mutex_name id
  | Under token => exists until, v_locks v !! mutex_name id = Some (token, until)
  | After => v_locks v !! mutex_name id = None
  end.

Record j_agrees l v : Prop := mkJAgrees {
  ja_pend : j_pend l ⊆ v_pend v;
  ja_typed : typed (v_db v);
  ja_record : v_db v !! id = if decide (id ∈ g_records (j_gone l)) then None else v_db v0 !! id;
  ja_lock : sys_faulty = false -> lock_at (j_stage l) v;
  ja_now : v_now v0 <= v_now v;
}.

Definition j_allowed l (e : eff) : Prop :=
  conn_ok (j_pend l) e /\
  match e with
  | GetConn _ | Do _ _ | Send _ _ | CloseConn _ => True
  | Lock n _ => n = mutex_name id /\ j_stage l = Before
  | Unlock n token => n = mutex_name id /\ j_stage l = Under token
  | _ => False
  end.

Definition stage_after (e : eff) : resp e -> stage -> stage :=
  match e with
  | Lock _ _ => fun r s => match r with inl token => Under token | inr _ => s end
  | Unlock _ _ => fun _ _ => After
  | _ => fun _ s => s
  end.

Definition job_after l (e : eff) (r : resp e) δ : job :=
  mkJob (pend_after e r (j_pend l)) (δ ∪ j_gone l) (stage_after e r (j_stage l)).

Definition owns δ : Prop := g_records δ ⊆ {[id]}.

(** The outcomes of a program that starts knowing [l], whatever the others
    remove before each of its steps; a step of its own removes some [δ]. *)
Fixpoint jwp {A} l (p : prog A) (Q : A -> job -> Prop) : Prop :=
  match p with
  | Ret a => Q a l
  | Vis e k => j_allowed l e /\ forall v r v', j_agrees l v -> estep v e r v' ->
      exists δ, owns δ /\ v_db v' = removed (v_db v) δ /\ jwp (job_after l e r δ) (k r) Q
  end.

Lemma jwp_mono {A} (p : prog A) l (Q Q' : A -> job -> Prop) :
  jwp l p Q -> (forall a l', Q a l' -> Q' a l') -> jwp l p Q'.
Proof.
  revert l. induction p as [a|e k IH]; cbn; intros l Hp HQ; [auto|]. destruct Hp as [Ha Hp]. split; [done|].
  intros v r v' Hg Hs. destruct (Hp v r v' Hg Hs) as (δ & ? & ? & Hc). exists δ. eauto.
Qed.

Lemma jwp_bind {A B} (p : prog A) (f : A -> prog B) l Q :
  jwp l p (fun a l' => jwp l' (f a) Q) -> jwp l (prog_bind p f) Q.
Proof.
  revert l. induction p as [a|e k IH]; cbn; intros l Hp; [done|]. destruct Hp as [Ha Hp]. split; [done|].
  intros v r v' Hg Hs. destruct (Hp v r v' Hg Hs) as (δ & ? & ? & Hc). exists δ. eauto.
Qed.

Lemma jwp_rbind {A B} (p : prog (result A)) (f : A -> prog (result B)) l Q :
  jwp l p (fun r l' => match r with Ok a => jwp l' (f a) Q | Err e => Q (Err e) l' end) -> jwp l (rbind p f) Q.
Proof. intros Hp. apply jwp_bind. eapply jwp_mono; [exact Hp|]. by intros [a|e] l'; cbn. Qed.

(** *** Rules *)

Lemma jwp_ret {A} (a : A) l (Q : A -> job -> Prop) : Q a l -> jwp l (Ret a) Q.
Proof. done. Qed.

(** The knowledge with other connections, and with more removed. *)
Definition with_pend l C : job := mkJob C (j_gone l) (j_stage l).
Definition with_gone l δ : job := mkJob (j_pend l) (δ ∪ j_gone l) (j_stage l).

(** A step that removes nothing. *)
Lemma jwp_still {A} l e (k : resp e -> prog A) Q : j_allowed l e ->
  (forall v r v', j_agrees l v -> estep v e r v' -> v_db v' = v_db v /\
     jwp (mkJob (pend_after e r (j_pend l)) (j_gone l) (stage_after e r (j_stage l))) (k r) Q) ->
  jwp l (Vis e k) Q.
Proof.
  intros Ha Hk. split; [done|]. intros v r v' Hg Hs. destruct (Hk v r v' Hg Hs) as [Hd Hj].
  exists ∅. split; [done|]. rewrite removed_none. split; [done|]. unfold job_after. by rewrite (left_id ∅ (∪)).
Qed.

Lemma jwp_get_conn {A} l p (k : conn + string -> prog A) Q :
  (sys_faulty = true -> forall m, jwp l (k (inr m)) Q) ->
  (forall c, j_pend l !! c = None -> jwp (with_pend l (<[c := []]> (j_pend l))) (k (inl c)) Q) ->
  jwp l (Vis (GetConn p) k) Q.
Proof.
  intros Herr Hok. apply jwp_still; [done|]. intros v [c|m] v' [Hp _ _ _ _] [Hc ->]; (split; [done|]).
  - apply Hok. by eapply lookup_weaken_None.
  - destruct l. by apply Herr.
Qed.

Lemma jwp_send {A} l c cs cmd (k : option string -> prog A) Q : j_pend l !! c = Some cs ->
  (sys_faulty = true -> forall m, jwp l (k (Some m)) Q) ->
  jwp (with_pend l (<[c := cs ++ [cmd]]> (j_pend l))) (k None) Q -> jwp l (Vis (Send c cmd) k) Q.
Proof.
  intros Hc Herr Hok. apply jwp_still; [split; [by eexists|done]|]. intros v [m|] v' _ Hs; cbn in Hs.
  - destruct Hs as [Hf ->]. split; [done|]. destruct l. by apply Herr.
  - subst v'. split; [done|]. cbn. rewrite Hc. exact Hok.
Qed.

Lemma jwp_close {A} l c (k : unit -> prog A) Q : j_pend l !! c = Some [] ->
  jwp (with_pend l (delete c (j_pend l))) (k tt) Q -> jwp l (Vis (CloseConn c) k) Q.
Proof.
  intros Hc Hok. apply jwp_still; [split; [by eexists|done]|]. intros v [] v' [Hp _ _ _ _] Hs; cbn -[close_step] in Hs.
  rewrite (lookup_weaken _ _ _ _ Hc Hp) in Hs. destruct Hs as (d' & ->%close_idle & ->). by split.
Qed.

(** Commands that remove [δ]. *)
Definition removes (cmd : command) δ : Prop :=
  owns δ /\ is_multi [cmd] = false /\ (forall d, typed d -> ~ wrong_type d cmd) /\
  forall d a d', typed d -> cmd_ok d cmd a d' -> d' = removed d δ.

Lemma jwp_close_send {A} l c cmd δ (k : unit -> prog A) Q : j_pend l !! c = Some [cmd] -> removes cmd δ ->
  (sys_faulty = true -> jwp (with_pend l (delete c (j_pend l))) (k tt) Q) ->
  jwp (with_pend (with_gone l δ) (delete c (j_pend l))) (k tt) Q -> jwp l (Vis (CloseConn c) k) Q.
Proof.
  intros Hc (Ho & Hm & Hw & Hr) Herr Hok. split; [split; [by eexists|done]|].
  intros v [] v' [Hp Ht _ _ _] Hs; cbn -[close_step] in Hs.
  rewrite (lookup_weaken _ _ _ _ Hc Hp) in Hs. destruct Hs as (d' & Hd & ->). unfold close_step in Hd. rewrite Hm in Hd.
  assert (d' = removed (v_db v) δ \/ (sys_faulty = true /\ d' = v_db v)) as [->|[Hf ->]].
  { assert (forall d1, cmd_effect (v_db v) cmd d1 -> d1 = removed (v_db v) δ) as He.
    { intros d1 [[a Ha]|[Hx _]]; [by eapply Hr|by destruct (Hw _ Ht Hx)]. }
    destruct Hd as [(d1 & Hd1 & ->)|(Hf & [|n] & Hd)]; [left; by apply He|by right|].
    cbn in Hd. rewrite take_nil in Hd. destruct Hd as (d1 & Hd1 & ->). left. by apply He. }
  - exists δ. split; [done|]. split; [done|]. exact Hok.
  - exists ∅. split; [done|]. rewrite removed_none. split; [done|]. unfold job_after. rewrite (left_id ∅ (∪)). by apply Herr.
Qed.

Lemma jwp_do {A} l c cmd δ (k : reply cmd + string -> prog A) Q : j_pend l !! c = Some [] -> cmd <> EXEC -> removes cmd δ ->
  (forall v a d', j_agrees l v -> cmd_ok (v_db v) cmd a d' -> jwp (with_gone l δ) (k (inl a)) Q) ->
  (sys_faulty = true -> forall m, jwp l (k (inr m)) Q /\ jwp (with_gone l δ) (k (inr m)) Q) ->
  jwp l (Vis (Do c cmd) k) Q.
Proof.
  intros Hc Hne (Ho & _ & Hw & Hr) Hok Herr. split; [split; [by left|done]|].
  intros v r v' Hg Hs. pose proof Hg as [Hp Ht _ _ _]. cbn -[do_step] in Hs. rewrite (lookup_weaken _ _ _ _ Hc Hp) in Hs.
  assert (forall r1 δ', job_after l (Do c cmd) r1 δ' = with_gone l δ') as Haf by (intros; by destruct cmd).
  destruct r as [a|m]; cbn in Hs.
  - destruct Hs as (d' & Hd & ->). exists δ. split; [done|]. split; [by eapply Hr|]. rewrite Haf. by eapply Hok.
  - destruct Hs as [[Hx _]|[Hf [->|(a & d' & Hd & ->)]]]; [by destruct (Hw _ Ht Hx)|..].
    + exists ∅. split; [done|]. rewrite removed_none, Haf. split; [done|]. unfold with_gone. rewrite (left_id ∅ (∪)).
      destruct l. by apply Herr.
    + exists δ. split; [done|]. split; [by eapply Hr|]. rewrite Haf. by apply Herr.
Qed.

(** *** The parts of a deletion *)

Lemma with_pend_id l : with_pend l (j_pend l) = l.
Proof. by destruct l. Qed.

(** A body on a connection of its own. *)
Lemma jwp_with_conn {A} l p mk (body : conn -> prog (result A)) Q :
  (sys_faulty = true -> forall m, Q (Err (mk m)) l) ->
  (forall c, j_pend l !! c = None -> jwp (with_pend l (<[c := []]> (j_pend l))) (body c)
     (fun r l' => jwp l' (Vis (CloseConn c) (fun _ => Ret r)) Q)) ->
  jwp l (with_conn p mk body) Q.
Proof.
  intros Herr Hok. apply jwp_get_conn; [done|]. intros c Hc. apply jwp_bind. eapply jwp_mono; [by apply Hok|]. done.
Qed.

(** Closing it when nothing is pending gives the connections back. *)
Lemma jwp_closed {A} l δ c (a : A) Q : j_pend l !! c = None -> Q a (with_gone l δ) ->
  jwp (with_gone (with_pend l (<[c := []]> (j_pend l))) δ) (Vis (CloseConn c) (fun _ => Ret a)) Q.
Proof.
  intros Hc HQ. apply jwp_close; [apply lookup_insert_eq|]. cbn. unfold with_pend. cbn.
  rewrite delete_insert_id by done. exact HQ.
Qed.

Lemma with_gone_none l : with_gone l ∅ = l.
Proof. destruct l. unfold with_gone. cbn. by rewrite (left_id ∅ (∪)). Qed.

Lemma with_gone_twice l δ δ' : with_gone (with_gone l δ) δ' = with_gone l (δ' ∪ δ).
Proof. unfold with_gone. cbn. by rewrite (assoc (∪)). Qed.

Lemma jwp_closed_none {A} l c (a : A) Q : j_pend l !! c = None -> Q a l ->
  jwp (with_pend l (<[c := []]> (j_pend l))) (Vis (CloseConn c) (fun _ => Ret a)) Q.
Proof. intros Hc HQ. rewrite <- (with_gone_none (with_pend _ _)). apply jwp_closed; [done|]. by rewrite with_gone_none. Qed.

(** Without faults the step removes [δ] and succeeds; with faults it may. *)
Definition removing l δ (ok : Prop) l' : Prop :=
  (l' = l \/ l' = with_gone l δ) /\ (sys_faulty = false -> ok /\ l' = with_gone l δ).

Lemma removing_done l δ (ok : Prop) : ok -> removing l δ ok (with_gone l δ).
Proof. split; auto. Qed.

Lemma removing_fault l δ ok l' : sys_faulty = true -> l' = l \/ l' = with_gone l δ -> removing l δ ok l'.
Proof. split; [done|congruence]. Qed.

Lemma removes_hdel : removes (HDEL allBackfills id) (gone_index {[id]}).
Proof.
  split; [intros ? []%not_elem_of_empty|]. split; [done|]. split.
  - intros d Ht. cbn. by rewrite typed_bindex.
  - intros d a d' Ht. cbn. rewrite typed_bindex by done. intros ->.
    rewrite delete_without. apply put_bindex_removed; [done|set_solver].
Qed.

Lemma removes_zrem_pending i ids : removes (ZREM proposedTicketIDs (i :: ids)) (gone_tickets (list_to_set (i :: ids))).
Proof.
  split; [intros ? []%not_elem_of_empty|]. split; [done|]. split.
  - intros d Ht. cbn -[list_to_set]. by rewrite typed_pending.
  - intros d a d' Ht. cbn -[list_to_set zrem_all]. rewrite typed_pending by done. intros ->. rewrite zrem_without.
    apply put_pending_removed; [done|set_solver].
Qed.

Lemma removes_del : id ∉ reserved -> removes (DEL id) (gone_record id).
Proof.
  intros Hid. split; [by intros i|]. split; [done|]. split; [by intros d _ []|]. intros d a d' _ [_ ->]. by apply delete_removed.
Qed.

Lemma removes_zrem_acks : removes (ZREM backfillLastAckTime [id]) (gone_acks {[id]}).
Proof.
  split; [intros ? []%not_elem_of_empty|]. split; [done|]. split.
  - intros d Ht. cbn. by rewrite typed_acks.
  - intros d a d' Ht. cbn -[zrem_all]. rewrite typed_acks by done. intros ->. rewrite zrem_without.
    replace (list_to_set [id] : gset string) with ({[id]} : gset string) by set_solver.
    apply put_acks_removed; [done|set_solver].
Qed.

Lemma deindex_job l : jwp l (DeindexBackfill id) (fun r => removing l (gone_index {[id]}) (r = Ok tt)).
Proof.
  apply jwp_with_conn; [intros Hf m; apply removing_fault; auto|]. intros c Hc. prog_cbn.
  apply (jwp_send _ _ []); [apply lookup_insert_eq|intros Hf m|]; prog_cbn.
  { apply jwp_closed_none; [done|]. apply removing_fault; auto. }
  eapply (jwp_close_send _ _ _ (gone_index {[id]})); [apply lookup_insert_eq|apply removes_hdel|..].
  - intros Hf. unfold with_pend. cbn. rewrite insert_insert_eq, delete_insert_id by done. cbn. destruct l. apply removing_fault; auto.
  - unfold with_pend. cbn. rewrite insert_insert_eq, delete_insert_id by done. by apply removing_done.
Qed.

(** Reading the record, which is as it was until it is deleted here. *)
Lemma get_job l : jwp l (GetBackfill id) (fun r l' => l' = l /\
  (sys_faulty = false -> id ∉ g_records (j_gone l) -> match r with Ok (_, ids) => ids | Err _ => [] end =
    match backfill_at (v_db v0) id with Some bi => bi_TicketIds bi | None => [] end)).
Proof.
  apply jwp_with_conn; [intros Hf m; split; [done|congruence]|]. intros c Hc. prog_cbn.
  apply jwp_still; [split; [left; apply lookup_insert_eq|done]|].
  intros v r v' [Hp _ Hrec _ _] Hs. cbn -[do_step] in Hs, Hp, Hrec.
  rewrite (lookup_weaken _ _ _ _ (lookup_insert_eq _ _ _) Hp) in Hs.
  assert (v_db v' = v_db v /\ (sys_faulty = false -> match r with
      | inl a => a = get_str (v_db v) id
      | inr _ => get_str (v_db v) id = None
      end)) as [Hd Hr].
  { assert (forall a d', cmd_ok (v_db v) (GET id) a d' -> d' = v_db v /\ a = get_str (v_db v) id) as Hok.
    { intros a d'. cbn. unfold get_str. destruct (v_db v !! id) as [[[] ?]|]; try done; by intros [-> ->]. }
    destruct r as [a|m]; cbn in Hs.
    - destruct Hs as (d' & Ha & ->). by destruct (Hok a d' Ha) as [-> ->].
    - destruct Hs as [[[_ Hn] ->]|[Hf [->|(a & d' & Ha & ->)]]]; [done|by split; [|congruence]|].
      destruct (Hok a d' Ha) as [-> _]. by split; [|congruence]. }
  split; [done|]. clear Hs.
  assert (forall q : result (option Backfill * list string), (sys_faulty = false -> match q with Ok (_, ids) => ids | Err _ => [] end =
      match backfill_at (v_db v) id with Some bi => bi_TicketIds bi | None => [] end) ->
    jwp (with_pend l (<[c := []]> (j_pend l))) (Vis (CloseConn c) (fun _ => Ret q)) (fun r l' => l' = l /\
      (sys_faulty = false -> id ∉ g_records (j_gone l) -> match r with Ok (_, ids) => ids | Err _ => [] end =
        match backfill_at (v_db v0) id with Some bi => bi_TicketIds bi | None => [] end))) as Hq.
  { intros q Hq. apply jwp_closed_none; [done|]. split; [done|]. intros Hf Hn. rewrite (Hq Hf).
    rewrite decide_False in Hrec by done. by rewrite (backfill_at_ext _ _ _ Hrec). }
  unfold backfill_at in Hq at 1. destruct r as [[s|]|m]; prog_cbn; [destruct (unmarshal_backfill s) as [bi|] eqn:Hu|..];
    apply jwp_ret, Hq; intros Hf; specialize (Hr Hf); try rewrite <- Hr; cbn; rewrite ?Hr; cbn; by rewrite ?Hu.
Qed.

Lemma unpend_job l ids : jwp l (DeleteTicketsFromPendingRelease ids)
  (fun r => removing l (gone_tickets (list_to_set ids)) (r = Ok tt)).
Proof.
  destruct ids as [|i ids].
  { apply jwp_ret. change (gone_tickets _) with (∅ : gone). rewrite <- (with_gone_none l) at 2. by apply removing_done. }
  apply jwp_with_conn; [intros Hf m; apply removing_fault; auto|]. intros c Hc. prog_cbn.
  eapply jwp_do; [apply lookup_insert_eq|done|apply removes_zrem_pending|..].
  - intros v a d' _ _. prog_cbn. apply jwp_ret, jwp_closed; [done|]. by apply removing_done.
  - intros Hf m. prog_cbn. split; apply jwp_ret; [apply jwp_closed_none|apply jwp_closed]; try done; apply removing_fault; auto.
Qed.

(** The record and, if it was there, its acknowledgement. *)
Lemma delete_job l : id ∉ reserved -> id ∉ g_records (j_gone l) ->
  jwp l (DeleteBackfill id) (fun _ l' => j_pend l' = j_pend l /\ j_stage l' = j_stage l /\ (sys_faulty = false ->
    j_gone l' = gone_acks (if decide (is_Some (v_db v0 !! id)) then {[id]} else ∅) ∪ (gone_record id ∪ j_gone l))).
Proof.
  intros Hid Hn. apply jwp_with_conn; [by intros Hf m; repeat split; congruence|]. intros c Hc. prog_cbn.
  assert (forall δ q, (sys_faulty = false -> δ ∪ j_gone l =
      gone_acks (if decide (is_Some (v_db v0 !! id)) then {[id]} else ∅) ∪ (gone_record id ∪ j_gone l)) ->
    jwp (with_gone (with_pend l (<[c := []]> (j_pend l))) δ) (Vis (CloseConn c) (fun _ => Ret q)) (fun (_ : result unit) l' =>
      j_pend l' = j_pend l /\ j_stage l' = j_stage l /\ (sys_faulty = false ->
        j_gone l' = gone_acks (if decide (is_Some (v_db v0 !! id)) then {[id]} else ∅) ∪ (gone_record id ∪ j_gone l)))) as Hq.
  { intros δ q Hδ. apply jwp_closed; [done|]. by repeat split. }
  assert (forall q, sys_faulty = true -> jwp (with_pend l (<[c := []]> (j_pend l))) (Vis (CloseConn c) (fun _ => Ret q))
    (fun (_ : result unit) l' => j_pend l' = j_pend l /\ j_stage l' = j_stage l /\ (sys_faulty = false ->
        j_gone l' = gone_acks (if decide (is_Some (v_db v0 !! id)) then {[id]} else ∅) ∪ (gone_record id ∪ j_gone l)))) as Hq0.
  { intros q Hf. rewrite <- (with_gone_none (with_pend _ _)). apply Hq. congruence. }
  eapply jwp_do; [apply lookup_insert_eq|done|by apply removes_del|..].
  - intros v a d' [_ _ Hrec _ _] [-> _]. cbn in Hrec. rewrite decide_False in Hrec by done. rewrite Hrec.
    destruct (decide (is_Some (v_db v0 !! id))) as [Hs|Hs]; cbn [Z.eqb]; prog_cbn.
    + unfold deleteExpiredBackfillID. prog_cbn. eapply jwp_do; [apply lookup_insert_eq|done|apply removes_zrem_acks|..].
      * intros v1 a d1 _ _. prog_cbn. apply jwp_ret. rewrite with_gone_twice. apply Hq. intros _. by rewrite (assoc (∪)).
      * intros Hf m. prog_cbn. split; apply jwp_ret; rewrite ?with_gone_twice; apply Hq; congruence.
    + apply jwp_ret, Hq. intros _. by rewrite gone_acks_none, (left_id ∅ (∪)).
  - intros Hf m. prog_cbn. split; apply jwp_ret; [by apply Hq0|apply Hq; congruence].
Qed.

(** A deletion that is over: done, or refused because the mutex was held. *)
Definition over l : Prop :=
  j_pend l = ∅ /\ (sys_faulty = false ->
    (j_stage l = After /\ j_gone l = part (v_db v0) id) \/
    (j_stage l = Before /\ j_gone l = ∅ /\ ~ lock_free v0 (mutex_name id) (v_now v0))).

Lemma body_job l : id ∉ reserved -> j_pend l = ∅ -> j_gone l = ∅ ->
  jwp l (_ ←? DeindexBackfill id;
      got ←! GetBackfill id;
      _ ←! DeleteTicketsFromPendingRelease (match got with Ok (_, ids) => ids | Err _ => [] end);
      _ ←! DeleteBackfill id;
      ret_ok tt) (fun _ l' => j_pend l' = ∅ /\ j_stage l' = j_stage l /\
        (sys_faulty = false -> j_gone l' = part (v_db v0) id)).
Proof.
  intros Hid Hp Hg. apply jwp_rbind. eapply jwp_mono; [apply deindex_job|]. intros r l1 [H1 H1f].
  assert (j_pend l1 = ∅ /\ j_stage l1 = j_stage l /\ id ∉ g_records (j_gone l1)) as (Hp1 & Hs1 & Hn1)
    by (destruct H1 as [->| ->]; cbn; rewrite ?Hp, ?Hg; by repeat split).
  destruct r as [[]|e]; [|by repeat split; [..|intros Hf; destruct (H1f Hf)]].
  apply jwp_bind. eapply jwp_mono; [apply get_job|]. intros got l2 [-> Hgot].
  apply jwp_bind. eapply jwp_mono; [apply unpend_job|]. intros r l2 [H2 H2f].
  assert (j_pend l2 = ∅ /\ j_stage l2 = j_stage l /\ id ∉ g_records (j_gone l2)) as (Hp2 & Hs2 & Hn2).
  { destruct H2 as [->| ->]; cbn; [done|]. repeat split; [done..|]. intros [[]%not_elem_of_empty|?]%elem_of_union; done. }
  apply jwp_bind. eapply jwp_mono; [by apply delete_job|]. intros _ l3 (Hp3 & Hs3 & Hg3). apply jwp_ret.
  split; [congruence|]. split; [congruence|]. intros Hf. rewrite (Hg3 Hf).
  destruct (H1f Hf) as [_ ->]. destruct (H2f Hf) as [_ ->]. rewrite (Hgot Hf Hn1).
  unfold part, with_gone. cbn [j_gone]. by rewrite Hg, (right_id ∅ (∪)).
Qed.

Lemma DeleteBackfillCompletely_job : id ∉ reserved ->
  jwp unstarted (DeleteBackfillCompletely cfg id) (fun _ => over).
Proof.
  intros Hid. unfold DeleteBackfillCompletely, with_mutex. apply jwp_rbind. unfold mutex_Lock. prog_cbn.
  apply jwp_still; [by repeat split|]. intros v r v' [_ _ _ Hl Hnow] Hs.
  assert (v_db v' = v_db v /\ (sys_faulty = false -> match r with
      | inl _ => True | inr _ => ~ lock_free v (mutex_name id) (v_now v) end)) as [Hd Hr].
  { destruct r as [tok|m]; cbn in Hs; [by destruct Hs as (t & _ & _ & ->)|].
    destruct Hs as [[Hn ->]|[Hf [->|(tok & t & _ & _ & ->)]]]; (split; [done|]); congruence || done. }
  split; [done|]. destruct r as [tok|m]; cbn [pend_after stage_after j_pend j_gone j_stage unstarted].
  - apply jwp_bind. eapply jwp_mono; [by apply body_job|]. intros q l (Hp & Hst & Hg). cbn in Hst.
    apply jwp_bind. unfold mutex_Unlock. prog_cbn. apply jwp_still; [by repeat split|]. intros v1 u v2 _ Hu.
    split; [|apply jwp_ret, jwp_ret; split; [exact Hp|]; intros Hf; left; split; [done|by apply Hg]].
    destruct u as [b|m]; cbn in Hu; [destruct Hu as [_ ->]; apply unlocked_db|].
    destruct Hu as [->|[_ ->]]; [apply unlocked_db|done].
  - apply jwp_ret. split; [done|]. intros Hf. right. split; [done|]. split; [done|]. intros Hfree. apply (Hr Hf).
    specialize (Hl Hf). cbn in Hl. unfold lock_free in *. rewrite Hl. destruct (v_locks v0 !! mutex_name id) as [[? u]|]; [lia|done].
Qed.

(** *** A step and the rest of the world *)

Lemma step_mutex l e v r v' : j_allowed l e -> j_pend l ⊆ v_pend v -> estep v e r v' ->
  v_now v <= v_now v' /\ v_xids v' = v_xids v /\
  (forall k, k <> mutex_name id -> v_locks v' !! k = v_locks v !! k) /\
  (sys_faulty = false -> lock_at (j_stage l) v -> lock_at (stage_after e r (j_stage l)) v').
Proof.
  intros [Hc Ha] Hp Hs.
  assert (match e with GetConn _ | Do _ _ | Send _ _ | CloseConn _ => True | _ => False end ->
    v_now v' = v_now v /\ v_xids v' = v_xids v /\ v_locks v' = v_locks v) as Hr by (intros He; by eapply step_rest).
  destruct e as [q|c cmd|c cmd|c| | |n expiry|n token| |]; try done;
    try (destruct (Hr I) as (Hn & Hx & Hl); split; [lia|]; split; [done|]; split; [by rewrite Hl|]; intros _;
      unfold lock_at; by rewrite Hl); clear Hr; cbn in *.
  - destruct Ha as [-> Hst]. rewrite Hst.
    assert (forall token t, v_now v <= t -> let v1 := lock_taken v (mutex_name id) token expiry t in
      v_now v <= v_now v1 /\ v_xids v1 = v_xids v /\ (forall k, k <> mutex_name id -> v_locks v1 !! k = v_locks v !! k)) as Ht
      by (intros token t Hle; repeat split; [done|]; intros k Hk; cbn; by rewrite lookup_insert_ne).
    destruct r as [token|m].
    + destruct Hs as (t & Hle & _ & ->). destruct (Ht token t Hle) as (? & ? & ?). repeat split; [done..|].
      intros _ _. cbn -[mutex_name]. rewrite lookup_insert_eq. eauto.
    + destruct Hs as [[_ ->]|[Hf [->|(token & t & Hle & _ & ->)]]]; [by repeat split..|].
      destruct (Ht token t Hle) as (? & ? & ?). repeat split; [done..|congruence].
  - destruct Ha as [-> Hst]. rewrite Hst. cbn -[mutex_name].
    assert (let v1 := unlocked v (mutex_name id) token in v_now v <= v_now v1 /\ v_xids v1 = v_xids v /\
      (forall k, k <> mutex_name id -> v_locks v1 !! k = v_locks v !! k) /\
      ((exists until, v_locks v !! mutex_name id = Some (token, until)) -> v_locks v1 !! mutex_name id = None)) as (U1 & U2 & U3 & U4).
    { cbn -[mutex_name]. unfold unlocked. destruct (v_locks v !! mutex_name id) as [[tok until]|] eqn:Hl.
      - case_decide as Ht; (split; [done|]); (split; [done|]); split.
        + intros k Hk. cbn -[mutex_name]. by rewrite lookup_delete_ne.
        + intros _. apply lookup_delete_eq.
        + done.
        + intros [u Hu]. congruence.
      - repeat split; [done..|]. by intros [? ?]. }
    destruct r as [b|m]; [destruct Hs as [_ ->]|destruct Hs as [->|[Hf ->]]]; cycle 2.
    { repeat split; [done..|congruence]. }
    all: split; [exact U1|]; split; [exact U2|]; split; [exact U3|]; intros _; exact U4.
Qed.

(** Its own knowledge after its own step. *)
Lemma j_agrees_step l e v r v' δ : id ∉ reserved -> j_allowed l e -> j_agrees l v -> estep v e r v' -> owns δ ->
  v_db v' = removed (v_db v) δ -> j_agrees (job_after l e r δ) v'.
Proof.
  intros Hid Ha [Hp Ht Hr Hl Hn] Hs Ho Hd. destruct (step_mutex l e v r v' Ha Hp Hs) as (Hn' & _ & _ & Hl'). split.
  - apply (step_conns _ v e r v' (proj1 Ha) Hp Hs).
  - rewrite Hd. apply typed_removed; [|done]. intros k Hk. apply Ho in Hk. by apply elem_of_singleton in Hk as ->.
  - rewrite Hd, removed_record, Hr by done. cbn.
    destruct (decide (id ∈ g_records δ)), (decide (id ∈ g_records (j_gone l))), (decide (id ∈ g_records δ ∪ g_records (j_gone l)));
      try done; set_solver.
  - intros Hf. by apply Hl'; [|apply Hl].
  - lia.
Qed.
End Job.

Lemma mutex_name_inj a b : mutex_name a = mutex_name b -> a = b.
Proof. unfold mutex_name. cbn. by intros [=]. Qed.

(** ** The deletions together *)
Section Sweep.
Context `{Sys} `{Proto} (cfg : View) (v0 : view) (ids : list string).
Context (Ht0 : typed (v_db v0)) (Hnd : NoDup ids) (Hids : Forall (fun id => id ∉ reserved) ids).
Implicit Types (v : view).

Record thread := mkThread { th_id : string; th_job : job; th_prog : prog (result unit) }.
Implicit Types (t : thread) (T : list thread).

Definition all_gone T : gone := foldr (fun t g => j_gone (th_job t) ∪ g) ∅ T.

#[local] Instance all_gone_perm : Proper ((≡ₚ) ==> (=)) all_gone.
Proof.
  intros T T' HT. unfold all_gone. induction HT as [|t T T' _ IH|t t' T|T T1 T2 _ IH1 _ IH2]; cbn; [done|by rewrite IH| |congruence].
  rewrite !(assoc (∪)). by rewrite (comm (∪) (j_gone (th_job t))).
Qed.

Definition mine t c : Prop := is_Some (j_pend (th_job t) !! c).

Record sweep T v : Prop := mkSweep {
  si_ids : th_id <$> T ≡ₚ ids;
  si_jwp : Forall (fun t => jwp v0 (th_id t) (th_job t) (th_prog t) (fun _ => over v0 (th_id t))) T;
  si_agree : Forall (fun t => j_agrees v0 (th_id t) (th_job t) v) T;
  si_own : Forall (fun t => owns (th_id t) (j_gone (th_job t))) T;
  si_disj t t' c : t ∈ T -> t' ∈ T -> th_id t <> th_id t' -> mine t c -> ~ mine t' c;
  si_fresh t c : t ∈ T -> mine t c -> v_pend v0 !! c = None;
  si_rest c : (forall t, t ∈ T -> ~ mine t c) -> v_pend v !! c = v_pend v0 !! c;
  si_locks k : (forall id, id ∈ ids -> k <> mutex_name id) -> v_locks v !! k = v_locks v0 !! k;
  si_db : v_db v = removed (v_db v0) (all_gone T);
  si_xids : v_xids v = v_xids v0;
  si_now : v_now v0 <= v_now v;
}.

#[local] Instance sweep_perm : Proper ((≡ₚ) ==> (=) ==> iff) sweep.
Proof.
  assert (forall T T' v, T ≡ₚ T' -> sweep T v -> sweep T' v) as Himp.
  { intros T T' v HT [A B C D E F G I J K N].
    split; [by rewrite <- HT|by rewrite <- HT|by rewrite <- HT|by rewrite <- HT| | | |done|by rewrite <- HT|done..].
    - intros t t' c. rewrite <- !HT. apply E.
    - intros t c. rewrite <- HT. apply F.
    - intros c Hc. apply G. intros t. rewrite HT. apply Hc. }
  intros T T' HT v _ <-. split; by apply Himp.
Qed.

(** A step of one of them. *)
Lemma sweep_step t T v e k r v' : sweep (t :: T) v -> th_prog t = Vis e k -> estep v e r v' ->
  exists l', sweep (mkThread (th_id t) l' (k r) :: T) v'.
Proof using Hnd Hids Ht0.
  intros [A B C D E F G I J K N] Hp Hs. apply Forall_cons in B as [Bt B]. apply Forall_cons in C as [Ct C].
  apply Forall_cons in D as [Dt D]. rewrite Hp in Bt. destruct Bt as [Ha Bt].
  destruct (Bt v r v' Ct Hs) as (δ & Ho & Hd & Hj). exists (job_after (th_job t) e r δ).
  set (t' := mkThread (th_id t) (job_after (th_job t) e r δ) (k r)).
  assert ((th_id t ∉ th_id <$> T) /\ th_id t ∈ ids) as [Hni Hin].
  { rewrite <- A in Hnd. cbn in Hnd. apply NoDup_cons in Hnd as [? _]. split; [done|]. rewrite <- A. by left. }
  assert (th_id t ∉ reserved) as Hres by (rewrite Forall_forall in Hids; auto).
  assert (forall x, x ∈ T -> th_id x <> th_id t) as Hother.
  { intros x Hx Heq. apply Hni. rewrite <- Heq. by apply list_elem_of_fmap_2. }
  destruct (step_mutex v0 _ _ _ _ _ _ Ha (ja_pend _ _ _ _ Ct) Hs) as (Hn & Hx & Hl & _).
  pose proof (step_conns _ v e r v' (proj1 Ha) (ja_pend _ _ _ _ Ct) Hs) as Hfr.
  assert (forall c, mine t' c -> mine t c \/ v_pend v !! c = None) as Hnew by apply Hfr.
  split.
  - exact A.
  - by apply Forall_cons.
  - apply Forall_cons. split; [by apply (j_agrees_step v0 _ _ _ v)|].
    rewrite !Forall_forall in *. intros x Hx'. destruct (C x Hx') as [Cp Ct1 Cr Cl Cn]. pose proof (Hother x Hx') as Hne.
    assert (th_id x ∈ ids) as Hxi by (rewrite <- A; right; by apply list_elem_of_fmap_2). split.
    + apply map_subseteq_spec. intros c cs Hc. eapply cf_others; [exact Hfr| |by eapply lookup_weaken].
      destruct (j_pend (th_job t) !! c) eqn:Htc; [|done]. exfalso.
      apply (E x t c); [by right|by left|done|by exists cs|by eexists].
    + rewrite Hd. apply typed_removed; [|done]. intros i Hi. apply Ho in Hi. by apply elem_of_singleton in Hi as ->.
    + rewrite Hd, removed_record by auto. rewrite decide_False; [done|]. intros Hi. apply Ho in Hi.
      by apply elem_of_singleton in Hi.
    + intros Hf. specialize (Cl Hf). assert (v_locks v' !! mutex_name (th_id x) = v_locks v !! mutex_name (th_id x)) as Heq
        by (apply Hl; intros Hm; by apply Hne, mutex_name_inj).
      unfold lock_at. by rewrite Heq.
    + lia.
  - apply Forall_cons. split; [|done]. cbn. intros i [Hi|Hi]%elem_of_union; auto.
  - assert (forall x c, x ∈ T -> mine x c -> ~ mine t' c) as Hd1.
    { intros x c Hx' Hm Hm'. destruct (Hnew c Hm') as [Hm2|Hv]; [exact (E x t c ltac:(by right) ltac:(by left) (Hother x Hx') Hm Hm2)|].
      rewrite Forall_forall in C. destruct Hm as [cs Hc]. pose proof (lookup_weaken _ _ _ _ Hc (ja_pend _ _ _ _ (C x Hx'))). congruence. }
    intros t1 t2 c [->|H1]%elem_of_cons [->|H2]%elem_of_cons Hne Hm; [done| |by apply (Hd1 t1)|].
    + intros Hm2. by apply (Hd1 t2 c).
    + apply (E t1 t2); [by right..|done|done].
  - intros x c [->|Hx']%elem_of_cons Hm; [|by apply (F x); [right|]].
    destruct (Hnew c Hm) as [Hm2|Hv]; [by apply (F t); [left|]|].
    destruct (v_pend v0 !! c) eqn:Hv0; [|done]. rewrite <- Hv. rewrite G, Hv0; [done|].
    intros y Hy Hmy. pose proof (F y c Hy Hmy). congruence.
  - intros c Hc. assert (j_pend (th_job t') !! c = None) as Hn' by (apply eq_None_not_Some; apply (Hc t'); by left).
    destruct (j_pend (th_job t) !! c) as [cs|] eqn:Hcs.
    + rewrite (cf_closed _ _ _ _ Hfr c); [|by eexists|done]. symmetry. apply (F t); [by left|by eexists].
    + rewrite (cf_rest _ _ _ _ Hfr c) by done. apply G. intros y [->|Hy]%elem_of_cons; [by intros [? ?]; congruence|].
      apply Hc. by right.
  - intros key Hk. rewrite Hl by auto. by apply I.
  - rewrite Hd, J, removed_removed. f_equal. cbn. by rewrite (assoc (∪)).
  - congruence.
  - lia.
Qed.

(** ** The workers, on any schedule *)

(** The programs [ps] are those of the deletions not yet over, and of workers
    with nothing to do. *)
Definition runs (p : prog (result unit)) (o : option thread) : Prop :=
  match o with Some t => th_prog t = p | None => ended p end.

Definition covers (ps : list (prog (result unit))) T : Prop :=
  exists W F, T ≡ₚ omap id W ++ F /\ Forall2 runs ps W /\ Forall (fun t => ended (th_prog t)) F.

Definition working ps v : Prop := exists T, sweep T v /\ covers ps T.

Lemma insert_perm {A} (l : list A) i x y : l !! i = Some x -> <[i := y]> l ≡ₚ y :: delete i l.
Proof.
  intros Hi. rewrite insert_take_drop by (by eapply lookup_lt_Some). rewrite delete_take_drop. symmetry. apply Permutation_middle.
Qed.

Lemma omap_perm {A B} (f : A -> option B) l l' : l ≡ₚ l' -> omap f l ≡ₚ omap f l'.
Proof. by intros ->. Qed.

(** A turn in a deletion. *)
Lemma working_step ps w e k v r v' : working ps v -> ps !! w = Some (Vis e k) -> estep v e r v' ->
  working (<[w := k r]> ps) v'.
Proof using Hnd Hids Ht0.
  intros (T & Hsw & W & F & HT & HW & HF) Hw Hs.
  destruct (Forall2_lookup_l _ _ _ _ _ HW Hw) as ([t|] & Ho & Hr); [|done]. cbn in Hr.
  assert (T ≡ₚ t :: omap id (delete w W) ++ F) as HT1.
  { by rewrite HT, (omap_perm id _ _ (delete_Permutation W w _ Ho)). }
  rewrite HT1 in Hsw. destruct (sweep_step _ _ _ _ _ _ _ Hsw Hr Hs) as [l' Hsw'].
  exists (mkThread (th_id t) l' (k r) :: omap id (delete w W) ++ F). split; [done|].
  exists (<[w := Some (mkThread (th_id t) l' (k r))]> W), F. split; [|split; [by apply Forall2_insert|done]].
  by rewrite (omap_perm id _ _ (insert_perm W w _ _ Ho)).
Qed.

(** A turn at the head of the loop. *)
Lemma working_receive ws w q q' rest v : working (ws ++ q' :: rest) v -> ws !! w = Some (Ret q) ->
  working (<[w := q']> ws ++ rest) v.
Proof.
  intros (T & Hsw & W & F & HT & HW & HF) Hw. apply Forall2_app_inv_l in HW as (W1 & W2' & HW1 & HW2 & ->).
  apply Forall2_cons_inv_l in HW2 as (o & W2 & Ho & HW2 & ->).
  destruct (Forall2_lookup_l _ _ _ _ _ HW1 Hw) as (ow & How & Hrw).
  exists T. split; [done|]. exists (<[w := o]> W1 ++ W2), (omap id [ow] ++ F).
  split; [|split; [apply Forall2_app; [by apply Forall2_insert|done]|]].
  - rewrite HT, !omap_app, (omap_perm id _ _ (insert_perm W1 w _ o How)), (omap_perm id _ _ (delete_Permutation W1 w _ How)).
    change (ow :: delete w W1) with ([ow] ++ delete w W1). change (o :: delete w W1) with ([o] ++ delete w W1).
    change (o :: W2) with ([o] ++ W2). rewrite !omap_app. solve_Permutation.
  - apply Forall_app. split; [|done]. destruct ow as [t|]; cbn; [|done]. apply Forall_singleton. cbn in Hrw. by rewrite Hrw.
Qed.

Lemma working_end ps v : working ps v -> Forall ended ps -> exists T, sweep T v /\ Forall (fun t => ended (th_prog t)) T.
Proof.
  intros (T & Hsw & W & F & HT & HW & HF) Hps. exists T. split; [done|]. rewrite HT. apply Forall_app. split; [|done].
  apply Forall_forall. intros t Ht. apply list_elem_of_omap in Ht as ([t'|] & Hin & [= ->]).
  apply list_elem_of_lookup in Hin as [i Hi]. destruct (Forall2_lookup_r _ _ _ _ _ HW Hi) as (p & Hp & <-).
  rewrite Forall_lookup in Hps. by eapply Hps.
Qed.

Lemma wp_run_one i ps p v (f : result unit -> prog unit) Q : working ps v -> ps !! i = Some p ->
  (forall r v', working (<[i := Ret r]> ps) v' -> wp (f r) v' Q) -> wp (prog_bind p f) v Q.
Proof using Hnd Hids Ht0.
  revert ps v. induction p as [r|e k IH]; intros ps v Hw Hi Hf; cbn.
  - apply Hf. by rewrite list_insert_id.
  - intros r v' Hs. apply (IH r (<[i := k r]> ps)).
    + by eapply working_step.
    + apply list_lookup_insert_eq. by eapply lookup_lt_Some.
    + intros r' v1. rewrite list_insert_insert_eq. apply Hf.
Qed.

Definition swept v : Prop := exists T, sweep T v /\ Forall (fun t => ended (th_prog t)) T.

Lemma wp_one_by_one done_ ps v : working (done_ ++ ps) v -> Forall ended done_ -> wp (one_by_one ps) v (fun _ => swept).
Proof using Hnd Hids Ht0.
  revert done_ v. induction ps as [|p ps IH]; intros dn v Hw Hd; cbn [one_by_one].
  { apply wp_ret. rewrite app_nil_r in Hw. by eapply working_end. }
  apply (wp_run_one (length dn) (dn ++ p :: ps)); [done|by apply list_lookup_middle|]. intros r v' Hw'.
  rewrite insert_app_r_alt, Nat.sub_diag in Hw' by done. cbn in Hw'.
  apply (IH (dn ++ [Ret r])); [by rewrite <- app_assoc|]. apply Forall_app. split; [done|]. by apply Forall_singleton.
Qed.

Lemma wp_cleanupWorker sched ch ws v : working (ws ++ (DeleteBackfillCompletely cfg <$> ch)) v ->
  wp (cleanupWorker cfg sched ch ws) v (fun _ => swept).
Proof using Hnd Hids Ht0.
  revert ch ws v. induction sched as [|w sched IH]; intros ch ws v Hw; cbn [cleanupWorker]; [by apply (wp_one_by_one [])|].
  destruct (ws !! w) as [[q|e k]|] eqn:Hws; [destruct ch as [|id ch]|..]; try by apply IH.
  - apply IH. cbn in Hw. by eapply working_receive.
  - intros r v' Hs. apply IH. rewrite <- insert_app_l by (by eapply lookup_lt_Some).
    eapply working_step; [exact Hw| |exact Hs]. by apply lookup_app_l_Some.
Qed.

Definition start (id : string) : thread := mkThread id unstarted (DeleteBackfillCompletely cfg id).

Lemma all_gone_start l : all_gone (start <$> l) = ∅.
Proof. induction l as [|id l IH]; [done|]. change (∅ ∪ all_gone (start <$> l) = ∅). by rewrite IH. Qed.

Lemma omap_start (l : list string) : omap id ((Some ∘ start) <$> l) = start <$> l.
Proof. induction l as [|i l IH]; [done|]. cbn. by f_equal. Qed.

Lemma working_start : working (replicate 3 (ret_ok tt) ++ (DeleteBackfillCompletely cfg <$> ids)) v0.
Proof using Hnd Hids Ht0.
  assert (forall t, t ∈ start <$> ids -> exists id, t = start id /\ id ∈ ids) as Hin by (intros t (id & -> & ?)%list_elem_of_fmap; eauto).
  exists (start <$> ids). split.
  - split; try done.
    + by rewrite <- list_fmap_compose, list_fmap_id.
    + apply Forall_forall. intros t (id & -> & Hid)%Hin. apply DeleteBackfillCompletely_job.
      rewrite Forall_forall in Hids. auto.
    + apply Forall_forall. intros t (id & -> & Hid)%Hin. split; try done. apply map_empty_subseteq.
    + apply Forall_forall. intros t (id & -> & Hid)%Hin i Hi. by apply elem_of_empty in Hi.
    + intros t t' c (id & -> & _)%Hin _ _ [? Hc]. cbn in Hc. by rewrite lookup_empty in Hc.
    + intros t c (id & -> & _)%Hin [? Hc]. cbn in Hc. by rewrite lookup_empty in Hc.
    + by rewrite all_gone_start, removed_none.
  - exists (replicate 3 None ++ ((Some ∘ start) <$> ids)), []. split; [|split; [|done]].
    + by rewrite app_nil_r, omap_app, omap_start.
    + apply Forall2_app; [by repeat constructor|]. apply Forall2_fmap_l, Forall2_fmap_r, Forall_Forall2_diag.
      by apply Forall_forall.
Qed.

Lemma sound_all_gone T v : sweep T v -> sound_gone (all_gone T).
Proof using Hids.
  intros Hsw. assert (forall t, t ∈ T -> th_id t ∉ reserved) as Hr.
  { intros t Ht. rewrite Forall_forall in Hids. apply Hids. rewrite <- (si_ids _ _ Hsw). by apply list_elem_of_fmap_2. }
  pose proof (si_own _ _ Hsw) as Ho. clear Hsw. induction Ho as [|t T Ht Ho IH]; [by intros k Hk%elem_of_empty|].
  apply sound_union; [|apply IH; intros x Hx; apply Hr; by right].
  intros k Hk. apply Ht, elem_of_singleton in Hk as ->. apply Hr. by left.
Qed.

(** What is left of the keyspace, whatever failed. *)
Lemma swept_only v : swept v -> only_removes (v_db v0) (v_db v).
Proof using Hids Ht0.
  intros (T & Hsw & _). rewrite (si_db _ _ Hsw). apply removed_only; [by eapply sound_all_gone|done].
Qed.

(** The ids deleted. *)
Definition deleted T : list string :=
  omap (fun t => match j_stage (th_job t) with After => Some (th_id t) | _ => None end) T.

Lemma deleted_ids T id : id ∈ deleted T <-> exists t, t ∈ T /\ th_id t = id /\ j_stage (th_job t) = After.
Proof.
  unfold deleted. rewrite list_elem_of_omap. split.
  - intros (t & Ht & He). exists t. destruct (j_stage (th_job t)); simplify_eq; done.
  - intros (t & Ht & <- & Hs). exists t. by rewrite Hs.
Qed.

Lemma all_gone_deleted T : sys_faulty = false -> Forall (fun t => over v0 (th_id t) (th_job t)) T ->
  all_gone T = parts (v_db v0) (deleted T).
Proof.
  intros Hf HT. induction HT as [|t T [_ Ht] HT IH]; [done|]. unfold deleted. cbn [all_gone foldr omap list_omap].
  fold (all_gone T). rewrite IH. destruct (Ht Hf) as [[-> ->]|(-> & -> & _)]; [done|]. by rewrite (left_id ∅ (∪)).
Qed.

Lemma deleted_nodup T : NoDup (th_id <$> T) -> NoDup (deleted T).
Proof.
  induction T as [|t T IH]; intros Hn; [constructor|]. cbn in Hn. apply NoDup_cons in Hn as [Hni Hn].
  unfold deleted. cbn. destruct (j_stage (th_job t)); [by apply IH..|]. apply NoDup_cons. split; [|by apply IH].
  intros (t' & Ht' & Heq & _)%deleted_ids. apply Hni. rewrite <- Heq. by apply list_elem_of_fmap_2.
Qed.

Lemma swept_exact v : sys_faulty = false -> swept v -> exists gone, NoDup gone /\ (forall id, id ∈ gone -> id ∈ ids) /\
  (forall id, id ∈ ids -> id ∉ gone -> ~ lock_free v0 (mutex_name id) (v_now v0)) /\ v_now v0 <= v_now v /\
  v = set_locks (upd v0 (foldl completely (v_db v0) gone) (v_now v)) (foldr delete (v_locks v0) (mutex_name <$> gone)).
Proof using Hids Hnd Ht0.
  intros Hf (T & Hsw & Hend). pose proof Hsw as [A B C _ _ _ G I J K N].
  assert (Forall (fun t => over v0 (th_id t) (th_job t)) T) as Hover.
  { rewrite Forall_forall in *. intros t Ht. specialize (B t Ht). specialize (Hend t Ht). by destruct (th_prog t). }
  assert (forall id, id ∈ ids <-> exists t, t ∈ T /\ th_id t = id) as Hin.
  { intros id. rewrite <- A, list_elem_of_fmap. split; intros (t & ? & ?); eauto. }
  rewrite Forall_forall in C, Hover.
  assert (forall id, id ∈ deleted T -> id ∈ ids) as Hsub.
  { intros id (t & Ht & <- & _)%deleted_ids. apply Hin. eauto. }
  exists (deleted T). split; [apply deleted_nodup; by rewrite A|]. split; [done|]. split; [|split; [done|]].
  - intros id (t & Ht & <-)%Hin Hn. destruct (Hover t Ht) as [_ Ho]. destruct (Ho Hf) as [[Hs _]|(_ & _ & ?)]; [|done].
    destruct Hn. apply deleted_ids. eauto.
  - assert (v_pend v = v_pend v0) as Hp.
    { apply map_eq. intros c. apply G. intros t Ht [? Hm]. destruct (Hover t Ht) as [Hp _]. by rewrite Hp, lookup_empty in Hm. }
    assert (v_locks v = foldr delete (v_locks v0) (mutex_name <$> deleted T)) as Hl.
    { apply map_eq. intros k. destruct (decide (k ∈ mutex_name <$> deleted T)) as [Hk|Hk].
      - rewrite lookup_foldr_delete by done. apply list_elem_of_fmap in Hk as (id & -> & (t & Ht & <- & Hs)%deleted_ids).
        pose proof (ja_lock _ _ _ _ (C t Ht) Hf) as Hl. by rewrite Hs in Hl.
      - rewrite lookup_foldr_delete_not_elem_of by done.
        destruct (decide (k ∈ mutex_name <$> ids)) as [(id & -> & Hid)%list_elem_of_fmap|Hni].
        + apply Hin in Hid as (t & Ht & <-). pose proof (ja_lock _ _ _ _ (C t Ht) Hf) as Hl.
          destruct (Hover t Ht) as [_ Ho]. destruct (Ho Hf) as [[Hs _]|(Hs & _)].
          * destruct Hk. apply list_elem_of_fmap_2, deleted_ids. eauto.
          * by rewrite Hs in Hl.
        + apply I. intros id Hid ->. apply Hni. by apply list_elem_of_fmap_2. }
    assert (v_db v = foldl completely (v_db v0) (deleted T)) as Hd.
    { rewrite J, (all_gone_deleted T Hf), cleaned_removed; [done|done|apply deleted_nodup; by rewrite A| |by rewrite Forall_forall].
      apply Forall_forall. intros id Hid. rewrite Forall_forall in Hids. auto. }
    destruct v. cbn in *. subst. unfold set_locks, upd. cbn. congruence.
Qed.
End Sweep.

Lemma CleanupBackfills_spec `{Sys} `{Proto} (cfg : View) v : typed (v_db v) ->
  (forall id, is_Some (acks (v_db v) !! id) -> id ∉ reserved) ->
  wp (CleanupBackfills cfg) v (cleanup_post cfg v).
Proof.
  intros Ht Hres. unfold CleanupBackfills. apply wp_rbind. eapply wp_mono; [by apply GetExpiredBackfillIDs_spec|].
  intros [ids|e] v1 (t & Hnow & -> & Hr); [|split; [by apply removes_refl|congruence]]. destruct Hr as [Hnd Hr].
  assert (Forall (fun id => id ∉ reserved) ids) as Hids.
  { apply Forall_forall. intros id (s & Hs & _)%Hr. apply Hres. by rewrite Hs. }
  apply wp_bind, wp_sched. intros sched. apply wp_bind.
  eapply wp_mono; [by apply (wp_cleanupWorker cfg (upd v (v_db v) t) ids), working_start|].
  intros [] v2 Hsw. apply wp_ret. split; [by apply (swept_only (upd v (v_db v) t) ids)|]. intros Hf.
  destruct (swept_exact (upd v (v_db v) t) ids Ht Hnd Hids v2 Hf Hsw) as (gone & Hn & Hsub & Hheld & Hle & Hv).
  exists t, ids, gone. repeat (split; [done|]). split; [|exact Hv].
  intros id Hid Hni Hfree. apply (Hheld id Hid Hni). unfold lock_free in *. cbn in *. case_match; [|done]. case_match. lia.
Qed.
