(* ===== verification/StoreRedis.v ===== *)
(** * The Redis state store as a service ([redis.go], [instrumented.go], [public.go])

    [redisBackend] assembles the operations of [StoreTicket] and
    [StoreBackfill] into a [Service]; [instrumentedService] wraps any service;
    [New] chooses between them. Both meet [ServiceSpec]. The connection
    settings [newRedis] derives from the configuration are modelled as data;
    dialling is third-party. *)
From S2P Require Export Cleanup.

(** ** Connection settings

    The fields of [redis.Pool] the code sets, and what its dial function
    connects to: a fixed URL, or the master reported by a sentinel reached
    through a pool of its own. *)
Record PoolSettings (D : Type) := mkPoolSettings {
  MaxIdle : Z;
  MaxActive : Z;
  IdleTimeout : Z;
  DialTimeout : Z;
  Dial : D;
}.
Arguments mkPoolSettings {D}.
Arguments Dial {D}.

Inductive dial :=
| DialURL (url : string)
| DialSentinel (sentinelPool : PoolSettings string).

Section Connections.
Context (cfg : View).
(** [ioutil.ReadFile]: [None] when the file cannot be read. *)
Variable ReadFile : string -> option string.

Definition getSentinelAddr : string :=
  GetString cfg "redis.sentinelHostname" +:+ ":" +:+ GetString cfg "redis.sentinelPort".

Definition getMasterAddr : string :=
  GetString cfg "redis.hostname" +:+ ":" +:+ GetString cfg "redis.port".

(** An unreadable password file ends the process ([Fatalf]). *)
Definition redisURLFromAddr (addr : string) (usePassword : bool) : result string :=
  if usePassword then
    match ReadFile (GetString cfg "redis.passwordPath") with
    | None => Err EPanic
    | Some passwordData =>
        Ok ("redis://" +:+ GetString cfg "redis.user" +:+ ":" +:+ passwordData +:+ "@" +:+ addr)
    end
  else Ok ("redis://" +:+ addr).

Definition getHealthCheckPool : result (PoolSettings string) :=
  let healthCheckTimeout := GetDuration cfg "redis.pool.healthCheckTimeout" in
  result_bind
    (if IsSet cfg "redis.sentinelHostname"
     then redisURLFromAddr getSentinelAddr (GetBool cfg "redis.sentinelUsePassword")
     else redisURLFromAddr getMasterAddr (GetBool cfg "redis.usePassword"))
    (fun healthCheckURL =>
      Ok (mkPoolSettings 3 0 (10 * healthCheckTimeout) healthCheckTimeout healthCheckURL)).

Definition getSentinelPool : result (PoolSettings string) :=
  let idleTimeout := GetDuration cfg "redis.pool.idleTimeout" in
  result_bind (redisURLFromAddr getSentinelAddr (GetBool cfg "redis.sentinelUsePassword"))
    (fun sentinelURL =>
      Ok (mkPoolSettings (GetInt cfg "redis.pool.maxIdle") (GetInt cfg "redis.pool.maxActive")
            idleTimeout idleTimeout sentinelURL)).

Definition GetRedisPool : result (PoolSettings dial) :=
  let idleTimeout := GetDuration cfg "redis.pool.idleTimeout" in
  result_bind
    (if IsSet cfg "redis.sentinelHostname"
     then result_bind getSentinelPool (fun sentinelPool => Ok (DialSentinel sentinelPool))
     else result_bind (redisURLFromAddr getMasterAddr (GetBool cfg "redis.usePassword"))
            (fun masterURL => Ok (DialURL masterURL)))
    (fun d =>
      Ok (mkPoolSettings (GetInt cfg "redis.pool.maxIdle") (GetInt cfg "redis.pool.maxActive")
            idleTimeout idleTimeout d)).

(** The dial function of a sentinel pool, given the two-part reply of
    SENTINEL GET-MASTER-ADDR-BY-NAME: the code indexes it without a check. *)
Definition masterURLFromSentinel (masterInfo : list string) : result string :=
  match masterInfo with
  | host :: port :: _ => redisURLFromAddr (host +:+ ":" +:+ port) (GetBool cfg "redis.usePassword")
  | _ => Err EPanic
  end.

(** A connection borrowed from a pool is probed unless it was used in the
    last fifteen seconds. *)
Definition testOnBorrow (c : conn) (lastUsed : Z) : prog (result unit) :=
  now ←! trigger Now;
  if now - lastUsed <? 15 * time_Second then ret_ok tt
  else redis_do c PING EPlain.
End Connections.

(** ** The services *)
Section Services.
Context `{Sys} `{Proto} (cfg : View).

(** The pool of the health checks is not closed. *)
Definition Close : prog (result unit) :=
  r ←! trigger ClosePool;
  Ret (match r with None => Ok tt | Some m => Err (EPlain m) end).

Definition redisBackend : Service := {|
  svc_HealthCheck := HealthCheck;
  svc_Close := Close;
  svc_CreateTicket := CreateTicket;
  svc_GetTicket := GetTicket;
  svc_DeleteTicket := DeleteTicket;
  svc_IndexTicket := IndexTicket;
  svc_DeindexTicket := DeindexTicket;
  svc_GetIndexedIDSet := GetIndexedIDSet cfg;
  svc_GetTickets := GetTickets;
  svc_UpdateAssignments := UpdateAssignments cfg;
  svc_GetAssignments S callback := GetAssignments callback;
  svc_AddTicketsToPendingRelease := AddTicketsToPendingRelease;
  svc_DeleteTicketsFromPendingRelease := DeleteTicketsFromPendingRelease;
  svc_ReleaseAllTickets := ReleaseAllTickets;
  svc_CreateBackfill := CreateBackfill;
  svc_GetBackfill := GetBackfill;
  svc_GetBackfills := GetBackfills;
  svc_DeleteBackfill := DeleteBackfill;
  svc_DeleteBackfillCompletely := DeleteBackfillCompletely cfg;
  svc_UpdateBackfill := UpdateBackfill cfg;
  svc_Lock := mutex_Lock cfg;
  svc_Unlock := mutex_Unlock;
  svc_CleanupBackfills := CleanupBackfills cfg;
  svc_UpdateAcknowledgmentTimestamp := UpdateAcknowledgmentTimestamp cfg;
  svc_GetExpiredBackfillIDs := GetExpiredBackfillIDs cfg;
  svc_IndexBackfill := IndexBackfill;
  svc_DeindexBackfill := DeindexBackfill;
  svc_GetIndexedBackfills := GetIndexedBackfills cfg;
|}.

(** Tracing has no effect on the state: each method calls the wrapped one. *)
Definition instrumentedService (s : Service) : Service := {|
  svc_HealthCheck := svc_HealthCheck s;
  svc_Close := svc_Close s;
  svc_CreateTicket ticket := svc_CreateTicket s ticket;
  svc_GetTicket id := svc_GetTicket s id;
  svc_DeleteTicket id := svc_DeleteTicket s id;
  svc_IndexTicket ticket := svc_IndexTicket s ticket;
  svc_DeindexTicket id := svc_DeindexTicket s id;
  svc_GetIndexedIDSet := svc_GetIndexedIDSet s;
  svc_GetTickets ids := svc_GetTickets s ids;
  svc_UpdateAssignments req := svc_UpdateAssignments s req;
  svc_GetAssignments S callback n id := svc_GetAssignments s S callback n id;
  svc_AddTicketsToPendingRelease ids := svc_AddTicketsToPendingRelease s ids;
  svc_DeleteTicketsFromPendingRelease ids := svc_DeleteTicketsFromPendingRelease s ids;
  svc_ReleaseAllTickets := svc_ReleaseAllTickets s;
  svc_CreateBackfill backfill ticketIDs := svc_CreateBackfill s backfill ticketIDs;
  svc_GetBackfill id := svc_GetBackfill s id;
  svc_GetBackfills ids := svc_GetBackfills s ids;
  svc_DeleteBackfill id := svc_DeleteBackfill s id;
  svc_DeleteBackfillCompletely id := svc_DeleteBackfillCompletely s id;
  svc_UpdateBackfill backfill ticketIDs := svc_UpdateBackfill s backfill ticketIDs;
  svc_Lock key := svc_Lock s key;
  svc_Unlock key token := svc_Unlock s key token;
  svc_CleanupBackfills := svc_CleanupBackfills s;
  svc_UpdateAcknowledgmentTimestamp id := svc_UpdateAcknowledgmentTimestamp s id;
  svc_GetExpiredBackfillIDs := svc_GetExpiredBackfillIDs s;
  svc_IndexBackfill backfill := svc_IndexBackfill s backfill;
  svc_DeindexBackfill id := svc_DeindexBackfill s id;
  svc_GetIndexedBackfills := svc_GetIndexedBackfills s;
|}.

Definition New : Service :=
  if GetBool cfg "telemetry.prometheus.enable" then instrumentedService redisBackend else redisBackend.
End Services.

Section Implements.
Context `{Sys} `{Proto} (cfg : View).

Lemma Close_spec v : wp Close v (probe_post v).
Proof.
  unfold Close. prog_cbn. apply wp_close_pool; [by apply wp_ret|]. intros Hf m. apply wp_ret. by split.
Qed.

#[export] Instance redisBackend_spec : ServiceSpec cfg (redisBackend cfg).
Proof.
  split; cbn.
  - apply HealthCheck_spec.
  - apply Close_spec.
  - intros S callback attempts id x v. apply GetAssignments_spec.
  - apply CreateTicket_spec.
  - apply GetTicket_spec.
  - apply DeleteTicket_spec.
  - apply IndexTicket_spec.
  - apply DeindexTicket_spec.
  - apply GetIndexedIDSet_spec.
  - apply GetTickets_spec.
  - apply UpdateAssignments_spec.
  - apply AddTicketsToPendingRelease_spec.
  - apply DeleteTicketsFromPendingRelease_spec.
  - apply ReleaseAllTickets_spec.
  - apply CreateBackfill_spec.
  - apply GetBackfill_spec.
  - apply GetBackfills_spec.
  - apply DeleteBackfill_spec.
  - apply DeleteBackfillCompletely_spec.
  - apply UpdateBackfill_spec.
  - apply mutex_Lock_spec.
  - apply mutex_Unlock_spec.
  - apply CleanupBackfills_spec.
  - apply UpdateAcknowledgmentTimestamp_spec.
  - apply GetExpiredBackfillIDs_spec.
  - apply IndexBackfill_spec.
  - apply DeindexBackfill_spec.
  - apply GetIndexedBackfills_spec.
Qed.

#[export] Instance instrumented_spec s : ServiceSpec cfg s -> ServiceSpec cfg (instrumentedService s).
Proof. intros Hs. split; cbn; apply Hs. Qed.

(** C18. The state store the services get, traced or not, meets the contract
    [Store.ServiceSpec] states for each operation of the interface, HealthCheck,
    Close and GetAssignments included: from any state of the keyspace, whatever
    the connections answer (lost replies and refused connections included),
    each call ends with a result and an effect the contract allows. The
    contract is the one the code keeps: deleting a ticket or a backfill that
    is not there is NotFound, where the comments of the interface say it
    succeeds. *)
Theorem New_refines : ServiceSpec cfg (New cfg).
Proof. unfold New. destruct (GetBool cfg _); apply _. Qed.
End Implements.
