(* ===== verification/Interleave.v ===== *)
(** * Clients that run at the same time

    The calls of the services run in many processes at once. [Effects] runs
    one program; here any number of programs share the outside world and a
    schedule picks whose next effect is carried out. What the processes agree
    on is a record of Redis that is changed only under its distributed mutex:
    a program logic for one program among others, in which everything a
    program does not own may have changed between two of its effects, and its
    soundness for every schedule and every environment.

    The mutex is the library's: Redis keeps it for [backfillLockTimeout], after
    which another may take it, whatever the first still does. [in_time] says of
    a run that this does not happen to a program between its [Lock] and its
    [Unlock] ([BackfillRace] has a run in which it does). *)
From S2P Require Export StoreRedis Conns.

(** ** Programs side by side *)
Section Pool.
Context `{Environment} {R : Type}.

(** The next effect of a program, if it is not over. *)
Definition advance (p : prog R) (w : env_state) : prog R * env_state :=
  match p with
  | Ret a => (Ret a, w)
  | Vis e k => let '(r, w') := env_handle e w in (k r, w')
  end.

Fixpoint prun (sched : list nat) (ps : list (prog R)) (w : env_state) : list (prog R) * env_state :=
  match sched with
  | [] => (ps, w)
  | i :: sched =>
      match ps !! i with
      | None => prun sched ps w
      | Some p => let '(p', w') := advance p w in prun sched (<[i := p']> ps) w'
      end
  end.

Lemma prun_app s1 s2 ps w : prun (s1 ++ s2) ps w = let '(ps', w') := prun s1 ps w in prun s2 ps' w'.
Proof.
  revert ps w. induction s1 as [|i s1 IH]; intros ps w; cbn; [done|].
  destruct (ps !! i) as [p|]; [|done]. by destruct (advance p w) as [p' w'].
Qed.

Lemma prun_length sched ps w ps' w' : prun sched ps w = (ps', w') -> length ps = length ps'.
Proof.
  revert ps w. induction sched as [|i sched IH]; intros ps w; cbn; [by intros [= -> _]|].
  destruct (ps !! i) as [p|]; [|apply IH]. destruct (advance p w) as [p' w1]. intros Hr. rewrite <- (IH _ _ Hr).
  by rewrite length_insert.
Qed.

(** One program alone is over after finitely many steps, whatever is
    answered, and nothing else moves. *)
Lemma prun_alone ps w i p : ps !! i = Some p ->
  exists n a w', prun (replicate n i) ps w = (<[i := Ret a]> ps, w').
Proof.
  revert ps w. induction p as [a|e k IH]; intros ps w Hp.
  - exists O, a, w. cbn. by rewrite list_insert_id.
  - destruct (env_handle e w) as [r w1] eqn:He.
    destruct (IH r (<[i := k r]> ps) w1) as (n & a & w' & Hn); [apply list_lookup_insert_eq; by eapply lookup_lt_Some|].
    exists (S n), a, w'. cbn. rewrite Hp. cbn. by rewrite He, Hn, list_insert_insert_eq.
Qed.

(** From anywhere there is a schedule after which all are over. *)
Lemma prun_ends ps w : exists sched ps' w', prun sched ps w = (ps', w') /\ Forall ended ps'.
Proof.
  assert (forall n, (n <= length ps)%nat -> exists sched ps' w', prun sched ps w = (ps', w') /\
    forall i p, (i < n)%nat -> ps' !! i = Some p -> ended p) as Hn.
  { induction n as [|n IH]; intros Hn; [exists [], ps, w; split; [done|lia]|].
    destruct IH as (s & ps1 & w1 & Hr & Hi); [lia|]. pose proof (prun_length _ _ _ _ _ Hr) as Hl.
    destruct (lookup_lt_is_Some_2 ps1 n) as [p Hp]; [lia|]. destruct (prun_alone ps1 w1 n p Hp) as (m & a & w' & Hm).
    exists (s ++ replicate m n), (<[n := Ret a]> ps1), w'. rewrite prun_app, Hr. split; [done|].
    intros i q Hlt [(<- & <- & _)|[Hne Hq]]%list_lookup_insert_Some; [done|]. apply (Hi i); [lia|done]. }
  destruct (Hn (length ps)) as (s & ps' & w' & Hr & Hi); [lia|]. exists s, ps', w'. split; [done|].
  apply Forall_lookup. intros i p Hp. eapply Hi; [|done]. rewrite (prun_length _ _ _ _ _ Hr). by eapply lookup_lt_Some.
Qed.
End Pool.

(** ** What one program knows

    Of the outside world: its own connections with what it has sent on them,
    whether it holds the mutex and then the record, and the generations of
    the record it has replaced. Of itself: whether it is one that may delete
    the record. *)
Record local := mkLocal {
  l_deletes : bool;
  l_pend : gmap conn (list command);
  l_held : option (option entry);
  l_bumps : list Z;
}.

Definition idle (deletes : bool) : local := mkLocal deletes ∅ None [].

Section Record.
Context `{Sys} `{Proto} (id : string).
Implicit Types (v : view) (d : db) (l : local).

(** The generation of the record. *)
Definition entry_generation (x : option entry) : option Z :=
  match x with
  | Some (mkEntry (RStr s) _) =>
      match unmarshal_backfill s with
      | Some (mkBackfillInternal (Some b) _) => Some (b_Generation b)
      | _ => None
      end
  | _ => None
  end.
Definition generation_at (d : db) : option Z := entry_generation (d !! id).

(** Bytes that do not read as a ticket that claims to be this record, or a
    shared key. *)
Definition foreign (s : string) : Prop := forall t, unmarshal_ticket s = Some t -> t_Id t <> id /\ t_Id t ∉ reserved.

(** What the keyspace always satisfies: the shared keys have their types, the
    record is the backfill of that id, which is not one of its tickets, and
    nothing else claims to be it. *)
Record db_ok d : Prop := mkDbOk {
  ok_typed : typed d;
  ok_keyed b ids : backfill_at d id = Some (mkBackfillInternal b ids) -> (forall b0, b = Some b0 -> b_Id b0 = id) /\ id ∉ ids;
  ok_foreign k s : k <> id -> get_str d k = Some s -> foreign s;
}.

(** What every step keeps. The id has been handed out. *)
Record record_ok v : Prop := mkRecordOk {
  ok_db : db_ok (v_db v);
  ok_xid : id ∈ v_xids v;
}.

Record agrees l v : Prop := mkAgrees {
  ag_pend : l_pend l ⊆ v_pend v;
  ag_held x : l_held l = Some x -> is_Some (v_locks v !! mutex_name id) /\ v_db v !! id = x;
  ag_ok : record_ok v;
}.

(** A program uses its own connections, one command at a time, a pipeline or a
    transaction, and unlocks what it locked. *)
Definition allowed l (e : eff) : Prop :=
  match e with
  | Do c cmd => l_pend l !! c = Some [] \/ cmd = EXEC /\ exists cs, l_pend l !! c = Some (MULTI :: cs)
  | Send c _ | CloseConn c => is_Some (l_pend l !! c)
  | Unlock m _ => m = mutex_name id -> is_Some (l_held l)
  | _ => True
  end.

Lemma allowed_conn l e : allowed l e -> conn_ok (l_pend l) e.
Proof. by destruct e. Qed.

(** Its knowledge after a step. *)
Definition held_after (e : eff) : resp e -> option entry -> option (option entry) -> option (option entry) :=
  match e with
  | Lock m _ => fun r x h =>
      match r with
      | inl _ => if decide (m = mutex_name id) then Some x else (fun _ => x) <$> h
      | inr _ => (fun _ => x) <$> h
      end
  | Unlock m _ => fun r x h => if decide (m = mutex_name id) then None else (fun _ => x) <$> h
  | _ => fun _ x h => (fun _ => x) <$> h
  end.

Definition bumps_of (x x' : option entry) : list Z :=
  match entry_generation x, entry_generation x' with
  | Some g, Some g' => if decide (g = g') then [] else [g]
  | _, _ => []
  end.

Definition after_step l v (e : eff) (r : resp e) v' : local :=
  mkLocal (l_deletes l) (pend_after e r (l_pend l)) (held_after e r (v_db v' !! id) (l_held l))
    (l_bumps l ++ bumps_of (v_db v !! id) (v_db v' !! id)).

(** What it promises the others: to leave the record alone unless it holds
    the mutex, and then to delete it if it is one that may, to keep its generation, or to replace it
    by one of the next generation, once. *)
Definition promises l v v' : Prop :=
  record_ok v' /\
  (v_db v' !! id = v_db v !! id \/
   is_Some (l_held l) /\
     ((l_deletes l = true /\ generation_at (v_db v') = None) \/ generation_at (v_db v') = generation_at (v_db v) \/
      exists g, generation_at (v_db v) = Some g /\ generation_at (v_db v') = Some (wrap64 (g + 1)) /\ l_bumps l = [])).

(** The outcomes of a program that starts knowing [l], whatever the others do
    before each of its steps. *)
Fixpoint cwp {A} l (p : prog A) (Q : A -> local -> Prop) : Prop :=
  match p with
  | Ret a => Q a l
  | Vis e k => allowed l e /\ forall v r v', agrees l v -> estep v e r v' ->
      promises l v v' /\ cwp (after_step l v e r v') (k r) Q
  end.

Lemma cwp_mono {A} (p : prog A) l (Q Q' : A -> local -> Prop) :
  cwp l p Q -> (forall a l', Q a l' -> Q' a l') -> cwp l p Q'.
Proof.
  revert l. induction p as [a|e k IH]; cbn; intros l Hp HQ; [auto|]. destruct Hp as [Ha Hp]. split; [done|].
  intros v r v' Hg Hs. destruct (Hp v r v' Hg Hs) as [Hpr Hc]. split; [done|]. eauto.
Qed.

Lemma cwp_bind {A B} (p : prog A) (f : A -> prog B) l Q :
  cwp l p (fun a l' => cwp l' (f a) Q) -> cwp l (prog_bind p f) Q.
Proof.
  revert l. induction p as [a|e k IH]; cbn; intros l Hp; [done|]. destruct Hp as [Ha Hp]. split; [done|].
  intros v r v' Hg Hs. destruct (Hp v r v' Hg Hs) as [Hpr Hc]. split; [done|]. eauto.
Qed.

Lemma cwp_rbind {A B} (p : prog (result A)) (f : A -> prog (result B)) l Q :
  cwp l p (fun r l' => match r with Ok a => cwp l' (f a) Q | Err e => Q (Err e) l' end) -> cwp l (rbind p f) Q.
Proof.
  intros Hp. apply cwp_bind. eapply cwp_mono; [exact Hp|]. by intros [a|e] l'; cbn.
Qed.

(** *** A step and the rest of the world *)

Record step_frame l v (e : eff) (r : resp e) v' : Prop := mkStepFrame {
  sf_conns : conn_frame (l_pend l) v (pend_after e r (l_pend l)) v';
  sf_locked x : l_held l = None -> v_locks v !! mutex_name id = Some x -> v_now v' < x.2 -> v_locks v' !! mutex_name id = Some x;
  sf_holds x : held_after e r (v_db v' !! id) (l_held l) = Some x -> is_Some (v_locks v' !! mutex_name id) /\ v_db v' !! id = x;
  sf_taken x y : held_after e r (v_db v' !! id) (l_held l) = Some x -> l_held l = None ->
    v_locks v !! mutex_name id = Some y -> y.2 <= v_now v';
}.

(** Steps that do not touch the mutex. *)
Lemma frame_plain l v e (r : resp e) v' : conn_frame (l_pend l) v (pend_after e r (l_pend l)) v' -> agrees l v ->
  held_after e r (v_db v' !! id) (l_held l) = (fun _ => v_db v' !! id) <$> l_held l ->
  v_locks v' !! mutex_name id = v_locks v !! mutex_name id -> step_frame l v e r v'.
Proof.
  intros Hf [Hp Hh _] Hha Hlo. split; rewrite ?Hha, ?Hlo; auto.
  - intros x (x0 & Hx & <-)%fmap_Some. split; [by eapply Hh|done].
  - intros x y (x0 & Hx & _)%fmap_Some. congruence.
Qed.

Lemma lock_framed l v m expiry r v' : agrees l v -> estep v (Lock m expiry) r v' -> step_frame l v (Lock m expiry) r v'.
Proof.
  intros Hg Hs. assert (conn_frame (l_pend l) v (l_pend l) v') as Hf by exact (step_conns _ v _ r v' I (ag_pend _ _ Hg) Hs).
  assert (v' = v \/ exists token t, lock_free v m t /\ v' = lock_taken v m token expiry t) as Hv.
  { destruct r as [token|e]; cbn in Hs; [destruct Hs as (t & _ & ? & ->); eauto|].
    destruct Hs as [[_ ->]|[_ [->|(token & t & _ & ? & ->)]]]; eauto. }
  destruct (decide (m = mutex_name id)) as [->|Hm]; cycle 1.
  { apply frame_plain; [exact Hf|done|cbn; destruct r; by rewrite ?decide_False|].
    destruct Hv as [->|(token & t & _ & ->)]; [done|]. cbn -[mutex_name]. by rewrite lookup_insert_ne. }
  destruct Hg as [Hp Hh Hok]. split; [exact Hf|..].
  - intros x _ Hx Hlt. destruct Hv as [->|(token & t & Hfree & ->)]; [done|].
    unfold lock_free in Hfree. rewrite Hx in Hfree. destruct x as [tok u]. cbn in *. lia.
  - intros x Hx. split.
    + destruct Hv as [->|(token & t & _ & ->)]; [|cbn -[mutex_name]; rewrite lookup_insert_eq; by eexists].
      destruct (l_held l) as [x0|] eqn:Hl; [by apply (Hh x0)|]. cbn -[mutex_name] in Hx. destruct r as [token|e]; [|done].
      cbn in Hs. destruct Hs as (t & _ & _ & ->). cbn -[mutex_name]. rewrite lookup_insert_eq. by eexists.
    + cbn -[mutex_name] in Hx. destruct r; [rewrite decide_True in Hx by done; by injection Hx|].
      by apply fmap_Some in Hx as (? & _ & ?).
  - intros x [tok u] Hx Hl Hu. cbn -[mutex_name] in Hx. rewrite Hl in Hx. destruct r as [token|e]; [|done].
    cbn in Hs. destruct Hs as (t & _ & Hfree & ->). unfold lock_free in Hfree. rewrite Hu in Hfree. exact Hfree.
Qed.

Lemma unlock_framed l v m token r v' : allowed l (Unlock m token) -> agrees l v -> estep v (Unlock m token) r v' ->
  step_frame l v (Unlock m token) r v'.
Proof.
  intros Ha Hg Hs. assert (conn_frame (l_pend l) v (l_pend l) v') as Hf by exact (step_conns _ v _ r v' I (ag_pend _ _ Hg) Hs).
  assert (v' = v \/ v' = unlocked v m token) as Hv by (destruct r; cbn in Hs; naive_solver).
  destruct (decide (m = mutex_name id)) as [->|Hm].
  - destruct (Ha eq_refl) as [x Hx]. split; [exact Hf|congruence|..]; cbn -[mutex_name]; by rewrite decide_True.
  - apply frame_plain; [exact Hf|done|cbn; by rewrite decide_False|]. destruct Hv as [->| ->]; [done|].
    unfold unlocked. destruct (v_locks v !! m) as [[tok u]|]; [|done]. case_decide; [|done]. cbn -[mutex_name]. by rewrite lookup_delete_ne.
Qed.

Lemma step_framed l v e r v' : allowed l e -> agrees l v -> estep v e r v' -> step_frame l v e r v'.
Proof.
  intros Ha Hg Hs. pose proof (step_conns _ v e r v' (allowed_conn l e Ha) (ag_pend _ _ Hg) Hs) as Hf.
  assert (match e with GetConn _ | Do _ _ | Send _ _ | CloseConn _ => True | _ => False end -> v_locks v' = v_locks v) as Hr
    by (intros He; by eapply step_rest; [apply allowed_conn|apply Hg|..]).
  destruct e as [q|c cmd|c cmd|c| | |m expiry|m token| |];
    try (apply frame_plain; [exact Hf|done|done|by rewrite Hr]).
  - destruct Hs as [_ ->]. by apply frame_plain.
  - destruct Hs as (_ & _ & ->). by apply frame_plain.
  - by apply lock_framed.
  - by apply unlock_framed.
  - destruct Hs as [_ ->]. by apply frame_plain.
  - hnf in Hs. subst v'. by apply frame_plain.
Qed.
End Record.

(** ** Runs in which no mutex runs out on its holder *)
Section InTime.
Context `{Environment} {R : Type} (id : string).

(** Redis has not given up the mutex when the step is over. *)
Definition kept (v v' : view) : bool :=
  match v_locks v !! mutex_name id with Some (_, until) => v_now v' <? until | None => true end.

(** The programs between their [Lock] and their [Unlock] of the mutex. *)
Definition inside_after (i : nat) (e : eff) : resp e -> gset nat -> gset nat :=
  match e with
  | Lock m _ => fun r ins =>
      match r with inl _ => if decide (m = mutex_name id) then {[i]} ∪ ins else ins | inr _ => ins end
  | Unlock m _ => fun _ ins => if decide (m = mutex_name id) then ins ∖ {[i]} else ins
  | _ => fun _ ins => ins
  end.

Fixpoint in_time (sched : list nat) (ps : list (prog R)) (w : env_state) (ins : gset nat) : bool :=
  match sched with
  | [] => true
  | i :: sched =>
      match ps !! i with
      | Some (Vis e k) =>
          let '(r, w') := env_handle e w in
          (bool_decide (ins = ∅) || kept (env_view w) (env_view w')) &&
          in_time sched (<[i := k r]> ps) w' (inside_after i e r ins)
      | _ => in_time sched ps w ins
      end
  end.
End InTime.

(** ** Soundness *)

(** The programs' promises put together: what each has replaced is a
    generation of its own, and the record's is the next one. *)
Section Soundness.
Context `{EnvironmentLaws} `{Proto} {R : Type} (id : string) (g0 : Z) (ds : list bool) (Q : nat -> R -> local -> Prop).
Implicit Types (ls : list local).

Definition all_bumps ls : list Z := concat (l_bumps <$> ls).

Record pool_inv (ps : list (prog R)) ls (ins : gset nat) (w : env_state) : Prop := mkPoolInv {
  pi_len : length ls = length ps;
  pi_deletes : l_deletes <$> ls = ds;
  pi_cwp i p l : ps !! i = Some p -> ls !! i = Some l -> cwp id l p (Q i);
  pi_agree i l : ls !! i = Some l -> agrees id l (env_view w);
  pi_disj i j l1 l2 c : ls !! i = Some l1 -> ls !! j = Some l2 -> i <> j ->
    is_Some (l_pend l1 !! c) -> l_pend l2 !! c = None;
  pi_excl i j l1 l2 : ls !! i = Some l1 -> ls !! j = Some l2 -> i <> j -> is_Some (l_held l1) -> l_held l2 = None;
  pi_inside i l : ls !! i = Some l -> is_Some (l_held l) -> i ∈ ins;
  pi_once i l : ls !! i = Some l -> (length (l_bumps l) <= 1)%nat;
  pi_bumps : all_bumps ls ≡ₚ seqZ g0 (Z.of_nat (length (all_bumps ls)));
  pi_gen g : generation_at id (v_db (env_view w)) = Some g -> g = g0 + Z.of_nat (length (all_bumps ls));
  pi_alive : true ∉ ds -> is_Some (generation_at id (v_db (env_view w)));
}.

Lemma all_bumps_split ls i l : ls !! i = Some l ->
  all_bumps ls = all_bumps (take i ls) ++ l_bumps l ++ all_bumps (drop (S i) ls).
Proof.
  intros Hl. unfold all_bumps. rewrite <- (take_drop_middle ls i l Hl) at 1.
  by rewrite fmap_app, concat_app.
Qed.

Lemma all_bumps_insert ls i l l' x : ls !! i = Some l -> l_bumps l' = l_bumps l ++ x ->
  all_bumps (<[i := l']> ls) ≡ₚ all_bumps ls ++ x.
Proof.
  intros Hl Hx. rewrite (all_bumps_split ls i l Hl). rewrite insert_take_drop by (by eapply lookup_lt_Some).
  unfold all_bumps at 1. rewrite fmap_app, concat_app. cbn. rewrite Hx. fold (all_bumps (take i ls)) (all_bumps (drop (S i) ls)).
  rewrite <- !app_assoc. f_equiv. f_equiv. apply Permutation_app_comm.
Qed.

Lemma all_bumps_length ls : (forall i l, ls !! i = Some l -> (length (l_bumps l) <= 1)%nat) ->
  (length (all_bumps ls) <= length ls)%nat.
Proof.
  induction ls as [|l ls IH]; intros Hl; [done|]. unfold all_bumps in *. cbn. rewrite length_app.
  pose proof (Hl 0%nat l eq_refl). specialize (IH (fun i => Hl (S i))). lia.
Qed.

(** One that has replaced nothing leaves room for one more. *)
Lemma all_bumps_room ls i l : (forall i l, ls !! i = Some l -> (length (l_bumps l) <= 1)%nat) ->
  ls !! i = Some l -> l_bumps l = [] -> (length (all_bumps ls) < length ls)%nat.
Proof.
  intros Hl Hi Hb. rewrite (all_bumps_split ls i l Hi), Hb. cbn. rewrite length_app.
  assert (length (all_bumps (take i ls)) <= length (take i ls))%nat.
  { apply all_bumps_length. intros j l1 Hj. apply lookup_take_Some in Hj as [Hj _]. by eapply Hl. }
  assert (length (all_bumps (drop (S i) ls)) <= length (drop (S i) ls))%nat.
  { apply all_bumps_length. intros j l1 Hj. rewrite lookup_drop in Hj. by eapply Hl. }
  rewrite length_take, length_drop in *. apply lookup_lt_Some in Hi. lia.
Qed.

(** The generation and the replacements after a step that keeps its promise. *)
Lemma step_bumps l v v' : promises id l v v' ->
  let x := bumps_of (v_db v !! id) (v_db v' !! id) in
  (x = [] /\ ((l_deletes l = true /\ generation_at id (v_db v') = None) \/ generation_at id (v_db v') = generation_at id (v_db v))) \/
  (exists g, x = [g] /\ generation_at id (v_db v) = Some g /\ generation_at id (v_db v') = Some (wrap64 (g + 1)) /\ l_bumps l = []).
Proof.
  unfold promises, generation_at, bumps_of. intros [_ [->|[_ [[Hde Hn]|[He|(g & Hg & Hg' & Hb)]]]]].
  - left. split; [|auto]. destruct (entry_generation _) as [g|]; [|done]. by rewrite decide_True.
  - left. rewrite Hn. split; [destruct (entry_generation (v_db v !! id)); reflexivity|auto].
  - left. rewrite He. split; [|auto]. destruct (entry_generation (v_db v !! id)) as [g|]; [|reflexivity]. by rewrite decide_True.
  - rewrite Hg, Hg'. right. exists g. split; [|auto]. by rewrite decide_False by (intros Hw; by destruct (wrap64_succ_ne g)).
Qed.

Hypothesis (Hg0 : 0 <= g0).

(** The accounts after a step of program [i]. *)
Lemma pool_generation ps ls ins w i l e r w1 : g0 + Z.of_nat (length ps) < 2 ^ 63 ->
  pool_inv ps ls ins w -> ls !! i = Some l -> promises id l (env_view w) (env_view w1) ->
  let l' := after_step id l (env_view w) e r (env_view w1) in
  all_bumps (<[i := l']> ls) ≡ₚ seqZ g0 (Z.of_nat (length (all_bumps (<[i := l']> ls)))) /\
  (forall g, generation_at id (v_db (env_view w1)) = Some g -> g = g0 + Z.of_nat (length (all_bumps (<[i := l']> ls)))) /\
  (length (l_bumps l') <= 1)%nat /\ (true ∉ ds -> is_Some (generation_at id (v_db (env_view w1)))).
Proof using All.
  intros Hlen Hinv Hl Hpr l'. pose proof Hinv as [Hll Hds _ _ _ _ _ Ho Hb Hgen Hal].
  pose proof (all_bumps_insert ls i l l' _ Hl eq_refl) as Hins. cbn zeta in Hins.
  destruct (step_bumps l _ _ Hpr) as [[Hx Hgg]|(g & Hx & Hg & Hg1 & Hn)]; rewrite Hx in Hins.
  - rewrite app_nil_r in Hins. rewrite (Permutation_length Hins). split; [by rewrite Hins|]. split.
    + intros g Hg. apply Hgen. destruct Hgg as [[_ ?]|?]; congruence.
    + split; [cbn; rewrite Hx, app_nil_r; by eapply Ho|]. intros Hd. destruct Hgg as [[Hdel _]| ->]; [|auto].
      destruct Hd. rewrite <- Hds, <- Hdel. by apply list_elem_of_fmap_2, (list_elem_of_lookup_2 _ i).
  - pose proof (Hgen g Hg) as Hgv. pose proof (all_bumps_room ls i l Ho Hl Hn) as Hroom.
    rewrite (Permutation_length Hins), length_app. cbn [length]. split; [|split].
    + rewrite Hins, Nat.add_1_r, seqZ_S. by rewrite <- Hgv, <- Hb.
    + intros g' Hg'. rewrite Hg1 in Hg'. injection Hg' as <-. rewrite wrap64_id; [lia|].
      unfold in_int64, int64_min, int64_max. apply andb_true_iff; split; lia.
    + split; [cbn; rewrite Hx, Hn; cbn; lia|]. intros _. rewrite Hg1. by eexists.
Qed.

Lemma held_inside l i e (r : resp e) x ins : is_Some (held_after id e r x (l_held l)) ->
  (is_Some (l_held l) -> i ∈ ins) -> i ∈ inside_after id i e r ins.
Proof.
  intros [y Hy] Hin. assert ((fun _ => x) <$> l_held l = Some y -> i ∈ ins) as Hk
    by (intros (z & Hz & _)%fmap_Some; apply Hin; by eexists).
  destruct e; cbn -[mutex_name] in *; try by apply Hk.
  - destruct r; [|by apply Hk]. case_decide; [set_solver|by apply Hk].
  - case_decide; [done|by apply Hk].
Qed.

Lemma inside_other i j e (r : resp e) ins : j <> i -> j ∈ ins -> j ∈ inside_after id i e r ins.
Proof. intros Hne Hj. destruct e; cbn -[mutex_name]; repeat case_match; set_solver. Qed.

Lemma pool_step ps ls ins w i e k r w1 : g0 + Z.of_nat (length ps) < 2 ^ 63 ->
  pool_inv ps ls ins w -> ps !! i = Some (Vis e k) -> env_handle e w = (r, w1) ->
  (ins = ∅ \/ kept id (env_view w) (env_view w1) = true) ->
  exists l', pool_inv (<[i := k r]> ps) (<[i := l']> ls) (inside_after id i e r ins) w1.
Proof using All.
  intros Hlen Hinv Hp He Hkept. pose proof Hinv as [Hll Hds Hc Hag Hdj Hex Hin Ho Hb Hgen Halive].
  destruct (lookup_lt_is_Some_2 ls i) as [l Hl]; [rewrite Hll; by eapply lookup_lt_Some|]. apply env_ok in He.
  destruct (Hc i _ l Hp Hl) as [Hal Hstep]. specialize (Hag i l Hl) as Hgl.
  destruct (Hstep _ _ _ Hgl He) as [Hpr Hc']. pose proof (step_framed id l _ e r _ Hal Hgl He) as [Sf Slo Sh St].
  assert (forall j m x y, ls !! j = Some m -> l_held m = Some x -> v_locks (env_view w) !! mutex_name id = Some y ->
    v_now (env_view w1) < y.2) as Hin_time.
  { intros j m x [tok u] Hm Hx Hy. assert (j ∈ ins) as Hj by (eapply Hin; [exact Hm|by eexists]).
    destruct Hkept as [->|Hk]; [set_solver|]. unfold kept in Hk. rewrite Hy in Hk. cbn. lia. }
  exists (after_step id l (env_view w) e r (env_view w1)). set (l' := after_step _ _ _ _ _ _) in *.
  assert (forall j m, <[i := l']> ls !! j = Some m -> (j = i /\ m = l') \/ (j <> i /\ ls !! j = Some m)) as Hlk.
  { intros j m Hj. apply list_lookup_insert_Some in Hj as [(<- & -> & _)|[? ?]]; auto. }
  destruct (pool_generation ps ls ins w i l e r w1 Hlen Hinv Hl Hpr) as (Hb' & Hg' & Ho' & Halive').
  pose proof (cf_new _ _ _ _ Sf) as Sn.
  split.
  - by rewrite !length_insert.
  - rewrite list_fmap_insert. rewrite list_insert_id; [done|]. by rewrite list_lookup_fmap, Hl.
  - intros j p m Hj [[-> ->]|[Hne Hm]]%Hlk.
    + rewrite list_lookup_insert_eq in Hj by (by eapply lookup_lt_Some). by injection Hj as <-.
    + rewrite list_lookup_insert_ne in Hj by done. by eapply Hc.
  - intros j m [[-> ->]|[Hne Hm]]%Hlk; [split; [apply Sf|exact Sh|apply Hpr]|].
    destruct (Hag j m Hm) as [Ap Ah _]. split; [|intros x Hx|apply Hpr].
    + apply map_subseteq_spec. intros c cs Hcs. eapply cf_others; [exact Sf| |by eapply lookup_weaken].
      eapply (Hdj j i m l); eauto.
    + destruct (Ah x Hx) as [[y Hy] <-]. assert (l_held l = None) as Hn by (eapply (Hex j i m l); eauto).
      split; [exists y; by eapply Slo, Hin_time|]. destruct Hpr as [_ [->|[[? ?] _]]]; [done|congruence].
  - intros j1 j2 m1 m2 c [[-> ->]|[Hne Hm]]%Hlk [[-> ->]|[Hne2 Hm2]]%Hlk Hne' Hs; [done|..|by eapply (Hdj j1 j2)].
    + destruct (Sn c Hs) as [Hs'|Hs']; [by eapply (Hdj i j2)|]. destruct (l_pend m2 !! c) as [cs|] eqn:Hcs; [|done].
      pose proof (lookup_weaken _ _ _ _ Hcs (ag_pend _ _ _ (Hag j2 m2 Hm2))). congruence.
    + destruct (l_pend l' !! c) as [cs|] eqn:Hcs; [|done]. exfalso.
      destruct (Sn c ltac:(by eexists)) as [Hs'|Hs'].
      * pose proof (Hdj j1 i m1 l c Hm Hl Hne' Hs) as Hx. rewrite Hx in Hs'. by destruct Hs'.
      * destruct Hs as [cs1 Hcs1]. pose proof (lookup_weaken _ _ _ _ Hcs1 (ag_pend _ _ _ (Hag j1 m1 Hm))). congruence.
  - assert (forall j m x z, ls !! j = Some m -> l_held m = Some z -> l_held l = None -> l_held l' = Some x -> False) as Hno.
    { intros j m x z Hm Hz Hn Hx. destruct (ag_held _ _ _ (Hag j m Hm) z Hz) as [[y Hy] _].
      pose proof (Hin_time j m z y Hm Hz Hy). pose proof (St x y Hx Hn Hy). lia. }
    intros j1 j2 m1 m2 [[-> ->]|[Hne Hm]]%Hlk [[-> ->]|[Hne2 Hm2]]%Hlk Hne' [x Hx]; [done|..|by eapply (Hex j1 j2); eauto].
    + destruct (decide (is_Some (l_held l))) as [Hs|Hn%eq_None_not_Some]; [eapply (Hex i j2 l m2); eauto|].
      destruct (l_held m2) as [z|] eqn:Hz; [|done]. by destruct (Hno j2 m2 x z).
    + destruct (l_held l') as [z|] eqn:Hz; [|done]. exfalso. by apply (Hno j1 m1 z x Hm Hx); [eapply (Hex j1 i m1 l); eauto|].
  - intros j m [[-> ->]|[Hne Hm]]%Hlk Hh; [|by apply inside_other; [|eapply Hin]].
    eapply held_inside; [exact Hh|by apply Hin].
  - intros j m [[-> ->]|[Hne Hm]]%Hlk; [exact Ho'|by eapply Ho].
  - exact Hb'.
  - exact Hg'.
  - exact Halive'.
Qed.

Lemma prun_sound sched ps ls ins w ps' w' : g0 + Z.of_nat (length ps) < 2 ^ 63 ->
  pool_inv ps ls ins w -> in_time id sched ps w ins = true -> prun sched ps w = (ps', w') ->
  exists ls' ins', pool_inv ps' ls' ins' w'.
Proof using All.
  revert ps ls ins w. induction sched as [|i sched IH]; intros ps ls ins w Hlen Hinv Hin Hrun;
    cbn in Hrun, Hin; [injection Hrun as <- <-; eauto|].
  destruct (ps !! i) as [[a|e k]|] eqn:Hi; [cbn in Hrun; rewrite list_insert_id in Hrun by done; by eapply IH| |by eapply IH].
  cbn in Hrun. destruct (env_handle e w) as [r w1] eqn:He. apply andb_true_iff in Hin as [Hk Hin].
  destruct (pool_step ps ls ins w i e k r w1 Hlen Hinv Hi He) as [l' Hinv'].
  { apply orb_true_iff in Hk as [Hk%bool_decide_eq_true|Hk]; auto. }
  eapply IH; [|exact Hinv'|exact Hin|exact Hrun]. by rewrite length_insert.
Qed.

(** Programs that start knowing nothing. *)
Lemma pool_start ps w : record_ok id (env_view w) -> generation_at id (v_db (env_view w)) = Some g0 ->
  length ds = length ps -> (forall i p d, ps !! i = Some p -> ds !! i = Some d -> cwp id (idle d) p (Q i)) ->
  pool_inv ps (idle <$> ds) ∅ w.
Proof.
  intros Hok Hg Hlen Hps.
  assert (all_bumps (idle <$> ds) = []) as Hb.
  { unfold all_bumps. clear. by induction ds. }
  assert (forall i l, (idle <$> ds) !! i = Some l -> exists d, l = idle d /\ ds !! i = Some d) as Hl
    by (intros i l; rewrite list_lookup_fmap; intros (d & Hd & ->)%fmap_Some; eauto).
  split.
  - by rewrite length_fmap.
  - rewrite <- list_fmap_compose. by apply list_fmap_id.
  - intros i p l Hp (d & -> & Hd)%Hl. auto.
  - intros i l (d & -> & _)%Hl. split; [apply map_empty_subseteq|done|done].
  - intros i j l1 l2 c (d & -> & _)%Hl _ _ [? Hx]. cbn in Hx. by rewrite lookup_empty in Hx.
  - intros i j l1 l2 (d & -> & _)%Hl _ _ [? Hx]. done.
  - by intros i l (d & -> & _)%Hl [? Hx].
  - intros i l (d & -> & _)%Hl. cbn. lia.
  - by rewrite Hb.
  - intros g Hg'. rewrite Hb. cbn. rewrite Hg in Hg'. injection Hg' as <-. lia.
  - intros _. rewrite Hg. by eexists.
Qed.
End Soundness.

(** ** Programs that leave the record alone *)
Section Quiet.
Context `{Sys} `{Proto} (id : string) (Hid : id ∉ reserved).
Implicit Types (v : view) (d : db) (l : local) (C : gmap conn (list command)).

(** A command that neither writes the record nor changes the type of a shared
    key. *)
Definition calm (cmd : command) : Prop :=
  match cmd with
  | SET k s | SETXX k s _ | SETNX k s => k <> id /\ (k ∉ reserved) /\ foreign id s
  | DEL k => k <> id
  | SADD k _ | SREM k _ => k = allTickets
  | ZADD k _ | ZREM k _ => k ∈ [proposedTicketIDs; backfillLastAckTime]
  | HSET k _ _ | HDEL k _ => k = allBackfills
  | MULTI | EXEC => False
  | _ => True
  end.

(** A calm command may be refused for the type of its key. *)
Definition may_mistype (cmd : command) : bool :=
  match cmd with
  | GET _ => true
  | SMEMBERS k => bool_decide (k <> allTickets)
  | ZRANGEBYSCORE k _ _ | ZSCORE k _ => bool_decide (k ∉ [proposedTicketIDs; backfillLastAckTime])
  | HGETALL k => bool_decide (k <> allBackfills)
  | _ => false
  end.

Lemma reserved_ne k : k ∈ reserved -> k <> id.
Proof using Hid. by intros Hk ->. Qed.

Lemma typed_delete_any d k : typed d -> typed (delete k d).
Proof.
  unfold typed, get_set, get_zset, get_hash. intros (Ha & Hb & Hc & Hd).
  repeat split; rewrite lookup_delete; case_decide; done.
Qed.

(** What may differ without harm. *)
Lemma db_ok_keep d d' : db_ok id d -> typed d' -> d' !! id = d !! id ->
  (forall k s, k <> id -> get_str d' k = Some s -> get_str d k = Some s \/ foreign id s) -> db_ok id d'.
Proof.
  intros [Ht Hk Hf] Ht' Hd Hs. split; [done| |].
  - intros b ids. rewrite (backfill_at_ext _ _ _ Hd). apply Hk.
  - intros k s Hk' Hg. destruct (Hs k s Hk' Hg); [|done]. by eapply Hf.
Qed.

Lemma get_str_put_set d k x k' s : get_str (put_set d k x) k' = Some s -> get_str d k' = Some s.
Proof. unfold get_str, put_set. case_decide; destruct (decide (k = k')) as [->|]; by simplify_map_eq. Qed.
Lemma get_str_put_zset d k x k' s : get_str (put_zset d k x) k' = Some s -> get_str d k' = Some s.
Proof. unfold get_str, put_zset. case_decide; destruct (decide (k = k')) as [->|]; by simplify_map_eq. Qed.
Lemma get_str_put_hash d k x k' s : get_str (put_hash d k x) k' = Some s -> get_str d k' = Some s.
Proof. unfold get_str, put_hash. case_decide; destruct (decide (k = k')) as [->|]; by simplify_map_eq. Qed.
Lemma get_str_delete d k k' s : get_str (delete k d) k' = Some s -> get_str d k' = Some s.
Proof. unfold get_str. destruct (decide (k = k')) as [->|]; by simplify_map_eq. Qed.

Definition keeps d d' : Prop := db_ok id d' /\ d' !! id = d !! id.

Lemma keeps_refl d : db_ok id d -> keeps d d.
Proof. by split. Qed.

Lemma keeps_trans d d1 d' : keeps d d1 -> keeps d1 d' -> keeps d d'.
Proof. intros [_ H1] [Ho H2]. split; [done|congruence]. Qed.

Lemma keeps_value_str d k s px : db_ok id d -> k <> id -> k ∉ reserved -> foreign id s -> keeps d (put_str d k s px).
Proof.
  intros Hd Hk Hr Hf. split; [|by apply put_str_ne].
  apply (db_ok_keep d); [done|by apply typed_put_str, Hd|by apply put_str_ne|].
  intros k' s' Hk'. unfold get_str, put_str. destruct (decide (k = k')) as [->|]; simplify_map_eq; [|auto]. intros [= <-]. auto.
Qed.

Lemma keeps_set d x : db_ok id d -> keeps d (put_set d allTickets x).
Proof using Hid.
  intros Hd. assert (put_set d allTickets x !! id = d !! id) as He by (apply put_set_ne, reserved_ne; by left). split; [|done].
  apply (db_ok_keep d); [done|apply typed_put_index, Hd|done|]. intros k s _ Hs. left. by eapply get_str_put_set.
Qed.

Lemma keeps_zset d k x : k ∈ [proposedTicketIDs; backfillLastAckTime] -> db_ok id d -> keeps d (put_zset d k x).
Proof using Hid.
  intros Hk Hd. assert (k ∈ reserved) as Hr.
  { apply elem_of_cons in Hk as [->| ->%list_elem_of_singleton]; [by right; left|by right; right; left]. }
  assert (put_zset d k x !! id = d !! id) as He by (apply put_zset_ne; by apply reserved_ne). split; [|done].
  apply (db_ok_keep d); [done| |done|intros k' s _ Hs; left; by eapply get_str_put_zset].
  apply elem_of_cons in Hk as [->| ->%list_elem_of_singleton]; [apply typed_put_pending, Hd|apply typed_put_acks, Hd].
Qed.

Lemma keeps_hash d x : db_ok id d -> keeps d (put_hash d allBackfills x).
Proof using Hid.
  intros Hd. assert (put_hash d allBackfills x !! id = d !! id) as He
    by (apply put_hash_ne, reserved_ne; by right; right; right; left). split; [|done].
  apply (db_ok_keep d); [done|apply typed_put_bindex, Hd|done|]. intros k s _ Hs. left. by eapply get_str_put_hash.
Qed.

Lemma keeps_del d k : k <> id -> db_ok id d -> keeps d (delete k d).
Proof.
  intros Hk Hd. assert (delete k d !! id = d !! id) as He by (by rewrite lookup_delete_ne). split; [|done].
  apply (db_ok_keep d); [done|apply typed_delete_any, Hd|done|]. intros k' s _ Hs. left. by eapply get_str_delete.
Qed.

Lemma keeps_setxx d k s px : calm (SETXX k s px) -> db_ok id d -> keeps d (setxx d k s px).2.
Proof. intros (Hk & Hr & Hf) Hd. unfold setxx. destruct (d !! k); [by apply keeps_value_str|by apply keeps_refl]. Qed.

Lemma calm_ok d cmd a d' : calm cmd -> db_ok id d -> cmd_ok d cmd a d' -> keeps d d'.
Proof using Hid.
  intros Hc Hd Hok. pose proof (keeps_refl d Hd) as Hrefl.
  destruct cmd as [k s|k s px|k s|k|k|ks|k m|k m|k|k l|k l|k lo hi|k m|k f s|k f|k| | |]; cbn in Hc, Hok; try done.
  - subst d'. destruct Hc as (? & ? & ?). by apply keeps_value_str.
  - assert (d' = (setxx d k s px).2) as -> by (by rewrite <- Hok). by apply keeps_setxx.
  - destruct (d !! k); destruct Hok as [_ ->]; [done|]. destruct Hc as (? & ? & ?). by apply keeps_value_str.
  - destruct (d !! k) as [[[] px]|]; try done; by destruct Hok as [_ ->].
  - destruct Hok as [_ ->]. by apply keeps_del.
  - by destruct Hok as [_ ->].
  - subst k. destruct (get_set d allTickets); [|done]. destruct Hok as [_ ->]. by apply keeps_set.
  - subst k. destruct (get_set d allTickets); [|done]. destruct Hok as [_ ->]. by apply keeps_set.
  - destruct (get_set d k); [|done]. by destruct Hok as (_ & _ & ->).
  - destruct (get_zset d k); [|done]. subst d'. by apply keeps_zset.
  - destruct (get_zset d k); [|done]. subst d'. by apply keeps_zset.
  - destruct (get_zset d k); [|done]. by destruct Hok as (_ & -> & _).
  - destruct (get_zset d k); [|done]. by destruct Hok as (_ & ->).
  - subst k. destruct (get_hash d allBackfills); [|done]. subst d'. by apply keeps_hash.
  - subst k. destruct (get_hash d allBackfills); [|done]. subst d'. by apply keeps_hash.
  - destruct (get_hash d k); [|done]. by destruct Hok as (_ & ->).
  - by subst d'.
Qed.

Lemma calm_mistype d cmd : calm cmd -> typed d -> wrong_type d cmd -> may_mistype cmd = true.
Proof.
  intros Hc ([? Hi] & [? Hp] & [? Ha] & [? Hb]) Hw.
  destruct cmd as [k s|k s px|k s|k|k|ks|k m|k m|k|k l|k l|k lo hi|k m|k f s|k f|k| | |]; cbn in Hc, Hw |- *; try done;
    try (subst; congruence); try apply bool_decide_eq_true.
  - intros ->. congruence.
  - apply elem_of_cons in Hc as [->| ->%list_elem_of_singleton]; congruence.
  - apply elem_of_cons in Hc as [->| ->%list_elem_of_singleton]; congruence.
  - intros [->| ->%list_elem_of_singleton]%elem_of_cons; congruence.
  - intros [->| ->%list_elem_of_singleton]%elem_of_cons; congruence.
  - intros ->. congruence.
Qed.

Lemma calm_pipeline d cs d' : Forall calm cs -> db_ok id d -> pipeline d cs d' -> keeps d d'.
Proof using Hid.
  intros Hc. revert d. induction Hc as [|c cs Hc _ IH]; intros d Hd; cbn; [intros ->; by apply keeps_refl|].
  intros (d1 & [(a & Hok)|[_ ->]] & Hp); [|by eapply IH]. pose proof (calm_ok d c a d1 Hc Hd Hok) as Hk.
  eapply keeps_trans; [exact Hk|]. apply IH; [apply Hk|done].
Qed.

(** What a transaction queues. *)
Definition calm_queued (cmd : command) : Prop := match cmd with SETXX _ _ _ => calm cmd | _ => False end.

Lemma calm_multi d cs rs d' : Forall calm_queued cs -> db_ok id d -> multi d cs rs d' -> keeps d d'.
Proof using Hid.
  intros Hc. revert d rs. induction Hc as [|c cs Hc _ IH]; intros d rs Hd; cbn; [intros [_ ->]; by apply keeps_refl|].
  destruct c as [| k s px | | | | | | | | | | | | | | | | |]; try done. destruct rs as [|r rs]; [done|]. intros [_ Hm].
  pose proof (keeps_setxx d k s px Hc Hd) as Hk. eapply keeps_trans; [exact Hk|]. eapply IH; [apply Hk|done].
Qed.

(** The answers such a program can get: the records read by MGET, but the one,
    are foreign. *)
Definition answer_ok (cmd : command) : reply cmd -> Prop :=
  match cmd with
  | MGET ks => fun rs => id ∉ ks -> Forall (fun o => forall s, o = Some s -> foreign id s) rs
  | _ => fun _ => True
  end.

Definition plausible (e : eff) : resp e -> Prop :=
  match e with
  | GetConn _ => fun r => match r with inl _ => True | inr _ => sys_faulty = true end
  | Do _ cmd => fun r => match r with inl a => answer_ok cmd a | inr _ => sys_faulty = true \/ may_mistype cmd = true end
  | Send _ _ => fun r => r <> None -> sys_faulty = true
  | NewXid => fun r => r <> id /\ r ∉ reserved
  | _ => fun _ => True
  end.

Definition quiet_eff C (e : eff) : Prop :=
  match e with
  | Do c cmd => C !! c = Some [] /\ calm cmd \/ cmd = EXEC /\ exists cs, C !! c = Some (MULTI :: cs)
  | Send c cmd =>
      match C !! c with
      | Some [] => cmd = MULTI \/ calm cmd
      | Some (MULTI :: _) => calm_queued cmd
      | Some _ => calm cmd
      | None => False
      end
  | CloseConn c => is_Some (C !! c)
  | Lock m _ | Unlock m _ => m <> mutex_name id
  | _ => True
  end.

(** [quiet C p P]: with the connections [C], program [p] does calm things
    only, and its answer and its connections then satisfy [P]. *)
Fixpoint quiet {A} C (p : prog A) (P : A -> gmap conn (list command) -> Prop) : Prop :=
  match p with
  | Ret a => P a C
  | Vis e k => quiet_eff C e /\ forall r, plausible e r -> quiet (pend_after e r C) (k r) P
  end.

Lemma quiet_bind {A B} (p : prog A) (f : A -> prog B) C P P' :
  quiet C p P -> (forall a C', P a C' -> quiet C' (f a) P') -> quiet C (prog_bind p f) P'.
Proof.
  revert C. induction p as [a|e k IH]; cbn; intros C Hp Hf; [auto|]. destruct Hp as [He Hp]. split; [done|].
  intros r Hr. eapply IH; [by apply Hp|done].
Qed.

Lemma quiet_mono {A} (p : prog A) C (P P' : A -> _ -> Prop) : quiet C p P -> (forall a C', P a C' -> P' a C') -> quiet C p P'.
Proof.
  revert C. induction p as [a|e k IH]; cbn; intros C Hp HP; [auto|]. destruct Hp as [He Hp]. split; [done|]. eauto.
Qed.

Lemma quiet_rbind {A B} (p : prog (result A)) (f : A -> prog (result B)) C P P' :
  quiet C p P -> (forall a C', P (Ok a) C' -> quiet C' (f a) P') -> (forall e C', P (Err e) C' -> P' (Err e) C') ->
  quiet C (rbind p f) P'.
Proof. intros Hp Hf He. eapply quiet_bind; [exact Hp|]. intros [a|e] C'; cbn; auto. Qed.

(** What a quiet program leaves of its knowledge. *)
Definition same_record l l' : Prop :=
  l_deletes l' = l_deletes l /\ l_held l' = l_held l /\ l_bumps l' = l_bumps l.

(** The pending commands of its connections are calm. *)
Definition calm_list (cs : list command) : Prop :=
  match cs with
  | MULTI :: cs => Forall calm_queued cs
  | _ => Forall calm cs
  end.
Definition calm_pend C : Prop := map_Forall (fun _ cs => calm_list cs) C.

Lemma calm_list_plain cs : is_multi cs = false -> calm_list cs -> Forall calm cs.
Proof. by destruct cs as [|[] cs]. Qed.

Lemma calm_open C c : calm_pend C -> calm_pend (<[c := []]> C).
Proof. intros HC. apply map_Forall_insert_2; [by apply Forall_nil|done]. Qed.

Lemma calm_list_send cs cmd : calm_list cs ->
  match cs with [] => cmd = MULTI \/ calm cmd | MULTI :: _ => calm_queued cmd | _ => calm cmd end -> calm_list (cs ++ [cmd]).
Proof.
  intros Hl Hc. destruct cs as [|c cs]; [destruct Hc as [->|Hc]; cbn|].
  - by apply Forall_nil.
  - destruct cmd; by apply Forall_singleton.
  - assert (forall Q : command -> Prop, Forall Q cs -> Q cmd -> Forall Q (cs ++ [cmd])) as Happ
      by (intros Q HQ Hq; apply Forall_app; split; [done|by apply Forall_singleton]).
    destruct c; cbn [calm_list app] in *; try (apply Forall_cons in Hl as [H1 H2]; apply Forall_cons; split; [exact H1|by apply Happ]).
    by apply Happ.
Qed.

Lemma calm_pend_after C e r : calm_pend C -> quiet_eff C e -> calm_pend (pend_after e r C).
Proof.
  intros HC He. destruct e as [q|c cmd|c cmd|c| | |m expiry|m token| |]; cbn; try done.
  - destruct r as [c|m]; [|done]. by apply calm_open.
  - destruct cmd; try done. by apply calm_open.
  - destruct r as [m|]; [done|]. apply map_Forall_insert_2; [|done]. cbn in He.
    destruct (C !! c) as [cs|] eqn:Hcs; [|done]. apply calm_list_send; [by apply (HC c)|]. done.
  - by apply map_Forall_delete.
Qed.

(** One calm command. *)
Lemma calm_do v c cmd r v' : calm cmd -> record_ok id v -> do_step v cmd r v' ->
  (record_ok id v' /\ v_db v' !! id = v_db v !! id) /\ plausible (Do c cmd) r.
Proof using Hid.
  intros Hcm [Hd Hx] Hs.
  assert (forall a d', cmd_ok (v_db v) cmd a d' -> record_ok id (set_db v d') /\ d' !! id = v_db v !! id) as Hok.
  { intros a d' Ha. by destruct (calm_ok _ _ _ _ Hcm Hd Ha). }
  destruct r as [a|m]; cbn -[answer_ok] in Hs |- *.
  - destruct Hs as (d' & Ha & ->). split; [by eapply Hok|]. destruct cmd as [k s|k s px|k s|k|k|ks|k m|k m|k|k l|k l|k lo hi|k m|k f s|k f|k| | |];
      try done. destruct Ha as [-> _]. intros Hks. cbn. apply Forall_fmap, Forall_forall. intros k Hk s Hs.
    eapply (ok_foreign _ _ Hd); [|exact Hs]. by intros ->.
  - destruct Hs as [[Hw ->]|[Hf [->|(a & d' & Ha & ->)]]]; [..|by split; [eapply Hok|left]].
    + split; [done|]. right. eapply calm_mistype; [done|apply Hd|done].
    + split; [done|by left].
Qed.

(** A calm transaction. *)
Lemma exec_calm v c cs r v' : calm_list (MULTI :: cs) -> record_ok id v -> exec_step v c cs r v' ->
  (record_ok id v' /\ v_db v' !! id = v_db v !! id) /\ plausible (Do c EXEC) r.
Proof using Hid.
  intros Hcs [Hd Hx] Hs.
  assert (forall a d', multi (v_db v) cs a d' -> record_ok id (set_db (open_conn v c) d') /\ d' !! id = v_db v !! id) as Hok.
  { intros a d' Ha. by destruct (calm_multi _ _ _ _ Hcs Hd Ha). }
  destruct r as [a|m]; cbn in Hs |- *.
  - destruct Hs as (d' & Ha & ->). split; [by eapply Hok|done].
  - destruct Hs as [Hf [->|(a & d' & Ha & ->)]]; [by split; [|left]|]. split; [by eapply Hok|by left].
Qed.

(** A step of a quiet program: the record is the same, and the answer is
    plausible. *)
Lemma quiet_step l v e r v' : quiet_eff (l_pend l) e -> calm_pend (l_pend l) -> agrees id l v -> estep v e r v' ->
  record_ok id v' /\ v_db v' !! id = v_db v !! id /\ plausible e r.
Proof using Hid.
  intros He HC Hg Hs. pose proof Hg as [Hp _ [Hd Hx]].
  assert (forall d1 v', keeps (v_db v) d1 -> v_db v' = d1 -> v_xids v' = v_xids v ->
    record_ok id v' /\ v_db v' !! id = v_db v !! id) as Hok.
  { intros d1 v1 [Hd1 He1] Heq Hx1. subst d1. split; [split; [done|by rewrite Hx1]|done]. }
  pose proof (keeps_refl _ Hd) as Hrefl.
  destruct e as [q|c cmd|c cmd|c| | |m expiry|m token| |]; cbn -[do_step exec_step close_step reserved answer_ok] in *.
  - apply and_assoc. destruct r as [c|m]; destruct Hs as [Hc ->]; (split; [by eapply Hok|done]).
  - apply and_assoc. destruct He as [[He Hcm]|[-> [cs He]]]; rewrite (lookup_weaken _ _ _ _ He Hp) in Hs.
    + by apply (calm_do v c).
    + apply (exec_calm v c cs); [by apply (HC c)|done|done].
  - apply and_assoc. destruct r as [m|]; [destruct Hs as [Hf ->]|subst v']; (split; [by eapply Hok|done]).
  - apply and_assoc. destruct He as [cs Hcs]. rewrite (lookup_weaken _ _ _ _ Hcs Hp) in Hs. destruct Hs as (d' & Hd' & ->).
    split; [|done]. apply (Hok d'); [|done..]. unfold close_step in Hd'. pose proof (HC c cs Hcs) as Hcalm.
    destruct (is_multi cs) eqn:Hm; [by subst|]. apply calm_list_plain in Hcalm; [|done].
    destruct Hd' as [Hd'|(_ & n & Hd')]; eapply calm_pipeline; [exact Hcalm|done..|by apply Forall_take, Hcalm|done|done].
  - apply and_assoc. destruct Hs as [_ ->]. split; [by eapply Hok|done].
  - destruct Hs as (Hr & Hx' & ->). split; [split; [done|cbn; set_solver]|]. split; [done|]. split; [by intros ->|].
    by apply xid_not_reserved.
  - apply and_assoc. destruct r as [tok|msg]; [destruct Hs as (t & _ & _ & ->); split; [by eapply Hok|done]|].
    destruct Hs as [[_ ->]|[_ [->|(tok & t & _ & _ & ->)]]]; (split; [by eapply Hok|done]).
  - apply and_assoc. assert (v_db (unlocked v m token) = v_db v /\ v_xids (unlocked v m token) = v_xids v) as [Hdb Hxi]
      by (unfold unlocked; by repeat case_match).
    destruct r; [destruct Hs as [_ ->]|destruct Hs as [->|[_ ->]]]; (split; [by eapply Hok|done]).
  - apply and_assoc. destruct Hs as [_ ->]. split; [by eapply Hok|done].
  - apply and_assoc. subst v'. split; [by eapply Hok|done].
Qed.

Lemma quiet_allowed l e : quiet_eff (l_pend l) e -> allowed id l e.
Proof.
  intros He. destruct e as [q|c cmd|c cmd|c| | |m expiry|m token| |]; cbn in *; try done.
  - destruct He as [[? _]|?]; auto.
  - destruct (l_pend l !! c); [by eexists|done].
Qed.

Lemma bumps_of_same x x' : entry_generation x' = entry_generation x -> bumps_of x x' = [].
Proof.
  unfold bumps_of. intros ->. destruct (entry_generation x) as [g|]; [|reflexivity]. by rewrite decide_True.
Qed.

Lemma quiet_held l v e r v' : quiet_eff (l_pend l) e -> agrees id l v -> v_db v' !! id = v_db v !! id ->
  held_after id e r (v_db v' !! id) (l_held l) = l_held l.
Proof.
  intros He [_ Hh _] Hd. assert ((fun _ => v_db v' !! id) <$> l_held l = l_held l) as Hs.
  { destruct (l_held l) as [x|]; [|done]. cbn. rewrite Hd. f_equal. by apply Hh. }
  destruct e as [q|c cmd|c cmd|c| | |m expiry|m token| |]; cbn -[mutex_name] in *; try exact Hs;
    [destruct r; [by rewrite decide_False|exact Hs]|by rewrite decide_False].
Qed.

(** The rule for a quiet step. *)
Lemma cwp_vis {A} l e (k : resp e -> prog A) Q : quiet_eff (l_pend l) e -> calm_pend (l_pend l) ->
  (forall v r v', agrees id l v -> estep v e r v' -> plausible e r ->
     cwp id (mkLocal (l_deletes l) (pend_after e r (l_pend l)) (l_held l) (l_bumps l)) (k r) Q) ->
  cwp id l (Vis e k) Q.
Proof using Hid.
  intros He HC HQ. split; [by apply quiet_allowed|]. intros v r v' Hg Hs.
  destruct (quiet_step l v e r v' He HC Hg Hs) as (Hok & Hd & Hpl). split; [split; [done|by left]|].
  unfold after_step. rewrite (quiet_held l v e r v' He Hg Hd), (bumps_of_same _ (v_db v' !! id)), app_nil_r by (by rewrite Hd).
  by eapply HQ.
Qed.

(** A quiet program in the logic. *)
Lemma quiet_cwp {A} (p : prog A) l P : quiet (l_pend l) p P -> calm_pend (l_pend l) ->
  cwp id l p (fun a l' => P a (l_pend l') /\ same_record l l' /\ calm_pend (l_pend l')).
Proof using Hid.
  revert l. induction p as [a|e k IH]; intros l Hq HC; [by repeat split|]. destruct Hq as [He Hq].
  apply cwp_vis; [done|done|]. intros v r v' Hg Hs Hpl. eapply cwp_mono; [apply IH; cbn; [by apply Hq|by apply calm_pend_after]|].
  done.
Qed.

(** ** Under the mutex *)

Lemma mutex_step l v e r v' : match e with Lock _ _ | Unlock _ _ => True | _ => False end -> agrees id l v -> estep v e r v' ->
  promises id l v v' /\ after_step id l v e r v' = mkLocal (l_deletes l) (l_pend l) (held_after id e r (v_db v' !! id) (l_held l)) (l_bumps l).
Proof.
  intros He Hg Hs. pose proof Hg as [_ _ [Hdb Hx]].
  assert (v_db v' = v_db v /\ v_xids v' = v_xids v) as [Hd Hx'].
  { destruct e as [q|c cmd|c cmd|c| | |m expiry|m token| |]; try done.
    - destruct r as [tok|msg]; [by destruct Hs as (t & _ & _ & ->)|]. by destruct Hs as [[_ ->]|[_ [->|(tok & t & _ & _ & ->)]]].
    - assert (v_db (unlocked v m token) = v_db v /\ v_xids (unlocked v m token) = v_xids v) as Hu
        by (unfold unlocked; by repeat case_match).
      destruct r; [by destruct Hs as [_ ->]|by destruct Hs as [->|[_ ->]]]. }
  split; [split; [split; rewrite ?Hd, ?Hx'; done|left; by rewrite Hd]|].
  unfold after_step. rewrite (bumps_of_same _ (v_db v' !! id)), app_nil_r by (by rewrite Hd). by destruct e.
Qed.

Lemma cwp_mutex {A} cfg l (body : prog (result A)) (Q : result A -> list Z -> Prop) :
  l_held l = None -> (forall e, Q (Err e) (l_bumps l)) ->
  (forall x, cwp id (mkLocal (l_deletes l) (l_pend l) (Some x) (l_bumps l)) body (fun r l' => is_Some (l_held l') /\ Q r (l_bumps l'))) ->
  cwp id l (with_mutex (mutex_Lock cfg id) (mutex_Unlock id) body) (fun r l' => Q r (l_bumps l')).
Proof.
  intros Hn He Hbody. unfold with_mutex. apply cwp_rbind. unfold mutex_Lock, mutex_Unlock. prog_cbn. split; [done|].
  intros v r v' Hg Hs. destruct (mutex_step l v _ r v' I Hg Hs) as [Hpr ->]. split; [done|]. rewrite Hn.
  destruct r as [tok|m]; cbn -[mutex_name]; [|apply He].
  rewrite decide_True by done. apply cwp_bind. eapply cwp_mono; [apply Hbody|]. intros r l' [[y Hy] HQ]. prog_cbn.
  split; [cbn -[mutex_name]; by rewrite Hy; eexists|]. intros v1 u v2 Hg1 Hs1.
  destruct (mutex_step l' v1 (Unlock (mutex_name id) tok) u v2 I Hg1 Hs1) as [Hpr1 ->]. split; [done|]. exact HQ.
Qed.

(** What the record reads as. *)
Definition reads (x : option entry) (bi : BackfillInternal) : Prop :=
  exists s px, x = Some (mkEntry (RStr s) px) /\ unmarshal_backfill s = Some bi.

Lemma reads_generation x b ids : reads x (mkBackfillInternal (Some b) ids) -> entry_generation x = Some (b_Generation b).
Proof. intros (s & px & -> & Hs). cbn. by rewrite Hs. Qed.

Lemma reads_at d bi : reads (d !! id) bi <-> backfill_at d id = Some bi.
Proof.
  unfold reads, backfill_at, get_str. split; [by intros (s & px & -> & Hs)|].
  destruct (d !! id) as [[[] px]|]; cbn; try done. eauto.
Qed.

(** Replacing the record by one of the same or of the next generation; [bs] is
    what has been replaced then. *)
Lemma cwp_set {A} l c value x b ids b' ids' bs (k : unit + string -> prog A) Q :
  l_pend l !! c = Some [] -> l_held l = Some x -> reads x (mkBackfillInternal (Some b) ids) ->
  unmarshal_backfill value = Some (mkBackfillInternal (Some b') ids') -> b_Id b' = id -> id ∉ ids' ->
  (b_Generation b' = b_Generation b /\ bs = l_bumps l) \/
  (b_Generation b' = wrap64 (b_Generation b + 1) /\ l_bumps l = [] /\ bs = [b_Generation b]) ->
  (forall x', cwp id (mkLocal (l_deletes l) (l_pend l) (Some x') bs) (k (inl tt)) Q) ->
  (sys_faulty = true -> forall m x' bs', bs' = l_bumps l \/ bs' = bs ->
     cwp id (mkLocal (l_deletes l) (l_pend l) (Some x') bs') (k (inr m)) Q) ->
  cwp id l (Vis (Do c (SET id value)) k) Q.
Proof using Hid.
  intros Hc Hh Hx Hv Hi Hids Hgen Hok Herr. split; [by left|]. intros v r v' Hg Hs.
  pose proof Hg as [Hp Hhv [[Ht Hk Hf] Hxi]]. destruct (Hhv x Hh) as [_ Hvx].
  cbn -[do_step] in Hs. rewrite (lookup_weaken _ _ _ _ Hc Hp) in Hs.
  set (x1 := Some (mkEntry (RStr value) None)). set (v1 := set_db v (put_str (v_db v) id value None)).
  assert (v_db v1 !! id = x1) as Hv1 by apply lookup_insert_eq.
  assert (entry_generation x1 = Some (b_Generation b')) as Hx1 by (cbn; by rewrite Hv).
  pose proof (reads_generation _ _ _ Hx) as Hxg.
  assert (promises id l v v1) as Hpr.
  { split.
    - split; [split; cbn|done].
      + by apply typed_put_str.
      + intros b1 ids1. rewrite backfill_at_put_str, Hv. intros [= <- <-]. split; [by intros b0 [= <-]|done].
      + intros k' s Hk' Hs'. apply (Hf k'); [done|]. rewrite <- Hs'. apply get_str_ext. by rewrite put_str_ne.
    - right. split; [by eexists|]. right. unfold generation_at. rewrite Hv1, Hvx, Hx1, Hxg.
      destruct Hgen as [[-> _]|(-> & Hb & _)]; [by left|right; by exists (b_Generation b)]. }
  assert (forall r, after_step id l v (Do c (SET id value)) r v1 = mkLocal (l_deletes l) (l_pend l) (Some x1) bs) as Hafter.
  { intros r1. unfold after_step. rewrite Hv1, Hvx. cbn -[bumps_of]. rewrite Hh. cbn -[bumps_of]. f_equal. unfold bumps_of. rewrite Hx1, Hxg.
    destruct Hgen as [[-> ->]|(-> & -> & ->)]; [by rewrite decide_True, app_nil_r|].
    by rewrite decide_False by (intros Hw; by destruct (wrap64_succ_ne (b_Generation b))). }
  assert (promises id l v v /\ forall r, after_step id l v (Do c (SET id value)) r v = mkLocal (l_deletes l) (l_pend l) (Some x) (l_bumps l))
    as [Hpr0 Haf0].
  { split; [split; [apply Hg|by left]|]. intros r1. unfold after_step. cbn. by rewrite Hh, bumps_of_same, app_nil_r, Hvx. }
  destruct r as [[]|m]; cbn in Hs.
  - destruct Hs as (d' & -> & ->). split; [exact Hpr|]. fold v1. rewrite Hafter. apply Hok.
  - destruct Hs as [[[] _]|[Hft [->|(a & d' & -> & ->)]]].
    + split; [exact Hpr0|]. rewrite Haf0. apply Herr; auto.
    + split; [exact Hpr|]. fold v1. rewrite Hafter. apply Herr; auto.
Qed.

(** Deleting it. *)
Lemma cwp_del {A} l c (k : Z + string -> prog A) Q :
  l_pend l !! c = Some [] -> is_Some (l_held l) -> l_deletes l = true ->
  (forall r x, cwp id (mkLocal (l_deletes l) (l_pend l) (Some x) (l_bumps l)) (k r) Q) ->
  cwp id l (Vis (Do c (DEL id)) k) Q.
Proof using Hid.
  intros Hc [x Hh] Hdel HQ. split; [by left|]. intros v r v' Hg Hs. pose proof Hg as [Hp Hhv [Hdb Hxi]].
  destruct (Hhv x Hh) as [_ Hvx]. cbn -[do_step] in Hs. rewrite (lookup_weaken _ _ _ _ Hc Hp) in Hs.
  assert (v' = v \/ v' = set_db v (delete id (v_db v))) as Hv'.
  { destruct r as [a|m]; cbn in Hs; [destruct Hs as (d' & [_ ->] & ->); auto|].
    destruct Hs as [[_ ->]|[Hf [->|(a & d' & [_ ->] & ->)]]]; auto. }
  assert (record_ok id v' /\ (v_db v' !! id = v_db v !! id \/ v_db v' !! id = None)) as [Hok Hd].
  { destruct Hv' as [->| ->]; [split; [apply Hg|by left]|]. split; [|right; apply lookup_delete_eq].
    destruct Hdb as [Ht Hk Hf]. split; [split; cbn|done].
    - by apply typed_delete.
    - intros b ids. unfold backfill_at, get_str. by rewrite lookup_delete_eq.
    - intros k' s Hk' Hs'. apply (Hf k'); [done|]. by eapply get_str_delete. }
  split.
  - split; [done|]. destruct Hd as [Hd|Hd]; [by left|]. right. split; [by eexists|]. left. split; [done|]. unfold generation_at. by rewrite Hd.
  - unfold after_step. cbn. rewrite Hh. cbn. assert (bumps_of (v_db v !! id) (v_db v' !! id) = []) as ->.
    { destruct Hd as [Hd|Hd]; [by apply bumps_of_same; rewrite Hd|]. unfold bumps_of. rewrite Hd. cbn.
      destruct (entry_generation _); reflexivity. }
    rewrite app_nil_r. apply HQ.
Qed.
End Quiet.
