(* ===== verification/Locality.v ===== *)
(** * Programs that keep to their own ids

    The backend's handlers take no mutex for tickets: calls for different
    tickets run at the same time and write the same shared keys, the index and
    the set of pending tickets. A program that reads and writes no other
    records, members of the index and pending tickets than those of a set of
    ids does among others, whose sets are disjoint from its own, what it does
    alone: what was proved with [wp] of a single run holds of every
    interleaving. *)
From S2P Require Export Interleave.

Section Slice.
Context `{Sys}.
Implicit Types (S : gset string) (d u : db) (v : view).

Definition common : list string := [allTickets; proposedTicketIDs].

(** Two keyspaces agree on what belongs to the ids. *)
Record same_slice S d u : Prop := mkSameSlice {
  sl_key k : k ∈ S -> d !! k = u !! k;
  sl_index k : k ∈ S -> (k ∈ index d <-> k ∈ index u);
  sl_pending k : k ∈ S -> pending d !! k = pending u !! k;
  sl_typed : typed d;
  sl_typed_alone : typed u;
}.

(** Nothing else differs. *)
Record untouched S d d' : Prop := mkUntouched {
  un_key k : k ∉ S -> k ∉ common -> d' !! k = d !! k;
  un_index k : k ∉ S -> (k ∈ index d' <-> k ∈ index d);
  un_pending k : k ∉ S -> pending d' !! k = pending d !! k;
  un_typed : typed d';
}.

Lemma untouched_refl S d : typed d -> untouched S d d.
Proof. by split. Qed.

Lemma untouched_trans S d d1 d' : untouched S d d1 -> untouched S d1 d' -> untouched S d d'.
Proof.
  intros [K I P _] [K' I' P' T]. split; [intros k ? ?; rewrite K'; auto|intros k ?; rewrite I'; auto| |done].
  intros k ?. rewrite P'; auto.
Qed.

Lemma untouched_mono S S' d d' : S ⊆ S' -> untouched S d d' -> untouched S' d d'.
Proof. intros HS [K I P T]. split; auto. Qed.

(** What others do does not change one's own slice. *)
Lemma same_slice_frame S S' d d' u : S ## S' -> (forall k, k ∈ S -> k ∉ reserved) -> same_slice S d u ->
  untouched S' d d' -> same_slice S d' u.
Proof.
  intros Hd Hr [K I P _ T] [K' I' P' T']. split; [| | |done..].
  - intros k Hk. rewrite K'; [auto|set_solver|]. intros Hc. apply (Hr k Hk). revert Hc. unfold common, reserved. set_solver.
  - intros k Hk. rewrite I'; [auto|set_solver].
  - intros k Hk. rewrite P'; [auto|set_solver].
Qed.

(** ** Commands *)
Section Ids.
Context (S : gset string) (HS : forall k, k ∈ S -> k ∉ reserved).

Definition inside (cmd : command) : Prop :=
  match cmd with
  | GET k | SET k _ | SETXX k _ _ | DEL k => k ∈ S
  | MGET ks => Forall (fun k => k ∈ S) ks
  | SADD k m | SREM k m => k = allTickets /\ m ∈ S
  | ZADD k l => k = proposedTicketIDs /\ Forall (fun x => x.2 ∈ S) l
  | ZREM k l => k = proposedTicketIDs /\ Forall (fun m => m ∈ S) l
  | _ => False
  end.

(** The commands queued in a transaction. *)
Definition queued (cmd : command) : Prop := match cmd with SETXX k _ _ => k ∈ S | _ => False end.

Lemma slice_put_str d u k s px : k ∈ S -> same_slice S d u ->
  same_slice S (put_str d k s px) (put_str u k s px) /\ untouched S d (put_str d k s px).
Proof using HS.
  intros Hk [K I P T T']. pose proof (HS k Hk) as Hr. split; split; try intros k' Hk'; autorewrite with om_rw; auto with om.
  - unfold put_str. destruct (decide (k = k')) as [->|]; simplify_map_eq; auto.
  - intros _. apply put_str_ne. by intros ->.
Qed.

Lemma slice_delete d u k : k ∈ S -> same_slice S d u ->
  same_slice S (delete k d) (delete k u) /\ untouched S d (delete k d).
Proof using HS.
  intros Hk [K I P T T']. pose proof (HS k Hk) as Hr. split; split; try intros k' Hk'; autorewrite with om_rw; auto with om.
  - destruct (decide (k = k')) as [->|]; simplify_map_eq; auto.
  - intros _. apply lookup_delete_ne. by intros ->.
Qed.

Lemma slice_put_index d u s s' : (forall k, k ∈ S -> (k ∈ s <-> k ∈ s')) -> (forall k, k ∉ S -> (k ∈ s <-> k ∈ index d)) ->
  same_slice S d u -> same_slice S (put_index d s) (put_index u s') /\ untouched S d (put_index d s).
Proof using HS.
  intros Hs Ho [K I P T T']. split; split; try intros k' Hk'; autorewrite with om_rw; auto with om.
  - pose proof (HS k' Hk'). rewrite !lookup_put_index by done. auto.
  - intros Hc. apply put_set_ne. intros <-. apply Hc. by left.
Qed.

Lemma slice_put_pending d u z z' : (forall k, k ∈ S -> z !! k = z' !! k) -> (forall k, k ∉ S -> z !! k = pending d !! k) ->
  same_slice S d u -> same_slice S (put_pending d z) (put_pending u z') /\ untouched S d (put_pending d z).
Proof using HS.
  intros Hs Ho [K I P T T']. split; split; try intros k' Hk'; autorewrite with om_rw; auto with om.
  - pose proof (HS k' Hk'). rewrite !lookup_put_pending by done. auto.
  - intros Hc. apply put_zset_ne. intros <-. apply Hc. by right; left.
Qed.

Lemma zadd_all_agree (z z' : gmap string Z) l k : z !! k = z' !! k -> zadd_all z l !! k = zadd_all z' l !! k.
Proof.
  revert z z'. induction l as [|[s m] l IH]; intros z z' Hz; cbn; [done|]. apply IH.
  destruct (decide (m = k)) as [->|]; by simplify_map_eq.
Qed.

Lemma zadd_all_other (z : gmap string Z) l k : Forall (fun x => x.2 ∈ S) l -> k ∉ S -> zadd_all z l !! k = z !! k.
Proof.
  revert z. induction l as [|[s m] l IH]; intros z Hl Hk; cbn; [done|]. apply Forall_cons in Hl as [Hm Hl].
  etrans; [by apply IH|]. apply lookup_insert_ne. by intros ->.
Qed.

(** A command for one's own ids is answered as if one were alone. *)
Lemma inside_ok d u cmd r d' : inside cmd -> same_slice S d u -> cmd_ok d cmd r d' ->
  exists u', cmd_ok u cmd r u' /\ same_slice S d' u' /\ untouched S d d'.
Proof using HS.
  intros Hin Hsl Hok. pose proof Hsl as [K I P T T']. pose proof (untouched_refl S d T) as Hun.
  destruct cmd as [k s|k s px|k s|k|k|ks|k m|k m|k|k l|k l|k lo hi|k m|k f s|k f|k| | |]; cbn in Hin; try done; cbn in Hok.
  - subst d'. eexists. split; [done|]. by apply slice_put_str.
  - cbn. unfold setxx in *. rewrite (K k Hin) in Hok. destruct (u !! k); injection Hok as -> ->.
    + eexists. split; [done|]. by apply slice_put_str.
    + exists u. done.
  - exists u. cbn. rewrite (K k Hin) in Hok. destruct (u !! k) as [[[] ?]|]; try done; by destruct Hok as [-> ->].
  - destruct Hok as [-> ->]. exists (delete k u). cbn. rewrite (K k Hin). split; [done|]. by apply slice_delete.
  - destruct Hok as [-> ->]. exists u. cbn. split; [|done]. split; [|done]. apply list_fmap_ext. intros i k Hk.
    apply get_str_ext, K. rewrite Forall_forall in Hin. apply Hin. by eapply list_elem_of_lookup_2.
  - destruct Hin as [-> Hm]. rewrite typed_index in Hok by done. destruct Hok as [-> ->].
    exists (put_index u ({[m]} ∪ index u)). cbn. rewrite typed_index by done. split.
    { split; [|done]. apply decide_ext. by rewrite I. }
    apply slice_put_index; [set_solver..|done].
  - destruct Hin as [-> Hm]. rewrite typed_index in Hok by done. destruct Hok as [-> ->].
    exists (put_index u (index u ∖ {[m]})). cbn. rewrite typed_index by done. split.
    { split; [|done]. apply decide_ext. by rewrite I. }
    apply slice_put_index; [set_solver..|done].
  - destruct Hin as [-> Hl]. rewrite typed_pending in Hok by done. subst d'.
    exists (put_pending u (zadd_all (pending u) l)). cbn. rewrite typed_pending by done. split; [done|].
    apply slice_put_pending; [|by intros; apply zadd_all_other|done]. intros k Hk. by apply zadd_all_agree, P.
  - destruct Hin as [-> Hl]. rewrite typed_pending in Hok by done. subst d'.
    exists (put_pending u (zrem_all (pending u) l)). cbn. rewrite typed_pending by done. split; [done|].
    rewrite Forall_forall in Hl. apply slice_put_pending; [| |done]; intros k Hk; rewrite !lookup_zrem_all; case_decide; auto.
    by destruct Hk; apply Hl.
Qed.

Lemma inside_mistyped d u cmd : inside cmd -> same_slice S d u -> wrong_type d cmd -> wrong_type u cmd.
Proof using HS.
  intros Hin [K I P T T']. destruct cmd; cbn in *; try done; match goal with H : _ = _ /\ _ |- _ => destruct H as [-> _] | _ => idtac end.
  - rewrite (K k Hin), (get_str_ext d u k (K k Hin)). done.
  - by rewrite typed_index.
  - by rewrite typed_index.
  - by rewrite typed_pending.
  - by rewrite typed_pending.
Qed.

Lemma inside_effect d u cmd d' : inside cmd -> same_slice S d u -> cmd_effect d cmd d' ->
  exists u', cmd_effect u cmd u' /\ same_slice S d' u' /\ untouched S d d'.
Proof using HS.
  intros Hin Hsl [[r Hok]|[Hw ->]].
  - destruct (inside_ok d u cmd r d' Hin Hsl Hok) as (u' & ? & ?). exists u'. split; [left; eauto|done].
  - exists u. split; [right; split; [by eapply inside_mistyped|done]|]. split; [done|]. apply untouched_refl, Hsl.
Qed.

Lemma inside_pipeline cs : forall d u d', Forall inside cs -> same_slice S d u -> pipeline d cs d' ->
  exists u', pipeline u cs u' /\ same_slice S d' u' /\ untouched S d d'.
Proof using HS.
  induction cs as [|cmd cs IH]; intros d u d' Hin Hsl; cbn.
  - intros ->. exists u. split; [done|]. split; [done|]. apply untouched_refl, Hsl.
  - apply Forall_cons in Hin as [Hc Hin]. intros (d1 & He & Hp).
    destruct (inside_effect d u cmd d1 Hc Hsl He) as (u1 & He' & Hsl1 & Hun1).
    destruct (IH d1 u1 d' Hin Hsl1 Hp) as (u' & Hp' & Hsl' & Hun'). exists u'. split; [eauto|].
    split; [done|]. by eapply untouched_trans.
Qed.

Lemma queued_multi cs : forall d u rs d', Forall queued cs -> same_slice S d u -> multi d cs rs d' ->
  exists u', multi u cs rs u' /\ same_slice S d' u' /\ untouched S d d'.
Proof using All.
  induction cs as [|cmd cs IH]; intros d u rs d' Hq Hsl.
  - intros [-> ->]. exists u. split; [done|]. split; [done|]. apply untouched_refl, Hsl.
  - apply Forall_cons in Hq as [Hc Hq]. destruct cmd as [|k s px| | | | | | | | | | | | | | | | |]; try done.
    destruct rs as [|r rs]; [done|]. cbn [multi]. intros [-> Hm]. cbn in Hc.
    destruct (inside_ok d u (SETXX k s px) (setxx d k s px).1 (setxx d k s px).2 Hc Hsl) as (u1 & Hok & Hsl1 & Hun1);
      [exact (eq_sym (surjective_pairing _))|].
    cbn -[setxx] in Hok. destruct (IH _ u1 rs d' Hq Hsl1 Hm) as (u' & ? & ? & ?). exists u'.
    split; [by cbn [multi]; rewrite <- Hok|]. split; [done|]. by eapply untouched_trans.
Qed.
End Ids.
End Slice.

(** ** Steps *)
Section Sim.
Context `{Sys} (S : gset string) (HS : forall k, k ∈ S -> k ∉ reserved).
Implicit Types (u v : view).

(** The effects of a program that keeps to its ids, given its connections:
    one command at a time, a pipeline or a transaction; no mutex, no new id. *)
Definition within (C : gmap conn (list command)) (e : eff) : Prop :=
  match e with
  | GetConn _ | Now => True
  | Do c cmd =>
      C !! c = Some [] /\ inside S cmd \/ cmd = EXEC /\ exists cs, C !! c = Some (MULTI :: cs) /\ Forall (queued S) cs
  | Send c _ => is_Some (C !! c)
  | CloseConn c => exists cs, C !! c = Some cs /\ (is_multi cs = true \/ Forall (inside S) cs)
  | _ => False
  end.

(** The world [v] as a program that thinks it is alone in [u] sees it. *)
Record alike u v : Prop := mkAlike {
  al_slice : same_slice S (v_db v) (v_db u);
  al_pend : v_pend u ⊆ v_pend v;
  al_now : v_now u <= v_now v;
}.

(** What a step leaves to the others. *)
Record apart u u' v v' : Prop := mkApart {
  ap_db : untouched S (v_db v) (v_db v');
  ap_others c cs : v_pend u !! c = None -> v_pend v !! c = Some cs -> v_pend v' !! c = Some cs;
  ap_new c : is_Some (v_pend u' !! c) -> is_Some (v_pend u !! c) \/ v_pend v !! c = None;
  ap_now : v_now v <= v_now v';
}.

(** Steps on the keyspace alone. *)
Lemma alike_db u v d' e' : alike u v -> same_slice S d' e' -> untouched S (v_db v) d' ->
  alike (set_db u e') (set_db v d') /\ apart u (set_db u e') v (set_db v d').
Proof. intros [Hsl Hp Hn] Hs Hu. by split; split; cbn; auto. Qed.

Lemma alike_refl u v : alike u v -> alike u v /\ apart u u v v.
Proof. intros Ha. split; [done|]. pose proof (al_slice _ _ Ha) as Hs. split; auto; [|done]. apply untouched_refl, Hs. Qed.

(** Steps on a connection of its own, and perhaps the keyspace. *)
Lemma alike_pend u v c cs cs' d' e' : alike u v -> v_pend u !! c = Some cs -> same_slice S d' e' -> untouched S (v_db v) d' ->
  let u' := set_db (set_pend u (<[c := cs']> (v_pend u))) e' in
  let v' := set_db (set_pend v (<[c := cs']> (v_pend v))) d' in
  alike u' v' /\ apart u u' v v'.
Proof.
  intros [Hsl Hp Hn] Hc Hs Hu. split; split; cbn; try done.
  - by apply insert_mono.
  - intros c1 cs1 Hc1 Hv. rewrite lookup_insert_ne by congruence. done.
  - intros c1. rewrite lookup_insert_is_Some. intros [<-|[_ ?]]; eauto.
Qed.

Lemma do_alike u v cmd r v' : inside S cmd -> alike u v -> do_step v cmd r v' ->
  exists u', do_step u cmd r u' /\ alike u' v' /\ apart u u' v v'.
Proof using HS.
  intros Hin Ha Hs. pose proof (al_slice _ _ Ha) as Hsl.
  assert (forall a d', cmd_ok (v_db v) cmd a d' -> exists e', cmd_ok (v_db u) cmd a e' /\
    alike (set_db u e') (set_db v d') /\ apart u (set_db u e') v (set_db v d')) as Hok.
  { intros a d' Hd. destruct (inside_ok S HS _ _ cmd a d' Hin Hsl Hd) as (e' & He & Hs' & Hu).
    exists e'. split; [done|]. by apply alike_db. }
  destruct r as [a|m]; cbn in Hs |- *.
  - destruct Hs as (d' & Hd & ->). destruct (Hok a d' Hd) as (e' & He & ?). eauto.
  - destruct Hs as [[Hw ->]|[Hf [->|(a & d' & Hd & ->)]]].
    + exists u. split; [left; split; [by eapply inside_mistyped|done]|by apply alike_refl].
    + exists u. split; [by right; auto|by apply alike_refl].
    + destruct (Hok a d' Hd) as (e' & He & ?). exists (set_db u e'). split; [by right; eauto 6|done].
Qed.

Lemma exec_alike u v c cs r v' : v_pend u !! c = Some (MULTI :: cs) -> Forall (queued S) cs -> alike u v ->
  exec_step v c cs r v' -> exists u', exec_step u c cs r u' /\ alike u' v' /\ apart u u' v v'.
Proof using HS.
  intros Hc Hq Ha Hs. pose proof (al_slice _ _ Ha) as Hsl.
  assert (forall a d', multi (v_db v) cs a d' -> exists e', multi (v_db u) cs a e' /\
    alike (set_db (open_conn u c) e') (set_db (open_conn v c) d') /\
    apart u (set_db (open_conn u c) e') v (set_db (open_conn v c) d')) as Hok.
  { intros a d' Hd. destruct (queued_multi S HS cs _ _ a d' Hq Hsl Hd) as (e' & He & Hs' & Hu).
    exists e'. split; [done|]. by eapply alike_pend. }
  destruct r as [a|m]; cbn in Hs |- *.
  - destruct Hs as (d' & Hd & ->). destruct (Hok a d' Hd) as (e' & He & ?). eauto.
  - destruct Hs as [Hf [->|(a & d' & Hd & ->)]].
    + exists (open_conn u c). split; [by auto|]. pose proof (alike_pend u v c _ [] (v_db v) (v_db u) Ha Hc Hsl) as Hp.
      apply Hp, untouched_refl, Hsl.
    + destruct (Hok a d' Hd) as (e' & He & ?). exists (set_db (open_conn u c) e'). split; [by split; eauto|done].
Qed.

Lemma close_alike u v c cs d' : v_pend u !! c = Some cs -> (is_multi cs = true \/ Forall (inside S) cs) -> alike u v ->
  close_step v cs d' -> exists e', close_step u cs e' /\ same_slice S d' e' /\ untouched S (v_db v) d'.
Proof using HS.
  intros Hc Hcs Ha Hs. pose proof (al_slice _ _ Ha) as Hsl. unfold close_step in *.
  destruct (is_multi cs) eqn:Hm.
  - subst d'. exists (v_db u). split; [done|]. split; [done|]. apply untouched_refl, Hsl.
  - destruct Hcs as [?|Hin]; [done|]. destruct Hs as [Hp|[Hf [n Hp]]].
    + destruct (inside_pipeline S HS cs _ _ d' Hin Hsl Hp) as (e' & ? & ?). exists e'. split; [by left|done].
    + destruct (inside_pipeline S HS (take n cs) _ _ d' (Forall_take _ n _ Hin) Hsl Hp) as (e' & ? & ?).
      exists e'. split; [by right; eauto|done].
Qed.

(** Every step in the world is one the program could see alone. *)
Lemma within_step u v e r v' : within (v_pend u) e -> alike u v -> estep v e r v' ->
  exists u', estep u e r u' /\ alike u' v' /\ apart u u' v v'.
Proof using HS.
  intros Hw Ha Hs. pose proof Ha as [Hsl Hp Hn].
  destruct e as [q|c cmd|c cmd|c| | |m expiry|m token| |]; cbn -[do_step exec_step close_step] in *; try done.
  - destruct r as [c|m]; destruct Hs as [Hc ->].
    + assert (v_pend u !! c = None) as Hu by (by eapply lookup_weaken_None).
      exists (open_conn u c). split; [done|]. split; split; cbn; try done.
      * by apply insert_mono.
      * apply untouched_refl, Hsl.
      * intros c1 cs _ Hc1. rewrite lookup_insert_ne by congruence. done.
      * intros c1. rewrite lookup_insert_is_Some. intros [<-|[_ ?]]; auto.
    + exists u. split; [done|by apply alike_refl].
  - destruct Hw as [[Hc Hin]|(-> & cs & Hc & Hq)]; rewrite (lookup_weaken _ _ _ _ Hc Hp) in Hs; rewrite Hc.
    + by apply do_alike.
    + by apply exec_alike.
  - destruct Hw as [cs Hc]. rewrite (lookup_weaken _ _ _ _ Hc Hp) in Hs. rewrite Hc.
    destruct r as [m|]; [destruct Hs as [Hf ->]; exists u; split; [done|by apply alike_refl]|]. subst v'.
    eexists. split; [done|]. cbn. pose proof (alike_pend u v c cs (cs ++ [cmd]) (v_db v) (v_db u) Ha Hc Hsl) as Ht.
    apply Ht, untouched_refl, Hsl.
  - destruct Hw as (cs & Hc & Hcs). rewrite (lookup_weaken _ _ _ _ Hc Hp) in Hs. rewrite Hc.
    destruct Hs as (d' & Hd & ->). destruct (close_alike u v c cs d' Hc Hcs Ha Hd) as (e' & He & Hs' & Hu).
    eexists. split; [by eauto|]. split; split; cbn; try done.
    + by apply delete_mono.
    + intros c1 cs1 Hc1 Hv. rewrite lookup_delete_ne by congruence. done.
    + intros c1. rewrite lookup_delete_is_Some. intros [_ ?]; auto.
  - destruct Hs as [Ht ->]. exists (set_now u r). split; [split; [lia|done]|]. split; split; cbn; auto; [lia|].
    apply untouched_refl, Hsl.
Qed.

(** ** The logic: what [wp] says, and that the program keeps to its ids *)
Fixpoint lwp {A} (u : view) (p : prog A) (Q : A -> view -> Prop) : Prop :=
  match p with
  | Ret a => Q a u
  | Vis e k => within (v_pend u) e /\ forall r u', estep u e r u' -> lwp u' (k r) Q
  end.

Lemma lwp_mono {A} (p : prog A) u (Q Q' : A -> view -> Prop) : lwp u p Q -> (forall a u', Q a u' -> Q' a u') -> lwp u p Q'.
Proof.
  revert u. induction p as [a|e k IH]; cbn; intros u Hp HQ; [auto|]. destruct Hp as [Hw Hp]. split; [done|]. eauto.
Qed.

Lemma lwp_bind {A B} (p : prog A) (f : A -> prog B) u Q : lwp u p (fun a u' => lwp u' (f a) Q) -> lwp u (prog_bind p f) Q.
Proof.
  revert u. induction p as [a|e k IH]; cbn; intros u Hp; [done|]. destruct Hp as [Hw Hp]. split; [done|]. eauto.
Qed.

Lemma lwp_rbind {A B} (p : prog (result A)) (f : A -> prog (result B)) u Q :
  lwp u p (fun r u' => match r with Ok a => lwp u' (f a) Q | Err e => Q (Err e) u' end) -> lwp u (rbind p f) Q.
Proof. intros Hp. apply lwp_bind. eapply lwp_mono; [exact Hp|]. by intros [a|e] u'; cbn. Qed.

(** One effect, by its [wp] rule. *)
Lemma lwp_vis {A} e (k : resp e -> prog A) u Q : within (v_pend u) e ->
  wp (Vis e Ret) u (fun r u' => lwp u' (k r) Q) -> lwp u (Vis e k) Q.
Proof. intros Hw Hp. split; [done|]. exact Hp. Qed.

(** A program that keeps to its ids ends as its runs do. *)
Lemma lwp_wp {A} (p : prog A) u Q R : lwp u p Q -> wp p u R -> lwp u p (fun a u' => Q a u' /\ R a u').
Proof.
  revert u. induction p as [a|e k IH]; cbn; intros u HQ HR; [done|]. destruct HQ as [Hw HQ]. split; [done|]. eauto.
Qed.
End Sim.

(** ** Soundness

    Programs whose sets of ids are disjoint, on any schedule. *)
Section Parallel.
Context `{EnvironmentLaws} {R : Type} (owns : list (gset string)) (Q : nat -> R -> view -> Prop).
Hypothesis (Hres : forall i S k, owns !! i = Some S -> k ∈ S -> k ∉ reserved).
Hypothesis (Hdisj : forall i j S T, owns !! i = Some S -> owns !! j = Some T -> i <> j -> S ## T).

(** What all own. *)
Definition owned : gset string := ⋃ owns.

Lemma owned_mono i S : owns !! i = Some S -> S ⊆ owned.
Proof. intros Hi k Hk. apply elem_of_union_list. exists S. split; [by eapply list_elem_of_lookup_2|done]. Qed.

(** The worlds [us] the programs think they are alone in. *)
Record parallel (d0 : db) (ps : list (prog R)) (us : list view) (w : env_state) : Prop := mkParallel {
  pa_len : length us = length owns;
  pa_lwp i S p u : owns !! i = Some S -> ps !! i = Some p -> us !! i = Some u -> lwp S u p (Q i);
  pa_alike i S u : owns !! i = Some S -> us !! i = Some u -> alike S u (env_view w);
  pa_disj i j u u' c : us !! i = Some u -> us !! j = Some u' -> i <> j -> is_Some (v_pend u !! c) -> v_pend u' !! c = None;
  pa_out : untouched owned d0 (v_db (env_view w));
}.

Lemma parallel_step d0 ps us w i p : length ps = length owns -> parallel d0 ps us w -> ps !! i = Some p ->
  exists u, parallel d0 (<[i := (advance p w).1]> ps) (<[i := u]> us) (advance p w).2.
Proof using Hres Hdisj All.
  intros Hlen Hinv Hp. pose proof Hinv as [Hl Hlwp Hal Hdj Hout].
  pose proof (lookup_lt_Some _ _ _ Hp) as Hlt. destruct (lookup_lt_is_Some_2 us i) as [u Hu]; [lia|].
  destruct (lookup_lt_is_Some_2 owns i) as [S HS]; [lia|].
  destruct p as [a|e k]; [exists u; cbn; by rewrite !list_insert_id|]. cbn.
  destruct (env_handle e w) as [r w1] eqn:He. cbn. apply env_ok in He.
  destruct (Hlwp i S _ u HS Hp Hu) as [Hw Hk]. pose proof (Hal i S u HS Hu) as Ha.
  destruct (within_step S (fun k => Hres i S k HS) u _ e r _ Hw Ha He) as (u1 & Hs & Ha1 & [Adb Aoth Anew Anow]).
  exists u1. assert (forall j x, <[i := u1]> us !! j = Some x -> (j = i /\ x = u1) \/ (j <> i /\ us !! j = Some x)) as Hlk.
  { intros j x Hj. apply list_lookup_insert_Some in Hj as [(<- & -> & _)|[? ?]]; auto. }
  split.
  - by rewrite length_insert.
  - intros j T q x HT Hq [[-> ->]|[Hne Hx]]%Hlk.
    + rewrite list_lookup_insert_eq in Hq by done. injection Hq as <-. rewrite HS in HT. injection HT as <-. by apply Hk.
    + rewrite list_lookup_insert_ne in Hq by done. by eapply Hlwp.
  - intros j T x HT [[-> ->]|[Hne Hx]]%Hlk; [rewrite HS in HT; by injection HT as <-|].
    destruct (Hal j T x HT Hx) as [Hsl Hpd Hn]. split; [|
      apply map_subseteq_spec; intros c cs Hc; apply Aoth; [eapply (Hdj j i); eauto|by eapply lookup_weaken]|lia].
    eapply same_slice_frame; [by eapply (Hdisj j i)|exact (fun k => Hres j T k HT)|exact Hsl|exact Adb].
  - intros j1 j2 x1 x2 c [[-> ->]|[Hne Hx]]%Hlk [[-> ->]|[Hne2 Hx2]]%Hlk Hne' Hs'; [done|..|by eapply (Hdj j1 j2)].
    + destruct (Anew c Hs') as [?|Hv]; [by eapply (Hdj i j2)|].
      destruct (owns !! j2) as [T|] eqn:HT; [|apply lookup_ge_None in HT; apply lookup_lt_Some in Hx2; lia].
      eapply lookup_weaken_None; [exact Hv|apply (al_pend T), (Hal j2 T x2 HT Hx2)].
    + destruct (v_pend u1 !! c) as [cs|] eqn:Hc; [|done]. exfalso. destruct Hs' as [cs1 Hc1].
      destruct (owns !! j1) as [T|] eqn:HT; [|apply lookup_ge_None in HT; apply lookup_lt_Some in Hx; lia].
      pose proof (lookup_weaken _ _ _ _ Hc1 (al_pend T _ _ (Hal j1 T x1 HT Hx))) as Hv.
      destruct (Anew c ltac:(by eexists)) as [[cs2 Hc2]|?]; [|congruence].
      pose proof (Hdj j1 i x1 u c Hx Hu Hne' ltac:(by eexists)). congruence.
  - eapply untouched_trans; [exact Hout|]. eapply untouched_mono, Adb. by eapply owned_mono.
Qed.

Lemma parallel_run d0 sched : forall ps us w ps' w', length ps = length owns -> parallel d0 ps us w ->
  prun sched ps w = (ps', w') -> exists us', parallel d0 ps' us' w'.
Proof using Hres Hdisj All.
  induction sched as [|i sched IH]; intros ps us w ps' w' Hlen Hinv Hrun; cbn in Hrun; [injection Hrun as <- <-; eauto|].
  destruct (ps !! i) as [p|] eqn:Hi; [|eauto]. destruct (parallel_step d0 ps us w i p Hlen Hinv Hi) as [u Hinv'].
  destruct (advance p w) as [p' w1]. eapply IH; [|exact Hinv'|exact Hrun]. by rewrite length_insert.
Qed.

(** A view without the connections of others. *)
Definition alone (v : view) : view := set_pend v ∅.

(** Programs that keep to ids of their own run, on any schedule, as each does
    alone; nothing but what they own changes. *)
Lemma owned_parallel ps sched w ps' w' : length ps = length owns -> typed (v_db (env_view w)) ->
  (forall i S p, owns !! i = Some S -> ps !! i = Some p -> lwp S (alone (env_view w)) p (Q i)) ->
  prun sched ps w = (ps', w') ->
  untouched owned (v_db (env_view w)) (v_db (env_view w')) /\
  forall i S a, owns !! i = Some S -> ps' !! i = Some (Ret a) ->
    exists u, Q i a u /\ same_slice S (v_db (env_view w')) (v_db u).
Proof using Hres Hdisj All.
  intros Hlen Ht Hps Hrun.
  assert (parallel (v_db (env_view w)) ps (replicate (length owns) (alone (env_view w))) w) as Hinv.
  { assert (forall i u, replicate (length owns) (alone (env_view w)) !! i = Some u -> u = alone (env_view w)) as Hu
      by (intros i u [-> _]%lookup_replicate; done).
    split.
    - by rewrite length_replicate.
    - intros i S p u HS Hp ->%Hu. by eapply Hps.
    - intros i S u HS ->%Hu. split; [by split|apply map_empty_subseteq|done].
    - intros i j u u' c ->%Hu ->%Hu _ [? Hc]. cbn in Hc. by rewrite lookup_empty in Hc.
    - by apply untouched_refl. }
  destruct (parallel_run _ _ _ _ _ _ _ Hlen Hinv Hrun) as [us' [Hl Hlwp Hal _ Hout]]. split; [done|].
  intros i S a HS Ha. destruct (lookup_lt_is_Some_2 us' i) as [u Hu]; [rewrite Hl; by eapply lookup_lt_Some|].
  exists u. split; [exact (Hlwp i S _ u HS Ha Hu)|]. apply (al_slice _ _ _ (Hal i S u HS Hu)).
Qed.
End Parallel.
