(* ===== verification/StoreProps.v ===== *)
(** * What the state store guarantees

    Theorems about runs of the store's operations in any outside world that
    behaves as documented, each with a run in the in-memory world. *)
From S2P Require Export StoreRedis MemEnv.

Abbreviation db_of w := (v_db (env_view w)).
Abbreviation clock w := (v_now (env_view w)).
Abbreviation locks w := (v_locks (env_view w)).

(** A run of a store operation, replaced by its contract. *)
Ltac run_spec Hrun lem :=
  let Hp := fresh "Hp" in
  pose proof (run_wp _ _ _ _ _ lem Hrun) as Hp; clear Hrun.

Section Completely.
Context `{Sys} `{Proto}.
Implicit Types (d : db) (id k : string).

Definition tickets_of d id : list string :=
  match backfill_at d id with Some bi => bi_TicketIds bi | None => [] end.

Lemma completely_lookup d id k : not_reserved id -> not_reserved k ->
  completely d id !! k = if decide (k = id) then None else d !! k.
Proof.
  intros Hid Hk. unfold completely. destruct (d !! id) eqn:Hd.
  - rewrite lookup_put_acks by done. case_decide as Hki; [subst; by rewrite lookup_delete_eq|].
    rewrite lookup_delete_ne by done. by autorewrite with om_rw.
  - case_decide; [subst|]; by autorewrite with om_rw.
Qed.

Lemma completely_acks d id k : not_reserved id ->
  acks (completely d id) !! k = if decide (k = id /\ is_Some (d !! id)) then None else acks d !! k.
Proof.
  intros Hid. unfold completely. destruct (d !! id) eqn:Hd; autorewrite with om_rw.
  - destruct (decide (k = id)) as [->|]; [rewrite lookup_delete_eq|rewrite lookup_delete_ne by done];
      case_decide; naive_solver eauto.
  - case_decide as Hc; [|done]. by destruct Hc as [_ [? ?]].
Qed.

Lemma completely_bindex d id : not_reserved id ->
  bindex (completely d id) = delete id (bindex d).
Proof. intros Hid. unfold completely. destruct (d !! id); by autorewrite with om_rw. Qed.

Lemma completely_index d id : not_reserved id -> index (completely d id) = index d.
Proof. intros Hid. unfold completely. destruct (d !! id); by autorewrite with om_rw. Qed.

Lemma completely_pending d id k : not_reserved id ->
  pending (completely d id) !! k = if decide (k ∈ tickets_of d id) then None else pending d !! k.
Proof.
  intros Hid. unfold completely. fold (tickets_of d id). rewrite <- lookup_zrem_all. f_equal.
  destruct (d !! id); autorewrite with om_rw; try done; by rewrite pending_delete; autorewrite with om_rw.
Qed.

(** The same for a list of ids, one after the other. *)
Lemma completely_all_lookup ids d k : Forall not_reserved ids -> not_reserved k ->
  foldl completely d ids !! k = if decide (k ∈ ids) then None else d !! k.
Proof.
  intros Hids Hk. revert d. induction Hids as [|id l Hid _ IH]; intros d; [done|]. cbn.
  rewrite IH, completely_lookup by done. repeat case_decide; set_solver.
Qed.

Lemma completely_all_acks ids d k : Forall not_reserved ids -> NoDup ids ->
  acks (foldl completely d ids) !! k =
    if decide (k ∈ ids /\ is_Some (d !! k)) then None else acks d !! k.
Proof.
  intros Hids. revert d. induction Hids as [|id l Hid Hl IH]; intros d Hnd; cbn.
  { by rewrite decide_False by set_solver. }
  apply NoDup_cons in Hnd as [Hni Hnd]. rewrite (IH _ Hnd), completely_acks by done.
  destruct (decide (k = id)) as [->|Hne].
  { rewrite decide_False by set_solver. repeat case_decide; naive_solver set_solver. }
  assert (k ∈ l /\ is_Some (completely d id !! k) <-> k ∈ l /\ is_Some (d !! k)) as Heq.
  { split; intros [Hin Hs]; (split; [done|]);
      rewrite completely_lookup, decide_False in * by (done || by eapply Forall_forall in Hl); done. }
  repeat case_decide; naive_solver set_solver.
Qed.

Lemma completely_all_bindex ids d k : Forall not_reserved ids ->
  bindex (foldl completely d ids) !! k = if decide (k ∈ ids) then None else bindex d !! k.
Proof.
  intros Hids. revert d. induction Hids as [|id l Hid _ IH]; intros d; [done|]. cbn.
  rewrite IH, completely_bindex by done.
  destruct (decide (k = id)) as [->|]; [rewrite lookup_delete_eq|rewrite lookup_delete_ne by done];
    repeat case_decide; set_solver.
Qed.

Lemma completely_all_pending ids d k : Forall not_reserved ids -> NoDup ids ->
  pending (foldl completely d ids) !! k =
    if decide (k ∈ concat (tickets_of d <$> ids)) then None else pending d !! k.
Proof.
  intros Hids. revert d. induction Hids as [|id l Hid Hl IH]; intros d Hnd; [done|]. cbn.
  apply NoDup_cons in Hnd as [Hni Hnd]. rewrite (IH _ Hnd), completely_pending by done.
  assert (tickets_of (completely d id) <$> l = tickets_of d <$> l) as ->.
  { apply list_fmap_ext. intros i x Hx. unfold tickets_of.
    apply list_elem_of_lookup_2 in Hx. rewrite (backfill_at_ext _ d); [done|].
    rewrite completely_lookup, decide_False; [done|congruence|done|by eapply Forall_forall in Hl]. }
  repeat case_decide; set_solver.
Qed.
End Completely.

(** ** The contracts without faults

    When nothing fails for an outside reason the contracts fix the answers. *)
Section FaultFree.
Context `{EnvironmentLaws} `{Proto} (cfg : View) (Hf : sys_faulty = false).
Implicit Types (w : env_state).

Lemma no_fault v v' R : ~ fault v v' R.
Proof. intros [? _]. congruence. Qed.

Lemma run_CreateTicket t w r w' : run (CreateTicket t) w = (r, w') ->
  match marshal_ticket t with
  | Some b => r = Ok tt /\ env_view w' = set_db (env_view w) (put_str (db_of w) (t_Id t) b None)
  | None => err_code r = Some Internal /\ env_view w' = env_view w
  end.
Proof.
  intros Hr. run_spec Hr (CreateTicket_spec t (env_view w)). destruct r as [[]|e]; cbn in *.
  - destruct Hp as (? & (b & -> & ->) & ->). done.
  - destruct Hp as [(? & -> & ?)|[_ []%no_fault]]; done.
Qed.

Lemma run_GetTicket id w r w' : run (GetTicket id) w = (r, w') ->
  env_view w' = env_view w /\
  match db_of w !! id, ticket_at (db_of w) id with
  | None, _ => err_code r = Some NotFound
  | Some _, Some t => r = Ok t
  | Some _, None => err_code r = Some Internal
  end.
Proof.
  intros Hr. run_spec Hr (GetTicket_spec id (env_view w)). destruct Hp as [-> Hp]. split; [done|].
  destruct r as [t|e]; cbn in *.
  - rewrite Hp. destruct (db_of w !! id) eqn:Hd; [done|].
    unfold ticket_at, get_str in Hp. by rewrite Hd in Hp.
  - destruct Hp as [[? ->]|[(? & [x ->] & ->)|[_ ?]]]; [done|done|congruence].
Qed.

Lemma run_DeleteTicket id w r w' : run (DeleteTicket id) w = (r, w') ->
  match db_of w !! id with
  | None => err_code r = Some NotFound /\ env_view w' = env_view w
  | Some _ => r = Ok tt /\ env_view w' = set_db (env_view w) (delete id (db_of w))
  end.
Proof.
  intros Hr. run_spec Hr (DeleteTicket_spec id (env_view w)). destruct r as [[]|e]; cbn in *.
  - by destruct Hp as [[x ->] ->].
  - destruct Hp as [(? & -> & ?)|[_ []%no_fault]]; done.
Qed.

Lemma run_GetIndexedIDSet w r w' : typed (db_of w) -> run (GetIndexedIDSet cfg) w = (r, w') ->
  exists t s, clock w <= t /\ env_view w' = upd (env_view w) (db_of w) t /\ r = Ok s /\
    forall id, id ∈ s <-> id ∈ index (db_of w) /\
      ~ in_window (pending (db_of w)) (t - GetDuration cfg "pendingReleaseTimeout") (t + time_Hour) id.
Proof.
  intros Ht Hr. run_spec Hr (GetIndexedIDSet_spec cfg (env_view w) Ht).
  destruct Hp as (t & ? & ? & Hr). destruct r as [s|e]; [|congruence]. naive_solver.
Qed.

Lemma run_AddTicketsToPendingRelease ids w r w' : typed (db_of w) ->
  run (AddTicketsToPendingRelease ids) w = (r, w') ->
  r = Ok tt /\ exists t, clock w <= t /\ env_view w' = upd (env_view w) (add_pending (db_of w) ids t) t.
Proof.
  intros Ht Hr. run_spec Hr (AddTicketsToPendingRelease_spec ids (env_view w) Ht).
  destruct r as [[]|e]; cbn in *; [done|by apply no_fault in Hp].
Qed.

Lemma run_DeleteTicketsFromPendingRelease ids w r w' : typed (db_of w) ->
  run (DeleteTicketsFromPendingRelease ids) w = (r, w') ->
  r = Ok tt /\ env_view w' = set_db (env_view w) (remove_pending (db_of w) ids).
Proof.
  intros Ht Hr. run_spec Hr (DeleteTicketsFromPendingRelease_spec ids (env_view w) Ht).
  destruct r as [[]|e]; cbn in *; [done|by apply no_fault in Hp].
Qed.

Lemma run_ReleaseAllTickets w r w' : run ReleaseAllTickets w = (r, w') ->
  r = Ok tt /\ env_view w' = set_db (env_view w) (delete proposedTicketIDs (db_of w)).
Proof.
  intros Hr. run_spec Hr (ReleaseAllTickets_spec (env_view w)).
  destruct r as [[]|e]; cbn in *; [done|by apply no_fault in Hp].
Qed.

Lemma run_CreateBackfill b ids w r w' : typed (db_of w) -> b_Id b ∉ reserved ->
  run (CreateBackfill b ids) w = (r, w') ->
  match marshal_backfill (mkBackfillInternal (Some b) ids), db_of w !! b_Id b with
  | None, _ => err_code r = Some Internal /\ env_view w' = env_view w
  | Some _, Some _ => err_code r = Some AlreadyExists /\ env_view w' = env_view w
  | Some s, None => r = Ok tt /\ exists t, clock w <= t /\
      env_view w' = upd (env_view w) (acked (put_str (db_of w) (b_Id b) s None) (b_Id b) t) t
  end.
Proof.
  intros Ht Hn Hr. unfold CreateBackfill in Hr. run_spec Hr (CreateBackfill_spec b ids (env_view w) Ht Hn).
  destruct r as [[]|e]; cbn in *.
  - destruct Hp as (s & t & -> & -> & ? & ?). eauto.
  - destruct Hp as [(? & -> & ?)|[(He & [s ->] & [x ->] & ?)|[]%no_fault]]; done.
Qed.

Lemma run_GetBackfill id w r w' : run (GetBackfill id) w = (r, w') ->
  env_view w' = env_view w /\
  match db_of w !! id, backfill_at (db_of w) id with
  | None, _ => err_code r = Some NotFound
  | Some _, Some bi => r = Ok (bi_Backfill bi, bi_TicketIds bi)
  | Some _, None => err_code r = Some Internal
  end.
Proof.
  intros Hr. run_spec Hr (GetBackfill_spec id (env_view w)). destruct Hp as [-> Hp]. split; [done|].
  destruct r as [[b ids]|e]; cbn in *.
  - rewrite Hp. destruct (db_of w !! id) eqn:Hd; [done|].
    unfold backfill_at, get_str in Hp. by rewrite Hd in Hp.
  - destruct Hp as [[? ->]|[(? & [x ->] & ->)|[_ ?]]]; [done|done|congruence].
Qed.

(** Refused exactly when the last acknowledgement is unknown or too old at
    the moment the clock is read. *)
Lemma run_UpdateBackfill b ids w r w' : typed (db_of w) ->
  run (UpdateBackfill cfg b ids) w = (r, w') ->
  match acks (db_of w) !! b_Id b with
  | None => err_code r = Some Internal /\ env_view w' = env_view w
  | Some la => exists t, clock w <= t /\
      if la <? t - release_ttl cfg
      then err_code r = Some Unavailable /\ env_view w' = upd (env_view w) (db_of w) t
      else match marshal_backfill (mkBackfillInternal (Some b) ids) with
           | None => err_code r = Some Internal /\ env_view w' = upd (env_view w) (db_of w) t
           | Some s => r = Ok tt /\ env_view w' = upd (env_view w) (put_str (db_of w) (b_Id b) s None) t
           end
  end.
Proof.
  intros Ht Hr. run_spec Hr (UpdateBackfill_spec cfg b ids (env_view w) Ht).
  destruct r as [[]|e]; cbn in *.
  - destruct Hp as (s & t & -> & ? & (la & -> & ?) & ?). exists t. split; [done|].
    by rewrite (proj2 (Z.ltb_ge _ _)).
  - destruct Hp as [[(? & -> & ?)|(? & t & la & ? & -> & Hlt & ?)]
                   |[(? & -> & t & ? & (la & -> & ?) & ?)|[]%no_fault]]; [done|..];
      exists t; (split; [done|]).
    + by rewrite (proj2 (Z.ltb_lt _ _)).
    + by rewrite (proj2 (Z.ltb_ge _ _)).
Qed.

Lemma run_UpdateAcknowledgmentTimestamp id w r w' : typed (db_of w) ->
  run (UpdateAcknowledgmentTimestamp cfg id) w = (r, w') ->
  match acks (db_of w) !! id with
  | None => err_code r = Some Internal /\ env_view w' = env_view w
  | Some la => exists t, clock w <= t /\
      if la <? t - release_ttl cfg
      then err_code r = Some Unavailable /\ env_view w' = upd (env_view w) (db_of w) t
      else exists t2, t <= t2 /\ r = Ok tt /\ env_view w' = upd (env_view w) (acked (db_of w) id t2) t2
  end.
Proof.
  intros Ht Hr. run_spec Hr (UpdateAcknowledgmentTimestamp_spec cfg id (env_view w) Ht).
  destruct r as [[]|e]; cbn in *.
  - destruct Hp as (t1 & t2 & ? & (la & -> & ?) & ? & ?). exists t1. split; [done|].
    rewrite (proj2 (Z.ltb_ge _ _)) by done. eauto.
  - destruct Hp as [[(? & -> & ?)|(? & t & la & ? & -> & Hlt & ?)]|[]%no_fault]; [done|].
    exists t. split; [done|]. by rewrite (proj2 (Z.ltb_lt _ _)).
Qed.

Lemma run_GetExpiredBackfillIDs w r w' : typed (db_of w) ->
  run (GetExpiredBackfillIDs cfg) w = (r, w') ->
  exists t ids, clock w <= t /\ env_view w' = upd (env_view w) (db_of w) t /\ r = Ok ids /\
    NoDup ids /\ forall id, id ∈ ids <-> in_window (acks (db_of w)) 0 (t - release_ttl cfg) id.
Proof.
  intros Ht Hr. run_spec Hr (GetExpiredBackfillIDs_spec cfg (env_view w) Ht).
  destruct Hp as (t & ? & ? & Hr). destruct r as [s|e]; [|congruence]. naive_solver.
Qed.

Lemma run_IndexBackfill b w r w' : typed (db_of w) -> run (IndexBackfill b) w = (r, w') ->
  r = Ok tt /\ env_view w' =
    set_db (env_view w) (put_bindex (db_of w) (<[b_Id b := itoa (b_Generation b)]> (bindex (db_of w)))).
Proof.
  intros Ht Hr. run_spec Hr (IndexBackfill_spec b (env_view w) Ht).
  destruct r as [[]|e]; cbn in *; [|destruct Hp as (_ & ? & _); congruence].
  destruct Hp as [?|[? _]]; [done|congruence].
Qed.

Lemma run_GetIndexedBackfills w r w' : typed (db_of w) ->
  (forall id s, bindex (db_of w) !! id = Some s -> is_Some (atoi s)) ->
  run (GetIndexedBackfills cfg) w = (r, w') ->
  exists t m, clock w <= t /\ env_view w' = upd (env_view w) (db_of w) t /\ r = Ok m /\
    forall id g, m !! id = Some g <->
      in_window (acks (db_of w)) (t - release_ttl cfg) (t + time_Hour) id /\
      bindex (db_of w) !! id ≫= atoi = Some g.
Proof.
  intros Ht Hgen Hr. run_spec Hr (GetIndexedBackfills_spec cfg (env_view w) Ht).
  destruct Hp as (t & ? & ? & Hr). destruct r as [s|e]; [naive_solver|].
  destruct Hr as [?|(id & s & Hs & Hn)]; [congruence|].
  apply Hgen in Hs as [g Hg]. congruence.
Qed.

Lemma run_DeleteBackfillCompletely id w r w' : typed (db_of w) -> id ∉ reserved ->
  run (DeleteBackfillCompletely cfg id) w = (r, w') ->
  if is_ok r then r = Ok tt /\ exists t, clock w <= t /\ lock_free (env_view w) (mutex_name id) t /\
    env_view w' = set_locks (upd (env_view w) (completely (db_of w) id) t) (delete (mutex_name id) (locks w))
  else ~ lock_free (env_view w) (mutex_name id) (clock w) /\ env_view w' = env_view w.
Proof.
  intros Ht Hn Hr. run_spec Hr (DeleteBackfillCompletely_spec cfg id (env_view w) Ht Hn).
  destruct Hp as [_ Hp]. specialize (Hp Hf). by destruct r as [[]|e].
Qed.
End FaultFree.

(** ** Tickets *)
Section Tickets.
Context `{EnvironmentLaws} `{ProtoLaws} (cfg : View).
Implicit Types (w : env_state).

(** The life of a ticket in the store: once created it is read back as
    it was given, deleting it succeeds, and from then on reading or
    deleting it answers NotFound; what is left is the keyspace before,
    without the ticket. *)
Theorem ticket_lifecycle t w w1 r2 w2 r3 w3 r4 w4 r5 w5 :
  sys_faulty = false ->
  run (CreateTicket t) w = (Ok tt, w1) ->
  run (GetTicket (t_Id t)) w1 = (r2, w2) ->
  run (DeleteTicket (t_Id t)) w2 = (r3, w3) ->
  run (GetTicket (t_Id t)) w3 = (r4, w4) ->
  run (DeleteTicket (t_Id t)) w4 = (r5, w5) ->
  r2 = Ok t /\ r3 = Ok tt /\ err_code r4 = Some NotFound /\ err_code r5 = Some NotFound /\
  db_of w5 = delete (t_Id t) (db_of w).
Proof.
  intros Hf Hc Hg Hd Hg' Hd'.
  apply (run_CreateTicket Hf) in Hc. destruct (marshal_ticket t) as [b|] eqn:Hb; [|by destruct Hc].
  destruct Hc as [_ Hw1].
  apply (run_GetTicket Hf) in Hg as [Hw2 Hg]. rewrite Hw1 in *. cbn in Hg.
  rewrite ticket_at_put_str, (unmarshal_marshal_ticket _ _ Hb) in Hg.
  unfold put_str in *. rewrite lookup_insert_eq in Hg.
  apply (run_DeleteTicket Hf) in Hd. rewrite Hw2 in Hd. cbn in Hd. rewrite lookup_insert_eq in Hd.
  destruct Hd as [Hr3 Hw3].
  apply (run_GetTicket Hf) in Hg' as [Hw4 Hg']. rewrite Hw3 in *. cbn in Hg'. rewrite lookup_delete_eq in Hg'.
  apply (run_DeleteTicket Hf) in Hd'. rewrite Hw4 in Hd'. cbn in Hd'. rewrite lookup_delete_eq in Hd'.
  destruct Hd' as [Hr5 ->]. cbn. by rewrite delete_insert_eq.
Qed.

(** C20. Proposing tickets hides them from the next queries: while no more
    than the release timeout has passed since the call began, none of them
    is among the indexed ids; once the proposal is older than the timeout
    (as Redis rounds the scores) they are back; releasing them brings them
    back at once; the other tickets are not affected by any of it. *)
Theorem pending_release_visibility ids w w1 w2 w3 w4 w5 w6 r2 r4 r6 :
  sys_faulty = false -> typed (db_of w) ->
  run (AddTicketsToPendingRelease ids) w = (Ok tt, w1) ->
  run (GetIndexedIDSet cfg) w1 = (r2, w2) ->
  run (DeleteTicketsFromPendingRelease ids) w2 = (Ok tt, w3) ->
  run (GetIndexedIDSet cfg) w3 = (r4, w4) ->
  run ReleaseAllTickets w4 = (Ok tt, w5) ->
  run (GetIndexedIDSet cfg) w5 = (r6, w6) ->
  exists s2 s4 s6, r2 = Ok s2 /\ r4 = Ok s4 /\ r6 = Ok s6 /\
    let ttl := GetDuration cfg "pendingReleaseTimeout" in
    (clock w2 - clock w <= ttl -> forall id, id ∈ ids -> id ∉ s2) /\
    (sys_score (clock w1) < sys_score (clock w2 - ttl) ->
       forall id, id ∈ ids -> (id ∈ s2 <-> id ∈ index (db_of w))) /\
    (forall id, id ∈ ids -> (id ∈ s4 <-> id ∈ index (db_of w))) /\
    (forall id, id ∉ ids -> (id ∈ s2 <-> id ∈ index (db_of w) /\
       ~ in_window (pending (db_of w)) (clock w2 - ttl) (clock w2 + time_Hour) id)) /\
    s6 = index (db_of w).
Proof.
  intros Hf Ht Ra Rb Rc Rd Re Rf.
  apply (run_AddTicketsToPendingRelease Hf) in Ra as [_ (t1 & Ht1 & E1)]; [|done].
  apply (run_GetIndexedIDSet cfg Hf) in Rb as (t2 & s2 & Ht2 & E2 & -> & Hs2);
    [|rewrite E1; cbn; auto with om].
  apply (run_DeleteTicketsFromPendingRelease Hf) in Rc as [_ E3]; [|rewrite E2, E1; cbn; auto with om].
  apply (run_GetIndexedIDSet cfg Hf) in Rd as (t4 & s4 & Ht4 & E4 & -> & Hs4);
    [|rewrite E3, E2, E1; cbn; auto with om].
  apply (run_ReleaseAllTickets Hf) in Re as [_ E5].
  apply (run_GetIndexedIDSet cfg Hf) in Rf as (t6 & s6 & Ht6 & E6 & -> & Hs6);
    [|rewrite E5, E4, E3, E2, E1; cbn; rewrite delete_proposed; auto with om].
  rewrite E5, E4, E3, E2, E1 in *. cbn in *. rewrite delete_proposed in *.
  exists s2, s4, s6. split; [done|]. split; [done|]. split; [done|].
  setoid_rewrite Hs2. setoid_rewrite Hs4.
  unfold in_window. autorewrite with om_rw.
  setoid_rewrite lookup_zrem_all. setoid_rewrite lookup_zadd_all.
  split; [|split; [|split; [|split]]].
  - intros Hle id Hid [_ Hn]. apply Hn. rewrite decide_True by done. eexists. split; [done|].
    split; apply sys_score_mono; unfold time_Hour, time_Minute, time_Second; lia.
  - intros Hlt id Hid. rewrite decide_True by done. split; [tauto|]. intros Hi. split; [done|].
    intros (s & [= <-] & Hlo & _). lia.
  - intros id Hid. rewrite decide_True by done. split; [tauto|]. intros Hi. split; [done|].
    by intros (s & ? & _).
  - intros id Hid. by rewrite decide_False.
  - apply set_eq. intros id. rewrite Hs6. autorewrite with om_rw. 
    autorewrite with om_rw. split; [tauto|]. intros Hi. split; [done|].
    by intros (s & Hs & _).
Qed.
End Tickets.

Lemma ticket_lifecycle_witness :
  let t := mem_ticket "t1" in
  let w1 := after (CreateTicket t) mem_init in
  let w2 := after (GetTicket "t1") w1 in
  let w3 := after (DeleteTicket "t1") w2 in
  let w4 := after (GetTicket "t1") w3 in
  ans (GetTicket "t1") w1 = Ok t /\ err_code (ans (GetTicket "t1") w3) = Some NotFound /\
  err_code (ans (DeleteTicket "t1") w4) = Some NotFound.
Proof.
  intros t w1 w2 w3 w4.
  pose proof (ticket_lifecycle t mem_init w1 (ans (GetTicket "t1") w1) w2
    (ans (DeleteTicket "t1") w2) w3 (ans (GetTicket "t1") w3) w4 (ans (DeleteTicket "t1") w4)
    (after (DeleteTicket "t1") w4)
    ltac:(concrete) ltac:(concrete) ltac:(concrete) ltac:(concrete) ltac:(concrete) ltac:(concrete))
    as (H1 & _ & H2 & H3 & _).
  exact (conj H1 (conj H2 H3)).
Defined.

Lemma pending_release_visibility_witness :
  let p ids := AddTicketsToPendingRelease ids in
  let w0 := after (IndexTicket (mem_ticket "a")) (after (IndexTicket (mem_ticket "b")) mem_init) in
  let w1 := after (p ["a"]) w0 in
  let w2 := after (GetIndexedIDSet mem_cfg) w1 in
  ans (GetIndexedIDSet mem_cfg) w1 = Ok {["b"]} /\
  exists s, ans (GetIndexedIDSet mem_cfg) w1 = Ok s /\ forall id, id ∈ ["a"] -> id ∉ s.
Proof.
  intros p w0 w1 w2. split; [vm_compute; reflexivity|].
  set (w3 := after (DeleteTicketsFromPendingRelease ["a"]) w2).
  set (w4 := after (GetIndexedIDSet mem_cfg) w3).
  set (w5 := after ReleaseAllTickets w4).
  pose proof (pending_release_visibility mem_cfg ["a"] w0 w1 w2 w3 w4 w5
    (after (GetIndexedIDSet mem_cfg) w5) (ans (GetIndexedIDSet mem_cfg) w1)
    (ans (GetIndexedIDSet mem_cfg) w3) (ans (GetIndexedIDSet mem_cfg) w5)
    ltac:(concrete) ltac:(concrete) ltac:(concrete) ltac:(concrete) ltac:(concrete)
    ltac:(concrete) ltac:(concrete) ltac:(concrete)) as (s2 & s4 & s6 & H2 & _ & _ & Hh & _).
  exists s2. split; [exact H2|]. apply Hh. concrete.
Defined.

(** ** Assigning tickets *)
Section Assign.
Context `{EnvironmentLaws} `{ProtoLaws} (cfg : View).
Implicit Types (w : env_state).

Lemma elem_of_group_ids groups g id :
  g ∈ groups -> id ∈ ag_TicketIds g -> id ∈ group_ids groups.
Proof.
  intros Hg Hid. unfold group_ids. apply elem_of_concat.
  exists (ag_TicketIds g). split; [by apply list_elem_of_fmap_2|done].
Qed.

(** No id occurs twice, so the group naming it is the one it gets its
    assignment from. *)
Lemma assignment_of_group groups g id : NoDup (group_ids groups) ->
  g ∈ groups -> id ∈ ag_TicketIds g -> assignment_of groups id = ag_Assignment g.
Proof.
  induction groups as [|g' groups IH]; intros Hnd Hg Hid; [by apply not_elem_of_nil in Hg|].
  unfold group_ids in Hnd. cbn in Hnd. apply NoDup_app in Hnd as (_ & Hdis & Hnd). cbn.
  apply elem_of_cons in Hg as [->|Hg]; [by rewrite decide_True|].
  rewrite decide_False; [by apply IH|]. intros Hin.
  apply (Hdis id Hin). by apply (elem_of_group_ids groups g).
Qed.

Lemma invalid_assign groups :
  ~ valid_assign groups <-> Exists (fun g => ag_Assignment g = None) groups \/
    ~ NoDup (group_ids groups) \/ group_ids groups = [].
Proof.
  unfold valid_assign. split.
  - intros Hn. destruct (decide (Forall (fun g => is_Some (ag_Assignment g)) groups)) as [Ha|Ha]; cycle 1.
    { left. apply not_Forall_Exists in Ha; [|apply _]. eapply Exists_impl; [exact Ha|].
      intros g Hg. by apply eq_None_not_Some. }
    destruct (decide (NoDup (group_ids groups))); [|auto].
    destruct (group_ids groups) eqn:?; naive_solver.
  - intros [He|[?|?]] (Ha & ? & ?); [|done..]. apply Exists_exists in He as (g & Hg & He).
    eapply Forall_forall in Ha as [a Ha]; [|exact Hg]. congruence.
Qed.

(** Assigning is all or nothing and reports the missing tickets: a
    successful call on a non-empty request lists exactly the named ids with
    no ticket as failures, returns the named tickets that exist, in order,
    with their group's assignment, stores them so with the assigned-delete
    expiry, and leaves every other key as it was. *)
Theorem update_assignments_effect req w w1 resp tickets :
  sys_faulty = false ->
  let groups := atr_Assignments req in
  let ids := group_ids groups in
  groups <> [] -> well_keyed ids (db_of w) ->
  run (UpdateAssignments cfg req) w = (Ok (resp, tickets), w1) ->
  (forall id, id ∈ af_TicketId <$> atp_Failures resp <-> id ∈ ids /\ get_str (db_of w) id = None) /\
  tickets = assigned_ticket groups <$> omap (ticket_at (db_of w)) ids /\
  (forall g id t, g ∈ groups -> id ∈ ag_TicketIds g -> ticket_at (db_of w) id = Some t ->
     ticket_at (db_of w1) id = Some (set_ticket_assignment (ag_Assignment g) t) /\
     e_px <$> db_of w1 !! id = Some (Some (getAssignedDeleteTimeout cfg `quot` time_Millisecond))) /\
  (forall k, (k ∉ ids \/ ticket_at (db_of w) k = None) -> db_of w1 !! k = db_of w !! k).
Proof.
  intros Hf groups ids Hne Hwk Hr. run_spec Hr (UpdateAssignments_spec cfg req (env_view w) Hwk).
  destruct Hp as [[? _]|((_ & Hnd & _) & Hfail & -> & d' & Hd & ->)]; [done|].
  fold groups ids in Hfail, Hd, Hnd |- *. split; [|split; [done|split]].
  - intros id. rewrite Hfail. unfold missing_failures. rewrite <- list_fmap_compose.
    rewrite list_elem_of_fmap. setoid_rewrite list_elem_of_filter. naive_solver.
  - intros g id t Hg Hid Ht.
    assert (id ∈ ids) as Hin by (by eapply elem_of_group_ids).
    specialize (Hd id). rewrite decide_True, Ht in Hd by done.
    destruct Hd as (b & Hb & Hk). cbn. unfold ticket_at, get_str. rewrite Hk. cbn. split; [|done].
    rewrite (unmarshal_marshal_ticket _ _ Hb). unfold assigned_ticket.
    rewrite (Hwk id t Hin Ht). by rewrite (assignment_of_group groups g).
  - intros k Hk. specialize (Hd k). cbn. case_decide; [|done].
    destruct Hk as [?|Hk]; [done|]. by rewrite Hk in Hd.
Qed.

(** A request is refused exactly when some group has no assignment, a
    ticket is named twice, or no ticket is named, with InvalidArgument and
    with nothing written; an empty request succeeds trivially. *)
Theorem update_assignments_validation req w r w1 :
  sys_faulty = false ->
  let groups := atr_Assignments req in
  well_keyed (group_ids groups) (db_of w) ->
  run (UpdateAssignments cfg req) w = (r, w1) ->
  (err_code r = Some InvalidArgument <->
     groups <> [] /\ (Exists (fun g => ag_Assignment g = None) groups \/
                      ~ NoDup (group_ids groups) \/ group_ids groups = [])) /\
  (is_ok r = false -> env_view w1 = env_view w) /\
  (groups = [] -> r = Ok (mkAssignTicketsResponse [], [])).
Proof.
  intros Hf groups Hwk Hr. run_spec Hr (UpdateAssignments_spec cfg req (env_view w) Hwk).
  fold groups in Hp.
  assert (~ valid_assign groups <-> Exists (fun g => ag_Assignment g = None) groups \/
            ~ NoDup (group_ids groups) \/ group_ids groups = []) as Hv.
  { apply invalid_assign. }
  unfold update_assignments_post in Hp. fold groups in Hp.
  destruct r as [[resp ts]|e]; cbn [err_code is_ok].
  - destruct Hp as [(-> & -> & -> & ->)|(Hva & _ & _ & d' & _ & ->)].
    + repeat split; try done. intros [? _]. done.
    + split; [|split; [done|]].
      * split; [done|]. intros [_ ?%Hv]. done.
      * intros ->. by destruct Hva as (_ & _ & ?).
  - destruct Hp as [(-> & Hne & Hi & ->)|[(-> & Hva & -> & _)|[? _]]]; [..|congruence].
    + rewrite <- Hv. done.
    + rewrite <- Hv. split; [naive_solver|]. split; [done|].
      intros ->. by destruct Hva as (_ & _ & ?).
Qed.
End Assign.

Definition assign_example : AssignTicketsRequest :=
  mkAssignTicketsRequest
    [mkAssignmentGroup ["a"; "x"] (Some (mkAssignment "10.0.0.1:80" ∅));
     mkAssignmentGroup ["b"] (Some (mkAssignment "10.0.0.2:80" ∅))].

(** Two tickets stored; the request also names one that is not. *)
Definition assign_world : env_state :=
  after (CreateTicket (mem_ticket "b")) (after (CreateTicket (mem_ticket "a")) mem_init).

Lemma assign_world_keyed : well_keyed (group_ids (atr_Assignments assign_example)) (db_of assign_world).
Proof.
  intros id t Hid. cbn in Hid. rewrite !elem_of_cons in Hid.
  destruct Hid as [->|[->|[->|?%not_elem_of_nil]]]; [..|done]; vm_compute; by intros [= <-].
Qed.

Lemma update_assignments_effect_witness :
  let r := ans (UpdateAssignments mem_cfg assign_example) assign_world in
  let w1 := after (UpdateAssignments mem_cfg assign_example) assign_world in
  (exists resp ts, r = Ok (resp, ts) /\ af_TicketId <$> atp_Failures resp = ["x"] /\ length ts = 2%nat) /\
  ticket_at (db_of w1) "b" =
    Some (set_ticket_assignment (Some (mkAssignment "10.0.0.2:80" ∅)) (mem_ticket "b")).
Proof.
  intros r w1. split.
  { eexists _, _. split; [vm_compute; reflexivity|]. split; reflexivity. }
  destruct (ans (UpdateAssignments mem_cfg assign_example) assign_world) as [[resp ts]|e] eqn:Hr;
    [|vm_compute in Hr; discriminate].
  pose proof (update_assignments_effect mem_cfg assign_example assign_world w1 resp ts eq_refl
    ltac:(discriminate) assign_world_keyed ltac:(rewrite <- Hr; apply surjective_pairing))
    as (_ & _ & Hb & _).
  apply (Hb (mkAssignmentGroup ["b"] (Some (mkAssignment "10.0.0.2:80" ∅))) "b" (mem_ticket "b"));
    [right; left|left|vm_compute; reflexivity].
Defined.

Lemma update_assignments_validation_witness :
  let req := mkAssignTicketsRequest
    [mkAssignmentGroup ["a"] (Some (mkAssignment "c" ∅)); mkAssignmentGroup ["a"] (Some (mkAssignment "d" ∅))] in
  err_code (ans (UpdateAssignments mem_cfg req) assign_world) = Some InvalidArgument.
Proof.
  intros req.
  pose proof (update_assignments_validation mem_cfg req assign_world
    (ans (UpdateAssignments mem_cfg req) assign_world) (after (UpdateAssignments mem_cfg req) assign_world)
    eq_refl) as Hv.
  destruct Hv as [[_ Hv] _].
  - intros id t Hid. cbn in Hid. rewrite !elem_of_cons in Hid.
    destruct Hid as [->|[->|?%not_elem_of_nil]]; [..|done]; vm_compute; by intros [= <-].
  - apply surjective_pairing.
  - apply Hv. split; [discriminate|]. right; left. cbn. rewrite NoDup_cons. set_solver.
Defined.

(** ** Backfills *)
Section Backfills.
Context `{EnvironmentLaws} `{ProtoLaws} (cfg : View).
Implicit Types (w : env_state).

(** A backfill is created at most once: the created one is read back
    with its tickets, and a second creation under the same id fails with
    AlreadyExists and leaves the first as it was. *)
Theorem create_backfill_once b ids b' ids' w w1 r2 w2 r3 w3 r4 w4 :
  sys_faulty = false -> typed (db_of w) -> b_Id b ∉ reserved -> b_Id b' = b_Id b ->
  is_Some (marshal_backfill (mkBackfillInternal (Some b') ids')) ->
  run (CreateBackfill b ids) w = (Ok tt, w1) ->
  run (GetBackfill (b_Id b)) w1 = (r2, w2) ->
  run (CreateBackfill b' ids') w2 = (r3, w3) ->
  run (GetBackfill (b_Id b)) w3 = (r4, w4) ->
  r2 = Ok (Some b, ids) /\ err_code r3 = Some AlreadyExists /\ r4 = Ok (Some b, ids) /\
  env_view w4 = env_view w1.
Proof.
  intros Hf Ht Hn Hid [s' Hs'] Ra Rb Rc Rd.
  apply (run_CreateBackfill Hf) in Ra; [|done..].
  destruct (marshal_backfill _) as [s|] eqn:Hs in Ra; [|by destruct Ra].
  destruct (db_of w !! b_Id b); [by destruct Ra|]. destruct Ra as [_ (t & Ht1 & E1)].
  apply (run_GetBackfill Hf) in Rb as [E2 Hr2].
  assert (typed (db_of w1)) as Ht1' by (rewrite E1; cbn; unfold acked; auto with om).
  apply (run_CreateBackfill Hf) in Rc; [|by rewrite E2|by rewrite Hid].
  apply (run_GetBackfill Hf) in Rd as [E4 Hr4].
  rewrite Hs', Hid in Rc. rewrite E2 in *.
  assert (db_of w1 !! b_Id b = Some (mkEntry (RStr s) None)) as Hl.
  { rewrite E1. cbn. unfold acked. rewrite lookup_put_acks by done. apply lookup_insert_eq. }
  assert (backfill_at (db_of w1) (b_Id b) = Some (mkBackfillInternal (Some b) ids)) as Hat.
  { unfold backfill_at, get_str. rewrite Hl. by apply unmarshal_marshal_backfill. }
  rewrite Hl in Rc. destruct Rc as [Hr3 E3]. rewrite E3, Hl, Hat in *. done.
Qed.

(** C21. An expired backfill stays expired: once its last acknowledgement
    is older than four fifths of the pending-release timeout, it can
    neither be updated nor acknowledged again (Unavailable, nothing
    written); as long as it is not, an update is stored and an
    acknowledgement recorded. *)
Theorem backfill_expiry b ids la w r w1 r' w1' :
  sys_faulty = false -> typed (db_of w) -> b_Id b ∉ reserved ->
  acks (db_of w) !! b_Id b = Some la ->
  is_Some (marshal_backfill (mkBackfillInternal (Some b) ids)) ->
  run (UpdateBackfill cfg b ids) w = (r, w1) ->
  run (UpdateAcknowledgmentTimestamp cfg (b_Id b)) w = (r', w1') ->
  (la < clock w - getBackfillReleaseTimeout cfg ->
     err_code r = Some Unavailable /\ err_code r' = Some Unavailable /\
     db_of w1 = db_of w /\ db_of w1' = db_of w) /\
  (clock w1 - getBackfillReleaseTimeout cfg <= la ->
     r = Ok tt /\ backfill_at (db_of w1) (b_Id b) = Some (mkBackfillInternal (Some b) ids) /\
     forall k, k <> b_Id b -> db_of w1 !! k = db_of w !! k) /\
  (clock w1' - getBackfillReleaseTimeout cfg <= la ->
     r' = Ok tt /\ acks (db_of w1') = <[b_Id b := sys_score (clock w1')]> (acks (db_of w))).
Proof.
  intros Hf Ht Hn Hla [s Hs] Ra Rb.
  apply (run_UpdateBackfill cfg Hf) in Ra; [|done].
  apply (run_UpdateAcknowledgmentTimestamp cfg Hf) in Rb; [|done].
  rewrite Hla in Ra, Rb. destruct Ra as (t & Ht1 & Ra), Rb as (t' & Ht1' & Rb).
  change (release_ttl cfg) with (getBackfillReleaseTimeout cfg) in *.
  destruct (Z.ltb_spec la (t - getBackfillReleaseTimeout cfg));
    destruct (Z.ltb_spec la (t' - getBackfillReleaseTimeout cfg)); rewrite ?Hs in Ra.
  - destruct Ra as [? ->], Rb as [? ->]. cbn. repeat split; try done; lia.
  - destruct Ra as [? ->], Rb as (t2 & ? & -> & ->). cbn. unfold acked.
    rewrite acks_put_acks. repeat split; try done; lia.
  - destruct Ra as [-> ->], Rb as [? ->]. cbn. rewrite backfill_at_put_str.
    repeat split; try done; try lia; [by apply unmarshal_marshal_backfill|].
    intros k Hk. by apply put_str_ne.
  - destruct Ra as [-> ->], Rb as (t2 & ? & -> & ->). cbn. unfold acked.
    rewrite backfill_at_put_str, acks_put_acks.
    repeat split; try done; try lia; [by apply unmarshal_marshal_backfill|].
    intros k Hk. by apply put_str_ne.
Qed.

(** Deleting a backfill completely leaves nothing of it: its value,
    acknowledgement and index entry are gone, its tickets are no longer
    proposed and every other key and entry is as before, the mutex is free; it
    is refused only while someone else holds the mutex, and then changes
    nothing. *)
Theorem delete_backfill_completely_effect id w r w1 :
  sys_faulty = false -> typed (db_of w) -> id ∉ reserved -> is_Some (db_of w !! id) ->
  run (DeleteBackfillCompletely cfg id) w = (r, w1) ->
  (is_ok r = false -> ~ lock_free (env_view w) (mutex_name id) (clock w) /\ env_view w1 = env_view w) /\
  (is_ok r = true ->
     locks w1 = delete (mutex_name id) (locks w) /\
     (forall k, k ∉ reserved -> db_of w1 !! k = if decide (k = id) then None else db_of w !! k) /\
     acks (db_of w1) = delete id (acks (db_of w)) /\
     bindex (db_of w1) = delete id (bindex (db_of w)) /\
     index (db_of w1) = index (db_of w) /\
     forall k, pending (db_of w1) !! k =
       if decide (k ∈ tickets_of (db_of w) id) then None else pending (db_of w) !! k).
Proof.
  intros Hf Ht Hn Hs Rr. apply (run_DeleteBackfillCompletely cfg Hf) in Rr; [|done..].
  destruct (is_ok r); split; intros; try done. destruct Rr as [-> (t & Hle & Hfree & ->)]. cbn.
  split; [done|]. split; [intros; by apply completely_lookup|].
  split; [|split; [by apply completely_bindex|split; [by apply completely_index|]]].
  - apply map_eq. intros k. rewrite completely_acks by done.
    destruct (decide (k = id)) as [->|]; [rewrite lookup_delete_eq|rewrite lookup_delete_ne by done];
      case_decide; naive_solver.
  - intros k. by apply completely_pending.
Qed.

(** C22. The cleanup removes the expired backfills and nothing else, however
    its three workers are scheduled: the backfills whose last acknowledgement
    is too old when it looks are gone, value, acknowledgement, index entry and
    proposed tickets, all but those whose mutex another client holds; what is
    not gone keeps all of them, and the mutexes it took are free. (An expired
    acknowledgement whose backfill no longer exists is never removed.) *)
Theorem cleanup_backfills_effect w r w1 :
  sys_faulty = false -> typed (db_of w) ->
  (forall id, is_Some (acks (db_of w) !! id) -> id ∉ reserved) ->
  run (CleanupBackfills cfg) w = (r, w1) ->
  r = Ok tt /\ exists now gone, clock w <= now <= clock w1 /\
  let expired := in_window (acks (db_of w)) 0 (now - getBackfillReleaseTimeout cfg) in
  (forall id, id ∈ gone -> expired id) /\
  (forall id, expired id -> lock_free (env_view w) (mutex_name id) (clock w) -> id ∈ gone) /\
  locks w1 = foldr delete (locks w) (mutex_name <$> gone) /\
  (forall id, id ∈ gone -> db_of w1 !! id = None /\ bindex (db_of w1) !! id = None /\
     (acks (db_of w1) !! id = if decide (is_Some (db_of w !! id)) then None else acks (db_of w) !! id) /\
     forall k, k ∈ tickets_of (db_of w) id -> pending (db_of w1) !! k = None) /\
  (forall id, id ∉ reserved -> id ∉ gone ->
     db_of w1 !! id = db_of w !! id /\ bindex (db_of w1) !! id = bindex (db_of w) !! id /\
     acks (db_of w1) !! id = acks (db_of w) !! id) /\
  (forall k, (forall id, id ∈ gone -> k ∉ tickets_of (db_of w) id) ->
     pending (db_of w1) !! k = pending (db_of w) !! k).
Proof.
  intros Hf Ht Hn Rr. run_spec Rr (CleanupBackfills_spec cfg (env_view w) Ht Hn).
  destruct Hp as [_ Hp]. destruct (Hp Hf) as (t & ids & gone & [Ht1 Ht2] & -> & Hnd & Hex & Hgnd & Hsub & Hheld & Hv). clear Hp.
  split; [done|]. exists t, gone. split; [done|]. cbn. change (getBackfillReleaseTimeout cfg) with (release_ttl cfg).
  assert (Forall not_reserved gone) as Hr.
  { apply Forall_forall. intros id (s & Hs & _)%Hsub%Hex. apply Hn. eauto. }
  assert (db_of w1 = foldl completely (db_of w) gone) as Hd by (by rewrite Hv).
  split; [intros id Hid; by apply Hex, Hsub|]. split.
  { intros id Hid Hfree. destruct (decide (id ∈ gone)) as [|Hni]; [done|]. apply Hex in Hid. by destruct (Hheld id Hid Hni). }
  split; [by rewrite Hv|]. rewrite Hd. split; [|split].
  - intros id Hid.
    rewrite completely_all_lookup, completely_all_bindex, completely_all_acks by
      (done || by eapply Forall_forall in Hr).
    rewrite !decide_True by done. repeat split; [repeat case_decide; tauto|].
    intros k Hk. rewrite completely_all_pending, decide_True; [done| |done..].
    apply elem_of_concat. exists (tickets_of (db_of w) id). split; [by apply list_elem_of_fmap_2|done].
  - intros id Hres Hid.
    rewrite completely_all_lookup, completely_all_bindex, completely_all_acks by done.
    rewrite !decide_False; [done|naive_solver..].
  - intros k Hk. rewrite completely_all_pending, decide_False; [done| |done..].
    intros (l & Hl' & Hkl)%elem_of_concat. apply list_elem_of_fmap in Hl' as (id & -> & Hid).
    by apply (Hk id Hid).
Qed.

(** C23. The backfill index is a faithful decimal encoding: indexing a
    backfill makes the next listing give its id exactly its generation,
    for every 64-bit generation and as long as its acknowledgement is
    current, and leaves the other listed backfills alone. *)
Theorem index_backfill_roundtrip b w w1 r w2 :
  sys_faulty = false -> typed (db_of w) -> in_int64 (b_Generation b) = true ->
  (forall id s, bindex (db_of w) !! id = Some s -> is_Some (atoi s)) ->
  run (IndexBackfill b) w = (Ok tt, w1) ->
  run (GetIndexedBackfills cfg) w1 = (r, w2) ->
  exists m, r = Ok m /\
    let current := in_window (acks (db_of w)) (clock w2 - getBackfillReleaseTimeout cfg)
                     (clock w2 + time_Hour) in
    (current (b_Id b) -> m !! b_Id b = Some (b_Generation b)) /\
    (~ current (b_Id b) -> m !! b_Id b = None) /\
    (forall id g, id <> b_Id b ->
       (m !! id = Some g <-> current id /\ exists s, bindex (db_of w) !! id = Some s /\ atoi s = Some g)).
Proof.
  intros Hf Ht Hg Hgen Ra Rb. apply (run_IndexBackfill Hf) in Ra as [_ E1]; [|done].
  apply (run_GetIndexedBackfills cfg Hf) in Rb as (t & m & Ht1 & E2 & -> & Hm); cycle 1.
  { rewrite E1. cbn. auto with om. }
  { intros id s. rewrite E1. cbn. rewrite bindex_put_bindex.
    intros [[<- <-]|[_ ?]]%lookup_insert_Some; [|by eapply Hgen].
    rewrite atoi_itoa by done. eauto. }
  exists m. split; [done|]. rewrite E2. cbn. change (getBackfillReleaseTimeout cfg) with (release_ttl cfg).
  rewrite E1 in Hm. cbn in Hm. rewrite acks_put_bindex, bindex_put_bindex in Hm.
  split; [|split].
  - intros Hw. apply Hm. split; [done|]. rewrite lookup_insert_eq. cbn. by apply atoi_itoa.
  - intros Hw. apply eq_None_not_Some. intros [g Hg']. by apply Hm in Hg' as [? _].
  - intros id g Hne. rewrite Hm, lookup_insert_ne by done. rewrite bind_Some. naive_solver.
Qed.
End Backfills.

Lemma create_backfill_once_witness :
  let b := mem_backfill "bf" 1 in
  let w1 := after (CreateBackfill b ["a"]) mem_init in
  let w2 := after (GetBackfill "bf") w1 in
  err_code (ans (CreateBackfill (mem_backfill "bf" 7) []) w2) = Some AlreadyExists.
Proof.
  intros b w1 w2. set (w3 := after (CreateBackfill (mem_backfill "bf" 7) []) w2).
  apply (create_backfill_once b ["a"] (mem_backfill "bf" 7) [] mem_init w1 (ans (GetBackfill "bf") w1) w2
    (ans (CreateBackfill (mem_backfill "bf" 7) []) w2) w3 (ans (GetBackfill "bf") w3)
    (after (GetBackfill "bf") w3)); concrete.
Defined.

(** The state store of the in-memory world. *)
Definition mem_store : Service := redisBackend mem_cfg.

#[export] Instance mem_store_spec : ServiceSpec mem_cfg mem_store.
Proof. apply _. Qed.

(** A backfill acknowledged now, and one acknowledged in 1970. *)
Definition expiry_world : env_state :=
  let w := after (CreateBackfill (mem_backfill "bf" 1) ["a"]) mem_init in
  let w := after (IndexBackfill (mem_backfill "old" 1)) w in
  let w := after (AddTicketsToPendingRelease ["a"; "b"]) w in
  mkMem (put_acks (<["old" := default (mkEntry (RStr "") None) (m_db w !! "bf")]> (m_db w))
           (<["old" := 0]> (acks (m_db w))))
    ∅ (m_now w) 0 ∅.

Lemma expiry_world_typed : typed (db_of expiry_world).
Proof. concrete. Qed.

Lemma backfill_expiry_witness :
  err_code (ans (UpdateAcknowledgmentTimestamp mem_cfg "old") expiry_world) = Some Unavailable /\
  ans (UpdateBackfill mem_cfg (mem_backfill "bf" 2) []) expiry_world = Ok tt.
Proof.
  split.
  - assert (acks (db_of expiry_world) !! "old" = Some 0) as Hs by (vm_compute; reflexivity).
    pose proof (backfill_expiry mem_cfg (mem_backfill "old" 2) [] 0 expiry_world _ _ _ _
      eq_refl expiry_world_typed ltac:(concrete) Hs ltac:(by eexists)
      (surjective_pairing _) (surjective_pairing _)) as H.
    destruct H as [H _]. apply H. vm_compute. reflexivity.
  - assert (acks (db_of expiry_world) !! "bf" = Some 1614556800000999936) as Hs by (vm_compute; reflexivity).
    pose proof (backfill_expiry mem_cfg (mem_backfill "bf" 2) [] 1614556800000999936 expiry_world _ _ _ _
      eq_refl expiry_world_typed ltac:(concrete) Hs ltac:(by eexists)
      (surjective_pairing _) (surjective_pairing _)) as H.
    destruct H as (_ & H & _). apply H. vm_compute. discriminate.
Defined.

Lemma delete_backfill_completely_effect_witness :
  let w1 := after (DeleteBackfillCompletely mem_cfg "bf") expiry_world in
  acks (db_of w1) = delete "bf" (acks (db_of expiry_world)) /\
  pending (db_of w1) !! "a" = None /\ is_Some (pending (db_of w1) !! "b").
Proof.
  intros w1.
  destruct (delete_backfill_completely_effect mem_cfg "bf" expiry_world
    (ans (DeleteBackfillCompletely mem_cfg "bf") expiry_world) w1 eq_refl expiry_world_typed
    ltac:(concrete) ltac:(vm_compute; by eexists) ltac:(apply surjective_pairing)) as [_ Hd].
  destruct (Hd ltac:(vm_compute; reflexivity)) as (_ & _ & Ha & _ & _ & Hp).
  split; [exact Ha|]. split; [etrans; [apply Hp|vm_compute; reflexivity]|].
  eexists. etrans; [apply Hp|vm_compute; reflexivity].
Defined.

(** Five expired backfills, the mutex of one of them held by a client. *)
Definition sweep_world : env_state :=
  let bf := default (mkEntry (RStr "") None) (m_db expiry_world !! "bf") in
  let ids := ["old"; "old2"; "old3"; "old4"; "busy"] in
  mkMem (put_acks (foldr (fun id d => <[id := bf]> d) (m_db expiry_world) ids)
           (foldr (fun id z => <[id := 0]> z) (acks (m_db expiry_world)) ids))
    ∅ (m_now expiry_world) 0 {[mutex_name "busy" := ("client", m_now expiry_world + time_Minute)]}.

Lemma cleanup_backfills_effect_witness :
  let w1 := after (CleanupBackfills mem_cfg) sweep_world in
  db_of w1 !! "old" = None /\ db_of w1 !! "old4" = None /\ is_Some (db_of w1 !! "busy") /\ is_Some (db_of w1 !! "bf").
Proof.
  intros w1. assert (typed (db_of sweep_world)) as Ht by concrete.
  destruct (cleanup_backfills_effect mem_cfg sweep_world
    (ans (CleanupBackfills mem_cfg) sweep_world) w1 eq_refl Ht) as (_ & now & gone & [Hnow _] & He).
  - intros id Hid. destruct (decide (id ∈ reserved)) as [Hr|]; [|done]. exfalso.
    unfold reserved in Hr. rewrite !elem_of_cons in Hr.
    destruct Hr as [->|[->|[->|[->|?%not_elem_of_nil]]]]; vm_compute in Hid; by destruct Hid.
  - apply surjective_pairing.
  - destruct He as (_ & Hin & _ & Hg & _). assert (forall id, acks (db_of sweep_world) !! id = Some 0 ->
      lock_free (env_view sweep_world) (mutex_name id) (clock sweep_world) -> db_of w1 !! id = None) as Hold.
    { intros id Ha Hl. apply Hg, Hin; [|exact Hl]. exists 0. split; [exact Ha|]. split; [vm_compute; discriminate|].
      change 0 with (sys_score 0) at 1. apply sys_score_mono. change (getBackfillReleaseTimeout mem_cfg) with 48000000000.
      assert (48000000000 <= clock sweep_world) by (vm_compute; discriminate). lia. }
    split; [|split]; [apply Hold; vm_compute; done..|]. vm_compute. eauto.
Defined.

Lemma index_backfill_roundtrip_witness :
  let w1 := after (IndexBackfill (mem_backfill "bf" (2 ^ 63 - 1))) expiry_world in
  exists m, ans (GetIndexedBackfills mem_cfg) w1 = Ok m /\ m !! "bf" = Some (2 ^ 63 - 1).
Proof.
  intros w1.
  destruct (index_backfill_roundtrip mem_cfg (mem_backfill "bf" (2 ^ 63 - 1)) expiry_world w1
    (ans (GetIndexedBackfills mem_cfg) w1) (after (GetIndexedBackfills mem_cfg) w1))
    as (m & Hm & Hc & _);
    [reflexivity|exact expiry_world_typed|reflexivity| |vm_compute; reflexivity|apply surjective_pairing|].
  - assert (map_Forall (fun _ s => is_Some (atoi s)) (bindex (db_of expiry_world))) as Hall
      by concrete.
    intros id s Hs. by apply (Hall id s).
  - exists m. split; [exact Hm|]. apply Hc.
    exists 1614556800000999936. split; [vm_compute; reflexivity|]. vm_compute. split; discriminate.
Defined.
