(* ===== verification/StoreSchema.v ===== *)
(** * The schema of the keyspace

    What the keys of Redis hold when the program is written to through the
    interface of the state store only: the four shared keys have their types,
    every other key is a ticket or a backfill stored under its own id, every
    generation in the index of backfills is a number, and no shared key is
    acknowledged as if it were a backfill. Every operation keeps the schema,
    also when it fails half way. *)
From S2P Require Export StoreProps.
From S2P Require FlakyEnv.

Section Schema.
Context `{Sys} `{Proto}.
Implicit Types (d : db).

Definition is_ticket d id : Prop := exists t, ticket_at d id = Some t /\ t_Id t = id.
Definition is_backfill d id : Prop := exists b ids, backfill_at d id = Some (mkBackfillInternal (Some b) ids) /\ b_Id b = id.

Record schema d : Prop := mkSchema {
  sc_typed : typed d;
  sc_entities id : id ∉ reserved -> is_Some (d !! id) -> is_ticket d id \/ is_backfill d id;
  sc_acks id : is_Some (acks d !! id) -> id ∉ reserved;
  sc_bindex id s : bindex d !! id = Some s -> is_Some (atoi s);
}.

Lemma entity_ext d d' id : d' !! id = d !! id -> is_ticket d id \/ is_backfill d id -> is_ticket d' id \/ is_backfill d' id.
Proof.
  unfold is_ticket, is_backfill. intros Hd. by rewrite (ticket_at_ext _ _ _ Hd), (backfill_at_ext _ _ _ Hd).
Qed.

(** Only the shared keys differ, in members that the schema does not
    constrain. *)
Lemma schema_frame d d' : schema d -> typed d' -> (forall id, id ∉ reserved -> d' !! id = d !! id) ->
  (forall id, is_Some (acks d' !! id) -> is_Some (acks d !! id)) -> bindex d' ⊆ bindex d -> schema d'.
Proof.
  intros [Ht He Ha Hb] Ht' He' Ha' Hb'. split; [done| |by eauto|].
  - intros id Hid Hs. rewrite He' in Hs by done. by apply (entity_ext d), He; [apply He'|..].
  - intros id s Hs. by eapply Hb, lookup_weaken.
Qed.

Lemma schema_put_index d x : schema d -> schema (put_index d x).
Proof.
  intros Hs. apply (schema_frame d); [done|apply typed_put_index, Hs| | |].
  - intros id Hid. by apply lookup_put_index.
  - intros id. by rewrite acks_put_index.
  - by rewrite bindex_put_index.
Qed.

Lemma schema_put_pending d z : schema d -> schema (put_pending d z).
Proof.
  intros Hs. apply (schema_frame d); [done|apply typed_put_pending, Hs| | |].
  - intros id Hid. by apply lookup_put_pending.
  - intros id. by rewrite acks_put_pending.
  - by rewrite bindex_put_pending.
Qed.

Lemma schema_add_pending d ids t : schema d -> schema (add_pending d ids t).
Proof. destruct ids; [done|apply schema_put_pending]. Qed.
Lemma schema_remove_pending d ids : schema d -> schema (remove_pending d ids).
Proof. destruct ids; [done|apply schema_put_pending]. Qed.

Lemma schema_removes d d' : only_removes d d' -> schema d -> schema d'.
Proof.
  intros [Ht' Hd' Ha' Hb'] [Ht He Ha Hb]. split; [done| |by eauto|].
  - intros id Hid Hs. destruct (Hd' id Hid) as [Heq|Heq]; [|by rewrite Heq in Hs; destruct Hs].
    rewrite Heq in Hs. apply (entity_ext d); auto.
  - intros id s Hs. by eapply Hb, lookup_weaken.
Qed.

Lemma schema_put_bindex d h : (forall id s, h !! id = Some s -> is_Some (atoi s)) -> schema d -> schema (put_bindex d h).
Proof.
  intros Hh [Ht He Ha Hb]. split; [by apply typed_put_bindex| | |].
  - intros id Hid Hs. rewrite lookup_put_bindex in Hs by done. apply (entity_ext d); [|auto].
    by apply lookup_put_bindex.
  - intros id. rewrite acks_put_bindex. apply Ha.
  - intros id s. rewrite bindex_put_bindex. apply Hh.
Qed.

Lemma schema_acked d id t : id ∉ reserved -> schema d -> schema (acked d id t).
Proof.
  intros Hid [Ht He Ha Hb]. unfold acked. split; [by apply typed_put_acks| | |].
  - intros i Hi Hs. rewrite lookup_put_acks in Hs by done. apply (entity_ext d); [|auto].
    by apply lookup_put_acks.
  - intros i. rewrite acks_put_acks, lookup_insert_is_Some. intros [<-|[_ ?]]; auto.
  - intros i s. rewrite bindex_put_acks. apply Hb.
Qed.

(** Storing an entity under its id. *)
Lemma schema_put_str d id s px : id ∉ reserved -> schema d ->
  (is_ticket (put_str d id s px) id \/ is_backfill (put_str d id s px) id) -> schema (put_str d id s px).
Proof.
  intros Hid [Ht He Ha Hb] Hs. split; [by apply typed_put_str| | |].
  - intros i Hi Hsome. destruct (decide (i = id)) as [->|Hne]; [done|].
    rewrite put_str_ne in Hsome by done. apply (entity_ext d); [|auto]. by apply put_str_ne.
  - intros i. rewrite acks_put_str by done. apply Ha.
  - intros i v. rewrite bindex_put_str by done. apply Hb.
Qed.

Context `{!ProtoLaws}.

Lemma schema_put_ticket d t b : t_Id t ∉ reserved -> marshal_ticket t = Some b -> schema d ->
  schema (put_str d (t_Id t) b None).
Proof.
  intros Hid Hb Hs. apply schema_put_str; [done..|]. left. exists t. split; [|done].
  rewrite ticket_at_put_str. by apply unmarshal_marshal_ticket.
Qed.

Lemma schema_put_backfill d bf ids b : b_Id bf ∉ reserved -> marshal_backfill (mkBackfillInternal (Some bf) ids) = Some b ->
  schema d -> schema (put_str d (b_Id bf) b None).
Proof.
  intros Hid Hb Hs. apply schema_put_str; [done..|]. right. exists bf, ids. split; [|done].
  rewrite backfill_at_put_str. by apply unmarshal_marshal_backfill.
Qed.

(** The keys written are those of tickets, so never a shared one. *)
Lemma schema_assign groups px d d' : well_keyed (group_ids groups) d -> assign_db groups px d d' -> schema d -> schema d'.
Proof.
  intros Hk Hd [Ht He Ha Hb].
  assert (forall k, k ∈ reserved -> d' !! k = d !! k) as Hres.
  { intros k Hr. specialize (Hd k). case_decide; [|done]. destruct (ticket_at d k) as [t|] eqn:Hat; [|done].
    exfalso. unfold ticket_at in Hat. by rewrite (reserved_not_str d k Ht Hr) in Hat. }
  destruct (readings_ext d d' Hres) as (_ & _ & Hacks & Hbi & Htyped). split; [auto| | |].
  - intros id Hid Hs. specialize (Hd id). case_decide as Hin; [|rewrite Hd in Hs; apply (entity_ext d); auto].
    destruct (ticket_at d id) as [t|] eqn:Hat; [|rewrite Hd in Hs; apply (entity_ext d); auto].
    destruct Hd as (b & Hb' & Hd). left. exists (assigned_ticket groups t). split; [|by apply (Hk id t)].
    unfold ticket_at, get_str. rewrite Hd. by apply unmarshal_marshal_ticket.
  - intros id. rewrite Hacks. apply Ha.
  - intros id s. rewrite Hbi. apply Hb.
Qed.
End Schema.

(** ** The operations of the interface

    A call with its arguments: [GetAssignments] with its callback, [Unlock] with
    the value the mutex object keeps. *)
Inductive call :=
  | CallHealthCheck | CallClose
  | CallGetAssignments (St : Type) (callback : St -> option Assignment -> St * result unit) (attempts : nat) (id : string) (s : St)
  | CallCreateTicket (t : Ticket) | CallGetTicket (id : string) | CallDeleteTicket (id : string)
  | CallIndexTicket (t : Ticket) | CallDeindexTicket (id : string) | CallGetIndexedIDSet
  | CallGetTickets (ids : list string) | CallUpdateAssignments (req : AssignTicketsRequest)
  | CallAddTicketsToPendingRelease (ids : list string) | CallDeleteTicketsFromPendingRelease (ids : list string)
  | CallReleaseAllTickets | CallCreateBackfill (b : Backfill) (ids : list string) | CallGetBackfill (id : string)
  | CallGetBackfills (ids : list string) | CallDeleteBackfill (id : string) | CallDeleteBackfillCompletely (id : string)
  | CallUpdateBackfill (b : Backfill) (ids : list string) | CallLock (key : string) | CallUnlock (key token : string)
  | CallCleanupBackfills | CallUpdateAcknowledgmentTimestamp (id : string) | CallGetExpiredBackfillIDs
  | CallIndexBackfill (b : Backfill) | CallDeindexBackfill (id : string) | CallGetIndexedBackfills.

(** The call, and whether it returned an error. *)
Definition outcome {A} (p : prog (result A)) : prog (option error) :=
  r ←! p; Ret (match r with Ok _ => None | Err err => Some err end).

Definition invoke (s : Service) (c : call) : prog (option error) :=
  match c with
  | CallHealthCheck => outcome (svc_HealthCheck s)
  | CallClose => outcome (svc_Close s)
  | CallGetAssignments St callback attempts id x => r ←! svc_GetAssignments s St callback attempts id x; Ret r.2
  | CallCreateTicket t => outcome (svc_CreateTicket s t)
  | CallGetTicket id => outcome (svc_GetTicket s id)
  | CallDeleteTicket id => outcome (svc_DeleteTicket s id)
  | CallIndexTicket t => outcome (svc_IndexTicket s t)
  | CallDeindexTicket id => outcome (svc_DeindexTicket s id)
  | CallGetIndexedIDSet => outcome (svc_GetIndexedIDSet s)
  | CallGetTickets ids => outcome (svc_GetTickets s ids)
  | CallUpdateAssignments req => outcome (svc_UpdateAssignments s req)
  | CallAddTicketsToPendingRelease ids => outcome (svc_AddTicketsToPendingRelease s ids)
  | CallDeleteTicketsFromPendingRelease ids => outcome (svc_DeleteTicketsFromPendingRelease s ids)
  | CallReleaseAllTickets => outcome (svc_ReleaseAllTickets s)
  | CallCreateBackfill b ids => outcome (svc_CreateBackfill s b ids)
  | CallGetBackfill id => outcome (svc_GetBackfill s id)
  | CallGetBackfills ids => outcome (svc_GetBackfills s ids)
  | CallDeleteBackfill id => outcome (svc_DeleteBackfill s id)
  | CallDeleteBackfillCompletely id => outcome (svc_DeleteBackfillCompletely s id)
  | CallUpdateBackfill b ids => outcome (svc_UpdateBackfill s b ids)
  | CallLock key => outcome (svc_Lock s key)
  | CallUnlock key token => outcome (svc_Unlock s key token)
  | CallCleanupBackfills => outcome (svc_CleanupBackfills s)
  | CallUpdateAcknowledgmentTimestamp id => outcome (svc_UpdateAcknowledgmentTimestamp s id)
  | CallGetExpiredBackfillIDs => outcome (svc_GetExpiredBackfillIDs s)
  | CallIndexBackfill b => outcome (svc_IndexBackfill s b)
  | CallDeindexBackfill id => outcome (svc_DeindexBackfill s id)
  | CallGetIndexedBackfills => outcome (svc_GetIndexedBackfills s)
  end.

Section Calls.
Context `{Sys} `{Proto}.

(** What a caller has to see to: ids of entities are not the shared keys,
    generations are [int64], and only tickets are assigned. *)
Definition call_ok (d : db) (c : call) : Prop :=
  match c with
  | CallCreateTicket t => t_Id t ∉ reserved
  | CallDeleteTicket id | CallDeleteBackfill id | CallDeleteBackfillCompletely id => id ∉ reserved
  | CallCreateBackfill b _ | CallUpdateBackfill b _ => b_Id b ∉ reserved
  | CallUpdateAssignments req => well_keyed (group_ids (atr_Assignments req)) d
  | CallIndexBackfill b => in_int64 (b_Generation b) = true
  | _ => True
  end.

Context `{!ProtoLaws} (cfg : View) (s : Service) `{!ServiceSpec cfg s}.
Implicit Types (v : view).

Lemma wp_outcome {A} (p : prog (result A)) v (post : result A -> view -> Prop) (Q : view -> Prop) :
  wp p v post -> (forall r v', post r v' -> Q v') -> wp (outcome p) v (fun _ v' => Q v').
Proof. intros Hp HQ. apply wp_bind. eapply wp_mono; [exact Hp|]. intros r v' Hr. apply wp_ret. by eapply HQ. Qed.

Lemma schema_fault v v' (R : db -> Prop) : schema (v_db v) -> (forall d, R d -> schema d) -> fault v v' R -> schema (v_db v').
Proof. apply keep_fault. Qed.

(** The writes of tickets and of the sets of proposals and ids. *)
Lemma create_ticket_schema t v r v' : schema (v_db v) -> t_Id t ∉ reserved -> create_ticket_post t v r v' -> schema (v_db v').
Proof.
  intros Hs Hid. assert (forall d', (exists b, marshal_ticket t = Some b /\ d' = put_str (v_db v) (t_Id t) b None) -> schema d')
    as Hput by (intros d' (b & Hb & ->); by apply schema_put_ticket).
  destruct r as [[]|e]; cbn; [intros (d' & Hd & ->); cbn; auto|].
  intros [(_ & _ & ->)|[_ Hf]]; [done|]. exact (schema_fault _ _ _ Hs Hput Hf).
Qed.

Lemma delete_schema id v r v' : schema (v_db v) -> id ∉ reserved -> delete_post id v r v' -> schema (v_db v').
Proof.
  intros Hs Hid. assert (schema (delete id (v_db v))) as Hd.
  { eapply schema_removes; [|exact Hs]. apply removes_delete; [done|]. apply removes_refl, Hs. }
  destruct r as [[]|e]; cbn; [by intros [_ ->]|].
  intros [(_ & _ & ->)|[_ Hf]]; [done|]. eapply schema_fault; [done| |exact Hf]. by intros ? ->.
Qed.

Lemma assign_schema req v r v' : schema (v_db v) -> well_keyed (group_ids (atr_Assignments req)) (v_db v) ->
  update_assignments_post cfg req v r v' -> schema (v_db v').
Proof.
  intros Hs Hk. destruct r as [[resp ts]|e]; cbn.
  - intros [(_ & _ & _ & ->)|(_ & _ & _ & d' & Hd & ->)]; [done|]. by eapply schema_assign.
  - intros [(_ & _ & _ & ->)|[(_ & _ & -> & _)|Hf]]; [done..|]. eapply schema_fault; [done| |exact Hf].
    intros d' Hd. by eapply schema_assign.
Qed.

Lemma pending_schema ids v r v' : schema (v_db v) -> add_pending_post ids v r v' -> schema (v_db v').
Proof.
  intros Hs. destruct r as [[]|e]; cbn.
  - intros (t & _ & ->). by apply schema_add_pending.
  - apply schema_fault; [done|]. intros d (t & _ & ->). by apply schema_add_pending.
Qed.

Lemma release_all_schema v r v' : schema (v_db v) -> release_all_post v r v' -> schema (v_db v').
Proof.
  intros Hs. assert (schema (delete proposedTicketIDs (v_db v))) as Hd
    by (rewrite delete_proposed; by apply schema_put_pending).
  destruct r as [[]|e]; cbn; [by intros ->|]. apply schema_fault; [done|]. by intros ? ->.
Qed.

(** The writes of backfills. *)
Lemma create_backfill_schema b ids v r v' : schema (v_db v) -> b_Id b ∉ reserved ->
  create_backfill_post b ids v r v' -> schema (v_db v').
Proof.
  intros Hs Hid. unfold create_backfill_post. destruct r as [[]|e].
  - intros (x & t & Hx & _ & _ & ->). apply schema_acked; [done|]. by eapply schema_put_backfill.
  - intros [(_ & _ & ->)|[(_ & _ & _ & ->)|Hf]]; [done..|]. eapply schema_fault; [done| |exact Hf].
    intros d (x & Hx & _ & [->|(t & _ & ->)]); [|apply schema_acked; [done|]]; by eapply schema_put_backfill.
Qed.

Lemma not_alive_schema id v e v' : schema (v_db v) -> not_alive cfg id v e v' -> schema (v_db v').
Proof. intros Hs [(_ & _ & ->)|(_ & t & la & _ & _ & _ & ->)]; done. Qed.

Lemma update_backfill_schema b ids v r v' : schema (v_db v) -> b_Id b ∉ reserved ->
  update_backfill_post cfg b ids v r v' -> schema (v_db v').
Proof.
  intros Hs Hid. unfold update_backfill_post. destruct r as [[]|e].
  - intros (x & t & Hx & _ & _ & ->). by eapply schema_put_backfill.
  - intros [Hn|[(_ & _ & t & _ & _ & ->)|Hf]]; [by eapply not_alive_schema|done|]. eapply schema_fault; [done| |exact Hf].
    intros d (x & Hx & ->). by eapply schema_put_backfill.
Qed.

Lemma update_ack_schema id v r v' : schema (v_db v) -> update_ack_post cfg id v r v' -> schema (v_db v').
Proof.
  intros Hs. assert (forall t1 t2, alive cfg (v_db v) id t1 -> schema (acked (v_db v) id t2)) as Hack.
  { intros t1 t2 (la & Hla & _). apply schema_acked; [|done]. apply (sc_acks _ Hs). by eexists. }
  destruct r as [[]|e]; cbn.
  - intros (t1 & t2 & _ & Ha & _ & ->). by apply (Hack t1).
  - intros [Hn|Hf]; [by eapply not_alive_schema|]. eapply schema_fault; [done| |exact Hf].
    intros d (t1 & t2 & _ & Ha & _ & ->). by apply (Hack t1).
Qed.

(** Run the call by its contract [lem] and keep the schema by [tac]. *)
#[local] Tactic Notation "keeps" uconstr(lem) tactic3(tac) :=
  eapply wp_outcome; [by apply lem|]; intros r v' Hp; cbn beta in Hp; tac.

Lemma invoke_schema c v : schema (v_db v) -> call_ok (v_db v) c -> wp (invoke s c) v (fun _ v' => schema (v_db v')).
Proof.
  intros Hs Hc. pose proof (sc_typed _ Hs) as Ht. destruct c; cbn [invoke call_ok] in *.
  - keeps (spec_HealthCheck (cfg := cfg)) by destruct Hp as [-> _].
  - keeps (spec_Close (cfg := cfg)) by destruct Hp as [-> _].
  - apply wp_bind. eapply wp_mono; [apply (spec_GetAssignments (cfg := cfg))|]. intros x v' [-> _]. by apply wp_ret.
  - keeps (spec_CreateTicket (cfg := cfg)) by eapply create_ticket_schema.
  - keeps (spec_GetTicket (cfg := cfg)) by destruct Hp as [-> _].
  - keeps (spec_DeleteTicket (cfg := cfg)) by eapply delete_schema.
  - keeps (spec_IndexTicket (cfg := cfg)) by eapply keep_indexing; [| |exact Hp]; [|apply schema_put_index].
  - keeps (spec_DeindexTicket (cfg := cfg)) by eapply keep_indexing; [| |exact Hp]; [|apply schema_put_index].
  - keeps spec_GetIndexedIDSet by destruct Hp as (? & _ & -> & _).
  - keeps (spec_GetTickets (cfg := cfg)) by destruct Hp as [-> _].
  - keeps spec_UpdateAssignments by eapply assign_schema.
  - keeps (spec_AddTicketsToPendingRelease (cfg := cfg)) by eapply pending_schema.
  - keeps (spec_DeleteTicketsFromPendingRelease (cfg := cfg))
      by eapply keep_remove_pending; [| |exact Hp]; [|apply schema_remove_pending].
  - keeps (spec_ReleaseAllTickets (cfg := cfg)) by eapply release_all_schema.
  - keeps (spec_CreateBackfill (cfg := cfg)) by eapply create_backfill_schema.
  - keeps (spec_GetBackfill (cfg := cfg)) by destruct Hp as [-> _].
  - keeps (spec_GetBackfills (cfg := cfg)) by destruct Hp as [-> _].
  - keeps (spec_DeleteBackfill (cfg := cfg)) eapply (keep_delete_backfill schema); [done|..|exact Hp];
      (eapply schema_removes; [|exact Hs]); auto with om.
  - keeps (spec_DeleteBackfillCompletely (cfg := cfg)) destruct Hp as [Hr _]; by eapply schema_removes.
  - keeps spec_UpdateBackfill by eapply update_backfill_schema.
  - keeps (spec_Lock (cfg := cfg)) destruct r as [tok|e]; cbn in Hp; [by destruct Hp as (t & _ & _ & ->)|];
      by destruct Hp as [[_ ->]|[_ [->|(tok & t & _ & _ & ->)]]].
  - keeps (spec_Unlock (cfg := cfg)) destruct Hp as [[->|(_ & _ & ->)] _]; [by rewrite unlocked_db|done].
  - eapply wp_outcome; [by apply spec_CleanupBackfills; [|apply (sc_acks _ Hs)]|]. intros r v' [Hr _]. by eapply schema_removes.
  - keeps spec_UpdateAcknowledgmentTimestamp by eapply update_ack_schema.
  - keeps spec_GetExpiredBackfillIDs by destruct Hp as (? & _ & -> & _).
  - keeps (spec_IndexBackfill (cfg := cfg)) eapply keep_indexing; [done| |exact Hp].
    apply schema_put_bindex; [|done]. intros id x. rewrite lookup_insert_Some.
    intros [[_ <-]|[_ Hx]]; [rewrite atoi_itoa by done; by eexists|by eapply sc_bindex].
  - keeps (spec_DeindexBackfill (cfg := cfg)) eapply keep_indexing; [done| |exact Hp].
    apply schema_put_bindex; [|done]. intros id' x [_ Hx]%lookup_delete_Some. by eapply sc_bindex.
  - keeps spec_GetIndexedBackfills by destruct Hp as (? & _ & -> & _).
Qed.
End Calls.

(** ** Sessions

    Calls one after the other from any number of clients; between them keys
    may expire and anything may happen to the rest of the world. *)
Section Sessions.
Context `{EnvironmentLaws} `{ProtoLaws} (cfg : View) (s : Service) `{!ServiceSpec cfg s}.

Inductive session : env_state -> env_state -> Prop :=
  | session_end w : session w w
  | session_call w c r w1 w' : call_ok (db_of w) c -> run (invoke s c) w = (r, w1) -> session w1 w' -> session w w'
  | session_expiry w w1 w' : only_removes (db_of w) (db_of w1) -> session w1 w' -> session w w'.

Lemma session_schema w w' : session w w' -> schema (db_of w) -> schema (db_of w').
Proof.
  induction 1 as [|w c r w1 w' Hc Hrun _ IH|w w1 w' Hr _ IH]; intros Hs; [done|..]; apply IH.
  - exact (run_wp _ _ _ _ _ (invoke_schema cfg s c _ Hs Hc) Hrun).
  - by eapply schema_removes.
Qed.

(** C19. Whatever calls are made in whatever order on a store that starts with
    the schema by callers that never use a shared key as an entity's id, give
    [int64] generations and assign tickets stored under their own ids
    ([call_ok]), and however many of them fail, also half way: every command
    of the program finds a value of the type it expects, every record is a
    ticket or a backfill under its own id that can be read, no shared key can
    be swept away as an expired backfill, and the index of backfills reads as
    numbers: a call then fails for reasons the caller is told about or because
    of Redis. *)
Theorem store_schema w w' (Hw : schema (db_of w)) (Hsession : session w w') :
  typed (db_of w') /\
  (forall id, id ∉ reserved -> is_Some (db_of w' !! id) ->
     (exists t, ticket_at (db_of w') id = Some t /\ t_Id t = id) \/
     (exists b ids, backfill_at (db_of w') id = Some (mkBackfillInternal (Some b) ids) /\ b_Id b = id)) /\
  (forall id, id ∈ reserved -> acks (db_of w') !! id = None) /\
  (forall r w'', sys_faulty = false -> run (svc_GetIndexedBackfills s) w' = (r, w'') -> exists m, r = Ok m).
Proof.
  apply session_schema in Hsession; [|done]. destruct Hsession as [Ht He Ha Hb].
  split; [done|]. split; [exact He|]. split.
  - intros id Hid. destruct (_ !! id) eqn:Hx; [|done]. by destruct (Ha id ltac:(by eexists)).
  - intros r w'' Hf Hrun. pose proof (run_wp _ _ _ _ _ (spec_GetIndexedBackfills _ Ht) Hrun) as (t & _ & _ & Hr).
    destruct r as [m|e]; [by eexists|]. destruct Hr as [?|(id & x & Hx & Hn)]; [congruence|].
    apply Hb in Hx as [? Hx]. congruence.
Qed.
End Sessions.

(** ** A run *)

Lemma schema_empty `{Sys} `{Proto} : schema (∅ : db).
Proof.
  split.
  - repeat split; by eexists.
  - intros id _ [x Hx]. by rewrite lookup_empty in Hx.
  - intros id [x Hx]. change (acks ∅) with (∅ : gmap string Z) in Hx. by rewrite lookup_empty in Hx.
  - intros id s Hx. change (bindex ∅) with (∅ : gmap string string) in Hx. by rewrite lookup_empty in Hx.
Qed.

(** In a world that fails as planned. *)
Section Flaky.
Import FlakyEnv.
#[local] Existing Instance flaky_sys | 0.
#[local] Existing Instance flaky_env | 0.
#[local] Existing Instance flaky_env_laws | 0.

#[local] Instance flaky_store_spec : ServiceSpec mem_cfg mem_store := _.

(** The outcomes of calls one after the other, and the world then. *)
Fixpoint outcomes (cs : list call) (w : env_state) : list bool * env_state :=
  match cs with
  | [] => ([], w)
  | c :: cs => let x := outcomes cs (after (invoke mem_store c) w) in
      (bool_decide (ans (invoke mem_store c) w = None) :: x.1, x.2)
  end.

Fixpoint calls_ok (cs : list call) (w : env_state) : Prop :=
  match cs with
  | [] => True
  | c :: cs => call_ok (db_of w) c /\ calls_ok cs (after (invoke mem_store c) w)
  end.

Lemma session_calls cs w : calls_ok cs w -> session mem_store w (outcomes cs w).2.
Proof.
  revert w. induction cs as [|c cs IH]; intros w; [constructor|]. intros [Hc Hcs].
  eapply session_call; [exact Hc|apply surjective_pairing|]. by apply IH.
Qed.

(** A ticket and a backfill are created and indexed, the ticket assigned. *)
Definition session_example : list call :=
  [CallCreateTicket (mem_ticket "a"); CallIndexTicket (mem_ticket "a"); CallCreateBackfill (mem_backfill "bf" 7) ["a"];
   CallIndexBackfill (mem_backfill "bf" 7);
   CallUpdateAssignments (mkAssignTicketsRequest [mkAssignmentGroup ["a"] (Some (mkAssignment "10.0.0.1:80" ∅))])].

(** The index update is lost, the backfill is stored but not acknowledged,
    and the answer to the assignment, which is carried out, is lost. *)
Definition session_plan : env_state :=
  mkFlaky mem_init [Fine; Fine; Fine; Lost; Fine; Fine; Lost; Fine; Fine; Fine; Fine; Fine; Fine; LostReply].

Lemma session_example_ok : calls_ok session_example session_plan.
Proof.
  split; [concrete|]. split; [exact I|]. split; [concrete|]. split; [concrete|]. split; [|exact I].
  intros id t Hid. cbn in Hid. apply list_elem_of_singleton in Hid as ->. vm_compute. by intros [= <-].
Qed.

Lemma store_schema_witness :
  let '(ok, w') := outcomes session_example session_plan in
  ok = [true; false; false; true; false] /\ typed (db_of w') /\ acks (db_of w') !! allTickets = None /\
  (is_ticket (db_of w') "a" \/ is_backfill (db_of w') "a") /\ (is_ticket (db_of w') "bf" \/ is_backfill (db_of w') "bf").
Proof.
  rewrite (surjective_pairing (outcomes _ _)).
  destruct (store_schema mem_cfg mem_store session_plan (outcomes session_example session_plan).2 schema_empty
    (session_calls _ _ session_example_ok)) as (Ht & He & Ha & _).
  split; [vm_compute; reflexivity|]. split; [exact Ht|]. split; [apply Ha; concrete|].
  split; apply He; concrete.
Defined.
End Flaky.
