(* ===== verification/Filter.v ===== *)
(** * Pool filters ([internal/filter/filter.go])

    [NewPoolFilter] validates the criteria of a pool, [In] decides whether a
    ticket or a backfill meets them. *)
From S2P Require Export Data.

(** The interface [filteredEntity]. *)
Class filteredEntity (E : Type) := {
  GetId : E -> string;
  GetSearchFields : E -> option SearchFields;
  GetCreateTime : E -> option Timestamp;
}.

#[export] Instance ticket_entity : filteredEntity Ticket :=
  {| GetId := t_Id; GetSearchFields := t_SearchFields; GetCreateTime := t_CreateTime |}.
#[export] Instance backfill_entity : filteredEntity Backfill :=
  {| GetId := b_Id; GetSearchFields := b_SearchFields; GetCreateTime := b_CreateTime |}.

Definition emptySearchFields : SearchFields := mkSearchFields ∅ ∅ [].

(** An unset bound is the zero [time.Time]. *)
Record PoolFilter := mkPoolFilter {
  DoubleRangeFilters : list DoubleRangeFilter;
  StringEqualsFilters : list StringEqualsFilter;
  TagPresentFilters : list TagPresentFilter;
  CreatedBefore : Z;
  CreatedAfter : Z;
}.

Section Filter.
Context `{Proto}.

(** [ptypes.Timestamp] on a pointer: nil is an error. *)
Definition timestamp_ptr (ts : option Timestamp) : option Z := ts ≫= ptypes_Timestamp.

(** One bound of the time window: absent, it is the zero time. *)
Definition parse_bound (ts : option Timestamp) (msg : string) : result Z :=
  match ts with
  | None => Ok time_zero
  | Some _ =>
      match timestamp_ptr ts with
      | Some t => Ok t
      | None => Err (EStatus InvalidArgument msg)
      end
  end.

Definition NewPoolFilter (pool : Pool) : result PoolFilter :=
  result_bind (parse_bound (p_CreatedBefore pool) ".invalid created_before value") (fun cb =>
  result_bind (parse_bound (p_CreatedAfter pool) ".invalid created_after value") (fun ca =>
  Ok (mkPoolFilter (p_DoubleRangeFilters pool) (p_StringEqualsFilters pool)
        (p_TagPresentFilters pool) cb ca))).

(** The time window; an entity whose creation time cannot be read is only
    logged, not refused. *)
Definition in_create_window (pf : PoolFilter) (create : option Timestamp) : bool :=
  if negb (time_IsZero (CreatedAfter pf)) || negb (time_IsZero (CreatedBefore pf)) then
    match timestamp_ptr create with
    | Some ct =>
        (time_IsZero (CreatedAfter pf) || time_After ct (CreatedAfter pf)) &&
        (time_IsZero (CreatedBefore pf) || time_Before ct (CreatedBefore pf))
    | None => true
    end
  else true.

Definition double_range_match (s : SearchFields) (f : DoubleRangeFilter) : bool :=
  match sf_DoubleArgs s !! drf_DoubleArg f with
  | None => false
  | Some v =>
      match drf_Exclude f with
      | Exclude_NONE => f_ge v (drf_Min f) && f_le v (drf_Max f)
      | Exclude_MIN => f_gt v (drf_Min f) && f_le v (drf_Max f)
      | Exclude_MAX => f_ge v (drf_Min f) && f_lt v (drf_Max f)
      | Exclude_BOTH => f_gt v (drf_Min f) && f_lt v (drf_Max f)
      | Exclude_unnamed _ => true
      end
  end.

Definition string_equals_match (s : SearchFields) (f : StringEqualsFilter) : bool :=
  match sf_StringArgs s !! sef_StringArg f with
  | None => false
  | Some v => bool_decide (sef_Value f = v)
  end.

Definition tag_present_match (s : SearchFields) (f : TagPresentFilter) : bool :=
  existsb (fun v => bool_decide (v = tpf_Tag f)) (sf_Tags s).

Definition In {E} `{filteredEntity E} (pf : PoolFilter) (entity : E) : bool :=
  let s := default emptySearchFields (GetSearchFields entity) in
  in_create_window pf (GetCreateTime entity) &&
  forallb (double_range_match s) (DoubleRangeFilters pf) &&
  forallb (string_equals_match s) (StringEqualsFilters pf) &&
  forallb (tag_present_match s) (TagPresentFilters pf).
End Filter.

(** ** What membership means *)
Section FilterSpec.
Context `{Proto}.

(** How two doubles compare; NaN does not compare. *)
Definition ordered (c : comparison -> Prop) (a b : float64) : Prop :=
  exists r, SFcompare a b = Some r /\ c r.

(** The interval a range filter describes, its ends excluded as asked. *)
Definition in_range (f : DoubleRangeFilter) (v : float64) : Prop :=
  let lower := match drf_Exclude f with Exclude_MIN | Exclude_BOTH => fun r => r = Lt | _ => fun r => r <> Gt end in
  let upper := match drf_Exclude f with Exclude_MAX | Exclude_BOTH => fun r => r = Lt | _ => fun r => r <> Gt end in
  ordered lower (drf_Min f) v /\ ordered upper v (drf_Max f).

Lemma f_le_ordered a b : f_le a b = true <-> ordered (fun r => r <> Gt) a b.
Proof.
  unfold f_le, SFleb, ordered. destruct (SFcompare a b) as [[]|]; naive_solver.
Qed.

Lemma f_lt_ordered a b : f_lt a b = true <-> ordered (fun r => r = Lt) a b.
Proof. unfold f_lt, SFltb, ordered. destruct (SFcompare a b) as [[]|]; naive_solver. Qed.

Definition named (e : DoubleRangeFilter_Exclude) : Prop :=
  match e with Exclude_unnamed _ => False | _ => True end.

Lemma double_range_match_spec s f : named (drf_Exclude f) ->
  double_range_match s f = true <-> exists v, sf_DoubleArgs s !! drf_DoubleArg f = Some v /\ in_range f v.
Proof.
  intros Hn. unfold double_range_match, in_range, f_ge, f_gt. fold (f_le (drf_Min f)) (f_lt (drf_Min f)).
  destruct (sf_DoubleArgs s !! _) as [v|]; [|naive_solver].
  destruct (drf_Exclude f); try done; rewrite andb_true_iff.
  all: change (SFleb (drf_Min f) v) with (f_le (drf_Min f) v).
  all: change (SFltb (drf_Min f) v) with (f_lt (drf_Min f) v).
  all: rewrite ?f_le_ordered, ?f_lt_ordered; naive_solver.
Qed.

Lemma string_equals_match_spec s f :
  string_equals_match s f = true <-> sf_StringArgs s !! sef_StringArg f = Some (sef_Value f).
Proof.
  unfold string_equals_match. destruct (sf_StringArgs s !! _); rewrite ?bool_decide_eq_true; naive_solver.
Qed.

Lemma tag_present_match_spec s f : tag_present_match s f = true <-> tpf_Tag f ∈ sf_Tags s.
Proof.
  unfold tag_present_match. rewrite existsb_exists, list_elem_of_In.
  setoid_rewrite bool_decide_eq_true. naive_solver.
Qed.

Lemma ordered_nan c a : ~ ordered c S754_nan a /\ ~ ordered c a S754_nan.
Proof. unfold ordered. split; [|destruct a]; naive_solver. Qed.

Lemma parse_bound_ok ts msg z : parse_bound ts msg = Ok z -> z = default time_zero (timestamp_ptr ts).
Proof.
  unfold parse_bound. destruct ts as [ts|]; [|by intros [= <-]].
  destruct (timestamp_ptr (Some ts)); [by intros [= <-]|done].
Qed.

(** One end of the time window, unset or the zero time. *)
Lemma window_bound (o : option Z) (P : Z -> bool) :
  time_IsZero (default time_zero o) || P (default time_zero o) = true <->
  (forall c, o = Some c -> c <> time_zero -> P c = true).
Proof.
  unfold time_IsZero. destruct o as [c|]; cbn; [|by rewrite Z.eqb_refl].
  destruct (Z.eqb_spec c time_zero); cbn; naive_solver.
Qed.

Lemma in_create_window_eq pf create :
  in_create_window pf create =
  match timestamp_ptr create with
  | Some ct => (time_IsZero (CreatedAfter pf) || time_After ct (CreatedAfter pf)) &&
               (time_IsZero (CreatedBefore pf) || time_Before ct (CreatedBefore pf))
  | None => true
  end.
Proof.
  unfold in_create_window.
  destruct (timestamp_ptr create), (time_IsZero (CreatedAfter pf)), (time_IsZero (CreatedBefore pf)); done.
Qed.

(** The fields an entity is searched by. *)
Definition fields {E} `{filteredEntity E} (e : E) : SearchFields :=
  default emptySearchFields (GetSearchFields e).

(** C27. An entity is in a pool exactly when every criterion holds of it:
    it was created strictly inside the time window (if the pool has one and
    its creation time is readable), every range filter names a double
    argument it has whose value lies in the interval with the excluded ends
    left out, every string filter gives the value it has, and every tag
    filter one of its tags. *)
Theorem In_spec {E} `{filteredEntity E} pool pf (e : E) :
  NewPoolFilter pool = Ok pf ->
  Forall (fun f => named (drf_Exclude f)) (p_DoubleRangeFilters pool) ->
  In pf e = true <->
    (forall ct, timestamp_ptr (GetCreateTime e) = Some ct ->
       (forall ca, timestamp_ptr (p_CreatedAfter pool) = Some ca -> ca <> time_zero -> ca < ct) /\
       (forall cb, timestamp_ptr (p_CreatedBefore pool) = Some cb -> cb <> time_zero -> ct < cb)) /\
    (forall f, f ∈ p_DoubleRangeFilters pool ->
       exists v, sf_DoubleArgs (fields e) !! drf_DoubleArg f = Some v /\ in_range f v) /\
    (forall f, f ∈ p_StringEqualsFilters pool ->
       sf_StringArgs (fields e) !! sef_StringArg f = Some (sef_Value f)) /\
    (forall f, f ∈ p_TagPresentFilters pool -> tpf_Tag f ∈ sf_Tags (fields e)).
Proof.
  intros Hpf Hn. unfold In. fold (fields e).
  assert (DoubleRangeFilters pf = p_DoubleRangeFilters pool /\
          StringEqualsFilters pf = p_StringEqualsFilters pool /\
          TagPresentFilters pf = p_TagPresentFilters pool /\
          CreatedBefore pf = default time_zero (timestamp_ptr (p_CreatedBefore pool)) /\
          CreatedAfter pf = default time_zero (timestamp_ptr (p_CreatedAfter pool)))
    as (-> & -> & -> & Hb & Ha).
  { unfold NewPoolFilter in Hpf.
    destruct (parse_bound (p_CreatedBefore pool) _) as [cb|] eqn:Hb; [|done].
    destruct (parse_bound (p_CreatedAfter pool) _) as [ca|] eqn:Ha; [|done].
    cbn in Hpf. injection Hpf as <-. apply parse_bound_ok in Hb as ->, Ha as ->. done. }
  rewrite !andb_true_iff, !forallb_forall. setoid_rewrite <- list_elem_of_In.
  setoid_rewrite string_equals_match_spec. setoid_rewrite tag_present_match_spec.
  rewrite Forall_forall in Hn.
  assert ((forall f, f ∈ p_DoubleRangeFilters pool -> double_range_match (fields e) f = true) <->
          (forall f, f ∈ p_DoubleRangeFilters pool ->
             exists v, sf_DoubleArgs (fields e) !! drf_DoubleArg f = Some v /\ in_range f v)) as ->.
  { split; intros Hf f Hin; apply double_range_match_spec; auto. }
  assert (in_create_window pf (GetCreateTime e) = true <->
    (forall ct, timestamp_ptr (GetCreateTime e) = Some ct ->
       (forall ca, timestamp_ptr (p_CreatedAfter pool) = Some ca -> ca <> time_zero -> ca < ct) /\
       (forall cb, timestamp_ptr (p_CreatedBefore pool) = Some cb -> cb <> time_zero -> ct < cb))) as ->.
  { rewrite in_create_window_eq, Ha, Hb.
    destruct (timestamp_ptr (GetCreateTime e)) as [ct|]; [|naive_solver].
    rewrite andb_true_iff, !window_bound. unfold time_After, time_Before.
    setoid_rewrite Z.ltb_lt. split; [by intros [? ?] ct' [= <-]|]. intros Hc. by apply Hc. }
  tauto.
Qed.

(** Membership of a pool as a whole. *)
Definition in_pool (pool : Pool) (t : Ticket) : Prop := exists pf, NewPoolFilter pool = Ok pf /\ In pf t = true.

(** A pool without a time window selects by its filters. *)
Lemma in_pool_fields name ds ss tags t :
  in_pool (mkPool name ds ss tags None None) t <->
  forallb (double_range_match (fields t)) ds && forallb (string_equals_match (fields t)) ss &&
    forallb (tag_present_match (fields t)) tags = true.
Proof.
  assert (forall b, (exists pf, Ok (mkPoolFilter ds ss tags time_zero time_zero) = Ok pf /\ b pf = true) <->
    b (mkPoolFilter ds ss tags time_zero time_zero) = true) as Hx by naive_solver.
  unfold in_pool, NewPoolFilter, Filter.In. cbn -[time_zero]. rewrite Hx. unfold in_create_window. cbn -[time_zero].
  replace (time_IsZero time_zero) with true by done. done.
Qed.

End FilterSpec.
