(* ===== verification/FilterCases.v ===== *)
(** * The conformance cases of the pool filter ([internal/filter/testcases/testcases.go])

    The lists of cases every implementation of the filter must meet, and the
    proof that [Filter.In] meets them at any clock reading. *)
From S2P Require Export Filter.
From S2P Require Import Config MemEnv.

Record TestCase := mkTestCase { tc_Name : string; tc_SearchFields : option SearchFields; tc_Pool : Pool }.

Definition simpleDoubleRange (name : string) (value min max : float64) (exclude : DoubleRangeFilter_Exclude) : TestCase :=
  mkTestCase ("double range " +:+ name)
    (Some (mkSearchFields {["field" := value]} ∅ []))
    (mkPool "" [mkDoubleRangeFilter "field" max min exclude] [] [] None None).

(** [fmt]'s rendering of a boolean. *)
Definition fmt_bool (b : bool) : string := if b then "true" else "false".

Definition multipleFilters (doubleRange stringEquals tagPresent : bool) : TestCase :=
  let a := if doubleRange then f_int 0 else f_int 10 in
  let b := if stringEquals then "hi" else "bye" in
  let c := if tagPresent then "yo" else "cya" in
  mkTestCase ("multiplefilters: " +:+ fmt_bool doubleRange +:+ ", " +:+ fmt_bool stringEquals +:+ ", " +:+ fmt_bool tagPresent)
    (Some (mkSearchFields {["a" := a]} {["b" := b]} [c]))
    (mkPool "" [mkDoubleRangeFilter "a" (f_int 1) (f_int (-1)) Exclude_NONE] [mkStringEqualsFilter "b" "hi"]
       [mkTagPresentFilter "yo"] None None).

Section Cases.
Context `{Proto}.

(** [ptypes.TimestampProto] of a time it can represent (it panics on others). *)
Definition timestamp (t : Z) : Timestamp := TimestampNow t.

(** [now] is the clock when the list is made. *)
Definition IncludedTestCases (now : Z) : list TestCase := [
  mkTestCase "no filters or fields" None
    (mkPool "" [] [] [] None None);
  simpleDoubleRange "simpleInRange" (f_int 5) (f_int 0) (f_int 10) Exclude_NONE;
  simpleDoubleRange "simpleInRange" (f_int 5) (f_int 0) (f_int 10) Exclude_MIN;
  simpleDoubleRange "simpleInRange" (f_int 5) (f_int 0) (f_int 10) Exclude_MAX;
  simpleDoubleRange "simpleInRange" (f_int 5) (f_int 0) (f_int 10) Exclude_BOTH;
  simpleDoubleRange "exactMatch" (f_int 5) (f_int 5) (f_int 5) Exclude_NONE;
  simpleDoubleRange "infinityMax" f_inf (f_int 0) f_inf Exclude_NONE;
  simpleDoubleRange "infinityMax" f_inf (f_int 0) f_inf Exclude_MIN;
  simpleDoubleRange "infinityMin" f_neg_inf f_neg_inf (f_int 0) Exclude_NONE;
  simpleDoubleRange "infinityMin" f_neg_inf f_neg_inf (f_int 0) Exclude_MAX;
  simpleDoubleRange "excludeNone" (f_int 0) (f_int 0) (f_int 1) Exclude_NONE;
  simpleDoubleRange "excludeNone" (f_int 1) (f_int 0) (f_int 1) Exclude_NONE;
  simpleDoubleRange "excludeMin" (f_int 1) (f_int 0) (f_int 1) Exclude_MIN;
  simpleDoubleRange "excludeMax" (f_int 0) (f_int 0) (f_int 1) Exclude_MAX;
  simpleDoubleRange "excludeBoth" (f_int 2) (f_int 0) (f_int 3) Exclude_BOTH;
  simpleDoubleRange "excludeBoth" (f_int 1) (f_int 0) (f_int 3) Exclude_BOTH;
  mkTestCase "String equals simple positive" (Some (mkSearchFields ∅ {["field" := "value"]} []))
    (mkPool "" [] [mkStringEqualsFilter "field" "value"] [] None None);
  mkTestCase "TagPresent simple positive" (Some (mkSearchFields ∅ ∅ ["mytag"]))
    (mkPool "" [] [] [mkTagPresentFilter "mytag"] None None);
  mkTestCase "TagPresent multiple all present" (Some (mkSearchFields ∅ ∅ ["A"; "B"; "C"]))
    (mkPool "" [] [] [mkTagPresentFilter "A"; mkTagPresentFilter "C"; mkTagPresentFilter "B"] None None);
  multipleFilters true true true;
  mkTestCase "CreatedBefore simple positive" None
    (mkPool "" [] [] [] (Some (timestamp (now + time_Hour * 1))) None);
  mkTestCase "CreatedAfter simple positive" None
    (mkPool "" [] [] [] None (Some (timestamp (now + time_Hour * -1))));
  mkTestCase "Between CreatedBefore and CreatedAfter positive" None
    (mkPool "" [] [] [] (Some (timestamp (now + time_Hour * 1))) (Some (timestamp (now + time_Hour * -1))));
  mkTestCase "No time search criteria positive" None
    (mkPool "" [] [] [] None None)
].

Definition ExcludedTestCases (now : Z) : list TestCase := [
  mkTestCase "DoubleRange no SearchFields" None
    (mkPool "" [mkDoubleRangeFilter "field" f_inf f_neg_inf Exclude_NONE] [] [] None None);
  mkTestCase "StringEquals no SearchFields" None
    (mkPool "" [] [mkStringEqualsFilter "field" "value"] [] None None);
  mkTestCase "TagPresent no SearchFields" None
    (mkPool "" [] [] [mkTagPresentFilter "value"] None None);
  mkTestCase "double range missing field" (Some (mkSearchFields {["otherfield" := f_int 0]} ∅ []))
    (mkPool "" [mkDoubleRangeFilter "field" f_inf f_neg_inf Exclude_NONE] [] [] None None);
  simpleDoubleRange "exactMatch" (f_int 5) (f_int 5) (f_int 5) Exclude_MIN;
  simpleDoubleRange "exactMatch" (f_int 5) (f_int 5) (f_int 5) Exclude_MAX;
  simpleDoubleRange "exactMatch" (f_int 5) (f_int 5) (f_int 5) Exclude_BOTH;
  simpleDoubleRange "valueTooLow" (f_int (-1)) (f_int 0) (f_int 10) Exclude_NONE;
  simpleDoubleRange "valueTooLow" (f_int (-1)) (f_int 0) (f_int 10) Exclude_MIN;
  simpleDoubleRange "valueTooLow" (f_int (-1)) (f_int 0) (f_int 10) Exclude_MAX;
  simpleDoubleRange "valueTooLow" (f_int (-1)) (f_int 0) (f_int 10) Exclude_BOTH;
  simpleDoubleRange "valueTooHigh" (f_int 11) (f_int 0) (f_int 10) Exclude_NONE;
  simpleDoubleRange "valueTooHigh" (f_int 11) (f_int 0) (f_int 10) Exclude_MIN;
  simpleDoubleRange "valueTooHigh" (f_int 11) (f_int 0) (f_int 10) Exclude_MAX;
  simpleDoubleRange "valueTooHigh" (f_int 11) (f_int 0) (f_int 10) Exclude_BOTH;
  simpleDoubleRange "minIsNan" (f_int 5) f_nan (f_int 10) Exclude_NONE;
  simpleDoubleRange "minIsNan" (f_int 5) f_nan (f_int 10) Exclude_MIN;
  simpleDoubleRange "minIsNan" (f_int 5) f_nan (f_int 10) Exclude_MAX;
  simpleDoubleRange "minIsNan" (f_int 5) f_nan (f_int 10) Exclude_BOTH;
  simpleDoubleRange "maxIsNan" (f_int 5) (f_int 0) f_nan Exclude_NONE;
  simpleDoubleRange "maxIsNan" (f_int 5) (f_int 0) f_nan Exclude_MIN;
  simpleDoubleRange "maxIsNan" (f_int 5) (f_int 0) f_nan Exclude_MAX;
  simpleDoubleRange "maxIsNan" (f_int 5) (f_int 0) f_nan Exclude_BOTH;
  simpleDoubleRange "minMaxAreNan" (f_int 5) f_nan f_nan Exclude_NONE;
  simpleDoubleRange "minMaxAreNan" (f_int 5) f_nan f_nan Exclude_MIN;
  simpleDoubleRange "minMaxAreNan" (f_int 5) f_nan f_nan Exclude_MAX;
  simpleDoubleRange "minMaxAreNan" (f_int 5) f_nan f_nan Exclude_BOTH;
  simpleDoubleRange "valueIsNan" f_nan (f_int 0) (f_int 10) Exclude_NONE;
  simpleDoubleRange "valueIsNan" f_nan (f_int 0) (f_int 10) Exclude_MIN;
  simpleDoubleRange "valueIsNan" f_nan (f_int 0) (f_int 10) Exclude_MAX;
  simpleDoubleRange "valueIsNan" f_nan (f_int 0) (f_int 10) Exclude_BOTH;
  simpleDoubleRange "valueIsNanInfRange" f_nan f_neg_inf f_inf Exclude_NONE;
  simpleDoubleRange "valueIsNanInfRange" f_nan f_neg_inf f_inf Exclude_MIN;
  simpleDoubleRange "valueIsNanInfRange" f_nan f_neg_inf f_inf Exclude_MAX;
  simpleDoubleRange "valueIsNanInfRange" f_nan f_neg_inf f_inf Exclude_BOTH;
  simpleDoubleRange "infinityMax" f_inf (f_int 0) f_inf Exclude_MAX;
  simpleDoubleRange "infinityMax" f_inf (f_int 0) f_inf Exclude_BOTH;
  simpleDoubleRange "infinityMin" f_neg_inf f_neg_inf (f_int 0) Exclude_MIN;
  simpleDoubleRange "infinityMin" f_neg_inf f_neg_inf (f_int 0) Exclude_BOTH;
  simpleDoubleRange "allAreNan" f_nan f_nan f_nan Exclude_NONE;
  simpleDoubleRange "allAreNan" f_nan f_nan f_nan Exclude_MIN;
  simpleDoubleRange "allAreNan" f_nan f_nan f_nan Exclude_MAX;
  simpleDoubleRange "allAreNan" f_nan f_nan f_nan Exclude_BOTH;
  simpleDoubleRange "valueIsMax" (f_int 1) (f_int 0) (f_int 1) Exclude_MAX;
  simpleDoubleRange "valueIsMin" (f_int 0) (f_int 0) (f_int 1) Exclude_MIN;
  simpleDoubleRange "excludeBoth" (f_int 0) (f_int 0) (f_int 1) Exclude_BOTH;
  simpleDoubleRange "excludeBoth" (f_int 1) (f_int 0) (f_int 1) Exclude_BOTH;
  mkTestCase "String equals simple negative" (Some (mkSearchFields ∅ {["field" := "value"]} []))
    (mkPool "" [] [mkStringEqualsFilter "field" "VALUE"] [] None None);
  mkTestCase "String equals missing field" (Some (mkSearchFields ∅ {["otherfield" := "othervalue"]} []))
    (mkPool "" [] [mkStringEqualsFilter "field" "value"] [] None None);
  mkTestCase "TagPresent simple negative" (Some (mkSearchFields ∅ ∅ ["MYTAG"]))
    (mkPool "" [] [] [mkTagPresentFilter "mytag"] None None);
  mkTestCase "TagPresent multiple with one missing" (Some (mkSearchFields ∅ ∅ ["A"; "B"; "C"]))
    (mkPool "" [] [] [mkTagPresentFilter "A"; mkTagPresentFilter "D"; mkTagPresentFilter "C"] None None);
  mkTestCase "CreatedBefore simple negative" None
    (mkPool "" [] [] [] (Some (timestamp (now + time_Hour * -1))) None);
  mkTestCase "CreatedAfter simple negative" None
    (mkPool "" [] [] [] None (Some (timestamp (now + time_Hour * 1))));
  mkTestCase "Created before time range negative" None
    (mkPool "" [] [] [] (Some (timestamp (now + time_Hour * 2))) (Some (timestamp (now + time_Hour * 1))));
  mkTestCase "Created after time range negative" None
    (mkPool "" [] [] [] (Some (timestamp (now + time_Hour * -1))) (Some (timestamp (now + time_Hour * -2))));
  multipleFilters false true true;
  multipleFilters true false true;
  multipleFilters true true false
].

(** What a filter test does with a case: a pool that is valid, and a ticket
    and a backfill with the case's fields created at [ct]. *)
Definition included {E} `{filteredEntity E} (tc : TestCase) (e : E) : option bool :=
  match NewPoolFilter (tc_Pool tc) with
  | Ok pf => Some (Filter.In pf e)
  | Err _ => None
  end.
Definition case_ticket (tc : TestCase) (ct : Z) : Ticket :=
  mkTicket "" None (tc_SearchFields tc) ∅ ∅ (Some (timestamp ct)).
Definition case_backfill (tc : TestCase) (ct : Z) : Backfill :=
  mkBackfill "" (tc_SearchFields tc) ∅ ∅ (Some (timestamp ct)) 0.
Definition meets (b : bool) (ct : Z) (tc : TestCase) : Prop :=
  included tc (case_ticket tc ct) = Some b /\ included tc (case_backfill tc ct) = Some b.
End Cases.

Section Conformance.
Context `{ProtoLaws}.

Definition valid_time (t : Z) : Prop := 0 < t < 253402300800 * 10 ^ 9.

Lemma parse_timestamp t msg : valid_time t -> parse_bound (Some (timestamp t)) msg = Ok t.
Proof.
  unfold valid_time, timestamp, parse_bound, timestamp_ptr. cbn -[Z.mul Z.pow]. intros Ht.
  by rewrite ptypes_Timestamp_Now by lia.
Qed.

(** A pool with no criterion but its time window. *)
Lemma window_meets name b a cb ca ct
  (Hb : forall msg, parse_bound b msg = Ok cb) (Ha : forall msg, parse_bound a msg = Ok ca) (Hct : valid_time ct) :
  meets ((time_IsZero ca || time_After ct ca) && (time_IsZero cb || time_Before ct cb)) ct
    (mkTestCase name None (mkPool "" [] [] [] b a)).
Proof.
  unfold meets, included, NewPoolFilter. cbn [tc_Pool p_CreatedBefore p_CreatedAfter]. rewrite Hb, Ha.
  cbn [result_bind]. unfold Filter.In. cbn. rewrite !in_create_window_eq. unfold timestamp_ptr, timestamp. cbn.
  rewrite ptypes_Timestamp_Now by (unfold valid_time in *; lia). by rewrite !andb_true_r.
Qed.

Lemma valid_not_zero t : valid_time t -> time_IsZero t = false.
Proof. unfold valid_time, time_IsZero, time_zero. intros ?. apply Z.eqb_neq. lia. Qed.

(** A case with a time window, in or out of it. *)
Ltac window :=
  match goal with
  | |- meets ?v ?ct (mkTestCase ?n None (mkPool _ [] [] [] ?b ?a)) =>
      let bound o := match o with None => time_zero | Some (timestamp ?t) => t end in
      let cb := bound b in let ca := bound a in
      eassert (meets _ ct (mkTestCase n None (mkPool "" [] [] [] b a))) as Hm;
      [apply (window_meets n b a cb ca); [intros ?; first [reflexivity|apply parse_timestamp; assumption]..|assumption]|];
      revert Hm; unfold time_After, time_Before; change (time_IsZero time_zero) with true; cbn [orb];
      rewrite ?valid_not_zero by assumption;
      repeat match goal with |- context [?x <? ?y] => destruct (Z.ltb_spec x y); try lia end; exact id
  end.

(** Exactly the listed cases: whatever the clock read when the lists
    were made, a ticket or backfill created less than an hour from then is
    accepted by the filter of every included case and refused by the filter of
    every excluded one. *)
Theorem filter_conforms now ct
  (Hnow : 2 * time_Hour < now < 253402300800 * 10 ^ 9 - 2 * time_Hour)
  (Hct : now - time_Hour < ct < now + time_Hour) :
  Forall (meets true ct) (IncludedTestCases now) /\ Forall (meets false ct) (ExcludedTestCases now).
Proof.
  assert (valid_time ct /\ valid_time (now + time_Hour * 1) /\ valid_time (now + time_Hour * -1) /\
    valid_time (now + time_Hour * 2) /\ valid_time (now + time_Hour * -2)) as (Hv & Hv1 & Hv2 & Hv3 & Hv4).
  { unfold valid_time, time_Hour, time_Minute, time_Second in *. lia. }
  assert (0 < time_Hour) as Hpos by (unfold time_Hour, time_Minute, time_Second; lia).
  split; unfold IncludedTestCases, ExcludedTestCases;
    repeat (apply Forall_cons_2; [first [window|split; vm_compute; reflexivity]|]); apply Forall_nil_2.
Qed.
End Conformance.

Lemma filter_conforms_witness :
  let now := 1614556800 * 10 ^ 9 in
  (tc_Name <$> ExcludedTestCases now) !! 4%nat = Some "double range exactMatch" /\
  Forall (meets false (now + 1)) (ExcludedTestCases now).
Proof.
  intros now. split; [vm_compute; reflexivity|].
  apply (filter_conforms now (now + 1)); vm_compute; split; reflexivity.
Defined.
