(* ===== verification/Query.v ===== *)
(** * The query service ([internal/app/query])

    A cache of the indexed tickets (and one of the indexed backfills) is
    brought up to date with the state store before a query filters it; the
    result is streamed in pages. This file models one request with the update
    that serves it; [QueryCache] models how concurrent requests share one. *)
From S2P Require Export Store Filter.

(** ** Paging *)

Definition minPageSize : Z := 10.
Definition defaultPageSize : Z := 1000.
Definition maxPageSize : Z := 10000.

Definition getPageSize (cfg : View) : Z :=
  if negb (IsSet cfg "queryPageSize") then defaultPageSize
  else
    let pSize := GetInt cfg "queryPageSize" in
    let pSize := if pSize <? minPageSize then minPageSize else pSize in
    if pSize >? maxPageSize then maxPageSize else pSize.

(** The loop that sends [results[start:end]] page by page. [send i page] is
    the outcome of the [i]-th [Send] on the response stream; the pages
    received before a failure are returned with the loop's error. [fuel]
    bounds the iterations; one per result is enough. *)
Section Paging.
Context {A : Type} (send : nat -> list A -> option error) (pSize : nat) (results : list A).

Fixpoint send_pages (fuel i start : nat) : list (list A) * result unit :=
  match fuel with
  | O => ([], Ok tt)
  | S fuel =>
      if (start <? length results)%nat then
        let end_ := (start + pSize)%nat in
        let end_ := if (length results <? end_)%nat then length results else end_ in
        let page := take (end_ - start) (drop start results) in
        match send i page with
        | Some err => ([], Err err)
        | None =>
            let '(pages, r) := send_pages fuel (S i) (start + pSize) in (page :: pages, r)
        end
      else ([], Ok tt)
  end.
End Paging.

(** ** The cache and its updates *)
Section Cache.
Context `{MapOrder} (store : Service).

(** Delete what is no longer indexed, fetch what is not cached. An error
    leaves what was done before it: the map is updated in place. *)
Definition updateTicketCache (tickets : gmap string Ticket) :
    prog (gmap string Ticket * result unit) :=
  _ ←! trigger Now;
  currentAll ←! svc_GetIndexedIDSet store;
  match currentAll with
  | Err err => Ret (tickets, Err err)
  | Ok currentAll =>
      let tickets := range_delete (fun id _ => bool_decide (id ∈ currentAll)) tickets in
      let toFetch := filter (fun id => tickets !! id = None) (set_iter currentAll) in
      newTickets ←! svc_GetTickets store toFetch;
      match newTickets with
      | Err err => Ret (tickets, Err err)
      | Ok newTickets =>
          let tickets := foldl (fun tickets t => <[t_Id t := t]> tickets) tickets newTickets in
          _ ←! trigger Now;
          Ret (tickets, Ok tt)
      end
  end.

(** A cached backfill is also dropped when the index knows a later
    generation of it. *)
Definition updateBackfillCache (backfills : gmap string Backfill) :
    prog (gmap string Backfill * result unit) :=
  _ ←! trigger Now;
  index ←! svc_GetIndexedBackfills store;
  match index with
  | Err err => Ret (backfills, Err err)
  | Ok index =>
      let backfills := range_delete (fun id backfill =>
        match index !! id with
        | Some generation => negb (b_Generation backfill <? generation)
        | None => false
        end) backfills in
      let toFetch := filter (fun id => backfills !! id = None) (map_iter index).*1 in
      fetched ←! svc_GetBackfills store toFetch;
      match fetched with
      | Err err => Ret (backfills, Err err)
      | Ok fetched =>
          let backfills := foldl (fun m b => <[b_Id b := b]> m) backfills fetched in
          _ ←! trigger Now;
          Ret (backfills, Ok tt)
      end
  end.

(** [cache.request] when it is not cancelled: the cache is updated, its
    error is the request's, otherwise [f] reads the value. *)
Definition cache_request {V R} (update : V -> prog (V * result unit)) (value : V) (f : V -> R) :
    prog (V * result R) :=
  x ←! update value;
  let '(value, err) := x in
  Ret (value, match err with Err err => Err err | Ok _ => Ok (f value) end).

(** ** The handlers *)
Section Handlers.
Context `{Proto} (cfg : View).

(** The common shape of the three handlers; [read] builds the results by
    ranging over the cached map. *)
Definition query {V A} (name : string) (update : V -> prog (V * result unit))
    (read : PoolFilter -> V -> list A) (send : nat -> list A -> option error)
    (pool : option Pool) (value : V) : prog (V * (list (list A) * result unit)) :=
  match pool with
  | None => Ret (value, ([], Err (EStatus InvalidArgument ".pool is required")))
  | Some pool =>
      match NewPoolFilter pool with
      | Err err => Ret (value, ([], Err err))
      | Ok pf =>
          x ←! cache_request update value (read pf);
          let '(value, r) := x in
          match r with
          | Err err => Ret (value, ([], Err (EWrap (name +:+ ": failed to run request") err)))
          | Ok results =>
              Ret (value, send_pages send (Z.to_nat (getPageSize cfg)) results (length results) 0 0)
          end
      end
  end.

Definition QueryTickets (send : nat -> list Ticket -> option error) (pool : option Pool)
    (tc : gmap string Ticket) : prog (gmap string Ticket * (list (list Ticket) * result unit)) :=
  query "QueryTickets" updateTicketCache
    (fun pf tickets => filter (fun t => In pf t = true) (map_iter tickets).*2) send pool tc.

Definition QueryTicketIds (send : nat -> list string -> option error) (pool : option Pool)
    (tc : gmap string Ticket) : prog (gmap string Ticket * (list (list string) * result unit)) :=
  query "QueryTicketIds" updateTicketCache
    (fun pf tickets => (filter (fun x => In pf x.2 = true) (map_iter tickets)).*1) send pool tc.

Definition QueryBackfills (send : nat -> list Backfill -> option error) (pool : option Pool)
    (bc : gmap string Backfill) : prog (gmap string Backfill * (list (list Backfill) * result unit)) :=
  query "QueryBackfills" updateBackfillCache
    (fun pf backfills => filter (fun b => In pf b = true) (map_iter backfills).*2) send pool bc.
End Handlers.
End Cache.

(** ** Paging delivers everything, once, in bounded pages *)
Section PagingSpec.
Context {A : Type} (send : nat -> list A -> option error).

Lemma getPageSize_bounds cfg : minPageSize <= getPageSize cfg <= maxPageSize.
Proof.
  unfold getPageSize, minPageSize, maxPageSize, defaultPageSize. rewrite Z.gtb_ltb.
  destruct (IsSet cfg "queryPageSize"); cbn; [|lia].
  destruct (Z.ltb_spec (GetInt cfg "queryPageSize") 10); [done|].
  destruct (Z.ltb_spec 10000 (GetInt cfg "queryPageSize")); lia.
Qed.

Lemma send_pages_ok pSize (results : list A) fuel i start :
  (forall i page, send i page = None) -> (0 < pSize)%nat -> (length results <= start + fuel)%nat ->
  exists pages, send_pages send pSize results fuel i start = (pages, Ok tt) /\
    concat pages = drop start results /\
    Forall (fun p => 0 < length p <= pSize)%nat pages /\
    (forall j p, pages !! j = Some p -> (S j < length pages)%nat -> length p = pSize).
Proof.
  intros Hsend Hp. revert i start. induction fuel as [|fuel IH]; intros i start Hlen.
  { exists []. cbn. rewrite drop_ge by lia. split; [done|]. split; [done|]. split; [done|]. done. }
  cbn [send_pages]. destruct (Nat.ltb_spec start (length results)); cycle 1.
  { exists []. rewrite drop_ge by lia. done. }
  rewrite Hsend. destruct (IH (S i) (start + pSize)%nat ltac:(lia)) as (pages & -> & Hc & Hf & Hl).
  set (n := ((if length results <? start + pSize then length results else start + pSize) - start)%nat).
  assert (n = Nat.min pSize (length results - start)) as Hn.
  { unfold n. destruct (Nat.ltb_spec (length results) (start + pSize)); lia. }
  clearbody n. eexists. split; [done|]. split; [|split].
  - cbn. rewrite Hc. rewrite <- (take_drop n (drop start results)) at 2. f_equal.
    rewrite drop_drop. destruct (decide (pSize <= length results - start)%nat).
    + f_equal. lia.
    + rewrite !drop_ge; [done|lia..].
  - constructor; [|done]. rewrite length_take, length_drop. lia.
  - intros [|j] p; cbn; [|intros Hj ?; eapply Hl; [done|lia]]. intros [= <-] Hmore.
    rewrite length_take, length_drop. destruct pages as [|p1 pages]; [cbn in Hmore; lia|].
    apply Forall_cons in Hf as [Hp1 _]. apply (f_equal length) in Hc.
    cbn in Hc. rewrite length_app, length_drop in Hc. lia.
Qed.
End PagingSpec.

(** ** The caches follow the state store *)
Section CacheSpec.
Context `{Sys} `{Proto} `{MapOrder} (cfg : View) (store : Service) `{!ServiceSpec cfg store}.
Implicit Types (v : view) (d : db).

(** Indexed and not proposed in a match at time [t]. *)
Definition visible d (t : Z) (id : string) : Prop :=
  id ∈ index d /\
  ~ in_window (pending d) (t - GetDuration cfg "pendingReleaseTimeout") (t + time_Hour) id.

(** Indexed with a generation, and acknowledged recently enough. *)
Definition bvisible d (t : Z) (id : string) (g : Z) : Prop :=
  in_window (acks d) (t - release_ttl cfg) (t + time_Hour) id /\ bindex d !! id ≫= atoi = Some g.

Lemma updateTicketCache_spec tc v : typed (v_db v) ->
  wp (updateTicketCache store tc) v (fun '(tc', r) v' =>
    exists t t', v_now v <= t /\ t <= t' /\ v' = upd v (v_db v) t' /\
    match r with
    | Ok _ => (forall id x, visible (v_db v) t id -> ticket_at (v_db v) id = Some x -> t_Id x = id) ->
        forall id,
          (visible (v_db v) t id ->
             tc' !! id = match tc !! id with Some x => Some x | None => ticket_at (v_db v) id end) /\
          (~ visible (v_db v) t id -> tc' !! id = None)
    | Err _ => tc' ⊆ tc /\ (sys_faulty = true \/
        exists id, visible (v_db v) t id /\ get_str (v_db v) id <> None /\ ticket_at (v_db v) id = None)
    end).
Proof.
  intros Ht. unfold updateTicketCache. apply wp_now. intros t0 Ht0.
  apply wp_bind. eapply wp_mono; [by apply spec_GetIndexedIDSet|].
  intros r v1 (t & Ht1 & -> & Hr). destruct r as [ids|e]; cycle 1.
  { cbn. exists t, t. split; [cbn in *; lia|]. split; [lia|]. split; [done|]. auto. }
  set (tc1 := range_delete _ tc). apply wp_bind. eapply wp_mono; [by apply spec_GetTickets|].
  intros r v2 [-> Hg].
  assert (forall id, tc1 !! id = if decide (id ∈ ids) then tc !! id else None) as Htc1.
  { intros id. unfold tc1. rewrite lookup_range_delete. destruct (tc !! id); [case_bool_decide|];
      by repeat case_decide. }
  assert (forall id, id ∈ filter (fun id => tc1 !! id = None) (set_iter ids) <-> id ∈ ids /\ tc1 !! id = None) as Hf.
  { intros id. rewrite list_elem_of_filter, elem_of_set_iter. tauto. }
  destruct r as [ts|e]; cycle 1.
  { cbn. exists t, t. split; [cbn in *; lia|]. split; [lia|]. split; [done|]. split.
    - apply map_subseteq_spec. intros id x. rewrite Htc1. by case_decide.
    - destruct Hg as [(_ & id & Hid & ?)|?]; [right|by left]. exists id. split; [|done].
      apply Hr. by apply Hf in Hid as [? _]. }
  destruct Hg as [-> _]. apply wp_now. intros t2 Ht2. cbn -[visible].
  exists t, t2. split; [cbn in *; lia|]. split; [done|]. split; [done|].
  intros Hk id. rewrite lookup_foldl_insert; cycle 1.
  { intros id' x [Hin _]%Hf. apply Hk. by apply Hr. }
  cbn. unfold visible. rewrite <- Hr. split.
  - intros Hin. destruct (tc !! id) as [x|] eqn:Hx.
    + rewrite decide_False, Htc1, decide_True; [done..|]. rewrite Hf, Htc1, decide_True, Hx by done. naive_solver.
    + rewrite decide_True; [|by rewrite Hf, Htc1, decide_True].
      rewrite Htc1, decide_True, Hx by done. by destruct (ticket_at _ id).
  - intros Hin. rewrite decide_False by (by intros [? _]%Hf). by rewrite Htc1, decide_False.
Qed.

(** What the index keeps of a cached backfill. *)
Definition current (g : Z) (b : Backfill) : bool := negb (b_Generation b <? g).

Lemma updateBackfillCache_spec bc v : typed (v_db v) ->
  wp (updateBackfillCache store bc) v (fun '(bc', r) v' =>
    exists t t', v_now v <= t /\ t <= t' /\ v' = upd v (v_db v) t' /\
    match r with
    | Ok _ => (forall id g b, bvisible (v_db v) t id g -> backfill_of (v_db v) id = Some b -> b_Id b = id) ->
        forall id,
          (forall g, bvisible (v_db v) t id g ->
             bc' !! id = match bc !! id with
                         | Some b => if current g b then Some b else backfill_of (v_db v) id
                         | None => backfill_of (v_db v) id
                         end) /\
          ((forall g, ~ bvisible (v_db v) t id g) -> bc' !! id = None)
    | Err _ => bc' ⊆ bc /\ (sys_faulty = true \/
        (exists id s, bindex (v_db v) !! id = Some s /\ atoi s = None) \/
        exists id g, bvisible (v_db v) t id g /\ get_str (v_db v) id <> None /\ backfill_at (v_db v) id = None)
    end).
Proof.
  intros Ht. unfold updateBackfillCache. apply wp_now. intros t0 Ht0.
  apply wp_bind. eapply wp_mono; [by apply spec_GetIndexedBackfills|].
  intros r v1 (t & Ht1 & -> & Hr). destruct r as [m|e]; cycle 1.
  { cbn. exists t, t. split; [cbn in *; lia|]. split; [lia|]. split; [done|]. split; [done|].
    destruct Hr as [?|?]; auto. }
  set (bc1 := range_delete _ bc). apply wp_bind. eapply wp_mono; [by apply spec_GetBackfills|].
  intros r v2 [-> Hg].
  assert (forall id, bc1 !! id = match bc !! id, m !! id with
                                 | Some b, Some g => if current g b then Some b else None
                                 | _, _ => None end) as Hbc1.
  { intros id. unfold bc1. rewrite lookup_range_delete. by destruct (bc !! id), (m !! id). }
  assert (forall id, id ∈ filter (fun id => bc1 !! id = None) (map_iter m).*1 <->
            is_Some (m !! id) /\ bc1 !! id = None) as Hf.
  { intros id. rewrite list_elem_of_filter, list_elem_of_fmap. split.
    - intros [? ([k g] & -> & Hin%elem_of_map_iter)]. eauto.
    - intros [[g Hin] ?]. split; [done|]. exists (id, g). by rewrite elem_of_map_iter. }
  destruct r as [bs|e]; cycle 1.
  { cbn. exists t, t. split; [cbn in *; lia|]. split; [lia|]. split; [done|].
    split.
    { apply map_subseteq_spec. intros id x. rewrite Hbc1. destruct (bc !! id), (m !! id); try done.
      by destruct (current _ _). }
    destruct Hg as [?|(id & [[g Hid] _]%Hf & ?)]; [by left|]. right; right. exists id, g.
    split; [exact (proj1 (Hr _ _) Hid)|done]. }
  apply wp_now. intros t2 Ht2. cbn -[bvisible].
  exists t, t2. split; [cbn in *; lia|]. split; [done|]. split; [done|].
  intros Hk id. cbn -[bvisible] in Hr.
  assert (bf_keyed (filter (fun id => bc1 !! id = None) (map_iter m).*1) (v_db v)) as Hkeyed.
  { intros id' b [[g Hg'] _]%Hf. apply (Hk _ g). exact (proj1 (Hr _ _) Hg'). }
  rewrite (Hg Hkeyed), lookup_foldl_insert by exact Hkeyed. rewrite Hbc1. split.
  - intros g Hvis. assert (m !! id = Some g) as Hm by exact (proj2 (Hr _ _) Hvis). rewrite Hm.
    destruct (bc !! id) as [b|] eqn:Hb; [destruct (current g b) eqn:Hc|].
    + rewrite decide_False; [done|]. rewrite Hf, Hbc1, Hb, Hm, Hc. naive_solver.
    + rewrite decide_True; [by destruct (backfill_of _ id)|]. rewrite Hf, Hbc1, Hb, Hm, Hc. eauto.
    + rewrite decide_True; [by destruct (backfill_of _ id)|]. rewrite Hf, Hbc1, Hb. eauto.
  - intros Hn. assert (m !! id = None) as Hm.
    { apply eq_None_not_Some. intros [g Hg']. apply (Hn g). exact (proj1 (Hr _ _) Hg'). }
    rewrite decide_False; [by rewrite Hm; destruct (bc !! id)|]. rewrite Hf, Hm. by intros [[? ?] _].
Qed.
End CacheSpec.
