(* ===== verification/QueryProps.v ===== *)
(** * What a query returns *)
From S2P Require Export Query StoreProps.

(** A statement about the outcome of a run, from the program's contract. *)
Ltac run_start Hrun :=
  match type of Hrun with
  | run _ ?w = (?x, ?w') => pattern x, (env_view w'); refine (run_wp _ w _ x w' _ Hrun); clear Hrun
  end.

Section QuerySpec.
Context `{Sys} `{Proto} `{MapOrder} (cfg : View) (store : Service) `{!ServiceSpec cfg store}.

Lemma wp_query {V A} name (update : V -> prog (V * result unit)) (read : PoolFilter -> V -> list A)
    send pool pf value v (Q : V * (list (list A) * result unit) -> view -> Prop) :
  NewPoolFilter pool = Ok pf ->
  wp (update value) v (fun '(value', r) v' =>
    match r with
    | Err e => Q (value', ([], Err (EWrap (name +:+ ": failed to run request") e))) v'
    | Ok _ => forall n, (length (read pf value') <= n)%nat ->
        Q (value', send_pages send (Z.to_nat (getPageSize cfg)) (read pf value') n 0 0) v'
    end) ->
  wp (query cfg name update read send (Some pool) value) v Q.
Proof.
  intros Hpf Hu. unfold query. rewrite Hpf. apply wp_bind. unfold cache_request. apply wp_bind.
  eapply wp_mono; [exact Hu|]. intros [value' [[]|e]] v' HQ; cbn in *; [|done]. by apply HQ.
Qed.

(** Every cached ticket that is indexed is the stored one: an assignment is
    written to tickets that leave the index. *)
Definition coherent (tc : gmap string Ticket) (d : db) : Prop :=
  forall id x, tc !! id = Some x -> id ∈ index d -> ticket_at d id = Some x.

Lemma coherent_empty d : coherent ∅ d.
Proof. intros id x. by rewrite lookup_empty. Qed.

Definition readable (d : db) (t : Z) : Prop :=
  forall id, visible cfg d t id -> get_str d id <> None ->
    exists x, ticket_at d id = Some x /\ t_Id x = id.

(** A coherent cache, brought up to date, is the visible part of the store. *)
Lemma updateTicketCache_exact tc v : sys_faulty = false -> typed (v_db v) -> coherent tc (v_db v) ->
  (forall t, readable (v_db v) t) ->
  wp (updateTicketCache store tc) v (fun '(tc', r) v' =>
    r = Ok tt /\ v_xids v' = v_xids v /\ exists t, v_now v <= t <= v_now v' /\ v_db v' = v_db v /\
    forall id x, tc' !! id = Some x <-> visible cfg (v_db v) t id /\ ticket_at (v_db v) id = Some x).
Proof.
  intros Hf Ht Hc Hr. eapply wp_mono; [by apply updateTicketCache_spec|].
  intros [tc' r] v' (t & t' & Ht1 & Ht2 & -> & Hp). destruct r as [[]|e]; cycle 1.
  { destruct Hp as [_ [?|(id & Hv & Hs & Hn)]]; [congruence|].
    destruct (Hr t id Hv Hs) as (x & Hx & _). congruence. }
  split; [done|]. split; [done|]. exists t. split; [done|]. split; [done|]. intros id x.
  assert (forall id x, visible cfg (v_db v) t id -> ticket_at (v_db v) id = Some x -> t_Id x = id) as Hk.
  { intros id' x' Hv Hx. destruct (Hr t id' Hv) as (x'' & Hx'' & ?); [|congruence].
    intros Hs. unfold ticket_at in Hx. by rewrite Hs in Hx. }
  destruct (Hp Hk id) as [Hin Hout]. cbn. split.
  - intros Hx. assert (visible cfg (v_db v) t id) as Hv.
    { destruct (decide (id ∈ index (v_db v))) as [Hi|]; [|rewrite Hout in Hx; [done|by intros [? _]]].
      split; [done|]. intros Hw. rewrite Hout in Hx; [done|by intros [_ ?]]. }
    split; [done|]. rewrite (Hin Hv) in Hx. destruct (tc !! id) eqn:Hti; [|done].
    pose proof (Hc _ _ Hti (proj1 Hv)). congruence.
  - intros [Hv Hx]. rewrite (Hin Hv). destruct (tc !! id) eqn:Hti; [|done].
    pose proof (Hc _ _ Hti (proj1 Hv)). congruence.
Qed.

(** A cached backfill is the stored one, or the index knows a later one. *)
Definition bcoherent (bc : gmap string Backfill) (d : db) : Prop :=
  forall id b, bc !! id = Some b -> backfill_of d id = Some b \/
    forall g, bindex d !! id ≫= atoi = Some g -> b_Generation b < g.

(** The index can be read, and what it names is stored under its own id,
    with a generation at least as recent. *)
Definition breadable (d : db) : Prop :=
  (forall id s, bindex d !! id = Some s -> is_Some (atoi s)) /\
  (forall id, get_str d id <> None -> is_Some (bindex d !! id) -> is_Some (backfill_at d id)) /\
  (forall id b, is_Some (bindex d !! id) -> backfill_of d id = Some b -> b_Id b = id) /\
  (forall id b g, backfill_of d id = Some b -> bindex d !! id ≫= atoi = Some g -> g <= b_Generation b).

Lemma updateBackfillCache_exact bc v : sys_faulty = false -> typed (v_db v) ->
  bcoherent bc (v_db v) -> breadable (v_db v) ->
  wp (updateBackfillCache store bc) v (fun '(bc', r) v' =>
    r = Ok tt /\ exists t, v_now v <= t <= v_now v' /\ v_db v' = v_db v /\
    forall id b, bc' !! id = Some b <->
      (exists g, bvisible cfg (v_db v) t id g) /\ backfill_of (v_db v) id = Some b).
Proof.
  intros Hf Ht Hc (Hidx & Hval & Hkey & Hgen).
  eapply wp_mono; [by apply updateBackfillCache_spec|].
  intros [bc' r] v' (t & t' & Ht1 & Ht2 & -> & Hp).
  assert (forall id g, bvisible cfg (v_db v) t id g -> is_Some (bindex (v_db v) !! id)) as Hvis.
  { intros id g [_ Hg]. apply bind_Some in Hg as (s & Hs & _). eauto. }
  destruct r as [[]|e]; cycle 1.
  { destruct Hp as [_ [?|[(id & s & Hs & Hn)|(id & g & Hv & Hs & Hn)]]]; [congruence|..].
    - apply Hidx in Hs as [? ?]. congruence.
    - destruct (Hval id Hs (Hvis _ _ Hv)). congruence. }
  split; [done|]. exists t. split; [done|]. split; [done|]. intros id b.
  destruct (Hp (fun id g b Hv => Hkey id b (Hvis _ _ Hv)) id) as [Hin Hout]. cbn.
  assert (forall g, bvisible cfg (v_db v) t id g -> bc' !! id = backfill_of (v_db v) id) as Heq.
  { intros g Hv. rewrite (Hin g Hv). destruct (bc !! id) as [b'|] eqn:Hb; [|done].
    destruct (current g b') eqn:Hcur; [|done]. destruct (Hc id b' Hb) as [|Hold]; [done|].
    destruct Hv as [_ Hg]. specialize (Hold g Hg). unfold current in Hcur.
    apply negb_true_iff, Z.ltb_ge in Hcur. lia. }
  split; [|intros [[g Hv] ?]; by rewrite (Heq g Hv)].
  intros Hb. destruct (bindex (v_db v) !! id ≫= atoi) as [g|] eqn:Hg.
  - assert (bvisible cfg (v_db v) t id g \/ forall g', ~ bvisible cfg (v_db v) t id g') as [Hv|Hn].
    { unfold bvisible, in_window. destruct (acks (v_db v) !! id) as [s|]; [|right; naive_solver].
      destruct (decide (sys_score (t - release_ttl cfg) <= s <= sys_score (t + time_Hour)));
        [left; eauto|right; naive_solver]. }
    + rewrite (Heq g Hv) in Hb. eauto.
    + rewrite Hout in Hb; [done|naive_solver].
  - rewrite Hout in Hb; [done|]. intros g [_ ?]. congruence.
Qed.
End QuerySpec.

Section Queries.
Context `{EnvironmentLaws} `{Proto} `{MapOrder} (cfg : View) (store : Service) `{!ServiceSpec cfg store}.
Implicit Types (w : env_state).

(** The handler, what it leaves in the cache included. *)
Lemma query_tickets_wp send pool pf tc v (Hf : sys_faulty = false) (Ht : typed (v_db v))
  (Hc : coherent tc (v_db v)) (Hr : forall t, readable cfg (v_db v) t)
  (Hpf : NewPoolFilter pool = Ok pf) (Hsend : forall i page, send i page = None) :
  wp (QueryTickets store cfg send (Some pool) tc) v (fun '(tc', (pages, r)) v' =>
    r = Ok tt /\ v_db v' = v_db v /\ v_xids v' = v_xids v /\
    (exists t, v_now v <= t <= v_now v' /\
       (forall id x, tc' !! id = Some x <-> visible cfg (v_db v) t id /\ ticket_at (v_db v) id = Some x) /\
       (forall x, x ∈ concat pages <->
          exists id, visible cfg (v_db v) t id /\ ticket_at (v_db v) id = Some x /\ Filter.In pf x = true)) /\
    NoDup (t_Id <$> concat pages) /\
    Forall (fun p => 0 < Z.of_nat (length p) <= getPageSize cfg) pages).
Proof.
  unfold QueryTickets. eapply wp_query; [done|].
  eapply wp_mono; [by apply updateTicketCache_exact|].
  intros [tc1 r1] v' (-> & Hxid & t & Ht1 & Hd & Htc) n Hn.
  pose proof (getPageSize_bounds cfg) as Hps. unfold minPageSize, maxPageSize in Hps.
  destruct (send_pages_ok send (Z.to_nat (getPageSize cfg)) _ n 0 0 Hsend ltac:(lia) Hn)
    as (pages1 & -> & Hcat & Hlen & _).
  rewrite drop_0 in Hcat. rewrite Hcat. split; [done|]. split; [done|]. split; [done|].
  split; [exists t; split; [done|]; split; [done|]|split].
  - intros x. rewrite list_elem_of_filter, list_elem_of_fmap. split.
    + intros [Hin ([id x'] & -> & Hx%elem_of_map_iter%Htc)]. naive_solver.
    + intros (id & Hv & Hx & Hin). split; [done|]. exists (id, x). split; [done|].
      by apply elem_of_map_iter, Htc.
  - assert (forall id x, tc1 !! id = Some x -> t_Id x = id) as Hk.
    { intros id x [Hv Hx]%Htc. destruct (Hr t id Hv) as (x' & Hx' & ?); [|congruence].
      intros Hs. unfold ticket_at in Hx. by rewrite Hs in Hx. }
    eapply sublist_NoDup; [|by apply fmap_sublist, sublist_filter].
    rewrite <- list_fmap_compose.
    replace (_ <$> map_iter tc1) with (map_iter tc1).*1; [apply NoDup_map_iter|].
    apply Forall_fmap_ext_1, Forall_forall. intros [id x] Hx%elem_of_map_iter. cbn. symmetry. eauto.
  - eapply Forall_impl; [exact Hlen|]. intros p Hp. cbn beta in *. lia.
Qed.

(** C24. A ticket query streams exactly the tickets of the pool: with a
    cache that agrees with the store and a stream that accepts every page,
    the call succeeds and the pages together hold each ticket that is
    indexed, not proposed in a match at some moment during the call, and in
    the pool's filter, once; no page is empty or longer than the page size,
    which lies between 10 and 10000; and the cache agrees with the store
    again. *)
Theorem query_tickets_exact send pool pf tc w out w' :
  sys_faulty = false -> typed (db_of w) -> coherent tc (db_of w) ->
  (forall t, readable cfg (db_of w) t) ->
  NewPoolFilter pool = Ok pf -> (forall i page, send i page = None) ->
  run (QueryTickets store cfg send (Some pool) tc) w = (out, w') ->
  let '(tc', (pages, r)) := out in
  r = Ok tt /\ coherent tc' (db_of w') /\
  (exists t, clock w <= t <= clock w' /\
     forall x, x ∈ concat pages <->
       exists id, visible cfg (db_of w) t id /\ ticket_at (db_of w) id = Some x /\ Filter.In pf x = true) /\
  NoDup (t_Id <$> concat pages) /\
  Forall (fun p => 0 < Z.of_nat (length p) <= getPageSize cfg) pages /\
  10 <= getPageSize cfg <= 10000.
Proof.
  intros Hf Ht Hc Hr Hpf Hsend Hrun. pose proof (getPageSize_bounds cfg) as Hps. unfold minPageSize, maxPageSize in Hps.
  pose proof (run_wp _ _ _ _ _ (query_tickets_wp send pool pf tc _ Hf Ht Hc Hr Hpf Hsend) Hrun) as Hq.
  destruct out as [tc' [pages r]]. destruct Hq as (-> & Hd & _ & (t & Hnow & Htc & Hp) & Hn & Hl).
  split; [done|]. split; [by intros id x [_ ?]%Htc; rewrite Hd|]. split_and!; [by exists t|done|done|lia|lia].
Qed.

(** A query that is refused streams nothing and says why: without a
    pool, or with a pool whose time bounds are not valid timestamps, the
    answer is InvalidArgument and neither the store nor the cache is
    touched. *)
Theorem query_tickets_invalid send pool tc w x w' :
  run (QueryTickets store cfg send pool tc) w = (x, w') ->
  (pool = None \/ exists p, pool = Some p /\ is_ok (NewPoolFilter p) = false) ->
  x.1 = tc /\ x.2.1 = [] /\ err_code x.2.2 = Some InvalidArgument /\ w' = w.
Proof.
  intros Hrun Hp. unfold QueryTickets, query in Hrun.
  destruct Hp as [->|(p & -> & Hn)]; [cbn in Hrun; by simplify_eq|].
  destruct (NewPoolFilter p) as [pf|e] eqn:He; [done|]. cbn in Hrun. simplify_eq. cbn.
  repeat split. unfold NewPoolFilter, parse_bound in He. repeat (case_match; cbn in He); by simplify_eq.
Qed.

(** C25. A backfill query streams exactly the live backfills of the pool: a
    cached backfill is replaced when the index has a later generation of
    it, so with a cache whose other entries agree with the store the pages
    together hold each backfill that is indexed, was acknowledged recently
    enough at some moment during the call and is in the pool's filter. *)
Theorem query_backfills_exact send pool pf bc w out w' :
  sys_faulty = false -> typed (db_of w) -> bcoherent bc (db_of w) -> breadable (db_of w) ->
  NewPoolFilter pool = Ok pf -> (forall i page, send i page = None) ->
  run (QueryBackfills store cfg send (Some pool) bc) w = (out, w') ->
  let '(bc', (pages, r)) := out in
  r = Ok tt /\ bcoherent bc' (db_of w') /\
  exists t, clock w <= t <= clock w' /\
    forall b, b ∈ concat pages <->
      exists id g, bvisible cfg (db_of w) t id g /\ backfill_of (db_of w) id = Some b /\ Filter.In pf b = true.
Proof.
  intros Hf Ht Hc Hr Hpf Hsend Hrun. cbv zeta. run_start Hrun.
  unfold QueryBackfills. eapply wp_query; [done|].
  eapply wp_mono; [by apply updateBackfillCache_exact|].
  intros [bc1 r1] v' [-> (t & Ht1 & Hd & Hbc)] n Hn.
  pose proof (getPageSize_bounds cfg) as Hps. unfold minPageSize, maxPageSize in Hps.
  destruct (send_pages_ok send (Z.to_nat (getPageSize cfg)) _ n 0 0 Hsend ltac:(lia) Hn)
    as (pages1 & -> & Hcat & _).
  rewrite drop_0 in Hcat. rewrite Hcat.
  split; [done|]. split; [intros id b Hb; left; rewrite Hd; by apply Hbc in Hb as [_ ?]|].
  exists t. split; [done|]. intros b. rewrite list_elem_of_filter, list_elem_of_fmap. split.
  - intros [Hin ([id b'] & -> & [[g ?] ?]%elem_of_map_iter%Hbc)]. eauto 10.
  - intros (id & g & Hv & Hb & Hin). split; [done|]. exists (id, b). split; [done|].
    apply elem_of_map_iter, Hbc. eauto.
Qed.
End Queries.

Definition demo_pool : Pool :=
  mkPool "demo" [] [mkStringEqualsFilter "mode" "demo"] [mkTagPresentFilter "beta"]
    None (Some (mkTimestamp 1500000000 0)).

Definition query_world : env_state :=
  after (IndexTicket (mem_ticket "a")) (after (CreateTicket (mem_ticket "a")) mem_init).

Lemma query_tickets_exact_witness :
  let q := QueryTickets (redisBackend mem_cfg) mem_cfg (fun _ _ => None) (Some demo_pool) ∅ in
  (ans q query_world).2 = ([[mem_ticket "a"]], Ok tt) /\
  NoDup (t_Id <$> concat (ans q query_world).2.1).
Proof.
  intros q. split; [vm_compute; reflexivity|].
  destruct (run q query_world) as [out w'] eqn:Hrun.
  pose proof (query_tickets_exact mem_cfg (redisBackend mem_cfg) (fun _ _ => None) demo_pool
    (default (mkPoolFilter [] [] [] 0 0)
       (match NewPoolFilter demo_pool with Ok p => Some p | Err _ => None end))
    ∅ query_world out w' eq_refl ltac:(concrete) (coherent_empty _)) as Hq.
  destruct out as [tc' [pages r]]. apply Hq; [|vm_compute; reflexivity|done|exact Hrun].
  intros t id [Hid _] _.
  assert (index (db_of query_world) = {["a"]}) as Hi by (vm_compute; reflexivity).
  rewrite Hi in Hid. apply elem_of_singleton in Hid as ->.
  exists (mem_ticket "a"). split; [vm_compute; reflexivity|reflexivity].
Defined.

Lemma query_tickets_invalid_witness :
  let q := QueryTickets (redisBackend mem_cfg) mem_cfg (fun _ _ => None) None ∅ in
  err_code (ans q query_world).2.2 = Some InvalidArgument.
Proof.
  intros q. eapply (query_tickets_invalid mem_cfg (redisBackend mem_cfg) (fun _ _ => None) None ∅ query_world);
    [apply surjective_pairing|by left].
Defined.

Definition backfill_world : env_state :=
  after (IndexBackfill (mem_backfill "bf" 3)) (after (CreateBackfill (mem_backfill "bf" 3) ["a"]) mem_init).

(** The cache holds an older generation of the backfill. *)
Lemma query_backfills_exact_witness :
  let pool := mkPool "all" [] [] [] None None in
  let q := QueryBackfills (redisBackend mem_cfg) mem_cfg (fun _ _ => None) (Some pool)
             {["bf" := mem_backfill "bf" 2]} in
  (ans q backfill_world).2 = ([[mem_backfill "bf" 3]], Ok tt) /\
  bcoherent (ans q backfill_world).1 (db_of (after q backfill_world)).
Proof.
  intros pool q. split; [vm_compute; reflexivity|].
  destruct (run q backfill_world) as [out w'] eqn:Hrun.
  assert (bindex (db_of backfill_world) = {["bf" := "3"]}) as Hi by (vm_compute; reflexivity).
  assert (backfill_of (db_of backfill_world) "bf" = Some (mem_backfill "bf" 3)) as Hb by (vm_compute; reflexivity).
  pose proof (query_backfills_exact mem_cfg (redisBackend mem_cfg) (fun _ _ => None) pool
    (mkPoolFilter [] [] [] time_zero time_zero)
    {["bf" := mem_backfill "bf" 2]} backfill_world out w' eq_refl ltac:(concrete)) as Hq.
  destruct out as [tc' [pages r]]. apply Hq; [| |reflexivity|done|exact Hrun].
  - intros id b [<- <-]%lookup_singleton_Some. right. rewrite Hi. intros g.
    rewrite lookup_singleton_eq. intros [= <-]. reflexivity.
  - unfold breadable. rewrite Hi. repeat split.
    + intros id s [<- <-]%lookup_singleton_Some. by eexists.
    + intros id _ [s [<- _]%lookup_singleton_Some]. concrete.
    + intros id b [s [<- _]%lookup_singleton_Some]. rewrite Hb. by intros [= <-].
    + intros id b g Hbi. rewrite bind_Some. intros (s & [<- <-]%lookup_singleton_Some & [= <-]).
      rewrite Hb in Hbi. by injection Hbi as <-.
Defined.

(** *** Filtering *)

(** Level in [10, 20), mode "demo", tag "beta". *)
Definition level_pool : Pool :=
  mkPool "level" [mkDoubleRangeFilter "level" (S754_finite false 20 0) (S754_finite false 10 0) Exclude_MAX]
    [mkStringEqualsFilter "mode" "demo"] [mkTagPresentFilter "beta"] None None.

Definition level_ticket (level : positive) : Ticket :=
  mkTicket "lt" None
    (Some (mkSearchFields {["level" := S754_finite false level 0]} {["mode" := "demo"]} ["beta"])) ∅ ∅ None.

Lemma In_spec_witness :
  let pf := mkPoolFilter (p_DoubleRangeFilters level_pool) (p_StringEqualsFilters level_pool)
              (p_TagPresentFilters level_pool) time_zero time_zero in
  Filter.In pf (level_ticket 15) = true /\ Filter.In pf (level_ticket 20) = false /\
  (exists v, sf_DoubleArgs (fields (level_ticket 15)) !! "level" = Some v /\
     in_range (mkDoubleRangeFilter "level" (S754_finite false 20 0) (S754_finite false 10 0) Exclude_MAX) v).
Proof.
  intros pf. split; [vm_compute; reflexivity|]. split; [vm_compute; reflexivity|].
  pose proof (In_spec level_pool pf (level_ticket 15) eq_refl ltac:(repeat constructor)) as [Hin _].
  destruct Hin as (_ & Hd & _); [vm_compute; reflexivity|]. exact (Hd _ (list_elem_of_here _ _)).
Defined.

(** *** Paging *)

(** C26. The pages of a query bound what is sent at once, whatever the
    configuration says: with a stream that takes every page the loop ends
    having sent all the results in order and once, each page holds between
    one and ten thousand of them, and every page but the last is a full page
    of at least ten. *)
Theorem pages_bounded {A} cfg (results : list A) :
  let pSize := Z.to_nat (getPageSize cfg) in
  10 <= Z.of_nat pSize <= 10000 /\
  exists pages,
    send_pages (fun _ _ => None) pSize results (length results) 0 0 = (pages, Ok tt) /\
    concat pages = results /\
    Forall (fun p => 0 < length p <= pSize)%nat pages /\
    (forall j p, pages !! j = Some p -> (S j < length pages)%nat -> length p = pSize).
Proof.
  intros pSize. pose proof (getPageSize_bounds cfg) as Hb. unfold minPageSize, maxPageSize in Hb.
  split; [lia|].
  destruct (send_pages_ok (fun _ _ => None) pSize results (length results) 0 0)
    as (pages & ? & ? & ? & ?); [done|lia|lia|]. eauto.
Qed.
