(* ===== verification/QueryCache.v ===== *)
(** * Concurrent queries on one cache ([internal/app/query/cache.go])

    Requests ([cache.request]) and update runs ([cache.runRequest]) are
    goroutines that meet on channels and a WaitGroup. The model is a step
    relation on their control states; the updates themselves are
    [Query.updateTicketCache] and [Query.updateBackfillCache]. *)
From S2P Require Export Prelude.

(** Where a request is: in the first [select] loop; sent and waiting for
    [runNow]; reading the cache ([f(c.value)]), its deferred [wg.Done] still
    to come; returned. *)
Inductive request_state := Selecting | Waiting | Reading | Returned.

(** Where an update run is: waiting for its first request; collecting all
    that wait; updating; handing out access, [Offering p] between [wg.Add]
    and the select; at [Serving []] it waits for the WaitGroup. *)
Inductive run_state :=
| First
| Collecting (reqs : list nat)
| Updating (reqs : list nat)
| Serving (reqs : list nat)
| Offering (p : nat) (reqs : list nat).

Record cache_state := mkCacheState {
  startRunRequest : bool;                (* the buffered channel holds its item *)
  wg : nat;
  requests : gmap nat request_state;
  runs : gmap nat run_state;
  cancelled : gset nat;                  (* requests whose context is done *)
  started : nat;                         (* updates begun and completed *)
  completed : nat;
  issued : gmap nat nat;                 (* [started] when the request was made *)
}.

Definition set_request (p : nat) (st : request_state) (s : cache_state) : cache_state :=
  mkCacheState (startRunRequest s) (wg s) (<[p := st]> (requests s)) (runs s) (cancelled s)
    (started s) (completed s) (issued s).
Definition set_run (r : nat) (st : run_state) (s : cache_state) : cache_state :=
  mkCacheState (startRunRequest s) (wg s) (requests s) (<[r := st]> (runs s)) (cancelled s)
    (started s) (completed s) (issued s).
Definition set_wg (n : nat) (s : cache_state) : cache_state :=
  mkCacheState (startRunRequest s) n (requests s) (runs s) (cancelled s) (started s) (completed s) (issued s).

(** [newTicketCache] and [newBackfillCache]: the channel holds its item. *)
Definition cache_init : cache_state := mkCacheState true 0 ∅ ∅ ∅ 0 0 ∅.

Inductive cache_step (s : cache_state) : cache_state -> Prop :=
| step_new p : requests s !! p = None ->
    cache_step s (mkCacheState (startRunRequest s) (wg s) (<[p := Selecting]> (requests s)) (runs s)
                    (cancelled s) (started s) (completed s) (<[p := started s]> (issued s)))
| step_cancel p :
    cache_step s (mkCacheState (startRunRequest s) (wg s) (requests s) (runs s) ({[p]} ∪ cancelled s)
                    (started s) (completed s) (issued s))
  (* request: the first select *)
| step_cancel_send p : requests s !! p = Some Selecting -> p ∈ cancelled s ->
    cache_step s (set_request p Returned s)
| step_start p r : requests s !! p = Some Selecting -> startRunRequest s = true -> runs s !! r = None ->
    cache_step s (mkCacheState false (wg s) (requests s) (<[r := First]> (runs s)) (cancelled s)
                    (started s) (completed s) (issued s))
| step_send_first p r : requests s !! p = Some Selecting -> runs s !! r = Some First ->
    cache_step s (set_request p Waiting (set_run r (Collecting [p]) s))
| step_send p r reqs : requests s !! p = Some Selecting -> runs s !! r = Some (Collecting reqs) ->
    cache_step s (set_request p Waiting (set_run r (Collecting (reqs ++ [p])) s))
  (* request: the second select, and its end *)
| step_cancel_wait p : requests s !! p = Some Waiting -> p ∈ cancelled s ->
    cache_step s (set_request p Returned s)
| step_read p : requests s !! p = Some Reading ->
    cache_step s (set_wg (wg s - 1) (set_request p Returned s))
  (* runRequest *)
| step_update r reqs : runs s !! r = Some (Collecting reqs) ->
    cache_step s (mkCacheState (startRunRequest s) (wg s) (requests s) (<[r := Updating reqs]> (runs s))
                    (cancelled s) (S (started s)) (completed s) (issued s))
| step_updated r reqs : runs s !! r = Some (Updating reqs) ->
    cache_step s (mkCacheState (startRunRequest s) (wg s) (requests s) (<[r := Serving reqs]> (runs s))
                    (cancelled s) (started s) (S (completed s)) (issued s))
| step_add r p reqs : runs s !! r = Some (Serving (p :: reqs)) ->
    cache_step s (set_wg (S (wg s)) (set_run r (Offering p reqs) s))
| step_run_now r p reqs : runs s !! r = Some (Offering p reqs) -> requests s !! p = Some Waiting ->
    cache_step s (set_request p Reading (set_run r (Serving reqs) s))
| step_skip r p reqs : runs s !! r = Some (Offering p reqs) -> p ∈ cancelled s ->
    cache_step s (set_wg (wg s - 1) (set_run r (Serving reqs) s))
| step_finish r : runs s !! r = Some (Serving []) -> wg s = O -> startRunRequest s = false ->
    cache_step s (mkCacheState true (wg s) (requests s) (delete r (runs s)) (cancelled s)
                    (started s) (completed s) (issued s)).

Inductive cache_reachable : cache_state -> Prop :=
| reach_init : cache_reachable cache_init
| reach_step s s' : cache_reachable s -> cache_step s s' -> cache_reachable s'.

(** ** The invariant *)

Definition queue (st : run_state) : list nat :=
  match st with
  | First => [] | Collecting l | Updating l | Serving l => l | Offering p l => p :: l
  end.

Definition granting (st : run_state) : bool :=
  match st with Serving _ | Offering _ _ => true | _ => false end.

Definition begun (st : run_state) : bool :=
  match st with First | Collecting _ => false | _ => true end.

(** What holds while one run is in state [st] and the requests [U] read. *)
Record running (s : cache_state) (st : run_state) (U : gset nat) : Prop := {
  inv_reading p : p ∈ U <-> requests s !! p = Some Reading;
  inv_wg : wg s = (size U + match st with Offering _ _ => 1 | _ => 0 end)%nat;
  inv_grant : U <> ∅ -> granting st = true;
  inv_nodup : NoDup (queue st);
  inv_queue p : p ∈ queue st ->
    requests s !! p = Some Waiting \/ (requests s !! p = Some Returned /\ p ∈ cancelled s);
  inv_waiting p : requests s !! p = Some Waiting -> p ∉ cancelled s -> p ∈ queue st;
  inv_issued p n : issued s !! p = Some n -> (n <= started s)%nat;
  inv_issued_dom p : is_Some (requests s !! p) -> is_Some (issued s !! p);
  inv_fresh p n : begun st = true -> p ∈ U \/ p ∈ queue st -> issued s !! p = Some n -> (n < started s)%nat;
  inv_completed : started s = (completed s + match st with Updating _ => 1 | _ => 0 end)%nat;
}.

(** At most one update run, and none while the channel holds its item: then
    nothing is waiting and nothing reads. *)
Definition cache_inv (s : cache_state) : Prop :=
  if startRunRequest s then runs s = ∅ /\ running s First ∅
  else exists r st U, runs s = {[r := st]} /\ running s st U.

(** Case analysis on the request a lookup is about. *)
Ltac requests_cases :=
  repeat match goal with
  | H : context [<[?p := _]> _ !! ?q] |- _ =>
      destruct (decide (q = p)) as [->|]; [rewrite lookup_insert_eq in *|rewrite lookup_insert_ne in * by done]
  | |- context [<[?p := _]> _ !! ?q] =>
      destruct (decide (q = p)) as [->|]; [rewrite lookup_insert_eq in *|rewrite lookup_insert_ne in * by done]
  end.

Ltac running_solve :=
  split; cbn in *; intros; requests_cases; simplify_eq; try done; try lia; try solve [naive_solver]; try set_solver.

Section Preservation.
Implicit Types (s : cache_state) (st : run_state) (U : gset nat).

Lemma running_new s st U p : running s st U -> requests s !! p = None ->
  running (mkCacheState (startRunRequest s) (wg s) (<[p := Selecting]> (requests s)) (runs s)
             (cancelled s) (started s) (completed s) (<[p := started s]> (issued s))) st U.
Proof.
  intros [] Hp.
  assert (p ∉ U) by (rewrite inv_reading0; congruence).
  assert (p ∉ queue st) by (intros Hq; apply inv_queue0 in Hq; naive_solver congruence).
  running_solve.
Qed.

(** Neither the runs nor the channel's item matter to [running]. *)
Lemma running_ext s s' st U : running s st U ->
  wg s' = wg s -> requests s' = requests s -> cancelled s ⊆ cancelled s' -> started s' = started s ->
  completed s' = completed s -> issued s' = issued s -> running s' st U.
Proof.
  intros [] Hw Hr Hc Hs Hco Hi. split; rewrite ?Hw, ?Hr, ?Hs, ?Hco, ?Hi; try done.
  - intros p Hp. destruct (inv_queue0 p Hp) as [?|[? ?]]; [by left|right]. set_solver.
  - intros p Hp Hn. apply inv_waiting0; [done|]. set_solver.
Qed.

(** A request that returns without having read. *)
Lemma running_return s st U p : running s st U ->
  requests s !! p = Some Selecting \/ requests s !! p = Some Waiting -> p ∈ cancelled s ->
  running (set_request p Returned s) st U.
Proof.
  intros [] Hp Hc. assert (p ∉ U) by (rewrite inv_reading0; naive_solver congruence).
  running_solve.
Qed.

(** A request received by the run. *)
Lemma running_send s st U p : running s st U -> granting st = false ->
  (match st with Updating _ => False | _ => True end) -> requests s !! p = Some Selecting ->
  running (set_request p Waiting s) (Collecting (queue st ++ [p])) U.
Proof.
  intros [] Hg Hst Hp.
  assert (U = ∅) as -> by (destruct (decide (U = ∅)); [done|]; naive_solver congruence).
  assert (p ∉ queue st) by (intros Hq; apply inv_queue0 in Hq; naive_solver congruence).
  split; cbn; try done.
  - intros q. requests_cases; naive_solver congruence.
  - rewrite inv_wg0. by destruct st.
  - apply NoDup_app. split; [done|]. split; [set_solver|apply NoDup_singleton].
  - intros q. rewrite elem_of_app, list_elem_of_singleton. requests_cases; naive_solver.
  - intros q. rewrite elem_of_app, list_elem_of_singleton. requests_cases; naive_solver.
  - intros q Hq. apply inv_issued_dom0. revert Hq. requests_cases; naive_solver.
  - rewrite inv_completed0. by destruct st.
Qed.

Lemma running_read s st U p : running s st U -> requests s !! p = Some Reading ->
  running (set_wg (wg s - 1) (set_request p Returned s)) st (U ∖ {[p]}).
Proof.
  intros [] Hp.
  assert (p ∈ U) as HpU by by apply inv_reading0.
  assert (p ∉ queue st) by (intros Hq; apply inv_queue0 in Hq; naive_solver congruence).
  assert (size U = S (size (U ∖ {[p]}))) as Hsize.
  { rewrite size_difference by set_solver. rewrite size_singleton.
    assert (size U <> 0)%nat by (intros Hz%size_empty_inv; set_solver). lia. }
  split; cbn; try done.
  - intros q. rewrite elem_of_difference, elem_of_singleton, inv_reading0. requests_cases; naive_solver.
  - rewrite inv_wg0, Hsize. lia.
  - intros HU. apply inv_grant0. set_solver.
  - intros q Hq. requests_cases; naive_solver.
  - intros q. requests_cases; naive_solver.
  - intros q Hq. apply inv_issued_dom0. revert Hq. requests_cases; naive_solver.
  - intros q n Hg Hq. eapply inv_fresh0; [done|set_solver].
Qed.

Lemma running_update s reqs U : running s (Collecting reqs) U ->
  running (mkCacheState (startRunRequest s) (wg s) (requests s) (runs s) (cancelled s)
             (S (started s)) (completed s) (issued s)) (Updating reqs) U.
Proof.
  intros []. split; cbn in *; try done.
  - intros p n Hn. specialize (inv_issued0 p n Hn). lia.
  - intros p n _ _ Hn. specialize (inv_issued0 p n Hn). lia.
  - lia.
Qed.

Lemma running_updated s reqs U : running s (Updating reqs) U ->
  running (mkCacheState (startRunRequest s) (wg s) (requests s) (runs s) (cancelled s)
             (started s) (S (completed s)) (issued s)) (Serving reqs) U.
Proof. intros []. split; cbn in *; try done; lia. Qed.

Lemma running_add s p reqs U : running s (Serving (p :: reqs)) U ->
  running (set_wg (S (wg s)) s) (Offering p reqs) U.
Proof. intros []. split; cbn in *; try done; lia. Qed.

Lemma running_run_now s p reqs U : running s (Offering p reqs) U -> requests s !! p = Some Waiting ->
  running (set_request p Reading s) (Serving reqs) ({[p]} ∪ U).
Proof.
  intros [] Hp. assert (p ∉ U) by (rewrite inv_reading0; congruence).
  cbn in *. apply NoDup_cons in inv_nodup0 as [Hni Hnd].
  split; cbn; try done.
  - intros q. rewrite elem_of_union, elem_of_singleton. requests_cases; naive_solver.
  - rewrite size_union by set_solver. rewrite size_singleton. lia.
  - intros q Hq. requests_cases; [done|]. apply inv_queue0. by right.
  - intros q. requests_cases; [done|]. intros Hq Hnc. specialize (inv_waiting0 q Hq Hnc). set_solver.
  - intros q Hq. apply inv_issued_dom0. revert Hq. requests_cases; naive_solver.
  - intros q n _ Hq. apply inv_fresh0; [done|]. set_solver.
Qed.

Lemma running_skip s p reqs U : running s (Offering p reqs) U -> p ∈ cancelled s ->
  running (set_wg (wg s - 1) s) (Serving reqs) U.
Proof.
  intros [] Hc. cbn in *. apply NoDup_cons in inv_nodup0 as [Hni Hnd].
  split; cbn; try done; try lia.
  - intros q Hq. apply inv_queue0. by right.
  - intros q Hq Hnc. specialize (inv_waiting0 q Hq Hnc). set_solver.
  - intros q n _ Hq. apply inv_fresh0; [done|]. set_solver.
Qed.
End Preservation.

(** Every step preserves the invariant. *)
Lemma running_idle s U : running s (Serving []) U -> wg s = O -> running s First ∅.
Proof.
  intros [] Hw. cbn in *. assert (U = ∅) as -> by (apply leibniz_equiv, size_empty_inv; lia). split; cbn; try done; lia.
Qed.

Lemma cache_inv_init : cache_inv cache_init.
Proof.
  split; [done|]. split; cbn; try done.
  - apply NoDup_nil_2.
  - by intros p ?%not_elem_of_nil.
  - intros p. by intros [? ?].
Qed.

(** The only run is the one looked up. *)
Ltac the_run :=
  match goal with
  | Hr : runs ?s = ∅, H : runs ?s !! _ = Some _ |- _ => rewrite Hr, lookup_empty in H; discriminate
  | Hr : runs ?s = {[?r := ?st]}, H : runs ?s !! ?r' = Some ?st' |- _ =>
      rewrite Hr in H; apply lookup_singleton_Some in H as [? ?]; subst
  end.

Lemma cache_inv_step s s' : cache_inv s -> cache_step s s' -> cache_inv s'.
Proof.
  unfold cache_inv. intros Hinv Hs.
  destruct (startRunRequest s) eqn:Htok.
  - destruct Hinv as [Hruns Hrun].
    destruct Hs; cbn; rewrite ?Htok; try the_run; try congruence.
    + split; [done|]. eapply running_ext; [by apply (running_new s)|done || set_solver..].
    + split; [done|]. eapply running_ext; [exact Hrun|cbn; done || set_solver..].
    + split; [done|]. eapply running_ext; [apply (running_return s); eauto|done || set_solver..].
    + exists r, First, ∅. rewrite Hruns. split; [done|].
      eapply running_ext; [exact Hrun|cbn; done || set_solver..].
    + split; [done|]. eapply running_ext; [apply (running_return s); eauto|done || set_solver..].
    + apply (inv_reading _ _ _ Hrun) in H. set_solver.
  - destruct Hinv as (r0 & st & U & Hruns & Hrun).
    destruct Hs; cbn; rewrite ?Htok; try the_run; try congruence.
    + exists r0, st, U. split; [done|]. eapply running_ext; [by apply (running_new s)|done || set_solver..].
    + exists r0, st, U. split; [done|]. eapply running_ext; [exact Hrun|cbn; done || set_solver..].
    + exists r0, st, U. split; [done|]. eapply running_ext; [apply (running_return s); eauto|done || set_solver..].
    + exists r, (Collecting [p]), U. rewrite Hruns, insert_singleton_eq. split; [done|].
      eapply running_ext; [by apply (running_send s First)|cbn; done || set_solver..].
    + exists r, (Collecting (reqs ++ [p])), U. rewrite Hruns, insert_singleton_eq. split; [done|].
      eapply running_ext; [by apply (running_send s (Collecting reqs))|cbn; done || set_solver..].
    + exists r0, st, U. split; [done|]. eapply running_ext; [apply (running_return s); eauto|done || set_solver..].
    + exists r0, st, (U ∖ {[p]}). split; [done|]. eapply running_ext; [by apply (running_read s)|done || set_solver..].
    + exists r, (Updating reqs), U. rewrite Hruns, insert_singleton_eq. split; [done|].
      eapply running_ext; [by apply (running_update s)|cbn; done || set_solver..].
    + exists r, (Serving reqs), U. rewrite Hruns, insert_singleton_eq. split; [done|].
      eapply running_ext; [by apply (running_updated s)|cbn; done || set_solver..].
    + exists r, (Offering p reqs), U. rewrite Hruns, insert_singleton_eq. split; [done|].
      eapply running_ext; [by apply (running_add s)|cbn; done || set_solver..].
    + exists r, (Serving reqs), ({[p]} ∪ U). rewrite Hruns, insert_singleton_eq. split; [done|].
      eapply running_ext; [by apply (running_run_now s)|cbn; done || set_solver..].
    + exists r, (Serving reqs), U. rewrite Hruns, insert_singleton_eq. split; [done|].
      eapply running_ext; [by eapply (running_skip s)|cbn; done || set_solver..].
    + rewrite Hruns, delete_singleton_eq. split; [done|].
      eapply running_ext; [by apply (running_idle s U)|cbn; done || set_solver..].
Qed.

Lemma cache_reachable_inv s : cache_reachable s -> cache_inv s.
Proof. induction 1; [apply cache_inv_init|by eapply cache_inv_step]. Qed.

(** ** Requests are served, and terminate *)

(** A step of the goroutines, neither a new request nor a cancellation. *)
Definition internal (s s' : cache_state) : Prop :=
  cache_step s s' /\ dom (requests s') = dom (requests s) /\ cancelled s' = cancelled s /\ s' <> s.

Definition request_weight (st : request_state) : nat :=
  match st with Selecting => 9 | Waiting => 2 | Reading => 1 | Returned => 0 end.

Definition run_weight (st : run_state) : nat :=
  match st with
  | First => 0
  | Collecting l => 4 + 2 * length l
  | Updating l => 3 + 2 * length l
  | Serving l => 2 + 2 * length l
  | Offering _ l => 3 + 2 * length l
  end.

(** A bound on the number of steps still to come. *)
Definition cache_measure (s : cache_state) : nat :=
  total request_weight (requests s) + total run_weight (runs s) + (if startRunRequest s then 1 else 0).

Lemma internal_measure s s' : internal s s' -> (cache_measure s' < cache_measure s)%nat.
Proof.
  intros (Hs & Hdom & Hcan & Hne). unfold cache_measure.
  destruct Hs; cbn in *.
  - apply not_elem_of_dom in H. set_solver.
  - destruct Hne. destruct s; cbn in *. by rewrite Hcan.
  - pose proof (total_insert request_weight _ p _ Returned H). cbn in *. lia.
  - rewrite (total_insert_new run_weight) by done. rewrite H0. cbn. lia.
  - pose proof (total_insert request_weight _ p _ Waiting H).
    pose proof (total_insert run_weight _ r _ (Collecting [p]) H0). cbn in *. lia.
  - pose proof (total_insert request_weight _ p _ Waiting H).
    pose proof (total_insert run_weight _ r _ (Collecting (reqs ++ [p])) H0).
    cbn in *. rewrite length_app in *. cbn in *. lia.
  - pose proof (total_insert request_weight _ p _ Returned H). cbn in *. lia.
  - pose proof (total_insert request_weight _ p _ Returned H). cbn in *. lia.
  - pose proof (total_insert run_weight _ r _ (Updating reqs) H). cbn in *. lia.
  - pose proof (total_insert run_weight _ r _ (Serving reqs) H). cbn in *. lia.
  - pose proof (total_insert run_weight _ r _ (Offering p reqs) H). cbn in *. lia.
  - pose proof (total_insert request_weight _ p _ Reading H0).
    pose proof (total_insert run_weight _ r _ (Serving reqs) H). cbn in *. lia.
  - pose proof (total_insert run_weight _ r _ (Serving reqs) H). cbn in *. lia.
  - rewrite (total_delete run_weight _ r _ H). rewrite H1. cbn. lia.
Qed.

Lemma internal_request s s' p a b : cache_step s s' -> requests s !! p = Some a ->
  requests s' = <[p := b]> (requests s) -> a <> b -> cancelled s' = cancelled s -> internal s s'.
Proof.
  intros Hs Hp Hr Hne Hc. split; [done|]. split; [|split; [done|]].
  - rewrite Hr, dom_insert_lookup_L; [done|by rewrite Hp].
  - intros ->. rewrite Hr, lookup_insert_eq in Hp. congruence.
Qed.

Lemma internal_run s s' r a b : cache_step s s' -> runs s !! r = a -> runs s' !! r = b ->
  a <> b -> requests s' = requests s -> cancelled s' = cancelled s -> internal s s'.
Proof.
  intros Hs Ha Hb Hne Hr Hc. split; [done|]. split; [by rewrite Hr|]. split; [done|].
  intros ->. congruence.
Qed.

(** Some goroutine can move while a request has not returned. *)
Lemma cache_progress_inv s p st : cache_inv s -> requests s !! p = Some st -> st <> Returned ->
  exists s', internal s s'.
Proof.
  intros Hinv Hp Hst. unfold cache_inv in Hinv.
  assert (forall st' U, running s st' U -> queue st' = [] -> granting st' = false ->
            st = Selecting \/ exists s', internal s s') as Hcases.
  { intros st' U [] Hq Hg. destruct st; [by left|right|right|done].
    - eexists. eapply internal_request; [apply (step_cancel_wait s p Hp)|exact Hp|reflexivity|done|done].
      destruct (decide (p ∈ cancelled s)) as [|Hn]; [done|]. specialize (inv_waiting0 p Hp Hn).
      rewrite Hq in inv_waiting0. set_solver.
    - apply inv_reading0 in Hp. rewrite inv_grant0 in Hg; [done|set_solver]. }
  destruct (startRunRequest s) eqn:Htok.
  - destruct Hinv as [Hruns Hrun]. destruct (Hcases _ _ Hrun eq_refl eq_refl) as [->|]; [|done].
    eexists. eapply (internal_run _ _ 0%nat None (Some First)); [apply (step_start s p 0%nat Hp Htok)|..];
      cbn; rewrite ?Hruns, ?lookup_insert_eq; done.
  - destruct Hinv as (r & st' & U & Hruns & Hrun).
    assert (runs s !! r = Some st') as Hr by (rewrite Hruns; apply lookup_singleton_eq).
    assert (forall b (m : gmap nat run_state), (<[r := b]> m) !! r = Some b) as Hins by (intros; apply lookup_insert_eq).
    destruct st' as [|l|l|[|q l]|q l].
    + destruct (Hcases _ _ Hrun eq_refl eq_refl) as [->|]; [|done].
      eexists. by eapply internal_request; [apply (step_send_first s p r Hp Hr)|..].
    + eexists. by eapply internal_run; [apply (step_update s r l Hr)|exact Hr|apply Hins|..].
    + eexists. by eapply internal_run; [apply (step_updated s r l Hr)|exact Hr|apply Hins|..].
    + destruct (decide (U = ∅)) as [->|HU].
      * pose proof (inv_wg _ _ _ Hrun) as Hw. cbn in Hw.
        eexists. eapply (internal_run _ _ r _ None); [apply (step_finish s r Hr Hw Htok)|exact Hr| |done..].
        cbn. apply lookup_delete_eq.
      * apply set_choose_L in HU as [q Hq]. apply (inv_reading _ _ _ Hrun) in Hq.
        eexists. by eapply internal_request; [apply (step_read s q Hq)|..].
    + eexists. by eapply internal_run; [apply (step_add s r q l Hr)|exact Hr|apply Hins|..].
    + destruct (inv_queue _ _ _ Hrun q ltac:(by left)) as [Hq|[Hq Hc]].
      * eexists. by eapply internal_request; [apply (step_run_now s r q l Hr Hq)|..].
      * eexists. by eapply internal_run; [apply (step_skip s r q l Hr Hc)|exact Hr|apply Hins|..].
Qed.

(** ** The guarantees *)

(** C28. Readers never see an update in progress, and never a stale one: in
      every reachable state at most one update runs; while one collects or
      updates nobody reads; and a request that reads the cache sees the result
      of a completed update that was begun after the request was made. *)
Theorem cache_exclusion s p :
  cache_reachable s -> requests s !! p = Some Reading ->
  (exists r st, runs s = {[r := st]} /\ granting st = true) /\
  started s = completed s /\
  exists n, issued s !! p = Some n /\ (n < completed s)%nat.
Proof.
  intros Hs%cache_reachable_inv Hp. unfold cache_inv in Hs. destruct (startRunRequest s).
  - destruct Hs as [_ []]. apply inv_reading0 in Hp. set_solver.
  - destruct Hs as (r & st & U & Hruns & []). apply inv_reading0 in Hp as HpU.
    assert (granting st = true) as Hg by (apply inv_grant0; set_solver).
    assert (begun st = true) as Hb by by destruct st.
    assert (started s = completed s) as Hsc by (destruct st; cbn in *; done || lia).
    destruct (inv_issued_dom0 p ltac:(by eexists)) as [n Hn].
    split; [eauto|]. split; [done|]. exists n. split; [done|].
    rewrite <- Hsc. apply (inv_fresh0 p n Hb); [by left|done].
Qed.

(** C29. Requests cannot wait forever: from a reachable state the goroutines
      make at most [cache_measure s] steps of their own, whatever their order,
      and when none can move any more every request has returned. *)
Theorem cache_termination s n s' :
  cache_reachable s -> relations.nsteps internal n s s' ->
  (n <= cache_measure s)%nat /\
  ((forall s'', ~ internal s' s'') -> forall p st, requests s' !! p = Some st -> st = Returned).
Proof.
  intros Hs Hn. induction Hn as [s|n s s1 s' Hst Hn IH].
  - split; [lia|]. intros Hmax p st Hp. destruct st; try done;
      edestruct (cache_progress_inv s p) as [s'' Hs'']; eauto using cache_reachable_inv; by destruct (Hmax s'').
  - destruct IH as [IHn IHp]; [eapply reach_step; [exact Hs|apply Hst]|].
    split; [|done]. apply internal_measure in Hst. lia.
Qed.

(** Two requests served by one update; the second is cancelled. *)
Definition two_requests : cache_state :=
  mkCacheState false 1 {[0%nat := Reading; 1%nat := Waiting]} {[0%nat := Serving [1%nat]]} {[1%nat]} 1 1
    {[0%nat := 0%nat; 1%nat := 0%nat]}.

Lemma reach_by s s1 s' : cache_reachable s -> cache_step s s1 -> s1 = s' -> cache_reachable s'.
Proof. intros Hr Hs <-. by eapply reach_step. Qed.

Lemma two_requests_reachable : cache_reachable two_requests.
Proof.
  pose (rs a b := {[0%nat := a; 1%nat := b]} : gmap nat request_state).
  pose (run st := {[0%nat := st]} : gmap nat run_state).
  pose (iss := {[0%nat := 0%nat; 1%nat := 0%nat]} : gmap nat nat).
  pose (c := {[1%nat]} : gset nat).
  assert (cache_reachable (mkCacheState true 0 (rs Selecting Selecting) ∅ ∅ 0 0 iss)) as R.
  { eapply reach_by; [eapply reach_by; [apply reach_init|by apply (step_new _ 1%nat)|reflexivity]
                     |by apply (step_new _ 0%nat)|reflexivity]. }
  assert (cache_reachable (mkCacheState false 0 (rs Selecting Selecting) (run First) ∅ 0 0 iss)) as R1.
  { eapply reach_by; [exact R|by apply (step_start _ 0%nat 0%nat)|reflexivity]. }
  assert (cache_reachable (mkCacheState false 0 (rs Waiting Selecting) (run (Collecting [0%nat])) ∅ 0 0 iss)) as R2.
  { eapply reach_by; [exact R1|by apply (step_send_first _ 0%nat 0%nat)|reflexivity]. }
  assert (cache_reachable (mkCacheState false 0 (rs Waiting Waiting) (run (Collecting [0%nat; 1%nat])) c 0 0 iss)) as R3.
  { eapply reach_by; [eapply reach_by; [exact R2|by apply (step_send _ 1%nat 0%nat [0%nat])|reflexivity]
                     |apply (step_cancel _ 1%nat)|reflexivity]. }
  assert (cache_reachable (mkCacheState false 0 (rs Waiting Waiting) (run (Updating [0%nat; 1%nat])) c 1 0 iss)) as R4.
  { eapply reach_by; [exact R3|by apply (step_update _ 0%nat [0%nat; 1%nat])|reflexivity]. }
  assert (cache_reachable (mkCacheState false 0 (rs Waiting Waiting) (run (Serving [0%nat; 1%nat])) c 1 1 iss)) as R5.
  { eapply reach_by; [exact R4|by apply (step_updated _ 0%nat [0%nat; 1%nat])|reflexivity]. }
  assert (cache_reachable (mkCacheState false 1 (rs Waiting Waiting) (run (Offering 0%nat [1%nat])) c 1 1 iss)) as R6.
  { eapply reach_by; [exact R5|by apply (step_add _ 0%nat 0%nat [1%nat])|reflexivity]. }
  eapply reach_by; [exact R6|by apply (step_run_now _ 0%nat 0%nat [1%nat])|reflexivity].
Qed.

Lemma cache_exclusion_witness :
  started two_requests = completed two_requests /\
  exists n, issued two_requests !! 0%nat = Some n /\ (n < completed two_requests)%nat.
Proof. apply (cache_exclusion two_requests 0%nat two_requests_reachable eq_refl). Defined.

Lemma cache_termination_witness :
  exists s', relations.nsteps internal 1 two_requests s' /\ (1 <= cache_measure two_requests)%nat.
Proof.
  assert (internal two_requests (set_request 1%nat Returned two_requests)) as Hi.
  { eapply (internal_request _ _ 1%nat Waiting Returned); try done.
    by apply step_cancel_wait. }
  eexists. split; [eapply relations.nsteps_once, Hi|].
  apply (cache_termination two_requests 1 _ two_requests_reachable (relations.nsteps_once _ _ Hi)).
Defined.
