(* ===== verification/StoreCalls.v ===== *)
(** * Calling the state store when nothing fails

    One rule per operation of [Service], from [ServiceSpec], for a state store
    that does not fail for outside reasons: a premise per answer the
    operation can then give. The clients' functional theorems use them. *)
From S2P Require Export Store.

Section Calls.
Context `{Sys} `{Proto} (cfg : View) (s : Service) `{!ServiceSpec cfg s} (Hf : sys_faulty = false).
Implicit Types (v : view).

Lemma faultless v v' R : ~ fault v v' R.
Proof. intros [? _]. congruence. Qed.

Lemma call_CreateTicket t b v Q : marshal_ticket t = Some b ->
  Q (Ok tt) (set_db v (put_str (v_db v) (t_Id t) b None)) -> wp (svc_CreateTicket s t) v Q.
Proof.
  intros Hb HQ. eapply wp_mono; [by apply spec_CreateTicket|]. intros [[]|e] v' Hp; cbn in Hp.
  - destruct Hp as (? & (? & ? & ->) & ->). by simplify_eq.
  - destruct Hp as [(? & ? & ?)|[_ []%faultless]]. congruence.
Qed.

Lemma call_GetTicket id v (Q : result Ticket -> view -> Prop) :
  (forall t, ticket_at (v_db v) id = Some t -> Q (Ok t) v) ->
  (forall e, ticket_at (v_db v) id = None ->
     status_of e = Some (if decide (v_db v !! id = None) then NotFound else Internal) -> Q (Err e) v) ->
  wp (svc_GetTicket s id) v Q.
Proof.
  intros Hok Herr. eapply wp_mono; [by apply spec_GetTicket|]. intros [t|e] v' [-> Hp]; [by auto|].
  destruct Hp as [[? Hn]|[(? & [x Hn] & ?)|[_ ?]]]; [| |congruence]; apply Herr; rewrite ?Hn; try done.
  unfold ticket_at, get_str. by rewrite Hn.
Qed.

Lemma call_DeleteTicket id v (Q : result unit -> view -> Prop) :
  (is_Some (v_db v !! id) -> Q (Ok tt) (set_db v (delete id (v_db v)))) ->
  (forall e, v_db v !! id = None -> status_of e = Some NotFound -> Q (Err e) v) ->
  wp (svc_DeleteTicket s id) v Q.
Proof.
  intros Hok Herr. eapply wp_mono; [by apply spec_DeleteTicket|]. intros [[]|e] v' Hp; cbn in Hp.
  - destruct Hp as [? ->]. auto.
  - destruct Hp as [(? & ? & ->)|[_ []%faultless]]. auto.
Qed.

Lemma call_indexing d1 v r v' : indexing_post d1 v r v' -> r = Ok tt /\ v' = set_db v d1.
Proof. destruct r as [[]|e]; cbn; [intros [->|[? _]]|intros (_ & ? & _)]; done || congruence. Qed.

Lemma call_IndexTicket t v Q : typed (v_db v) ->
  Q (Ok tt) (set_db v (put_index (v_db v) ({[t_Id t]} ∪ index (v_db v)))) -> wp (svc_IndexTicket s t) v Q.
Proof.
  intros Ht HQ. eapply wp_mono; [by apply spec_IndexTicket|]. by intros r v' [-> ->]%call_indexing.
Qed.

Lemma call_DeindexTicket id v Q : typed (v_db v) ->
  Q (Ok tt) (set_db v (put_index (v_db v) (index (v_db v) ∖ {[id]}))) -> wp (svc_DeindexTicket s id) v Q.
Proof.
  intros Ht HQ. eapply wp_mono; [by apply spec_DeindexTicket|]. by intros r v' [-> ->]%call_indexing.
Qed.

Lemma call_IndexBackfill b v Q : typed (v_db v) ->
  Q (Ok tt) (set_db v (put_bindex (v_db v) (<[b_Id b := itoa (b_Generation b)]> (bindex (v_db v))))) ->
  wp (svc_IndexBackfill s b) v Q.
Proof.
  intros Ht HQ. eapply wp_mono; [by apply spec_IndexBackfill|]. by intros r v' [-> ->]%call_indexing.
Qed.

Lemma call_AddPending ids v Q : typed (v_db v) ->
  (forall t, v_now v <= t -> Q (Ok tt) (upd v (add_pending (v_db v) ids t) t)) ->
  wp (svc_AddTicketsToPendingRelease s ids) v Q.
Proof.
  intros Ht HQ. eapply wp_mono; [by apply spec_AddTicketsToPendingRelease|].
  intros [[]|e] v' Hp; cbn in Hp; [|by apply faultless in Hp]. destruct Hp as (t & ? & ->). auto.
Qed.

Lemma call_RemovePending ids v Q : typed (v_db v) ->
  Q (Ok tt) (set_db v (remove_pending (v_db v) ids)) ->
  wp (svc_DeleteTicketsFromPendingRelease s ids) v Q.
Proof.
  intros Ht HQ. eapply wp_mono; [by apply spec_DeleteTicketsFromPendingRelease|].
  intros [[]|e] v' Hp; cbn in Hp; [by subst|by apply faultless in Hp].
Qed.

Lemma call_ReleaseAll v Q : Q (Ok tt) (set_db v (delete proposedTicketIDs (v_db v))) ->
  wp (svc_ReleaseAllTickets s) v Q.
Proof.
  intros HQ. eapply wp_mono; [by apply spec_ReleaseAllTickets|].
  intros [[]|e] v' Hp; cbn in Hp; [by subst|by apply faultless in Hp].
Qed.

Lemma call_CreateBackfill b ids enc v (Q : result unit -> view -> Prop) :
  typed (v_db v) -> b_Id b ∉ reserved ->
  marshal_backfill (mkBackfillInternal (Some b) ids) = Some enc ->
  (v_db v !! b_Id b = None -> forall t, v_now v <= t ->
     Q (Ok tt) (upd v (acked (put_str (v_db v) (b_Id b) enc None) (b_Id b) t) t)) ->
  (forall e, is_Some (v_db v !! b_Id b) -> status_of e = Some AlreadyExists -> Q (Err e) v) ->
  wp (svc_CreateBackfill s b ids) v Q.
Proof.
  intros Ht Hn Henc Hok Herr. eapply wp_mono; [by apply spec_CreateBackfill|].
  intros [[]|e] v' Hp; cbn in Hp; rewrite Henc in Hp.
  - destruct Hp as (? & t & [= <-] & ? & ? & ->). auto.
  - destruct Hp as [(_ & ? & _)|[(? & _ & ? & ->)|[]%faultless]]; [done|auto].
Qed.

Lemma call_GetBackfill id v (Q : result (option Backfill * list string) -> view -> Prop) :
  (forall b ids, backfill_at (v_db v) id = Some (mkBackfillInternal b ids) -> Q (Ok (b, ids)) v) ->
  (forall e, backfill_at (v_db v) id = None ->
     status_of e = Some (if decide (v_db v !! id = None) then NotFound else Internal) -> Q (Err e) v) ->
  wp (svc_GetBackfill s id) v Q.
Proof.
  intros Hok Herr. eapply wp_mono; [by apply spec_GetBackfill|]. intros [[b ids]|e] v' [-> Hp]; [by auto|].
  destruct Hp as [[? Hn]|[(? & [x Hn] & ?)|[_ ?]]]; [| |congruence]; apply Herr; rewrite ?Hn; try done.
  unfold backfill_at, get_str. by rewrite Hn.
Qed.

(** The last acknowledgement decides: unknown, too old, or recent enough
    at the moment [t] the clock is read. *)
Lemma call_UpdateBackfill b ids enc v (Q : result unit -> view -> Prop) :
  typed (v_db v) -> marshal_backfill (mkBackfillInternal (Some b) ids) = Some enc ->
  (forall t, v_now v <= t -> alive cfg (v_db v) (b_Id b) t ->
     Q (Ok tt) (upd v (put_str (v_db v) (b_Id b) enc None) t)) ->
  (forall e v', not_alive cfg (b_Id b) v e v' -> Q (Err e) v') ->
  wp (svc_UpdateBackfill s b ids) v Q.
Proof.
  intros Ht Henc Hok Herr. eapply wp_mono; [by apply spec_UpdateBackfill|].
  intros [[]|e] v' Hp; cbn in Hp; rewrite Henc in Hp.
  - destruct Hp as (? & t & [= <-] & ? & ? & ->). auto.
  - destruct Hp as [?|[(_ & ? & _)|[]%faultless]]; [auto|done].
Qed.

Lemma call_UpdateAck id v (Q : result unit -> view -> Prop) : typed (v_db v) ->
  (forall t1 t, v_now v <= t1 -> alive cfg (v_db v) id t1 -> t1 <= t -> Q (Ok tt) (upd v (acked (v_db v) id t) t)) ->
  (forall e v', not_alive cfg id v e v' -> Q (Err e) v') ->
  wp (svc_UpdateAcknowledgmentTimestamp s id) v Q.
Proof.
  intros Ht Hok Herr. eapply wp_mono; [by apply spec_UpdateAcknowledgmentTimestamp|].
  intros [[]|e] v' Hp; cbn in Hp.
  - destruct Hp as (t1 & t & ? & ? & ? & ->). eauto.
  - destruct Hp as [?|[]%faultless]. auto.
Qed.

(** A valid request whose tickets can be read and written back. *)
Lemma call_UpdateAssignments req v (Q : result (AssignTicketsResponse * list Ticket) -> view -> Prop) :
  let groups := atr_Assignments req in
  let ids := group_ids groups in
  well_keyed ids (v_db v) -> valid_assign groups ->
  (forall id, id ∈ ids -> get_str (v_db v) id <> None ->
     exists t, ticket_at (v_db v) id = Some t /\ is_Some (marshal_ticket (assigned_ticket groups t))) ->
  (forall d', assign_db groups (assigned_delete_timeout_ms cfg) (v_db v) d' ->
     Q (Ok (mkAssignTicketsResponse (missing_failures (v_db v) ids),
            assigned_ticket groups <$> omap (ticket_at (v_db v)) ids)) (set_db v d')) ->
  wp (svc_UpdateAssignments s req) v Q.
Proof.
  intros groups ids Hk Hv Hr HQ. eapply wp_mono; [by apply spec_UpdateAssignments|].
  unfold update_assignments_post. fold groups ids.
  intros [[[fs] ts]|e] v' Hp; cbn in Hp.
  - destruct Hp as [[Hg _]|(_ & -> & -> & d' & ? & ->)]; [|auto].
    destruct Hv as (_ & _ & Hne). by rewrite Hg in Hne.
  - destruct Hp as [(_ & _ & ? & _)|[(_ & _ & _ & id & Hid & Hs & Hm)|[]%faultless]]; [done|].
    destruct (Hr id Hid Hs) as (t & Ht & [x Hx]). rewrite (Hm t Ht) in Hx. done.
Qed.

(** The state after a critical section: the mutex is free. *)
Definition released (key : string) (v : view) (d : db) (t : Z) : view :=
  set_locks (upd v d t) (delete (mutex_name key) (v_locks v)).

Lemma call_DeleteBackfillCompletely id v (Q : result unit -> view -> Prop) :
  typed (v_db v) -> id ∉ reserved ->
  (forall t, v_now v <= t -> Q (Ok tt) (released id v (completely (v_db v) id) t)) ->
  (forall e, ~ lock_free v (mutex_name id) (v_now v) -> Q (Err e) v) ->
  wp (svc_DeleteBackfillCompletely s id) v Q.
Proof.
  intros Ht Hn Hok Herr. eapply wp_mono; [by apply spec_DeleteBackfillCompletely|].
  intros r v' [_ Hp]. specialize (Hp Hf). destruct r as [[]|e].
  - destruct Hp as (t & Hle & _ & ->). by apply Hok.
  - destruct Hp as [? ->]. auto.
Qed.

(** A critical section: refused only while another holds the mutex, otherwise
    the body runs and the mutex is free after it. *)
Lemma call_with_mutex {A} key (body : prog (result A)) v (Q : result A -> view -> Prop) :
  (forall e, ~ lock_free v (mutex_name key) (v_now v) -> Q (Err e) v) ->
  (forall token t, v_now v <= t -> wp body (entered cfg key token t v) (fun r v' => Q r (unlocked v' (mutex_name key) token))) ->
  wp (with_mutex (svc_Lock s key) (svc_Unlock s key) body) v Q.
Proof.
  intros Herr Hok. apply (wp_with_mutex cfg) with (key := key).
  - intros. by apply spec_Lock.
  - intros. by apply (spec_Unlock (cfg := cfg)).
  - done.
  - congruence.
  - intros token t Ht Hn. eapply wp_mono; [by apply Hok|]. intros r v' HQ. by split; [|congruence].
Qed.
End Calls.

Lemma unlocked_left (cfg : View) key token t v v' : v_locks v' = v_locks (entered cfg key token t v) ->
  unlocked v' (mutex_name key) token = set_locks v' (delete (mutex_name key) (v_locks v)).
Proof. apply unlocked_taken. Qed.

(** Run the next store call of a handler by its rule. *)
Ltac next := first [apply wp_rbind | apply wp_bind | idtac].

Tactic Notation "call" uconstr(lem) := next; eapply lem; [apply _|assumption|..].
