(* ===== verification/Frontend.v ===== *)
(** * The frontend ([internal/app/frontend/frontend_service.go])

    The handlers game clients and game servers call, written against the
    state-store interface. *)
From S2P Require Export Store.

(** A nil [*pb.Backfill]: its getters read zero values. *)
Definition nil_backfill : Backfill := mkBackfill "" None ∅ ∅ None 0.

Section Handlers.
Context `{Proto} (store : Service).

(** *** Tickets *)

Definition doCreateTicket (ticket : Ticket) : prog (result Ticket) :=
  id ←! trigger NewXid;
  now ←! trigger Now;
  let ticket := set_ticket_create_time (Some (TimestampNow now)) (set_ticket_id id ticket) in
  _ ←? svc_CreateTicket store ticket;
  _ ←? svc_IndexTicket store ticket;
  ret_ok ticket.

Definition CreateTicket (req : option Ticket) : prog (result Ticket) :=
  match req with
  | None => ret_err (EStatus InvalidArgument ".ticket is required")
  | Some ticket =>
      match t_Assignment ticket, t_CreateTime ticket with
      | Some _, _ => ret_err (EStatus InvalidArgument "tickets cannot be created with an assignment")
      | None, Some _ => ret_err (EStatus InvalidArgument "tickets cannot be created with create time set")
      | None, None => doCreateTicket ticket
      end
  end.

(** The goroutine [doDeleteTicket] starts: both deletions are attempted,
    their errors only logged. *)
Definition lazy_delete (id : string) : prog unit :=
  _ ←! svc_DeleteTicket store id;
  _ ←! svc_DeleteTicketsFromPendingRelease store [id];
  Ret tt.

(** Deindex, and answer; the deletion runs later, concurrently. The result
    carries the started goroutine. *)
Definition doDeleteTicket (id : string) : prog (result (prog unit)) :=
  _ ←? svc_DeindexTicket store id;
  ret_ok (lazy_delete id).

Definition DeleteTicket (id : string) : prog (result (prog unit)) :=
  lazily ←? doDeleteTicket id;
  ret_ok lazily.

Definition GetTicket (id : string) : prog (result Ticket) := svc_GetTicket store id.

(** *** Backfills *)

Definition doCreateBackfill (backfill : Backfill) : prog (result Backfill) :=
  id ←! trigger NewXid;
  now ←! trigger Now;
  let backfill := set_bf_generation 1
    (set_bf_create_time (Some (TimestampNow now)) (set_bf_id id backfill)) in
  _ ←? svc_CreateBackfill store backfill [];
  _ ←? svc_IndexBackfill store backfill;
  ret_ok backfill.

(** The two nil levels of the request: no request, no backfill in it. *)
Definition CreateBackfill (req : option (option Backfill)) : prog (result Backfill) :=
  match req with
  | None => ret_err (EStatus InvalidArgument "request is nil")
  | Some None => ret_err (EStatus InvalidArgument ".backfill is required")
  | Some (Some backfill) =>
      match b_CreateTime backfill with
      | Some _ => ret_err (EStatus InvalidArgument "backfills cannot be created with create time set")
      | None => doCreateBackfill backfill
      end
  end.

(** [bfStored.Generation++] on an [int64]. *)
Definition updated_backfill (bfStored backfill : Backfill) : Backfill :=
  set_bf_generation (wrap64 (b_Generation bfStored + 1))
    (set_bf_persistent_field (b_PersistentField backfill)
      (set_bf_extensions (b_Extensions backfill)
        (set_bf_search_fields (b_SearchFields backfill) bfStored))).

Definition UpdateBackfill (req : option (option Backfill)) : prog (result Backfill) :=
  match req with
  | None => ret_err (EStatus InvalidArgument "request is nil")
  | Some None => ret_err (EStatus InvalidArgument ".backfill is required")
  | Some (Some backfill) =>
      let bfID := b_Id backfill in
      if bool_decide (bfID = "") then ret_err (EStatus InvalidArgument "backfill ID should exist")
      else
        with_mutex (svc_Lock store bfID) (svc_Unlock store bfID) (
          '(bfStored, associatedTickets) ←? svc_GetBackfill store bfID;
          match bfStored with
          | None => ret_err EPanic
          | Some bfStored =>
              let bfStored := updated_backfill bfStored backfill in
              _ ←? svc_UpdateBackfill store bfStored [];
              _ ←? svc_DeleteTicketsFromPendingRelease store associatedTickets;
              _ ←? svc_IndexBackfill store bfStored;
              ret_ok bfStored
          end)
  end.

(** An error is only logged: the client always gets an empty answer. *)
Definition DeleteBackfill (bfID : string) : prog (result unit) :=
  if bool_decide (bfID = "") then ret_err (EStatus InvalidArgument ".BackfillId is required")
  else
    _ ←! svc_DeleteBackfillCompletely store bfID;
    ret_ok tt.

Definition GetBackfill (id : string) : prog (result (option Backfill)) :=
  '(bf, _) ←? svc_GetBackfill store id;
  ret_ok bf.

(** Deindex every id; the errors are only logged. *)
Fixpoint deindex_all (ids : list string) : prog unit :=
  match ids with
  | [] => Ret tt
  | id :: ids =>
      _ ←! svc_DeindexTicket store id;
      deindex_all ids
  end.

Definition AcknowledgeBackfill (id : string) (assignment : option Assignment) :
    prog (result AcknowledgeBackfillResponse) :=
  if bool_decide (id = "") then ret_err (EStatus InvalidArgument ".BackfillId is required")
  else
    match assignment with
    | None => ret_err (EStatus InvalidArgument ".Assignment is required")
    | Some assignment =>
        with_mutex (svc_Lock store id) (svc_Unlock store id) (
          '(bf, associatedTickets) ←? svc_GetBackfill store id;
          _ ←? svc_UpdateAcknowledgmentTimestamp store id;
          match associatedTickets with
          | [] => ret_ok (mkAcknowledgeBackfillResponse bf [])
          | _ =>
              '(_, tickets) ←? svc_UpdateAssignments store
                 (mkAssignTicketsRequest [mkAssignmentGroup associatedTickets (Some assignment)]);
              _ ←! deindex_all associatedTickets;
              _ ←? svc_UpdateBackfill store (default nil_backfill bf) [];
              ret_ok (mkAcknowledgeBackfillResponse bf tickets)
          end)
    end.

(** *** Watching assignments *)

(** What the callback of [doWatchAssignments] keeps between polls: the
    assignment last sent, everything sent so far, and how often it was
    called. *)
Record watch_state := mkWatchState {
  currAssignment : option Assignment;
  sent : list (option Assignment);
  polled : nat;
}.

(** [ctx_err n] is the context's error at the [n]-th poll, [send_err n] the
    outcome of the [n]-th send; an absent assignment that replaces a sent
    one is sent as absent. *)
Definition watch_callback (ctx_err send_err : nat -> option string) (s : watch_state)
    (assignment : option Assignment) : watch_state * result unit :=
  let s1 := mkWatchState (currAssignment s) (sent s) (S (polled s)) in
  match ctx_err (polled s) with
  | Some m => (s1, Err (EStatus Aborted m))
  | None =>
      if bool_decide (currAssignment s = assignment) then (s1, Ok tt)
      else
        match send_err (length (sent s)) with
        | Some m => (mkWatchState assignment (sent s) (S (polled s)), Err (EStatus Aborted m))
        | None => (mkWatchState assignment (sent s ++ [assignment]) (S (polled s)), Ok tt)
        end
  end.

Definition doWatchAssignments (ctx_err send_err : nat -> option string) (attempts : nat) (id : string) :
    prog (watch_state * option error) :=
  svc_GetAssignments store watch_state (watch_callback ctx_err send_err) attempts id
    (mkWatchState None [] 0).

Definition WatchAssignments := doWatchAssignments.
End Handlers.
