(* ===== verification/FrontendProps.v ===== *)
(** * What the frontend's handlers do *)
From S2P Require Export StoreCalls QueryProps Frontend.

Section Deindex.
Context `{Sys} `{Proto} (cfg : View) (store : Service) `{!ServiceSpec cfg store}.

(** Deindexing a list of tickets changes the index only. *)
Lemma wp_deindex_all ids v (Q : unit -> view -> Prop) : sys_faulty = false -> typed (v_db v) ->
  (forall d', typed d' -> index d' = index (v_db v) ∖ list_to_set ids ->
     (forall k, k <> allTickets -> d' !! k = v_db v !! k) -> Q tt (set_db v d')) ->
  wp (deindex_all store ids) v Q.
Proof.
  intros Hf. revert v. induction ids as [|id ids IH]; intros v Ht HQ.
  { apply wp_ret. rewrite <- (set_db_id v). apply HQ; [done|set_solver|done]. }
  cbn [deindex_all]. call (call_DeindexTicket cfg); [done|]. cbn -[put_index].
  apply IH; [cbn; auto with om|]. cbn -[put_index]. intros d' Ht' Hi Hk.
  apply (HQ d'); [done| |].
  - rewrite Hi, index_put_index. set_solver.
  - intros k Hne. rewrite Hk by done. by apply put_set_ne.
Qed.
End Deindex.

Section Frontend.
Context `{EnvironmentLaws} `{ProtoLaws} (cfg : View) (store : Service) `{!ServiceSpec cfg store}.
Implicit Types (w : env_state).

(** The handler on a ticket it accepts. *)
Lemma create_ticket_wp t v (Hf : sys_faulty = false) (Ht : typed (v_db v))
  (Hm : forall id c, is_Some (marshal_ticket (set_ticket_create_time c (set_ticket_id id t)))) :
  t_Assignment t = None -> t_CreateTime t = None ->
  wp (Frontend.CreateTicket store (Some t)) v (fun r v' =>
    exists id now,
      let t' := set_ticket_create_time (Some (TimestampNow now)) (set_ticket_id id t) in
      r = Ok t' /\ (id ∉ v_xids v) /\ is_xid id = true /\ v_now v <= now <= v_now v' /\
      ticket_at (v_db v') id = Some t' /\ index (v_db v') = {[id]} ∪ index (v_db v) /\
      (forall k, k <> id -> k <> allTickets -> v_db v' !! k = v_db v !! k) /\ typed (v_db v') /\
      v_xids v' = {[id]} ∪ v_xids v).
Proof using All.
  intros Ha Hc. unfold Frontend.CreateTicket. rewrite Ha, Hc.
  apply wp_new_xid. intros id Hfresh Hid. apply wp_now. intros now Hnow.
  destruct (Hm id (Some (TimestampNow now))) as [b Hb].
  pose proof (xid_not_reserved id Hid) as Hres.
  call (call_CreateTicket cfg); [exact Hb|].
  call (call_IndexTicket cfg); [cbn; by apply typed_put_str|].
  cbn -[put_str]. exists id, now. split; [done|]. split; [done|]. split; [done|].
  split; [cbn in Hnow; lia|].
  assert (ticket_at (put_str (v_db v) id b None) id = Some (set_ticket_create_time (Some (TimestampNow now)) (set_ticket_id id t))) as Hat.
  { rewrite ticket_at_put_str. by apply unmarshal_marshal_ticket. }
  split; [|split; [|split; [|split]]].
  - rewrite <- Hat. apply ticket_at_ext. by apply lookup_put_index.
  - rewrite index_put_index. by rewrite index_put_str.
  - intros k Hk Hk'. unfold put_index. rewrite put_set_ne by done. by apply put_str_ne.
  - auto with om.
  - done.
Qed.

(** Creating a ticket: one with an assignment or a creation time is
    refused with InvalidArgument and nothing happens; any other is stored
    and indexed under a freshly generated id with the current time, its
    other fields untouched, and nothing else in the store changes. *)
Theorem create_ticket_effect t w r w' :
  sys_faulty = false -> typed (db_of w) ->
  (forall id c, is_Some (marshal_ticket (set_ticket_create_time c (set_ticket_id id t)))) ->
  run (Frontend.CreateTicket store (Some t)) w = (r, w') ->
  (t_Assignment t <> None \/ t_CreateTime t <> None -> err_code r = Some InvalidArgument /\ w' = w) /\
  (t_Assignment t = None -> t_CreateTime t = None ->
     exists id now,
       let t' := set_ticket_create_time (Some (TimestampNow now)) (set_ticket_id id t) in
       r = Ok t' /\ (id ∉ v_xids (env_view w)) /\ is_xid id = true /\ clock w <= now <= clock w' /\
       ticket_at (db_of w') id = Some t' /\ index (db_of w') = {[id]} ∪ index (db_of w) /\
       forall k, k <> id -> k <> allTickets -> db_of w' !! k = db_of w !! k).
Proof.
  intros Hf Ht Hm Hrun. split.
  - intros Hbad. unfold Frontend.CreateTicket in Hrun.
    destruct (t_Assignment t) eqn:Ha; [cbn in Hrun; by simplify_eq|].
    destruct (t_CreateTime t) eqn:Hc; [cbn in Hrun; by simplify_eq|]. naive_solver.
  - intros Ha Hc. pose proof (run_wp _ _ _ _ _ (create_ticket_wp t _ Hf Ht Hm Ha Hc) Hrun) as (id & now & Hp).
    exists id, now. naive_solver.
Qed.

(** Creating a backfill stores it with generation 1 and no tickets
    under a freshly generated id and acknowledges and indexes it; one with a
    creation time, or no backfill at all, is refused with InvalidArgument
    and nothing happens. *)
Theorem create_backfill_effect req w r w' :
  sys_faulty = false -> typed (db_of w) ->
  (forall i, is_xid i = true -> is_Some (db_of w !! i) -> i ∈ v_xids (env_view w)) ->
  (forall b, is_Some (marshal_backfill (mkBackfillInternal (Some b) []))) ->
  run (Frontend.CreateBackfill store req) w = (r, w') ->
  match req with
  | Some (Some b) =>
      match b_CreateTime b with
      | None => exists id now acked_at,
          let b' := set_bf_generation 1 (set_bf_create_time (Some (TimestampNow now)) (set_bf_id id b)) in
          r = Ok b' /\ (id ∉ v_xids (env_view w)) /\ (clock w <= now <= acked_at) /\ acked_at <= clock w' /\
          backfill_at (db_of w') id = Some (mkBackfillInternal (Some b') []) /\
          acks (db_of w') = <[id := sys_score acked_at]> (acks (db_of w)) /\
          bindex (db_of w') = <[id := itoa 1]> (bindex (db_of w))
      | Some _ => err_code r = Some InvalidArgument /\ w' = w
      end
  | _ => err_code r = Some InvalidArgument /\ w' = w
  end.
Proof.
  intros Hf Ht Hids Hm Hrun. destruct req as [[b|]|]; cbn in Hrun; [|by simplify_eq..].
  destruct (b_CreateTime b) eqn:Hc; [cbn in Hrun; by simplify_eq|].
  run_start Hrun. apply wp_new_xid. intros id Hfresh Hid. apply wp_now. intros now Hnow.
  pose proof (xid_not_reserved id Hid) as Hres.
  set (b' := set_bf_generation 1 _). destruct (Hm b') as [enc Henc].
  call (call_CreateBackfill cfg); [done|done|exact Henc| |]; cycle 1.
  { intros e Hs _. destruct Hfresh. by apply Hids. }
  intros _ t Hnow'. call (call_IndexBackfill cfg); [cbn; unfold acked; apply typed_put_acks; by apply typed_put_str|].
  cbn -[put_str acked b']. exists id, now, t. split; [done|]. split; [done|].
  split; [cbn in *; lia|]. split; [lia|]. unfold acked.
  split; [|split].
  - erewrite (backfill_at_ext _ (put_str (db_of w) id enc None)).
    + rewrite backfill_at_put_str. by apply unmarshal_marshal_backfill.
    + rewrite lookup_put_bindex by done. by apply lookup_put_acks.
  - change (b_Id b') with id. by autorewrite with om_rw.
  - change (b_Id b') with id. by autorewrite with om_rw.
Qed.

(** C30. Updating a backfill, whoever calls: with its mutex free and the
    backfill stored and alive, the answer is the stored backfill with the
    new search fields, extensions and persistent fields and the next
    generation (identity and creation time kept); it is stored so with no
    tickets, its former tickets are released, and the index has the new
    generation. If it has expired the call fails with Unavailable and
    changes nothing. Either way the mutex is free again. (The comment of the
    handler, and that of the API, name the search fields and extensions only:
    the persistent fields are overwritten too.) *)
Theorem update_backfill_effect b w r w' stored ids la :
  sys_faulty = false -> typed (db_of w) -> b_Id b <> "" -> b_Id b ∉ reserved ->
  lock_free (env_view w) (mutex_name (b_Id b)) (clock w) ->
  backfill_at (db_of w) (b_Id b) = Some (mkBackfillInternal (Some stored) ids) -> b_Id stored = b_Id b ->
  acks (db_of w) !! b_Id b = Some la ->
  (forall b', is_Some (marshal_backfill (mkBackfillInternal (Some b') []))) ->
  run (Frontend.UpdateBackfill store (Some (Some b))) w = (r, w') ->
  locks w' = delete (mutex_name (b_Id b)) (locks w) /\
  ((exists b', r = Ok b' /\
      b' = mkBackfill (b_Id stored) (b_SearchFields b) (b_Extensions b) (b_PersistentField b)
             (b_CreateTime stored) (wrap64 (b_Generation stored + 1)) /\
      backfill_at (db_of w') (b_Id b) = Some (mkBackfillInternal (Some b') []) /\
      bindex (db_of w') = <[b_Id b := itoa (b_Generation b')]> (bindex (db_of w)) /\
      acks (db_of w') = acks (db_of w) /\
      forall k, pending (db_of w') !! k = if decide (k ∈ ids) then None else pending (db_of w) !! k) \/
   (err_code r = Some Unavailable /\ db_of w' = db_of w /\ la < clock w' - release_ttl cfg)) /\
  (clock w' - release_ttl cfg <= la -> is_ok r = true).
Proof.
  intros Hf Ht Hne Hres Hlock Hat Hid Hla Hm Hrun. run_start Hrun. unfold Frontend.UpdateBackfill.
  rewrite bool_decide_false by done.
  eapply (call_with_mutex cfg); [apply _|done|by intros|intros tok t0 Hlt0].
  call (call_GetBackfill cfg); [|intros e Hn _; cbn in Hn; congruence].
  intros b0 ids0 Hb. cbn in Hb. rewrite Hat in Hb. injection Hb as <- <-.
  set (b' := updated_backfill stored b). destruct (Hm b') as [enc Henc].
  assert (b_Id b' = b_Id b) as Hid' by done.
  call (call_UpdateBackfill cfg); [done|exact Henc| |]; cycle 1.
  { intros e v' [(_ & Hn & _)|(He & t & la' & Hnow & Hla' & Hlt & ->)]; cbn in *; [congruence|].
    rewrite Hid' in Hla'. assert (la' = la) as -> by congruence.
    rewrite (unlocked_left cfg _ tok t0 (env_view w)) by done. split; [done|]. split; [by right|]. cbn. lia. }
  intros t Hnow (la' & Hla' & Hle). cbn in Hla', Hnow. rewrite Hid' in *.
  assert (la' = la) as -> by congruence.
  call (call_RemovePending cfg); [cbn; by apply typed_put_str|].
  call (call_IndexBackfill cfg); [cbn; apply typed_remove_pending; by apply typed_put_str|].
  apply wp_ret. rewrite (unlocked_left cfg _ tok t0 (env_view w)) by done. cbn -[put_str b' release_ttl mutex_name]. rewrite Hid'.
  split; [done|]. split; [|done]. left. exists b'. split; [done|]. split; [done|].
  split; [|split; [|split]].
  - erewrite (backfill_at_ext _ (put_str (db_of w) (b_Id b) enc None)).
    + rewrite backfill_at_put_str. by apply unmarshal_marshal_backfill.
    + rewrite lookup_put_bindex by done. by apply lookup_remove_pending.
  - by autorewrite with om_rw.
  - by autorewrite with om_rw.
  - intros k. rewrite pending_put_bindex, pending_remove_pending, pending_put_str by done.
    apply lookup_zrem_all.
Qed.

(** The acknowledged keyspace, read back. *)
Lemma acked_lookup d id t k : k <> backfillLastAckTime -> acked d id t !! k = d !! k.
Proof. intros Hk. by apply put_zset_ne. Qed.

(** The tickets of an acknowledged backfill can be assigned: they exist
    under their own ids and can be written back. *)
Definition assignable (a : Assignment) (ids : list string) (d : db) : Prop :=
  NoDup ids /\ Forall not_reserved ids /\
  forall i, i ∈ ids -> get_str d i <> None -> exists t, ticket_at d i = Some t /\
    t_Id t = i /\ is_Some (marshal_ticket (set_ticket_assignment (Some a) t)).

Lemma single_group_assigned a ids x : t_Id x ∈ ids ->
  assigned_ticket [mkAssignmentGroup ids (Some a)] x = set_ticket_assignment (Some a) x.
Proof. intros Hx. unfold assigned_ticket. cbn. by rewrite decide_True. Qed.

(** Assigning one group. *)
Lemma wp_assign_group a ids v (Q : result (AssignTicketsResponse * list Ticket) -> view -> Prop) :
  sys_faulty = false -> ids <> [] -> assignable a ids (v_db v) ->
  (forall resp d', (forall k, k ∉ ids -> d' !! k = v_db v !! k) ->
     (forall i x, i ∈ ids -> ticket_at (v_db v) i = Some x ->
        ticket_at d' i = Some (set_ticket_assignment (Some a) x)) ->
     Q (Ok (resp, set_ticket_assignment (Some a) <$> omap (ticket_at (v_db v)) ids)) (set_db v d')) ->
  wp (svc_UpdateAssignments store (mkAssignTicketsRequest [mkAssignmentGroup ids (Some a)])) v Q.
Proof.
  intros Hf Hnil (Hnd & Hids & Hread) HQ. set (groups := [mkAssignmentGroup ids (Some a)]).
  assert (group_ids groups = ids) as Hgi by apply app_nil_r.
  assert (forall i x, i ∈ ids -> ticket_at (v_db v) i = Some x -> t_Id x = i) as Hx.
  { intros i x Hi Hix. destruct (Hread i Hi) as (x' & Hx' & Hxi & _); [|congruence].
    intros Hn. unfold ticket_at in Hix. by rewrite Hn in Hix. }
  eapply (call_UpdateAssignments cfg); [apply _|done|..]; cbn [atr_Assignments]; fold groups; rewrite ?Hgi.
  - exact Hx.
  - unfold valid_assign. rewrite Hgi. split; [repeat constructor; by eexists|done].
  - intros i Hi Hs. destruct (Hread i Hi Hs) as (x & Hxi & Hid & Hmx). exists x. split; [done|].
    unfold groups. by rewrite single_group_assigned by congruence.
  - intros d' Hd'. unfold assign_db in Hd'. rewrite Hgi in Hd'.
    replace (assigned_ticket groups <$> omap (ticket_at (v_db v)) ids)
      with (set_ticket_assignment (Some a) <$> omap (ticket_at (v_db v)) ids).
    + apply HQ.
      * intros k Hk. specialize (Hd' k). by rewrite decide_False in Hd'.
      * intros i x Hi Hix. specialize (Hd' i). rewrite decide_True, Hix in Hd' by done.
        destruct Hd' as (b & Hb & Hl). unfold ticket_at, get_str. rewrite Hl. cbn.
        rewrite (unmarshal_marshal_ticket _ _ Hb). f_equal. apply single_group_assigned.
        by rewrite (Hx i x).
    + apply list_fmap_ext. intros j x Hj%list_elem_of_lookup_2. apply list_elem_of_omap in Hj as (i & Hi & Hix).
      symmetry. apply single_group_assigned. by rewrite (Hx i x).
Qed.

(** What [AcknowledgeBackfill] does to the tickets once the backfill is
    acknowledged at [t]. *)
Lemma wp_assign_associated a bf enc ids t v Q :
  sys_faulty = false -> typed (v_db v) -> ids <> [] -> assignable a ids (v_db v) ->
  b_Id bf ∉ ids -> b_Id bf ∉ reserved -> marshal_backfill (mkBackfillInternal (Some bf) []) = Some enc ->
  acks (v_db v) !! b_Id bf = Some t ->
  (forall r d' t', v_now v <= t' ->
     acks d' = acks (v_db v) -> index d' = index (v_db v) ∖ list_to_set ids ->
     (forall i x, i ∈ ids -> ticket_at (v_db v) i = Some x ->
        ticket_at d' i = Some (set_ticket_assignment (Some a) x)) ->
     (r = Ok (mkAcknowledgeBackfillResponse (Some bf)
                (set_ticket_assignment (Some a) <$> omap (ticket_at (v_db v)) ids)) /\
      backfill_at d' (b_Id bf) = Some (mkBackfillInternal (Some bf) [])) \/
     (err_code r = Some Unavailable /\ t < t' - release_ttl cfg) ->
     Q r (upd v d' t')) ->
  wp ('(_, tickets) ←? svc_UpdateAssignments store
         (mkAssignTicketsRequest [mkAssignmentGroup ids (Some a)]);
      _ ←! deindex_all store ids;
      _ ←? svc_UpdateBackfill store (default nil_backfill (Some bf)) [];
      ret_ok (mkAcknowledgeBackfillResponse (Some bf) tickets)) v Q.
Proof.
  intros Hf Ht Hnil Has Hni Hres Henc Hack HQ.
  pose proof (proj1 (Forall_forall _ _) (proj1 (proj2 Has))) as Hids.
  next. apply wp_assign_group; [done..|]. intros resp d2 Hd2 Hd2x.
  assert (forall k, k ∈ reserved -> d2 !! k = v_db v !! k) as Hd2r.
  { intros k Hk. apply Hd2. intros Hi. by apply (Hids k Hi). }
  destruct (readings_ext _ _ Hd2r) as (Hi2 & _ & Ha2 & _ & Ht2).
  next. apply (wp_deindex_all cfg store); [done|by apply Ht2|]. cbn. intros d3 Ht3 Hi3 Hd3.
  assert (acks d3 = acks (v_db v)) as Ha3 by (rewrite <- Ha2; unfold acks, get_zset; by rewrite Hd3).
  assert (forall i x, i ∈ ids -> ticket_at (v_db v) i = Some x ->
            ticket_at d3 i = Some (set_ticket_assignment (Some a) x)) as Hx3.
  { intros i x Hi Hix. rewrite (ticket_at_ext _ d2); [by apply Hd2x|]. apply Hd3. intros ->.
    apply (Hids _ Hi). concrete. }
  call (call_UpdateBackfill cfg); [done|exact Henc| |]; cbn -[put_str].
  - intros t' Hnow _. apply HQ; [done|..].
    + by rewrite acks_put_str.
    + rewrite index_put_str by done. by rewrite Hi3, Hi2.
    + intros i x Hi Hix. rewrite (ticket_at_ext _ d3); [by apply Hx3|]. apply put_str_ne. congruence.
    + left. split; [done|]. rewrite backfill_at_put_str. by apply unmarshal_marshal_backfill.
  - intros e v' [(_ & Hn & _)|(He & t' & la & Hnow & Hla & Hlt & ->)]; cbn in *; [congruence|].
    apply HQ; [done|done|by rewrite Hi3, Hi2|done|].
    right. assert (la = t) as -> by congruence. done.
Qed.

(** C31. Acknowledging a backfill assigns its tickets, once: with the mutex
    free and the backfill alive, the acknowledgement time is renewed, and
    if it has tickets each one that still exists gets the given assignment,
    is returned and stored with it, all of them leave the index, and the
    backfill is stored without tickets; the call fails with Unavailable
    when the backfill had expired (nothing is written), or expired again
    before its tickets could be removed from it. *)
Theorem acknowledge_backfill_effect id a w r w' bf ids la :
  sys_faulty = false -> typed (db_of w) -> id <> "" -> id ∉ reserved ->
  lock_free (env_view w) (mutex_name id) (clock w) ->
  backfill_at (db_of w) id = Some (mkBackfillInternal (Some bf) ids) -> b_Id bf = id ->
  acks (db_of w) !! id = Some la -> is_Some (marshal_backfill (mkBackfillInternal (Some bf) [])) ->
  id ∉ ids -> assignable a ids (db_of w) ->
  run (AcknowledgeBackfill store id (Some a)) w = (r, w') ->
  (err_code r = Some Unavailable /\ db_of w' = db_of w /\ la < clock w' - release_ttl cfg) \/
  (exists t, clock w <= t <= clock w' /\ acks (db_of w') = <[id := sys_score t]> (acks (db_of w)) /\
    (ids = [] -> r = Ok (mkAcknowledgeBackfillResponse (Some bf) [])) /\
    (ids <> [] ->
       index (db_of w') = index (db_of w) ∖ list_to_set ids /\
       (forall i x, i ∈ ids -> ticket_at (db_of w) i = Some x ->
          ticket_at (db_of w') i = Some (set_ticket_assignment (Some a) x)) /\
       ((r = Ok (mkAcknowledgeBackfillResponse (Some bf)
                   (set_ticket_assignment (Some a) <$> omap (ticket_at (db_of w)) ids)) /\
         backfill_at (db_of w') id = Some (mkBackfillInternal (Some bf) [])) \/
        (err_code r = Some Unavailable /\ sys_score t < clock w' - release_ttl cfg)))).
Proof.
  intros Hf Ht Hne Hres Hlock Hat <- Hla [enc Henc] Hni Has Hrun.
  run_start Hrun. unfold AcknowledgeBackfill. rewrite bool_decide_false by done.
  eapply (call_with_mutex cfg); [apply _|done|by intros|intros tok t0 Hlt0].
  call (call_GetBackfill cfg); [|intros e Hn _; cbn in Hn; congruence].
  intros b0 ids0 Hb. cbn in Hb. rewrite Hat in Hb. injection Hb as <- <-.
  call (call_UpdateAck cfg); [done| |]; cycle 1.
  { intros e v' [(_ & Hn & _)|(He & t & la' & Hnow & Hla' & Hlt & ->)]; cbn in *; [congruence|].
    left. assert (la' = la) as -> by congruence. rewrite (unlocked_left cfg _ tok t0 (env_view w)) by done. done. }
  intros t1 t Hnow _ Ht1. cbn in Hnow. set (d1 := acked _ (b_Id bf) t).
  assert (forall k, k <> backfillLastAckTime -> d1 !! k = db_of w !! k) as Hd1 by (intros; by apply acked_lookup).
  assert (acks d1 = <[b_Id bf := sys_score t]> (acks (db_of w))) as Ha1 by apply acks_put_acks.
  destruct ids as [|i0 ids0].
  { apply wp_ret. rewrite (unlocked_left cfg _ tok t0 (env_view w)) by done. cbn. right. exists t. split; [lia|]. done. }
  assert (forall i, i ∈ i0 :: ids0 -> d1 !! i = db_of w !! i) as Hd1i.
  { intros i Hi. apply Hd1. intros ->. apply (proj1 (Forall_forall _ _) (proj1 (proj2 Has)) _ Hi). concrete. }
  assert (forall i, i ∈ i0 :: ids0 -> ticket_at d1 i = ticket_at (db_of w) i) as Htk by (intros; by apply ticket_at_ext, Hd1i).
  assert (omap (ticket_at d1) (i0 :: ids0) = omap (ticket_at (db_of w)) (i0 :: ids0)) as Homap.
  { apply list_omap_ext, Forall_Forall2_diag, Forall_forall. exact Htk. }
  eapply (wp_assign_associated a bf enc _ (sys_score t)); [done|by apply typed_put_acks|done| |done..| |].
  { destruct Has as (? & ? & Hr). split; [done|]. split; [done|]. intros i Hi Hs. cbn in Hs |- *. fold d1 in Hs |- *.
    rewrite Htk by done. apply Hr; [done|]. by rewrite <- (get_str_ext d1) by auto. }
  { cbn. fold d1. by rewrite Ha1, lookup_insert_eq. }
  cbn -[d1 release_ttl omap unlocked]. fold d1. rewrite Homap. intros r' d' t' Ht' Hacks Hidx Hx Hr'.
  rewrite (unlocked_left cfg _ tok t0 (env_view w)) by done. cbn -[d1 release_ttl omap].
  right. exists t. split; [lia|]. split; [congruence|]. split; [done|]. intros _.
  split; [rewrite Hidx; f_equal; apply index_put_acks|]. split; [|exact Hr'].
  intros i x Hi Hix. apply Hx; [done|]. by rewrite Htk.
Qed.

(** Deleting a ticket answers once the ticket has left the index, and
    only that has changed; the deletion it leaves running removes, whenever
    it runs, the ticket and its pending-release mark and nothing else. *)
Theorem delete_ticket_effect id w r w1 :
  sys_faulty = false -> typed (db_of w) -> id ∉ reserved ->
  run (Frontend.DeleteTicket store id) w = (r, w1) ->
  exists lazily, r = Ok lazily /\
    index (db_of w1) = index (db_of w) ∖ {[id]} /\
    (forall k, k <> allTickets -> db_of w1 !! k = db_of w !! k) /\
    forall w2 w3, typed (db_of w2) -> run lazily w2 = (tt, w3) ->
      pending (db_of w3) = delete id (pending (db_of w2)) /\ index (db_of w3) = index (db_of w2) /\
      forall k, k <> proposedTicketIDs -> db_of w3 !! k = if decide (k = id) then None else db_of w2 !! k.
Proof.
  intros Hf Ht Hres Hrun. exists (lazy_delete store id).
  assert (r = Ok (lazy_delete store id) /\
          env_view w1 = set_db (env_view w) (put_index (db_of w) (index (db_of w) ∖ {[id]}))) as [-> ->].
  { run_start Hrun. unfold Frontend.DeleteTicket, doDeleteTicket. next. by call (call_DeindexTicket cfg). }
  split; [done|]. cbn -[put_index]. split; [apply index_put_index|].
  split; [intros k Hk; by apply put_set_ne|]. intros w2 w3 Ht2 Hlazy.
  assert (env_view w3 = set_db (env_view w2) (put_pending (delete id (db_of w2)) (delete id (pending (db_of w2))))
          \/ (env_view w3 = set_db (env_view w2) (put_pending (db_of w2) (delete id (pending (db_of w2)))) /\
              db_of w2 !! id = None)) as Hw3.
  { revert Hlazy. generalize tt. intros u Hlazy. run_start Hlazy. unfold lazy_delete.
    call (call_DeleteTicket cfg); [intros _|intros e Hn _];
      (call (call_RemovePending cfg); [cbn; auto with om|]); cbn -[put_pending].
    - left. by rewrite pending_delete.
    - by right. }
  destruct Hw3 as [->|[-> Hn]]; cbn -[put_pending]; rewrite pending_put_pending, index_put_pending.
  - rewrite index_delete by done. split; [done|]. split; [done|]. intros k Hk.
    unfold put_pending. rewrite put_zset_ne by done. case_decide; [subst; apply lookup_delete_eq|by apply lookup_delete_ne].
  - split; [done|]. split; [done|]. intros k Hk. unfold put_pending. rewrite put_zset_ne by done.
    case_decide; [by subst|done].
Qed.
End Frontend.

(** ** Watching *)

(** The callback applied to a sequence of polled assignments. *)
Fixpoint watch_all (ctx_err send_err : nat -> option string) (s : watch_state)
    (polls : list (option Assignment)) : watch_state * result unit :=
  match polls with
  | [] => (s, Ok tt)
  | a :: polls =>
      match watch_callback ctx_err send_err s a with
      | (s, Ok _) => watch_all ctx_err send_err s polls
      | (s, Err e) => (s, Err e)
      end
  end.

(** The entries of a sequence that differ from the one before. *)
Definition changes (first : option Assignment) (polls : list (option Assignment)) : list (option Assignment) :=
  omap (fun p => if bool_decide (p.1 = p.2) then None else Some p.2) (zip (first :: polls) polls).

Lemma watch_all_sent s polls :
  let s' := (watch_all (fun _ => None) (fun _ => None) s polls).1 in
  (watch_all (fun _ => None) (fun _ => None) s polls).2 = Ok tt /\
  sent s' = sent s ++ changes (currAssignment s) polls /\
  currAssignment s' = default (currAssignment s) (last polls).
Proof.
  revert s. induction polls as [|a polls IH]; intros s; cbn -[last]; [by rewrite app_nil_r|].
  unfold watch_callback, changes. cbn -[last]. case_bool_decide as Ha.
  - destruct (IH (mkWatchState (currAssignment s) (sent s) (S (polled s)))) as (-> & -> & ->). cbn -[last].
    rewrite Ha. split; [done|]. split; [done|]. rewrite last_cons. by destruct (last polls).
  - destruct (IH (mkWatchState a (sent s ++ [a]) (S (polled s)))) as (-> & -> & ->). cbn -[last].
    rewrite <- app_assoc. split; [done|]. split; [done|]. rewrite last_cons. by destruct (last polls).
Qed.

Lemma watch_all_polled s polls :
  polled (watch_all (fun _ => None) (fun _ => None) s polls).1 = (length polls + polled s)%nat.
Proof.
  revert s. induction polls as [|a polls IH]; intros s; cbn; [done|]. unfold watch_callback.
  case_bool_decide; rewrite IH; cbn; lia.
Qed.

Lemma changes_replicate m a : m <> O ->
  changes None (replicate m a) = match a with Some x => [Some x] | None => [] end.
Proof.
  assert (forall n, changes a (replicate n a) = []) as Hsame.
  { induction n as [|n IH]; [done|]. unfold changes in *. cbn. by rewrite bool_decide_true. }
  destruct m as [|m]; [done|]. intros _. specialize (Hsame m). unfold changes in *. cbn in *.
  case_bool_decide as Ha; [subst a|]; rewrite Hsame; [done|]. by destruct a.
Qed.

(** A watcher is sent exactly the changes: over any sequence of polled
    assignments, with the context live and the stream accepting, it is sent
    each assignment that differs from the one polled before it (starting from
    none), in order, so never the same one twice in a row, and the last one
    sent is the last one polled. *)
Theorem watch_sends_changes polls :
  let '(s, r) := watch_all (fun _ => None) (fun _ => None) (mkWatchState None [] 0) polls in
  r = Ok tt /\ sent s = changes None polls /\
  (forall i a b, (None :: sent s) !! i = Some a -> (None :: sent s) !! S i = Some b -> a <> b) /\
  last (None :: sent s) = last (None :: polls).
Proof.
  destruct (watch_all _ _ _ polls) as [s r] eqn:Hw.
  pose proof (watch_all_sent (mkWatchState None [] 0) polls) as Hs. rewrite Hw in Hs. cbn in Hs.
  destruct Hs as (-> & Hs & _). rewrite Hs. split; [done|]. split; [done|]. clear.
  assert (forall first, (forall i a b, (first :: changes first polls) !! i = Some a ->
             (first :: changes first polls) !! S i = Some b -> a <> b) /\
           last (first :: changes first polls) = last (first :: polls)) as Hc; [|apply Hc].
  unfold changes. induction polls as [|a polls IH]; intros first; [split; [intros [|i] x y; cbn; by rewrite ?lookup_nil|done]|].
  cbn. case_bool_decide as Ha; [subst first|].
  - destruct (IH a) as [IH1 IH2]. split; [done|exact IH2].
  - destruct (IH a) as [IH1 IH2]. split.
    + intros [|i] x y; cbn; [by intros [= <-] [= <-]|]. apply IH1.
    + exact IH2.
Qed.

Section WatchStore.
Context `{EnvironmentLaws} `{Proto} (cfg : View).
Implicit Types (v : view).

Lemma wp_backoffOperation {S} (cb : S -> option Assignment -> S * result unit) id s v Q : sys_faulty = false ->
  match ticket_at (v_db v) id with
  | Some t => Q ((cb s (t_Assignment t)).1,
                 match (cb s (t_Assignment t)).2 with Err e => Some e | Ok _ => None end) v
  | None => forall e, status_of e = Some (if decide (v_db v !! id = None) then NotFound else Internal) ->
              Q (s, Some e) v
  end -> wp (backoffOperation cb id s) v Q.
Proof.
  intros Hf HQ. unfold backoffOperation. next.
  apply (call_GetTicket cfg (redisBackend cfg) Hf).
  - intros t Ht. rewrite Ht in HQ. by destruct (cb s (t_Assignment t)).
  - intros e Hn He. rewrite Hn in HQ. by apply HQ.
Qed.

(** Polling a ticket that does not change: [n] equal polls. *)
Lemma wp_retry ctx_err send_err n id s v (Q : watch_state * option error -> view -> Prop) :
  sys_faulty = false ->
  match ticket_at (v_db v) id with
  | Some t =>
      let '(s', r) := watch_all ctx_err send_err s (replicate n (t_Assignment t)) in
      Q (s', match r with Err e => Some e | Ok _ => None end) v
  | None =>
      (n = O -> Q (s, None) v) /\
      forall e, status_of e = Some (if decide (v_db v !! id = None) then NotFound else Internal) ->
        n <> O -> Q (s, Some e) v
  end -> wp (retry (watch_callback ctx_err send_err) n id s) v Q.
Proof.
  intros Hf. revert s. induction n as [|n IH]; intros s HQ; cbn [retry].
  { apply wp_ret. destruct (ticket_at (v_db v) id); [done|]. by apply HQ. }
  apply wp_bind, wp_backoffOperation; [done|]. destruct (ticket_at (v_db v) id) as [t|] eqn:Ht.
  - cbn [replicate watch_all] in HQ. destruct (watch_callback _ _ s _) as [s' [[]|e]]; [|done].
    apply IH. done.
  - intros e He. apply wp_ret. by apply HQ.
Qed.

(** Watching a stored ticket: while it does not change, any number of
    polls sends its assignment once if it has one and nothing if it has
    none, and the watch goes on; watching an id with no ticket ends with
    NotFound at the first poll and sends nothing. *)
Theorem watch_stable n id w s e w' :
  sys_faulty = false ->
  run (doWatchAssignments (redisBackend cfg) (fun _ => None) (fun _ => None) (S n) id) w = ((s, e), w') ->
  env_view w' = env_view w /\
  (forall t, ticket_at (db_of w) id = Some t ->
     e = None /\ polled s = S n /\ sent s = match t_Assignment t with Some a => [Some a] | None => [] end) /\
  (db_of w !! id = None -> sent s = [] /\ exists err, e = Some err /\ status_of err = Some NotFound).
Proof.
  intros Hf Hrun. pose proof (Nat.neq_succ_0 n) as Hm. revert Hm Hrun. generalize (S n). intros m Hm Hrun.
  remember (s, e) as x eqn:Hx. replace s with x.1 by (subst x; done). replace e with x.2 by (subst x; done). clear Hx.
  run_start Hrun. apply wp_get_conn; [intros; congruence|]. intros c Hc.
  apply wp_bind, wp_retry; [done|]. change (v_db (sent_conn (env_view w) c [])) with (db_of w).
  destruct (ticket_at (db_of w) id) as [t|] eqn:Ht.
  - pose proof (watch_all_sent (mkWatchState None [] 0) (replicate m (t_Assignment t))) as (Hr & Hs & _).
    pose proof (watch_all_polled (mkWatchState None [] 0) (replicate m (t_Assignment t))) as Hp.
    destruct (watch_all _ _ _ _) as [s' r]. cbn -[zip] in Hr, Hs, Hp. subst r.
    apply wp_close_idle; [done|]. split; [done|]. cbn.
    split; [|intros Hn; unfold ticket_at, get_str in Ht; by rewrite Hn in Ht].
    intros t' [= <-]. split; [done|]. rewrite length_replicate in Hp. split; [lia|].
    rewrite Hs. by apply changes_replicate.
  - split; [done|]. intros e' He' _. apply wp_close_idle; [done|]. split; [done|]. cbn.
    split; [done|]. intros Hn. rewrite decide_True in He' by done. eauto.
Qed.
End WatchStore.

(** ** Runs *)

Lemma create_ticket_effect_witness :
  let t := mkTicket "mine" None None ∅ ∅ None in
  let w' := after (Frontend.CreateTicket mem_store (Some t)) mem_init in
  exists id t', ans (Frontend.CreateTicket mem_store (Some t)) mem_init = Ok t' /\
    ticket_at (db_of w') id = Some t' /\ index (db_of w') = {[id]} ∪ index (db_of mem_init).
Proof.
  intros t w'.
  destruct (create_ticket_effect mem_cfg mem_store t mem_init
    (ans (Frontend.CreateTicket mem_store (Some t)) mem_init) w' eq_refl ltac:(concrete)
    ltac:(intros; by eexists) (surjective_pairing _)) as [_ Hc].
  destruct (Hc eq_refl eq_refl) as (id & now & Hr & _ & _ & _ & Hat & Hi & _). eauto.
Defined.

Lemma create_backfill_effect_witness :
  let b := mem_backfill "mine" 9 in
  err_code (ans (Frontend.CreateBackfill mem_store (Some (Some b))) mem_init) = Some InvalidArgument /\
  exists b', ans (Frontend.CreateBackfill mem_store (Some (Some (set_bf_create_time None b)))) mem_init = Ok b' /\
    b_Generation b' = 1.
Proof.
  intros b.
  assert (forall i, is_xid i = true -> is_Some (db_of mem_init !! i) -> i ∈ v_xids (env_view mem_init)) as Hids
    by (intros i _ [x Hx]; change (db_of mem_init) with (∅ : db) in Hx; by rewrite lookup_empty in Hx).
  split.
  - apply (create_backfill_effect mem_cfg mem_store (Some (Some b)) mem_init _
      (after (Frontend.CreateBackfill mem_store (Some (Some b))) mem_init)
      eq_refl ltac:(concrete) Hids ltac:(intros; by eexists) (surjective_pairing _)).
  - destruct (create_backfill_effect mem_cfg mem_store (Some (Some (set_bf_create_time None b))) mem_init _
      (after (Frontend.CreateBackfill mem_store (Some (Some (set_bf_create_time None b)))) mem_init)
      eq_refl ltac:(concrete) Hids ltac:(intros; by eexists) (surjective_pairing _))
      as (id & now & t & Hr & _). eexists. split; [exact Hr|reflexivity].
Defined.

(** The live backfill of [expiry_world], whose ticket [a] is stored. *)
Definition game_world : env_state :=
  let w := after (IndexTicket (mem_ticket "a")) (after (StoreTicket.CreateTicket (mem_ticket "a")) expiry_world) in
  after (IndexBackfill (mem_backfill "bf" 1)) w.

Lemma game_world_typed : typed (db_of game_world).
Proof. concrete. Qed.

Lemma update_backfill_effect_witness :
  let b := mem_backfill "bf" 77 in
  let p := Frontend.UpdateBackfill mem_store (Some (Some b)) in
  ans p game_world = Ok (mem_backfill "bf" 2) /\
  bindex (db_of (after p game_world)) !! "bf" = Some "2" /\ locks (after p game_world) = locks game_world.
Proof.
  intros b p. split; [vm_compute; reflexivity|].
  split; [vm_compute; reflexivity|].
  assert (backfill_at (db_of game_world) (b_Id b) = Some (mkBackfillInternal (Some (mem_backfill "bf" 1)) ["a"])) as Hat
    by (vm_compute; reflexivity).
  assert (acks (db_of game_world) !! b_Id b = Some 1614556800000999936) as Ha by (vm_compute; reflexivity).
  destruct (update_backfill_effect mem_cfg mem_store b game_world (ans p game_world) (after p game_world)
    (mem_backfill "bf" 1) ["a"] 1614556800000999936 eq_refl game_world_typed ltac:(discriminate)
    ltac:(concrete) ltac:(concrete) Hat eq_refl Ha ltac:(intros; by eexists) (surjective_pairing _)) as [Hl _].
  exact Hl.
Defined.

Lemma acknowledge_backfill_effect_witness :
  let a := mkAssignment "10.0.0.1:7777" ∅ in
  let p := AcknowledgeBackfill mem_store "bf" (Some a) in
  ans p game_world = Ok (mkAcknowledgeBackfillResponse (Some (mem_backfill "bf" 1))
                           [set_ticket_assignment (Some a) (mem_ticket "a")]) /\
  index (db_of (after p game_world)) = ∅.
Proof.
  intros a p. split; [vm_compute; reflexivity|].
  assert (backfill_at (db_of game_world) "bf" = Some (mkBackfillInternal (Some (mem_backfill "bf" 1)) ["a"])) as Hat
    by (vm_compute; reflexivity).
  assert (acks (db_of game_world) !! "bf" = Some 1614556800000999936) as Ha by (vm_compute; reflexivity).
  assert (assignable a ["a"] (db_of game_world)) as Has.
  { split; [concrete|]. split; [concrete|]. intros i Hi _. apply list_elem_of_singleton in Hi as ->.
    exists (mem_ticket "a"). split; [vm_compute; reflexivity|]. split; [reflexivity|by eexists]. }
  destruct (acknowledge_backfill_effect mem_cfg mem_store "bf" a game_world (ans p game_world)
    (after p game_world) (mem_backfill "bf" 1) ["a"] 1614556800000999936 eq_refl game_world_typed
    ltac:(discriminate) ltac:(concrete) ltac:(concrete) Hat eq_refl Ha ltac:(by eexists)
    ltac:(concrete) Has (surjective_pairing _)) as [(_ & _ & Hlt)|(t & _ & _ & _ & Hids)].
  - vm_compute in Hlt. discriminate.
  - destruct (Hids ltac:(discriminate)) as [Hi _]. rewrite Hi. vm_compute. reflexivity.
Defined.

Lemma delete_ticket_effect_witness :
  exists lazily, ans (Frontend.DeleteTicket mem_store "a") game_world = Ok lazily /\
    "a" ∉ index (db_of (after (Frontend.DeleteTicket mem_store "a") game_world)).
Proof.
  destruct (delete_ticket_effect mem_cfg mem_store "a" game_world _
    (after (Frontend.DeleteTicket mem_store "a") game_world) eq_refl game_world_typed ltac:(concrete)
    (surjective_pairing _)) as (lazily & Hr & Hi & _).
  exists lazily. split; [exact Hr|]. rewrite Hi. intros [_ Hn]%elem_of_difference.
  by apply Hn, elem_of_singleton.
Defined.

Lemma watch_stable_witness :
  let p := doWatchAssignments mem_store (fun _ => None) (fun _ => None) 3 "a" in
  (ans p game_world).2 = None /\ polled (ans p game_world).1 = 3%nat.
Proof.
  intros p. destruct (run p game_world) as [[s e] w'] eqn:Hrun.
  destruct (watch_stable mem_cfg 2 "a" game_world s e w' eq_refl Hrun) as (_ & Hs & _).
  destruct (Hs (mem_ticket "a")) as (He & Hp & _); [vm_compute; reflexivity|].
  split; [exact He|exact Hp].
Defined.
