(* ===== verification/Backend.v ===== *)
(** * The backend ([internal/app/backend/backend_service.go])

    [FetchMatches] relays proposals from a match function to the synchronizer
    and accepted matches from the synchronizer to the caller; the other
    handlers assign and release tickets. *)
From S2P Require Export Store.

Definition errBackfillGenerationMismatch : error := EGenerationMismatch.

Section Handlers.
Context `{Proto} (store : Service).

(** *** Releasing and assigning *)

Definition doReleaseTickets (ticketIds : list string) : prog (result unit) :=
  r ←! svc_DeleteTicketsFromPendingRelease store ticketIds;
  Ret (match r with
       | Err err => Err (EWrap "failed to remove the awaiting tickets from the pending release for requested tickets" err)
       | Ok _ => Ok tt
       end).

Definition ReleaseTickets (ticketIds : list string) : prog (result unit) :=
  _ ←? doReleaseTickets ticketIds;
  ret_ok tt.

Definition ReleaseAllTickets : prog (result unit) :=
  _ ←? svc_ReleaseAllTickets store;
  ret_ok tt.

(** The measurement only reads the clock; its result is a statistic. *)
Definition recordTimeToAssignment (ticket : Ticket) : prog (result Z) :=
  match t_Assignment ticket with
  | None => ret_err (EPlain ("assignment for ticket " +:+ t_Id ticket +:+ " is nil"))
  | Some _ =>
      now ←! trigger Now;
      match t_CreateTime ticket ≫= ptypes_Timestamp with
      | None => ret_err (EPlain "timestamp: nil or invalid Timestamp")
      | Some created => ret_ok ((now - created) `quot` time_Millisecond)
      end
  end.

Fixpoint record_all (tickets : list Ticket) : prog unit :=
  match tickets with
  | [] => Ret tt
  | ticket :: tickets => _ ←! recordTimeToAssignment ticket; record_all tickets
  end.

Fixpoint deindex_assigned (ids : list string) : prog unit :=
  match ids with
  | [] => Ret tt
  | id :: ids => _ ←! svc_DeindexTicket store id; deindex_assigned ids
  end.

(** After the assignment every step is attempted and its error only
    logged. *)
Definition doAssignTickets (req : AssignTicketsRequest) : prog (result AssignTicketsResponse) :=
  '(resp, tickets) ←? svc_UpdateAssignments store req;
  _ ←! record_all tickets;
  let ids := foldl (fun ids ag => ids ++ ag_TicketIds ag) [] (atr_Assignments req) in
  _ ←! deindex_assigned ids;
  _ ←! svc_DeleteTicketsFromPendingRelease store ids;
  ret_ok resp.

Definition AssignTickets (req : AssignTicketsRequest) : prog (result AssignTicketsResponse) :=
  resp ←? doAssignTickets req;
  ret_ok resp.

(** *** The backfill of an accepted match

    The argument is a pointer into the match, so a new backfill's id, time
    and generation are visible in the match whatever the call returns: the
    result carries the backfill as it is afterwards. *)
Definition createOrUpdateBackfill (backfill : Backfill) (ticketIds : list string) :
    prog (Backfill * result unit) :=
  if bool_decide (b_Id backfill = "") then
    id ←! trigger NewXid;
    now ←! trigger Now;
    let backfill := set_bf_generation 1
      (set_bf_create_time (Some (TimestampNow now)) (set_bf_id id backfill)) in
    r ←! (_ ←? svc_CreateBackfill store backfill ticketIds;
          svc_IndexBackfill store backfill);
    Ret (backfill, r)
  else
    r ←! with_mutex (svc_Lock store (b_Id backfill)) (svc_Unlock store (b_Id backfill)) (
      '(b, ids) ←? svc_GetBackfill store (b_Id backfill);
      match b with
      | None => ret_err EPanic
      | Some b =>
          if bool_decide (b_Generation b <> b_Generation backfill) then ret_err errBackfillGenerationMismatch
          else
            let b := set_bf_generation (wrap64 (b_Generation b + 1))
              (set_bf_extensions (b_Extensions backfill)
                (set_bf_search_fields (b_SearchFields backfill) b)) in
            _ ←? svc_UpdateBackfill store b (ids ++ ticketIds);
            svc_IndexBackfill store b
      end);
    Ret (backfill, r).

(** *** FetchMatches *)

(** What the goroutines of one call share: the map of proposals by match
    id, what was sent to the synchronizer and to the caller, the two
    signals to the match function, and the first error of the group. *)
Record fetch_state := mkFetchState {
  f_m : gmap string Match;
  f_synced : list Match;
  f_streamed : list Match;
  f_startMmfs : bool;
  f_cancelMmfs : bool;
  f_sendDone : bool;
  f_recvDone : bool;
  f_syncErr : option error;
}.

Definition fetch_init : fetch_state := mkFetchState ∅ [] [] false false false false None.

(** A goroutine of the group returns; the first error is the group's. *)
Definition first_error (e1 e2 : option error) : option error :=
  match e1 with Some e => Some e | None => e2 end.
Definition send_return (err : option error) (s : fetch_state) : fetch_state :=
  mkFetchState (f_m s) (f_synced s) (f_streamed s) (f_startMmfs s) (f_cancelMmfs s) true (f_recvDone s)
    (first_error (f_syncErr s) err).
Definition recv_return (err : option error) (s : fetch_state) : fetch_state :=
  mkFetchState (f_m s) (f_synced s) (f_streamed s) (f_startMmfs s) (f_cancelMmfs s) (f_sendDone s) true
    (first_error (f_syncErr s) err).

(** What [synchronizeSend] receives: a proposal, the close of the channel
    or the end of the context; and the outcome of the stream call made. *)
Inductive send_event :=
| Proposal (p : Match) (send_err : option string)
| SendEnd (close_err : option string).

(** One iteration of [synchronizeSend]. *)
Definition synchronizeSend (s : fetch_state) (ev : send_event) : fetch_state :=
  match ev with
  | Proposal p send_err =>
      match f_m s !! m_MatchId p with
      | Some _ =>
          send_return (Some (EPlain ("MatchMakingFunction returned same match_id twice: " +:+ m_MatchId p))) s
      | None =>
          let s := mkFetchState (<[m_MatchId p := p]> (f_m s)) (f_synced s) (f_streamed s) (f_startMmfs s)
                     (f_cancelMmfs s) (f_sendDone s) (f_recvDone s) (f_syncErr s) in
          match send_err with
          | Some m => send_return (Some (EWrap "error sending proposal to synchronizer" (EPlain m))) s
          | None => mkFetchState (f_m s) (f_synced s ++ [p]) (f_streamed s) (f_startMmfs s)
                      (f_cancelMmfs s) (f_sendDone s) (f_recvDone s) (f_syncErr s)
          end
      end
  | SendEnd None => send_return None s
  | SendEnd (Some m) =>
      send_return (Some (EWrap "error closing send stream of proposals to synchronizer" (EPlain m))) s
  end.

Inductive recv_event :=
| Response (resp : SynchronizeResponse) (stream_err : option string)
| RecvEOF
| RecvErr (m : string).

(** Send an accepted match to the caller. *)
Definition stream_match (match_ : Match) (stream_err : option string) (s : fetch_state) : fetch_state :=
  match stream_err with
  | Some m => recv_return (Some (EWrap "error sending match to caller of backend" (EPlain m))) s
  | None => mkFetchState (f_m s) (f_synced s) (f_streamed s ++ [match_]) (f_startMmfs s) (f_cancelMmfs s)
              (f_sendDone s) (f_recvDone s) (f_syncErr s)
  end.

(** The match behind a match id, its backfill handled: a stale or vanished
    backfill drops the match and releases its tickets, any other failure
    ends the call. *)
Definition accept_match (match_ : Match) (stream_err : option string) (s : fetch_state) : prog fetch_state :=
  match m_Backfill match_ with
  | None => Ret (stream_match match_ stream_err s)
  | Some backfill =>
      let ticketIds := t_Id <$> m_Tickets match_ in
      x ←! createOrUpdateBackfill backfill ticketIds;
      let '(backfill, r) := x in
      let match_ := set_match_backfill (Some backfill) match_ in
      let s := mkFetchState (<[m_MatchId match_ := match_]> (f_m s)) (f_synced s) (f_streamed s) (f_startMmfs s)
                 (f_cancelMmfs s) (f_sendDone s) (f_recvDone s) (f_syncErr s) in
      match r with
      | Ok _ => Ret (stream_match match_ stream_err s)
      | Err err =>
          if bool_decide (err = errBackfillGenerationMismatch \/ status_of err = Some NotFound) then
            _ ←! doReleaseTickets ticketIds;
            Ret s
          else
            Ret (recv_return (Some (EWrap ("failed to handle match backfill: " +:+ m_MatchId match_) err)) s)
      end
  end.

(** One iteration of [synchronizeRecv]. *)
Definition synchronizeRecv (s : fetch_state) (ev : recv_event) : prog fetch_state :=
  match ev with
  | RecvEOF => Ret (recv_return None s)
  | RecvErr m => Ret (recv_return (Some (EWrap "error receiving match from synchronizer" (EPlain m))) s)
  | Response resp stream_err =>
      let s := mkFetchState (f_m s) (f_synced s) (f_streamed s)
                 (f_startMmfs s || sr_StartMmfs resp) (f_cancelMmfs s || sr_CancelMmfs resp)
                 (f_sendDone s) (f_recvDone s) (f_syncErr s) in
      match f_m s !! sr_MatchId resp with
      | None => Ret s
      | Some match_ => accept_match match_ stream_err s
      end
  end.

(** The two goroutines interleaved: each event goes to the loop that waits
    for it, unless that loop has returned. *)
Inductive fetch_event := FromMmf (ev : send_event) | FromSynchronizer (ev : recv_event).

Definition fetch_step (s : fetch_state) (ev : fetch_event) : prog fetch_state :=
  match ev with
  | FromMmf ev => Ret (if f_sendDone s then s else synchronizeSend s ev)
  | FromSynchronizer ev => if f_recvDone s then Ret s else synchronizeRecv s ev
  end.

Fixpoint fetch_run (s : fetch_state) (evs : list fetch_event) : prog fetch_state :=
  match evs with
  | [] => Ret s
  | ev :: evs => s ←! fetch_step s ev; fetch_run s evs
  end.

(** The error of the whole call; [mmfErr] is [callMmf]'s. *)
Definition fetch_error (syncErr mmfErr : option error) : result unit :=
  let show (e : option error) := match e with None => "<nil>" | Some e => err_string e end in
  match syncErr, mmfErr with
  | None, None => Ok tt
  | _, _ => Err (EPlain ("error(s) in FetchMatches call. syncErr=[" +:+ show syncErr +:+ "], mmfErr=[" +:+
                           show mmfErr +:+ "]"))
  end.

(** [synchronize] is the outcome of opening the synchronizer stream, [evs]
    the events of the call in order, [mmf] what calling the match function
    returned once it was started. *)
Definition FetchMatches (req : FetchMatchesRequest) (synchronize : result unit)
    (evs : list fetch_event) (mmf : option error) : prog (list Match * result unit) :=
  match fm_Config req, fm_Profile req, synchronize with
  | None, _, _ => Ret ([], Err (EStatus InvalidArgument ".config is required"))
  | _, None, _ => Ret ([], Err (EStatus InvalidArgument ".profile is required"))
  | _, _, Err err => Ret ([], Err err)
  | _, _, Ok _ =>
      s ←! fetch_run fetch_init evs;
      let mmfErr := if f_startMmfs s then mmf else Some (EPlain "mmf was never started") in
      Ret (f_streamed s, fetch_error (f_syncErr s) mmfErr)
  end.
End Handlers.

(** ** Calling the match function

    The transports are third-party; [GetGRPC]/[GetHTTP] and the calls are
    given by their outcomes. A stream of responses is a list of items ended by
    EOF; [ctx_err] is the context's error, if any, when the [n]-th proposal is
    handed over, which then wins over the item's own error. *)
Section CallMmf.
Inductive mmf_item := MmfProposal (p : Match) | MmfError (m : string).

Fixpoint callGrpcMmf_loop (ctx_err : nat -> option error) (n : nat) (items : list mmf_item) :
    list Match * option error :=
  match items with
  | [] => ([], None)
  | MmfError m :: _ => ([], Some (match ctx_err n with Some e => e | None => EWrap "Run() error" (EPlain m) end))
  | MmfProposal p :: items =>
      match ctx_err n with
      | Some e => ([], Some e)
      | None => let '(ps, r) := callGrpcMmf_loop ctx_err (S n) items in (p :: ps, r)
      end
  end.

Definition callGrpcMmf (get : result unit) (run : result (list mmf_item)) (ctx_err : nat -> option error) :
    list Match * option error :=
  match get, run with
  | Err _, _ => ([], Some (EStatus InvalidArgument "failed to establish grpc client connection to match function"))
  | Ok _, Err err =>
      ([], Some (match ctx_err O with Some e => e | None => EWrap "failed to run match function for profile" err end))
  | Ok _, Ok items => callGrpcMmf_loop ctx_err O items
  end.

(** A decoded item of the HTTP body: a result that unmarshals or not, or a
    non-empty error object; or text that does not decode. *)
Inductive http_item := HttpResult (p : option Match) | HttpError (m : string) | HttpUndecodable (m : string).

Fixpoint callHTTPMmf_loop (ctx_err : nat -> option error) (n : nat) (items : list http_item) :
    list Match * option error :=
  match items with
  | [] => ([], None)
  | HttpUndecodable m :: _ => ([], Some (EStatus Unavailable ("failed to read response from HTTP JSON stream: " +:+ m)))
  | HttpError m :: _ => ([], Some (EStatus Unavailable ("failed to execute matchfunction.Run: " +:+ m)))
  | HttpResult None :: _ => ([], Some (EStatus Unavailable "failed to execute json.Unmarshal"))
  | HttpResult (Some p) :: items =>
      match ctx_err n with
      | Some e => ([], Some e)
      | None => let '(ps, r) := callHTTPMmf_loop ctx_err (S n) items in (p :: ps, r)
      end
  end.

Definition callHTTPMmf (get marshal request : option string) (do : result (list http_item))
    (profile : string) (ctx_err : nat -> option error) : list Match * option error :=
  match get, marshal, request, do with
  | Some m, _, _, _ =>
      ([], Some (EStatus InvalidArgument ("failed to establish rest client connection to match function: " +:+ m)))
  | _, Some m, _, _ =>
      ([], Some (EStatus FailedPrecondition ("failed to marshal profile pb to string for profile " +:+ profile +:+ ": " +:+ m)))
  | _, _, Some m, _ =>
      ([], Some (EStatus FailedPrecondition ("failed to create mmf http request for profile " +:+ profile +:+ ": " +:+ m)))
  | _, _, _, Err e =>
      ([], Some (EStatus Internal ("failed to get response from mmf run for profile " +:+ profile +:+ ": " +:+ err_string e)))
  | _, _, _, Ok items => callHTTPMmf_loop ctx_err O items
  end.

(** The proposals are closed when the call returns, whatever it returns. *)
Definition callMmf (req : FetchMatchesRequest) (grpc http : string -> MatchProfile -> list Match * option error) :
    list Match * option error :=
  let cfg := default (mkFunctionConfig "" 0 FunctionConfig_GRPC) (fm_Config req) in
  let profile := default (mkMatchProfile "" [] ∅) (fm_Profile req) in
  let address := fc_Host cfg +:+ ":" +:+ itoa (fc_Port cfg) in
  match fc_Type cfg with
  | FunctionConfig_GRPC => grpc address profile
  | FunctionConfig_REST => http address profile
  | FunctionConfig_unnamed _ => ([], Some (EStatus InvalidArgument "provided match function type is not supported"))
  end.
End CallMmf.
