(* ===== verification/QuietCalls.v ===== *)
(** * Calls that leave a backfill alone

    The operations of the store and the handlers that, run beside others,
    neither write the record of a given backfill nor take its mutex, in the
    sense of [Interleave.quiet]. *)
From S2P Require Export Interleave Frontend Backend.

(** Walk through a quiet program. *)
Ltac calm_side := cbn -[reserved]; first [done | by left | by right; left | by repeat split].
Ltac quiet_side :=
  cbn -[calm]; rewrite ?lookup_insert_eq;
  first [done | by eauto | left; split; [done|calm_side] | right; calm_side].
Ltac quiet_walk :=
  repeat (prog_cbn;
    match goal with
    | |- quiet _ _ (Ret _) _ => cbn [quiet]
    | |- quiet _ _ (Vis (GetConn _) _) _ => split; [exact I|intros [?|?] ?]
    | |- quiet _ _ (Vis (Do _ _) _) _ => split; [quiet_side|intros [?|?] ?]
    | |- quiet _ _ (Vis (Send _ _) _) _ => split; [quiet_side|intros [?|] ?]
    | |- quiet _ _ (Vis (CloseConn _) _) _ => split; [quiet_side|intros [] _]
    | |- quiet _ _ (Vis Now _) _ => split; [exact I|intros ? _]
    | |- quiet _ _ (match ?x with _ => _ end) _ => destruct x
    | |- quiet _ _ (prog_bind (match ?x with _ => _ end) _) _ => destruct x
    | |- quiet _ _ (prog_bind (prog_bind (match ?x with _ => _ end) _) _) _ => destruct x
    | |- quiet _ _ (prog_bind (prog_bind (prog_bind (match ?x with _ => _ end) _) _) _) _ => destruct x
    end).

Lemma not_reserved_empty : "" ∉ reserved.
Proof. by apply (bool_decide_unpack _). Qed.

(** Succeeded, or the outside world failed. *)
Definition or_fault `{Sys} {A} (r : result A) : Prop := match r with Ok _ => True | Err _ => sys_faulty = true end.

Abbreviation unless_fault := (fun r _ => or_fault r).
Abbreviation anyhow := (fun _ _ => True).

Section Operations.
Context `{Sys} `{Proto} (cfg : View) (id : string) (Hid : id ∉ reserved).
Implicit Types (C : gmap conn (list command)).

Lemma plausible_do c cmd m : may_mistype cmd = false -> plausible id (Do c cmd) (inr m) -> sys_faulty = true.
Proof. cbn. intros Hm [?|?]; [done|congruence]. Qed.

Lemma quiet_index b C : quiet id C (IndexBackfill b) unless_fault.
Proof. unfold IndexBackfill, with_conn. quiet_walk; cbn; auto. Qed.

Lemma quiet_deindex i C : quiet id C (DeindexBackfill i) unless_fault.
Proof. unfold DeindexBackfill, with_conn. quiet_walk; cbn; auto. Qed.

Lemma quiet_unpend ids C : quiet id C (DeleteTicketsFromPendingRelease ids) unless_fault.
Proof.
  destruct ids as [|i ids]; [done|]. unfold DeleteTicketsFromPendingRelease, with_conn. quiet_walk; cbn; auto.
  eapply plausible_do; [|eassumption]; done.
Qed.

Lemma quiet_get i C : quiet id C (StoreBackfill.GetBackfill i) anyhow.
Proof. unfold StoreBackfill.GetBackfill, with_conn. quiet_walk; done. Qed.

Lemma quiet_ack i C : quiet id C (UpdateAcknowledgmentTimestamp cfg i) anyhow.
Proof. unfold UpdateAcknowledgmentTimestamp, isBackfillExpired, doUpdateAcknowledgmentTimestamp, with_conn. quiet_walk; done. Qed.

Lemma quiet_deindex_ticket i C : quiet id C (DeindexTicket i) anyhow.
Proof. unfold DeindexTicket, with_conn. quiet_walk; done. Qed.

Lemma quiet_index_ticket t C : quiet id C (IndexTicket t) anyhow.
Proof. unfold IndexTicket, with_conn. quiet_walk; done. Qed.

Lemma quiet_delete_ticket i C : i <> id -> quiet id C (StoreTicket.DeleteTicket i) anyhow.
Proof. intros Hi. unfold StoreTicket.DeleteTicket, with_conn. quiet_walk; done. Qed.

Lemma quiet_release_all C : quiet id C StoreTicket.ReleaseAllTickets anyhow.
Proof using Hid.
  pose proof (reserved_ne id Hid proposedTicketIDs ltac:(by right; left)).
  unfold StoreTicket.ReleaseAllTickets, with_conn. quiet_walk; done.
Qed.

(** *** Writes of new entities *)

(** A program whose answer does not matter. *)
Lemma quiet_seq {A B} C (p : prog A) (f : A -> prog B) P : quiet id C p anyhow -> (forall a C', quiet id C' (f a) P) ->
  quiet id C (prog_bind p f) P.
Proof. intros Hp Hq. eapply quiet_bind; [exact Hp|]. auto. Qed.

Lemma quiet_then {A B} C (p : prog (result A)) (f : A -> prog (result B)) : quiet id C p anyhow ->
  (forall a C', quiet id C' (f a) anyhow) -> quiet id C (rbind p f) anyhow.
Proof. intros Hp Hq. eapply quiet_rbind; [exact Hp|auto|done]. Qed.

Lemma quiet_weaken {A} C (p : prog A) P : quiet id C p P -> quiet id C p anyhow.
Proof. intros Hp. eapply quiet_mono; [exact Hp|done]. Qed.

Section Laws.
Context `{!ProtoLaws} (Hforeign : forall bi s, marshal_backfill bi = Some s -> foreign id s).

Lemma ticket_foreign t s : t_Id t <> id -> t_Id t ∉ reserved -> marshal_ticket t = Some s -> foreign id s.
Proof. intros Hi Hr Hs t'. rewrite (unmarshal_marshal_ticket t s Hs). by intros [= <-]. Qed.

Lemma quiet_store_ticket t C : t_Id t <> id -> t_Id t ∉ reserved -> quiet id C (StoreTicket.CreateTicket t) anyhow.
Proof.
  intros Hi Hr. unfold StoreTicket.CreateTicket, with_conn. split; [exact I|]. intros [c|m] _; [prog_cbn|done].
  destruct (marshal_ticket t) as [s|] eqn:Hs; [|quiet_walk; done].
  pose proof (ticket_foreign t s Hi Hr Hs). quiet_walk; done.
Qed.

Lemma quiet_store_backfill b ids C : b_Id b <> id -> b_Id b ∉ reserved -> quiet id C (StoreBackfill.CreateBackfill b ids) anyhow.
Proof using Hforeign.
  intros Hi Hr. unfold StoreBackfill.CreateBackfill, doUpdateAcknowledgmentTimestamp, with_conn.
  split; [exact I|]. intros [c|m] _; [prog_cbn|done].
  destruct (marshal_backfill _) as [s|] eqn:Hs; [|quiet_walk; done].
  pose proof (Hforeign _ s Hs). quiet_walk; done.
Qed.

Lemma quiet_update_other b ids C : b_Id b <> id -> b_Id b ∉ reserved ->
  quiet id C (StoreBackfill.UpdateBackfill cfg b ids) anyhow.
Proof using Hforeign.
  intros Hi Hr. unfold StoreBackfill.UpdateBackfill, isBackfillExpired, with_conn.
  split; [exact I|]. intros [c|m] _; [prog_cbn|done]. split; [quiet_side|]. intros [[la|]|e] _; [|quiet_walk; done..].
  prog_cbn. split; [done|]. intros now _. prog_cbn. case_match; [quiet_walk; done|].
  destruct (marshal_backfill _) as [s|] eqn:Hs; [|quiet_walk; done].
  pose proof (Hforeign _ s Hs). quiet_walk; done.
Qed.

(** *** Assigning tickets, in a transaction *)

Lemma read_assigned_foreign ids bs fs ts : Forall (fun o => forall s, o = Some s -> foreign id s) bs ->
  read_assigned ids bs = Ok (fs, ts) -> Forall (fun t => t_Id t <> id /\ t_Id t ∉ reserved) ts.
Proof.
  revert bs fs ts. induction ids as [|i ids IH]; intros [|[s|] bs] fs ts Hbs; cbn; try by intros [= _ <-].
  - apply Forall_cons in Hbs as [Hs Hbs]. destruct (unmarshal_ticket s) as [t|] eqn:Ht; [|done].
    destruct (read_assigned ids bs) as [[fs' ts']|e] eqn:Hr; [|done]. intros [= <- <-].
    constructor; [by eapply Hs|by eapply IH].
  - apply Forall_cons in Hbs as [_ Hbs]. destruct (read_assigned ids bs) as [[fs' ts']|e] eqn:Hr; [|done].
    intros [= <- <-]. by eapply IH.
Qed.

Lemma quiet_send_assignments c m px ts C cs : C !! c = Some (MULTI :: cs) ->
  Forall (fun t => t_Id t <> id /\ t_Id t ∉ reserved) ts ->
  quiet id C (send_assignments c m px ts) (fun _ C' => exists cs', C' !! c = Some (MULTI :: cs')).
Proof.
  intros HC Hts. revert C cs HC. induction Hts as [|t ts [Hi Hr] _ IH]; intros C cs HC; cbn [send_assignments]; [by eexists|].
  set (t' := set_ticket_assignment _ t). destruct (marshal_ticket t') as [s|] eqn:Hs; [|by eexists].
  pose proof (ticket_foreign t' s Hi Hr Hs) as Hf. prog_cbn. split; [cbn; by rewrite HC|]. intros [e|] _; prog_cbn; [by eexists|].
  cbn [pend_after]. eapply quiet_rbind; [apply (IH _ (cs ++ [SETXX (t_Id t') s px]))| |done].
  - by rewrite lookup_insert_eq, HC.
  - intros rest C' HC'. exact HC'.
Qed.

Lemma quiet_assign req C : id ∉ group_ids (atr_Assignments req) -> quiet id C (UpdateAssignments cfg req) anyhow.
Proof.
  intros Hn. unfold UpdateAssignments. destruct (atr_Assignments req) as [|g gs] eqn:Hg; [done|]. set (groups := g :: gs) in *.
  unfold with_conn. split; [exact I|]. intros [c|m] _; [prog_cbn|done]. pose proof (collect_valid groups) as Hv.
  destruct (collect_assignments groups ∅ []) as [[m ids]|e]; [|quiet_walk; done].
  destruct Hv as (-> & _ & _). destruct (group_ids groups) as [|i ids]; [quiet_walk; done|]. prog_cbn.
  split; [quiet_side|]. intros [bs|e] Hbs; [|quiet_walk; done]. specialize (Hbs Hn). cbn [pend_after]. prog_cbn.
  destruct (read_assigned (i :: ids) bs) as [[fs ts]|e] eqn:Hr; [|quiet_walk; done]. prog_cbn.
  split; [quiet_side|]. intros [e|] _; [quiet_walk; done|]. prog_cbn. cbn [pend_after]. rewrite lookup_insert_eq. cbn [default app].
  set (C2 := <[c := [MULTI]]> (<[c := []]> C)). apply (quiet_bind _ _ _ C2 (fun _ C' => is_Some (C' !! c))).
  - apply (quiet_rbind _ _ _ C2 (fun _ C' => exists cs, C' !! c = Some (MULTI :: cs))).
    + eapply quiet_send_assignments; [apply lookup_insert_eq|by eapply read_assigned_foreign].
    + intros ts' C' [cs HC']. split; [right; split; [done|by eexists]|]. intros r _. cbn [pend_after].
      assert (is_Some (<[c := []]> C' !! c)) by (rewrite lookup_insert_eq; by eexists).
      destruct r as [a|e]; [|done]. prog_cbn. case_decide; [done|]. by destruct (read_was_set ts' a) as [[]|].
    + intros e C' [cs ->]. by eexists.
  - intros x C' HC'. by split.
Qed.

(** ** Handlers *)

(** Creating a ticket, whose id is new. *)
Lemma quiet_create_ticket t C :
  quiet id C (_ ←? Frontend.CreateTicket (redisBackend cfg) (Some t); ret_ok tt) anyhow.
Proof.
  unfold Frontend.CreateTicket, doCreateTicket.
  destruct (t_Assignment t); [done|]. destruct (t_CreateTime t); [done|]. prog_cbn.
  split; [done|]. intros i [Hi Hr]. prog_cbn. split; [done|]. intros now _. prog_cbn.
  cbn [svc_CreateTicket svc_IndexTicket redisBackend].
  apply quiet_then; [|by intros]. apply quiet_then; [by apply quiet_store_ticket|intros _ C1].
  apply quiet_then; [apply quiet_index_ticket|by intros].
Qed.

(** Another backfill. *)
Lemma quiet_create_backfill b C :
  quiet id C (_ ←? Frontend.CreateBackfill (redisBackend cfg) (Some (Some b)); ret_ok tt) anyhow.
Proof using All.
  unfold Frontend.CreateBackfill, doCreateBackfill. destruct (b_CreateTime b); [done|]. prog_cbn.
  split; [done|]. intros i [Hi Hr]. prog_cbn. split; [done|]. intros now _. prog_cbn.
  cbn [svc_CreateBackfill svc_IndexBackfill redisBackend].
  apply quiet_then; [|by intros]. apply quiet_then; [by apply quiet_store_backfill|intros _ C1].
  apply quiet_then; [eapply quiet_weaken, quiet_index|by intros].
Qed.

Lemma quiet_release_tickets ids C : quiet id C (ReleaseTickets (redisBackend cfg) ids) anyhow.
Proof.
  unfold ReleaseTickets, doReleaseTickets. cbn [svc_DeleteTicketsFromPendingRelease redisBackend].
  apply quiet_then; [|by intros]. apply quiet_seq; [eapply quiet_weaken, quiet_unpend|by intros].
Qed.

Lemma quiet_record_all ts C : quiet id C (record_all ts) anyhow.
Proof.
  revert C. induction ts as [|t ts IH]; intros C; [done|]. cbn [record_all]. apply quiet_seq; [|by intros _].
  unfold recordTimeToAssignment. quiet_walk; done.
Qed.

Lemma quiet_deindex_assigned ids C : quiet id C (deindex_assigned (redisBackend cfg) ids) anyhow.
Proof.
  revert C. induction ids as [|i ids IH]; intros C; [done|]. cbn [deindex_assigned]. apply quiet_seq; [|by intros _].
  apply quiet_deindex_ticket.
Qed.

Lemma quiet_deindex_all ids C : quiet id C (deindex_all (redisBackend cfg) ids) anyhow.
Proof.
  revert C. induction ids as [|i ids IH]; intros C; [done|]. cbn [deindex_all]. apply quiet_seq; [|by intros _].
  apply quiet_deindex_ticket.
Qed.

(** Assigning tickets, none of them this record. *)
Lemma quiet_assign_tickets req C : id ∉ group_ids (atr_Assignments req) ->
  quiet id C (_ ←? AssignTickets (redisBackend cfg) req; ret_ok tt) anyhow.
Proof using All.
  intros Hn. unfold AssignTickets, doAssignTickets.
  cbn [svc_UpdateAssignments svc_DeleteTicketsFromPendingRelease redisBackend].
  apply quiet_then; [|by intros]. apply quiet_then; [|by intros]. apply quiet_then; [by apply quiet_assign|].
  intros [resp ts] C1. apply quiet_seq; [apply quiet_record_all|]. intros _ C2. apply quiet_seq; [apply quiet_deindex_assigned|].
  intros _ C3. apply quiet_seq; [eapply quiet_weaken, quiet_unpend|by intros].
Qed.
End Laws.
End Operations.
