(* ===== verification/BackfillRace.v ===== *)
(** * Calls on one backfill, at the same time

    Directors fetching matches, clients updating, acknowledging and deleting a
    backfill and the sweep of expired backfills run in different processes.
    Here any number of such calls on one backfill, and of calls on other
    things, run side by side on the Redis store, one effect at a time in any
    order. *)
From S2P Require Export QuietCalls.
From S2P Require Import MemEnv.

(** ** The critical sections, among others *)
Section Parts.
Context `{Sys} `{ProtoLaws} (cfg : View) (id : string) (Hid : id ∉ reserved).
Implicit Types (l : local).

(** Reading the record under the mutex gives what is there. *)
Definition got_record (x : option entry) (r : result (option Backfill * list string)) : Prop :=
  match r with
  | Ok (b, ids) => reads x (mkBackfillInternal b ids) /\ (forall b0, b = Some b0 -> b_Id b0 = id) /\ id ∉ ids
  | Err _ => True
  end.

Lemma cwp_get l x : calm_pend id (l_pend l) -> l_held l = Some x ->
  cwp id l (StoreBackfill.GetBackfill id) (fun r l' => same_record l l' /\ calm_pend id (l_pend l') /\ got_record x r).
Proof using Hid.
  intros HC Hx. unfold StoreBackfill.GetBackfill, with_conn. apply (cwp_vis _ Hid); [done..|]. intros _ r _ _ _ _.
  destruct r as [c|m]; [|done]. prog_cbn. pose proof (calm_open _ _ c HC) as HC1.
  apply (cwp_vis _ Hid); [quiet_side|done|].
  intros v r v' Hg Hs _. pose proof Hg as [Hp Hh _]. destruct (Hh x Hx) as [_ Hv]. cbn -[do_step] in Hs, Hp.
  rewrite (lookup_weaken _ _ _ _ (lookup_insert_eq _ _ _) Hp) in Hs.
  assert (forall q, got_record x q ->
    cwp id (mkLocal (l_deletes l) (<[c := []]> (l_pend l)) (l_held l) (l_bumps l)) (Vis (CloseConn c) (fun _ => Ret q))
      (fun r l' => same_record l l' /\ calm_pend id (l_pend l') /\ got_record x r)) as Hclose.
  { intros q Hq. apply (cwp_vis _ Hid); [cbn; rewrite lookup_insert_eq; eauto|done|]. intros ? ? ? _ _ _. cbn.
    split; [done|]. split; [by apply map_Forall_delete|done]. }
  cbn -[cwp]. destruct r as [[s|]|m]; prog_cbn; [|by apply Hclose..]. destruct (unmarshal_backfill s) as [bi|] eqn:Hs'; [|by apply Hclose].
  prog_cbn. apply Hclose. destruct Hs as (d' & Hd & _). unfold cmd_ok in Hd. rewrite Hv in Hd.
  destruct x as [[[s'| | |] px]|]; try done; [|by destruct Hd]. destruct Hd as [[= <-] _].
  assert (reads (Some (mkEntry (RStr s) px)) (mkBackfillInternal (bi_Backfill bi) (bi_TicketIds bi))) as Hr
    by (exists s, px; split; [done|]; by destruct bi).
  split; [exact Hr|]. destruct Hg as [_ _ [[_ Hk _] _]]. apply Hk, reads_at. by rewrite Hv.
Qed.

(** Storing it with the same generation or the next under the mutex. *)
Lemma cwp_update l x b ids b' tids bs : calm_pend id (l_pend l) -> l_held l = Some x ->
  reads x (mkBackfillInternal (Some b) ids) -> b_Id b' = id -> id ∉ tids ->
  (b_Generation b' = b_Generation b /\ bs = l_bumps l) \/
  (b_Generation b' = wrap64 (b_Generation b + 1) /\ l_bumps l = [] /\ bs = [b_Generation b]) ->
  cwp id l (StoreBackfill.UpdateBackfill cfg b' tids) (fun r l' =>
    calm_pend id (l_pend l') /\ is_Some (l_held l') /\
    match r with
    | Ok _ => l_bumps l' = bs
    | Err _ => l_bumps l' = l_bumps l \/ (sys_faulty = true /\ l_bumps l' = bs)
    end).
Proof using All.
  intros HC Hx Hr Hi Hids Hg. unfold StoreBackfill.UpdateBackfill, isBackfillExpired, with_conn.
  apply (cwp_vis _ Hid); [done..|]. intros _ r _ _ _ _. destruct r as [c|m]; [prog_cbn|cbn; rewrite Hx; by eauto].
  set (C := <[c := []]> (l_pend l)). assert (calm_pend id C) as HC' by (by apply calm_open).
  assert (C !! c = Some []) as Hc by apply lookup_insert_eq.
  assert (forall (q : result unit) x' bs', match q with
      | Ok _ => bs' = bs
      | Err _ => bs' = l_bumps l \/ (sys_faulty = true /\ bs' = bs)
      end -> cwp id (mkLocal (l_deletes l) C (Some x') bs') (Vis (CloseConn c) (fun _ => Ret q))
      (fun r l' => calm_pend id (l_pend l') /\ is_Some (l_held l') /\ match r with
        | Ok _ => l_bumps l' = bs
        | Err _ => l_bumps l' = l_bumps l \/ (sys_faulty = true /\ l_bumps l' = bs)
        end)) as Hclose.
  { intros q x' bs' Hq. apply (cwp_vis _ Hid); [cbn; rewrite Hc; eauto|done|]. intros ? ? ? _ _ _. cbn.
    split; [by apply map_Forall_delete|]. split; [by eexists|]. by destruct q. }
  rewrite Hx. apply (cwp_vis _ Hid); [by left|done|]. intros _ r _ _ _ _. cbn -[cwp].
  destruct r as [[la|]|m]; prog_cbn; [|apply Hclose; auto..].
  apply (cwp_vis _ Hid); [done..|]. intros _ t _ _ _ _. prog_cbn. case_match; prog_cbn; [apply Hclose; auto|].
  destruct (marshal_backfill _) as [value|] eqn:Hm; prog_cbn; [|apply Hclose; auto].
  assert (unmarshal_backfill value = Some (mkBackfillInternal (Some b') tids)) as Hv by (by apply unmarshal_marshal_backfill).
  rewrite Hi. eapply (cwp_set _ Hid); [done..|exact Hr|exact Hv|done|done|exact Hg| |].
  - intros x'. prog_cbn. by apply Hclose.
  - intros Hf m x' bs' Hbs. prog_cbn. apply Hclose. naive_solver.
Qed.

(** A critical section that starts by reading the record. *)
Lemma cwp_section {A} l (step : option Backfill -> list string -> prog (result A)) (P : result A -> list Z -> Prop) :
  l_held l = None -> l_bumps l = [] -> l_pend l = ∅ -> (forall e, P (Err e) []) ->
  (forall x b ids l1, calm_pend id (l_pend l1) -> l_held l1 = Some x -> l_bumps l1 = [] -> got_record x (Ok (b, ids)) ->
     cwp id l1 (step b ids) (fun r l' => is_Some (l_held l') /\ P r (l_bumps l'))) ->
  cwp id l (with_mutex (mutex_Lock cfg id) (mutex_Unlock id) ('(b, ids) ←? StoreBackfill.GetBackfill id; step b ids))
    (fun r l' => P r (l_bumps l')).
Proof using Hid.
  intros Hh Hb Hp HE Hstep. apply cwp_mutex; [done|by rewrite Hb|]. intros x.
  apply cwp_rbind. eapply cwp_mono; [apply (cwp_get _ x); [cbn; rewrite Hp; apply map_Forall_empty|done]|].
  intros r l1 ((_ & Hh1 & Hb1) & HC1 & Hr); cbn in Hh1, Hb1. rewrite Hb in Hb1.
  destruct r as [[b ids]|e]; [by apply (Hstep x)|]. rewrite Hb1, Hh1. split; [by eexists|auto].
Qed.
End Parts.

(** Tracing changes nothing. *)
Lemma New_eq `{Sys} `{Proto} (cfg : View) : New cfg = redisBackend cfg.
Proof. unfold New. by destruct (GetBool cfg _). Qed.

(** ** The calls *)

Inductive caller :=
| MatchUpdate (bf : Backfill) (ticketIds : list string)   (* [createOrUpdateBackfill], of a match *)
| ClientUpdate (bf : Backfill)                            (* [UpdateBackfill] of the frontend *)
| ClientAck (assignment : option Assignment)              (* [AcknowledgeBackfill] of the frontend *)
| ClientDelete                                            (* [DeleteBackfill] of the frontend *)
| SweepDelete                                             (* a cleanup worker, on this id *)
| OtherCall (p : prog (result unit)).

Section Calls.
Context `{Sys} `{ProtoLaws} (cfg : View) (id : string) (Hid : id ∉ reserved) (Hne : id <> "").
Context (Hforeign : forall bi s, marshal_backfill bi = Some s -> foreign id s).
Implicit Types (l : local).

Definition caller_prog (c : caller) : prog (result unit) :=
  match c with
  | MatchUpdate bf tids => r ←! createOrUpdateBackfill (New cfg) bf tids; Ret r.2
  | ClientUpdate bf => _ ←? Frontend.UpdateBackfill (New cfg) (Some (Some bf)); ret_ok tt
  | ClientAck a => _ ←? AcknowledgeBackfill (New cfg) id a; ret_ok tt
  | ClientDelete => DeleteBackfill (New cfg) id
  | SweepDelete => svc_DeleteBackfillCompletely (New cfg) id
  | OtherCall p => p
  end.

(** The update is of this backfill, which is not one of its tickets; a call on
    something else is quiet. *)
Definition caller_ok (c : caller) : Prop :=
  match c with
  | MatchUpdate bf tids => b_Id bf = id /\ id ∉ tids
  | ClientUpdate bf => b_Id bf = id
  | OtherCall p => quiet id ∅ p anyhow
  | _ => True
  end.

Definition is_update (c : caller) : bool := match c with MatchUpdate _ _ | ClientUpdate _ => true | _ => false end.
Definition is_delete (c : caller) : bool := match c with ClientDelete | SweepDelete => true | _ => false end.

(** What a call has replaced, from its answer. *)
Definition replaced (c : caller) (r : result unit) (bumps : list Z) : Prop :=
  if is_update c then
    match r with
    | Ok _ => length bumps = 1%nat
    | Err _ => bumps = [] \/ sys_faulty = true
    end /\
    match c, r with MatchUpdate bf _, Ok _ => bumps = [b_Generation bf] | _, _ => True end
  else bumps = [].

Lemma calm_empty : calm_pend id ∅.
Proof. apply map_Forall_empty. Qed.

(** Under the mutex, quiet things. *)
Lemma cwp_quiet {A} l (p : prog A) P : calm_pend id (l_pend l) -> is_Some (l_held l) -> quiet id (l_pend l) p P ->
  cwp id l p (fun r l' => P r (l_pend l') /\ calm_pend id (l_pend l') /\ l_held l' = l_held l /\ l_bumps l' = l_bumps l).
Proof using Hid.
  intros HC Hh Hq. eapply cwp_mono; [by apply (quiet_cwp _ Hid)|].
  by intros r l' (? & (_ & Hh' & Hb') & ?).
Qed.

(** Reading the record and, unless it is refused, replacing it by its
    successor, then quiet things. [P] is what is promised of the answer. *)
Lemma cwp_replace {A} l (step : Backfill -> list string -> prog (result A)) (P : result A -> list Z -> Prop) :
  l_held l = None -> l_bumps l = [] -> l_pend l = ∅ -> (forall e, P (Err e) []) ->
  (forall b ids, id ∉ ids -> (exists e, step b ids = ret_err e) \/
     exists b' tids rest, step b ids = (_ ←? StoreBackfill.UpdateBackfill cfg b' tids; rest) /\
       (id ∉ tids) /\ b_Id b' = b_Id b /\ b_Generation b' = wrap64 (b_Generation b + 1) /\
       (forall C, quiet id C rest unless_fault) /\ forall r, or_fault r -> P r [b_Generation b]) ->
  cwp id l (with_mutex (mutex_Lock cfg id) (mutex_Unlock id) (
    '(b, ids) ←? StoreBackfill.GetBackfill id;
    match b with
    | None => ret_err EPanic
    | Some b => step b ids
    end)) (fun r l' => P r (l_bumps l')).
Proof using All.
  intros Hh Hb Hp HE Hstep. apply (cwp_section cfg _ Hid); [done..|]. intros x b ids l1 HC1 Hh1 Hb1 (Hr & Hk & Hids).
  assert (forall e, is_Some (l_held l1) /\ P (Err e) (l_bumps l1)) as Herr by (intros e; rewrite Hh1, Hb1; split; [by eexists|auto]).
  destruct b as [b|]; [|apply Herr].
  destruct (Hstep b ids Hids) as [[e ->]|(b' & tids & rest & -> & Ht & Hi & Hg & Hq & HP)]; [apply Herr|]. apply cwp_rbind.
  eapply cwp_mono; [by apply (cwp_update cfg _ Hid _ x b ids b' tids [b_Generation b]); [..|rewrite Hi; apply Hk| |right]|].
  intros [[]|e] l2 (HC2 & Hh2 & Hb2); cbn.
  - eapply cwp_mono; [by apply (cwp_quiet _ _ unless_fault)|]. intros r l' (? & _ & -> & ->). rewrite Hb2. auto.
  - split; [done|]. destruct Hb2 as [->|[Hf ->]]; [rewrite Hb1; auto|]. by eapply HP.
Qed.

Lemma match_cwp bf tids l : b_Id bf = id -> id ∉ tids -> l_held l = None -> l_bumps l = [] -> l_pend l = ∅ ->
  cwp id l (caller_prog (MatchUpdate bf tids)) (fun r l' => replaced (MatchUpdate bf tids) r (l_bumps l')).
Proof using All.
  intros Hi Ht Hh Hb Hp. cbn [caller_prog]. rewrite New_eq. unfold createOrUpdateBackfill. rewrite bool_decide_false by congruence.
  cbn [svc_Lock svc_Unlock svc_GetBackfill svc_UpdateBackfill svc_IndexBackfill redisBackend]. rewrite Hi.
  apply cwp_bind, cwp_bind. eapply cwp_mono; [apply (cwp_replace l _ (replaced (MatchUpdate bf tids))); [done..|cbn; auto|]|by intros r l'].
  intros b ids Hids. case_bool_decide as Hgen; [left; by eexists|]. right.
  eexists _, _, _. split; [reflexivity|]. split; [by rewrite elem_of_app; intros [?|?]|]. split; [done|]. split; [done|].
  split; [intros C; apply quiet_index|]. intros [[]|e] Ho; cbn; [by rewrite Hgen|auto].
Qed.

Lemma client_cwp bf l : b_Id bf = id -> l_held l = None -> l_bumps l = [] -> l_pend l = ∅ ->
  cwp id l (caller_prog (ClientUpdate bf)) (fun r l' => replaced (ClientUpdate bf) r (l_bumps l')).
Proof using All.
  intros Hi Hh Hb Hp. cbn [caller_prog]. rewrite New_eq. unfold Frontend.UpdateBackfill. rewrite Hi, bool_decide_false by done.
  cbn [svc_Lock svc_Unlock svc_GetBackfill svc_UpdateBackfill svc_IndexBackfill svc_DeleteTicketsFromPendingRelease redisBackend].
  apply cwp_rbind. eapply cwp_mono; [apply (cwp_replace l _ (fun r bs => replaced (ClientUpdate bf) (result_bind r (fun _ => Ok tt)) bs))|];
    [done..|cbn; auto| |by intros [r|e] l'].
  intros b ids _. right. eexists _, _, _. split; [reflexivity|]. split; [apply not_elem_of_nil|]. split; [done|]. split; [done|]. split.
  - intros C. eapply quiet_rbind; [apply quiet_unpend| |done]. intros _ C' _.
    eapply quiet_rbind; [apply quiet_index| |done]. by intros _ C2 _.
  - intros [r|e] Ho; cbn; auto.
Qed.

(** Acknowledging keeps the generation. *)
Lemma ack_cwp a l : l_held l = None -> l_bumps l = [] -> l_pend l = ∅ ->
  cwp id l (caller_prog (ClientAck a)) (fun r l' => l_bumps l' = []).
Proof using All.
  intros Hh Hb Hp. cbn [caller_prog]. rewrite New_eq. unfold AcknowledgeBackfill. rewrite bool_decide_false by done.
  destruct a as [a|]; [|done].
  cbn [svc_Lock svc_Unlock svc_GetBackfill svc_UpdateBackfill svc_UpdateAcknowledgmentTimestamp svc_UpdateAssignments redisBackend].
  apply cwp_rbind. eapply cwp_mono; [apply (cwp_section cfg _ Hid l _ (fun _ bs => bs = [])); [done..|]|by intros [r|e] l'].
  intros x b ids l1 HC1 Hh1 Hb1 (Hr & Hk & Hids). apply cwp_rbind.
  eapply cwp_mono; [apply cwp_quiet; [done|by eexists|apply quiet_ack]|]. intros [[]|e] l2 (_ & HC2 & Hh2 & Hb2);
    rewrite Hh1 in Hh2; rewrite Hb1 in Hb2; [|rewrite Hh2; split; [by eexists|done]].
  destruct ids as [|i ids]; [cbn; rewrite Hh2; split; [by eexists|done]|]. apply cwp_rbind.
  eapply cwp_mono; [apply cwp_quiet; [done|by eexists|apply quiet_assign; [exact _|unfold group_ids; cbn -[not]; by rewrite app_nil_r]]|].
  intros [[resp ts]|e] l3 (_ & HC3 & Hh3 & Hb3); rewrite Hh2 in Hh3; rewrite Hb2 in Hb3; [|rewrite Hh3; split; [by eexists|done]].
  apply cwp_bind. eapply cwp_mono; [apply cwp_quiet; [done|by eexists|apply quiet_deindex_all]|].
  intros _ l4 (_ & HC4 & Hh4 & Hb4). rewrite Hh3 in Hh4. rewrite Hb3 in Hb4. apply cwp_rbind. destruct b as [b|].
  - eapply cwp_mono; [apply (cwp_update cfg _ Hid _ x b (i :: ids) b [] []); [done..|by apply Hk|apply not_elem_of_nil|by left]|].
    intros [[]|e] l5 (HC5 & Hh5 & Hb5); cbn; [done|]. split; [done|]. destruct Hb5 as [->|[_ ->]]; done.
  - eapply cwp_mono; [apply cwp_quiet; [done|by eexists|apply quiet_update_other; [exact Hforeign|done|by apply not_reserved_empty]]|].
    intros [[]|e] l5 (_ & HC5 & Hh5 & Hb5); rewrite Hh4 in Hh5; cbn; rewrite Hh5, Hb5; (split; [by eexists|done]).
Qed.

(** The record's own deletion. *)
Lemma delete_record l : calm_pend id (l_pend l) -> is_Some (l_held l) -> l_deletes l = true ->
  cwp id l (StoreBackfill.DeleteBackfill id) (fun _ l' => is_Some (l_held l') /\ l_bumps l' = l_bumps l).
Proof using Hid.
  intros HC Hh Hd. unfold StoreBackfill.DeleteBackfill, deleteExpiredBackfillID, with_conn.
  apply (cwp_vis _ Hid); [done..|]. intros _ r _ _ _ _. destruct r as [c|m]; [prog_cbn|done].
  set (C := <[c := []]> (l_pend l)). assert (calm_pend id C) as HC' by (by apply calm_open).
  assert (C !! c = Some []) as Hc by apply lookup_insert_eq.
  apply (cwp_del _ Hid); [done..|]. intros r x. cbn [l_deletes l_pend l_bumps].
  eapply cwp_mono; [apply (quiet_cwp _ Hid _ _ anyhow); [|done]|].
  - cbn [l_pend]. unfold C. destruct r as [n|m]; [destruct (n =? 0)|]; quiet_walk; done.
  - intros r' l' (_ & (_ & Hh' & Hb') & _). rewrite Hh', Hb'. split; [by eexists|done].
Qed.

(** Deleting completely. *)
Lemma delete_cwp l : l_deletes l = true -> l_held l = None -> l_bumps l = [] -> l_pend l = ∅ ->
  cwp id l (DeleteBackfillCompletely cfg id) (fun r l' => l_bumps l' = []).
Proof using Hid.
  intros Hd Hh Hb Hp. unfold DeleteBackfillCompletely.
  apply (cwp_mutex _ cfg l _ (fun _ bs => bs = [])); [done|done|]. intros x. rewrite Hp, Hb.
  apply cwp_rbind. eapply cwp_mono; [apply (quiet_cwp _ Hid); [apply quiet_deindex|apply calm_empty]|].
  intros [[]|e] l1 (_ & (Hd1 & Hh1 & Hb1) & HC1); cbn in Hd1, Hh1, Hb1; [|by rewrite Hh1].
  apply cwp_bind. eapply cwp_mono; [apply (quiet_cwp _ Hid); [apply quiet_get|done]|].
  intros got l2 (_ & (Hd2 & Hh2 & Hb2) & HC2).
  apply cwp_bind. eapply cwp_mono; [apply (quiet_cwp _ Hid); [apply quiet_unpend|done]|].
  intros r l3 (_ & (Hd3 & Hh3 & Hb3) & HC3).
  apply cwp_bind. eapply cwp_mono; [apply (delete_record l3)|]; [done|by rewrite Hh3, Hh2, Hh1; eexists|congruence|].
  intros _ l4 [Hh4 Hb4]. split; [done|congruence].
Qed.

(** A call that starts. *)
Lemma caller_cwp c : caller_ok c -> cwp id (idle (is_delete c)) (caller_prog c) (fun r l' => replaced c r (l_bumps l')).
Proof using All.
  intros Hc. destruct c as [bf tids|bf|a| | |p]; cbn [caller_ok is_delete] in *.
  - destruct Hc. by apply match_cwp.
  - by apply client_cwp.
  - by apply ack_cwp.
  - cbn [caller_prog]. rewrite New_eq. unfold DeleteBackfill. rewrite bool_decide_false by done.
    apply cwp_bind. eapply cwp_mono; [by apply delete_cwp|]. intros r l' Hb. exact Hb.
  - cbn [caller_prog]. rewrite New_eq. by apply delete_cwp.
  - eapply cwp_mono; [apply (quiet_cwp _ Hid); [exact Hc|apply calm_empty]|]. by intros r l' (_ & (_ & _ & Hb) & _).
Qed.
End Calls.

(** ** Side by side *)

Definition succeeded {A} (p : prog (result A)) : bool := match p with Ret (Ok _) => true | _ => false end.

(** The generations that matches were accepted for, and the updates done. *)
Definition accepted (x : caller * prog (result unit)) : option Z :=
  match x.1 with MatchUpdate bf _ => if succeeded x.2 then Some (b_Generation bf) else None | _ => None end.
Definition updated (x : caller * prog (result unit)) : bool := is_update x.1 && succeeded x.2.

Section Race.
Context `{EnvironmentLaws} `{ProtoLaws} (cfg : View) (id : string).
Implicit Types (ls : list local) (cs : list caller).

(** The answers account for what was replaced. *)
Lemma accounts cs (ps : list (prog (result unit))) ls : length ls = length cs -> length ps = length cs ->
  (forall i c p l, cs !! i = Some c -> ps !! i = Some p -> ls !! i = Some l ->
     match p with Ret r => replaced c r (l_bumps l) | _ => True end) ->
  omap accepted (zip cs ps) `sublist_of` all_bumps ls /\
  (length (filter updated (zip cs ps)) <= length (all_bumps ls))%nat /\
  (sys_faulty = false -> Forall ended ps -> length (all_bumps ls) = length (filter updated (zip cs ps))).
Proof.
  revert ps ls. induction cs as [|c cs IH]; intros [|p ps] [|l ls] Hl Hp Hr; try done.
  destruct (IH ps ls ltac:(by injection Hl) ltac:(by injection Hp) (fun i => Hr (S i))) as (Hs & Hu & He).
  specialize (Hr 0%nat c p l eq_refl eq_refl eq_refl). unfold all_bumps in *. cbn [zip zip_with omap list_omap fmap list_fmap concat].
  rewrite filter_cons, !length_app.
  assert (match accepted (c, p) with Some g => l_bumps l = [g] | None => True end /\
    ((if updated (c, p) then 1 else 0) <= length (l_bumps l))%nat /\
    (sys_faulty = false -> ended p -> length (l_bumps l) = if updated (c, p) then 1%nat else 0%nat)) as (Ha & Hb & Hc).
  { unfold accepted, updated, replaced in *. cbn. destruct p as [[[]|e]|e k]; cbn in *.
    - destruct c; cbn in *; try (by rewrite Hr); destruct Hr as [Hr1 Hr2]; repeat split; try done; lia.
    - destruct c; cbn in *; try (by rewrite Hr); destruct Hr as [[->|Hf] _]; repeat split; try done; try lia; congruence.
    - destruct c; cbn; repeat split; try done; lia. }
  split; [|split].
  - destruct (accepted (c, p)) as [g|]; [rewrite Ha; by apply sublist_skip|]. by apply sublist_inserts_l.
  - destruct (updated (c, p)); cbn in *; case_decide; try done; cbn; lia.
  - intros Hf He'. apply Forall_cons in He' as [He1 He2]. rewrite (He Hf He2), (Hc Hf He1).
    destruct (updated (c, p)); cbn; case_decide; done.
Qed.

(** C2. Any number of matches, clients and sweeps may call for one backfill at
    the same time, and others for other things, as long as none is still
    between taking the backfill's mutex and giving it back when Redis gives the
    mutex up ([in_time]); whatever the order in which their commands reach
    Redis, even if some are lost: no generation of the backfill is accepted for
    two matches, none is accepted that is not older than what is stored, the
    generation moves on with every update that succeeds, and, when nothing
    failed and all are over, it has moved on by exactly their number. Unless
    some call deletes it the backfill is there. *)
Theorem updates_serialize sched cs w ps w' g0 (Hid : id ∉ reserved) (Hne : id <> "") (Hok : record_ok id (env_view w))
  (Hforeign : forall bi s, marshal_backfill bi = Some s -> foreign id s)
  (Hg : generation_at id (v_db (env_view w)) = Some g0) (Hpos : 0 <= g0) (Hmax : g0 + Z.of_nat (length cs) < 2 ^ 63)
  (Hcs : Forall (caller_ok id) cs) (Hrun : prun sched (caller_prog cfg id <$> cs) w = (ps, w'))
  (Htime : in_time id sched (caller_prog cfg id <$> cs) w ∅ = true) :
  let winners := omap accepted (zip cs ps) in
  let successes := Z.of_nat (length (filter updated (zip cs ps))) in
  NoDup winners /\
  (forall g, generation_at id (v_db (env_view w')) = Some g ->
     (forall g1, g1 ∈ winners -> g0 <= g1 < g) /\ g0 + successes <= g /\
     (sys_faulty = false -> Forall ended ps -> g = g0 + successes)) /\
  (Forall (fun c => is_delete c = false) cs -> is_Some (generation_at id (v_db (env_view w')))).
Proof.
  set (Q := fun i (r : result unit) l => match cs !! i with Some c => replaced c r (l_bumps l) | None => True end).
  assert (pool_inv id g0 (is_delete <$> cs) Q (caller_prog cfg id <$> cs) (idle <$> (is_delete <$> cs)) ∅ w) as Hinv.
  { apply pool_start; [done|done|by rewrite !length_fmap|]. intros i p d. rewrite !list_lookup_fmap.
    intros (c & Hc & ->)%fmap_Some (c' & Hc' & ->)%fmap_Some. simplify_eq. unfold Q.
    eapply cwp_mono; [apply caller_cwp; [done..|by eapply Forall_lookup_1]|]. intros r l. by rewrite Hc. }
  assert (length ps = length cs) as Hlen by (by rewrite <- (prun_length _ _ _ _ _ Hrun), length_fmap).
  destruct (prun_sound id g0 (is_delete <$> cs) Q Hpos sched (caller_prog cfg id <$> cs) _ ∅ w ps w'
    ltac:(by rewrite length_fmap) Hinv Htime Hrun) as (ls & ins & Hinv').
  destruct Hinv' as [Hll Hds Hc _ _ _ _ _ Hb Hgen Halive].
  destruct (accounts cs ps ls) as (Hsub & Hu & He); [congruence|done| |].
  { intros i c p l Hi Hp Hl. specialize (Hc i p l Hp Hl). destruct p; [|done]. cbn in Hc. unfold Q in Hc. by rewrite Hi in Hc. }
  assert (NoDup (all_bumps ls)) as Hn by (rewrite Hb; apply NoDup_seqZ).
  split; [by eapply sublist_NoDup|]. split.
  - intros g Hg'. pose proof (Hgen g Hg') as Heq. split; [|split; [lia|]].
    + intros g1 Hg1. assert (g1 ∈ all_bumps ls) as Hin by (by eapply sublist_subseteq).
      rewrite Hb, elem_of_seqZ in Hin. lia.
    + intros Hf Hend. rewrite (He Hf Hend) in Heq. lia.
  - intros Hd. apply Halive. intros (c & Hc1 & Hin)%list_elem_of_fmap. rewrite Forall_forall in Hd. apply Hd in Hin. congruence.
Qed.
End Race.

(** ** A run *)

Definition mem_redis : Service := redisBackend mem_cfg.

(** A backfill created by a client, at generation 1. *)
Definition race_world : env_state :=
  after (Frontend.CreateBackfill (New mem_cfg) (Some (Some (mkBackfill "" None ∅ ∅ None 0)))) mem_init.

Definition race_match (ticket : string) : caller := MatchUpdate (mkBackfill "0" None ∅ ∅ None 1) [ticket].

(** Two matches for that generation, a client that creates a ticket, one that
    updates the backfill and one that acknowledges it. *)
Definition race_calls : list caller :=
  [race_match "t1"; race_match "t2"; OtherCall (_ ←? Frontend.CreateTicket mem_redis (Some (mkTicket "" None None ∅ ∅ None)); ret_ok tt);
   ClientUpdate (mkBackfill "0" None ∅ ∅ None 0); ClientAck (Some (mkAssignment "10.0.0.1:80" ∅))].

(** The ticket is created while the first match holds the mutex, the second
    match comes after it, then the other clients. *)
Definition race_sched : list nat :=
  ([2; 0; 2] ++ concat (replicate 12 [0; 2]) ++ replicate 9 0 ++ replicate 30 1 ++ replicate 30 3 ++ replicate 60 4)%nat.

Definition race_end : list (prog (result unit)) * env_state :=
  prun race_sched (caller_prog mem_cfg "0" <$> race_calls) race_world.

(** In memory a backfill never reads as a ticket. *)
Lemma mem_foreign id bi s : marshal_backfill bi = Some s -> foreign id s.
Proof. by intros [= <-] t. Qed.

(** Nothing but the record is a string. *)
Definition only_string (id : string) (d : db) : bool :=
  forallb (fun '(k, x) => bool_decide (k = id) || match e_val x with RStr _ => false | _ => true end) (map_to_list d).

Lemma only_string_at id d k s : only_string id d = true -> get_str d k = Some s -> k = id.
Proof.
  unfold only_string, get_str. rewrite forallb_forall. intros Hall Hs. destruct (d !! k) as [x|] eqn:Hx; [|done].
  apply elem_of_map_to_list, list_elem_of_In, Hall in Hx. destruct x as [[] px]; try done.
  by apply orb_true_iff in Hx as [Hx%bool_decide_eq_true|].
Qed.

Lemma race_ok : record_ok "0" (env_view race_world).
Proof.
  split; [|concrete]. split.
  - concrete.
  - intros b ids. vm_compute. intros [= <- <-]. split; [by intros b [= <-]|apply not_elem_of_nil].
  - intros k s Hk Hs. destruct Hk. apply (only_string_at "0" (v_db (env_view race_world)) k s); [vm_compute; reflexivity|exact Hs].
Qed.

Lemma race_calls_ok : Forall (caller_ok "0") race_calls.
Proof.
  constructor; [split; [reflexivity|concrete]|]. constructor; [split; [reflexivity|concrete]|].
  constructor; [exact (quiet_create_ticket mem_cfg "0" _ _)|]. constructor; [reflexivity|]. by constructor; [|constructor].
Qed.

Lemma updates_serialize_witness :
  omap accepted (zip race_calls race_end.1) = [1] /\ succeeded <$> race_end.1 = [true; false; true; true; true] /\
  NoDup (omap accepted (zip race_calls race_end.1)) /\ generation_at "0" (v_db (env_view race_end.2)) = Some 3.
Proof.
  split; [vm_compute; reflexivity|]. split; [vm_compute; reflexivity|]. split; [|vm_compute; reflexivity].
  apply (updates_serialize mem_cfg "0" race_sched race_calls race_world race_end.1 race_end.2 1 ltac:(concrete)
    ltac:(discriminate) race_ok (mem_foreign "0") ltac:(vm_compute; reflexivity) ltac:(discriminate) ltac:(vm_compute; reflexivity)
    race_calls_ok (surjective_pairing _) ltac:(vm_compute; reflexivity)).
Defined.

(** Redis gives the mutex up after [backfillLockTimeout]; the write that
    follows the check of the generation is not refused then. If the first match
    is held up that long between the two, both matches for generation 1 are
    accepted, and the tickets of the second are lost from the record. (The
    timeout must be less than the four fifths of [pendingReleaseTimeout] after
    which the backfill itself has expired.) *)
Definition short_lock_cfg : View := {|
  IsSet _ := false;
  GetString _ := "";
  GetInt _ := 0;
  GetInt64 _ := 0;
  GetFloat64 _ := S754_nan;
  GetStringSlice _ := [];
  GetBool _ := false;
  GetDuration k := if bool_decide (k = "backfillLockTimeout") then time_Second else time_Minute;
|}.

Definition later (d : Z) (w : env_state) : env_state := mkMem (m_db w) (m_pend w) (m_now w + d) (m_ids w) (m_locks w).

Definition slow_start : list (prog (result unit)) * env_state :=
  prun (replicate 3 0%nat) (caller_prog short_lock_cfg "0" <$> [race_match "t1"; race_match "t2"]) race_world.

Definition slow_end (delay : Z) : list (prog (result unit)) * env_state :=
  let '(ps, w) := prun (replicate 30 1%nat) slow_start.1 (later delay slow_start.2) in
  prun (replicate 30 0%nat) ps w.

Lemma expired_mutex_accepts_twice :
  let '(ps, w) := slow_end time_Second in
  omap accepted (zip [race_match "t1"; race_match "t2"] ps) = [1; 1] /\
  bi_TicketIds <$> backfill_at (v_db (env_view w)) "0" = Some ["t1"].
Proof. vm_compute. split; reflexivity. Qed.

(** Held up for less, the first is the only one. *)
Lemma live_mutex_accepts_once :
  let '(ps, w) := slow_end (time_Second - time_Millisecond) in
  omap accepted (zip [race_match "t1"; race_match "t2"] ps) = [1] /\
  bi_TicketIds <$> backfill_at (v_db (env_view w)) "0" = Some ["t1"].
Proof. vm_compute. split; reflexivity. Qed.
