(* ===== verification/BackendProps.v ===== *)
(** * What the backend guarantees *)
From S2P Require Export StoreCalls FrontendProps Backend.

(** ** The backfill of a match *)
Section MatchBackfill.
Context `{EnvironmentLaws} `{ProtoLaws} (cfg : View) (store : Service) `{!ServiceSpec cfg store}.
Implicit Types (w : env_state) (v : view).

(** What an accepted match makes of the stored backfill. *)
Definition matched_backfill (stored bf : Backfill) : Backfill :=
  mkBackfill (b_Id stored) (b_SearchFields bf) (b_Extensions bf) (b_PersistentField stored)
    (b_CreateTime stored) (wrap64 (b_Generation stored + 1)).

Lemma wp_update_existing bf tids stored ids v Q :
  sys_faulty = false -> typed (v_db v) -> b_Id bf <> "" -> b_Id bf ∉ reserved ->
  lock_free v (mutex_name (b_Id bf)) (v_now v) ->
  backfill_at (v_db v) (b_Id bf) = Some (mkBackfillInternal (Some stored) ids) -> b_Id stored = b_Id bf ->
  (forall b, is_Some (marshal_backfill (mkBackfillInternal (Some b) (ids ++ tids)))) ->
  (b_Generation stored <> b_Generation bf -> forall t, v_now v <= t ->
     Q (bf, Err errBackfillGenerationMismatch) (released (b_Id bf) v (v_db v) t)) ->
  (b_Generation stored = b_Generation bf -> forall enc t,
     let b' := matched_backfill stored bf in
     marshal_backfill (mkBackfillInternal (Some b') (ids ++ tids)) = Some enc -> v_now v <= t ->
     alive cfg (v_db v) (b_Id bf) t ->
     Q (bf, Ok tt) (released (b_Id bf) v (put_bindex (put_str (v_db v) (b_Id bf) enc None)
                     (<[b_Id bf := itoa (b_Generation b')]> (bindex (v_db v)))) t)) ->
  (b_Generation stored = b_Generation bf -> forall e t, v_now v <= t ->
     (forall t', v_now v <= t' -> t <= t' -> ~ alive cfg (v_db v) (b_Id bf) t') ->
     status_of e = Some Internal \/ status_of e = Some Unavailable ->
     Q (bf, Err e) (released (b_Id bf) v (v_db v) t)) ->
  wp (createOrUpdateBackfill store bf tids) v Q.
Proof.
  intros Hf Ht Hne Hres Hlock Hat Hid Hm Hmis Hok Hdead. unfold createOrUpdateBackfill.
  rewrite bool_decide_false by done. apply wp_bind.
  eapply (call_with_mutex cfg); [apply _|done|by intros|intros tok t0 Hlt0].
  call (call_GetBackfill cfg); [|intros e Hn _; cbn in Hn; congruence].
  intros b0 ids0 Hb. cbn in Hb. rewrite Hat in Hb. injection Hb as <- <-. cbn beta iota.
  case_bool_decide as Hg.
  { apply wp_ret, wp_ret. rewrite (unlocked_left cfg _ tok t0 v) by done. by apply (Hmis Hg t0). }
  change (set_bf_generation _ _) with (matched_backfill stored bf).
  destruct (Hm (matched_backfill stored bf)) as [enc Henc].
  assert (b_Id (matched_backfill stored bf) = b_Id bf) as Hid' by exact Hid.
  call (call_UpdateBackfill cfg); [done|exact Henc| |]; rewrite Hid'.
  - intros t Hnow Hal. cbn in Hnow, Hal.
    eapply (call_IndexBackfill cfg); [apply _|done|cbn; by apply typed_put_str|].
    apply wp_ret. rewrite (unlocked_left cfg _ tok t0 v) by done. cbn -[put_str released mutex_name set_locks].
    rewrite Hid, bindex_put_str by done. apply (Hok Hg enc t Henc); [lia|done].
  - intros e v' [(He & Hn & ->)|(He & t & la & Hnow & Hla & Hlt & ->)]; cbn in *; apply wp_ret.
    + rewrite (unlocked_left cfg _ tok t0 v) by done. apply (Hdead Hg e t0); [done| |by left].
      intros t' _ _ (la & Hla & _). cbn in Hla. congruence.
    + rewrite (unlocked_left cfg _ tok t0 v) by done. apply (Hdead Hg e t); [lia| |by right].
      intros t' _ Ht' (la' & Hla' & Hle). assert (la' = la) as -> by congruence. lia.
Qed.

(** C10. A match cannot overwrite a backfill that changed under it: with the
    backfill stored and its mutex free, an accepted match whose copy has
    another generation is refused with the generation-mismatch error and
    nothing changes; with the same generation either the stored backfill
    takes the match's search fields and extensions, the match's tickets
    added to its own and the next generation, which the index then has, or
    it had expired and nothing is written. The mutex is free afterwards. *)
Theorem match_backfill_update bf tids stored ids w bf' r w' :
  sys_faulty = false -> typed (db_of w) -> b_Id bf <> "" -> b_Id bf ∉ reserved ->
  lock_free (env_view w) (mutex_name (b_Id bf)) (clock w) ->
  backfill_at (db_of w) (b_Id bf) = Some (mkBackfillInternal (Some stored) ids) -> b_Id stored = b_Id bf ->
  (forall b, is_Some (marshal_backfill (mkBackfillInternal (Some b) (ids ++ tids)))) ->
  run (createOrUpdateBackfill store bf tids) w = ((bf', r), w') ->
  bf' = bf /\ locks w' = delete (mutex_name (b_Id bf)) (locks w) /\
  (b_Generation stored <> b_Generation bf -> r = Err errBackfillGenerationMismatch /\ db_of w' = db_of w) /\
  (b_Generation stored = b_Generation bf ->
     (r = Ok tt /\ backfill_at (db_of w') (b_Id bf) =
        Some (mkBackfillInternal (Some (matched_backfill stored bf)) (ids ++ tids)) /\
      bindex (db_of w') = <[b_Id bf := itoa (wrap64 (b_Generation bf + 1))]> (bindex (db_of w)) /\
      acks (db_of w') = acks (db_of w)) \/
     (is_ok r = false /\ db_of w' = db_of w /\ ~ alive cfg (db_of w) (b_Id bf) (clock w'))).
Proof.
  intros Hf Ht Hne Hres Hlock Hat Hid Hm Hrun.
  remember (bf', r) as x eqn:Hx. replace bf' with x.1 by by subst x. replace r with x.2 by (by subst x). clear Hx.
  run_start Hrun. eapply wp_update_existing; [done..| | |].
  - intros Hg t Hle. split; [done|]. split; [done|]. by split.
  - intros Hg enc t b' Henc Hnow Hal. cbn -[put_str put_bindex matched_backfill].
    split; [done|]. split; [done|]. split; [done|]. intros _. left. split; [done|].
    split; [|split; [by rewrite bindex_put_bindex, <- Hg|by rewrite acks_put_bindex, acks_put_str]].
    erewrite (backfill_at_ext _ (put_str (db_of w) (b_Id bf) enc None)); [|by apply lookup_put_bindex].
    rewrite backfill_at_put_str. by apply unmarshal_marshal_backfill.
  - intros Hg e t Hnow Hal He. cbn. split; [done|]. split; [done|]. split; [done|]. intros _. right.
    split; [done|]. split; [done|]. apply Hal; lia.
Qed.

(** Of two matches built on the same generation of a backfill only one
    wins: once an update has succeeded, the other is refused with the
    generation-mismatch error and changes nothing, also when the 64-bit
    generation wraps around. *)
Theorem match_backfill_one_winner bf tids bf2 tids2 stored ids w x w1 y w2 :
  sys_faulty = false -> typed (db_of w) -> b_Id bf <> "" -> b_Id bf ∉ reserved ->
  lock_free (env_view w) (mutex_name (b_Id bf)) (clock w) ->
  backfill_at (db_of w) (b_Id bf) = Some (mkBackfillInternal (Some stored) ids) -> b_Id stored = b_Id bf ->
  (forall b l, is_Some (marshal_backfill (mkBackfillInternal (Some b) l))) ->
  b_Id bf2 = b_Id bf -> b_Generation bf2 = b_Generation bf ->
  run (createOrUpdateBackfill store bf tids) w = ((x, Ok tt), w1) ->
  run (createOrUpdateBackfill store bf2 tids2) w1 = (y, w2) ->
  y.2 = Err errBackfillGenerationMismatch /\ db_of w2 = db_of w1 /\ locks w2 = locks w1.
Proof.
  intros Hf Ht Hne Hres Hlock Hat Hid Hm Hid2 Hgen2 Hrun Hrun2.
  assert (typed (db_of w1) /\ locks w1 = delete (mutex_name (b_Id bf)) (locks w) /\
    backfill_at (db_of w1) (b_Id bf) = Some (mkBackfillInternal (Some (matched_backfill stored bf)) (ids ++ tids)) /\
    b_Generation stored = b_Generation bf) as (Ht1 & Hl1 & Hat1 & Hg).
  { remember (x, Ok tt) as out eqn:Hout. assert (out.2 = Ok tt) as Hok by by subst out. clear Hout.
    revert Hok. run_start Hrun. eapply wp_update_existing; [done..|done| |].
    - intros Hg enc t b' Henc Hnow Hal _. cbn -[put_str put_bindex matched_backfill].
      split; [apply typed_put_bindex; by apply typed_put_str|]. split; [done|]. split; [|done].
      erewrite (backfill_at_ext _ (put_str (db_of w) (b_Id bf) enc None)); [|by apply lookup_put_bindex].
      rewrite backfill_at_put_str. by apply unmarshal_marshal_backfill.
    - done. }
  assert (b_Generation (matched_backfill stored bf) <> b_Generation bf2) as Hbad.
  { rewrite Hgen2, <- Hg. apply wrap64_succ_ne. }
  run_start Hrun2.
  apply (wp_update_existing bf2 tids2 (matched_backfill stored bf) (ids ++ tids)); try (rewrite ?Hid2; done).
  - rewrite Hid2. unfold lock_free. by rewrite Hl1, lookup_delete_eq.
  - intros _ t Hle. rewrite Hid2. split; [done|]. split; [done|]. cbn -[mutex_name]. by rewrite Hl1, delete_delete_eq.
Qed.
End MatchBackfill.

(** ** FetchMatches *)
Section Fetch.
Context `{EnvironmentLaws} `{ProtoLaws} (store : Service).
Implicit Types (v : view) (s : fetch_state).

(** The match the caller may get for a proposal: only its backfill may
    have been completed. *)
Definition same_match (p m : Match) : Prop := exists b, m = set_match_backfill b p.

Lemma same_match_refl p : same_match p p.
Proof. exists (m_Backfill p). by destruct p. Qed.

Lemma same_match_set p m b : same_match p m -> same_match p (set_match_backfill b m).
Proof. intros [b' ->]. by exists b. Qed.

Lemma same_match_id p m : same_match p m -> m_MatchId m = m_MatchId p.
Proof. by intros [b ->]. Qed.

Lemma same_match_tickets p m : same_match p m -> m_Tickets m = m_Tickets p.
Proof. by intros [b ->]. Qed.

Lemma same_match_reset p m b : same_match p m -> same_match (set_match_backfill b p) m.
Proof. intros [b' ->]. by exists b'. Qed.

(** The events that were handled before a state. *)
Record fetched (evs : list fetch_event) (s : fetch_state) : Prop := {
  fetched_m id m : f_m s !! id = Some m -> m_MatchId m = id /\
    exists p e, FromMmf (Proposal p e) ∈ evs /\ same_match p m;
  fetched_synced p : p ∈ f_synced s -> exists m, f_m s !! m_MatchId p = Some m /\ same_match p m;
  fetched_distinct : NoDup (m_MatchId <$> f_synced s);
  fetched_streamed m : m ∈ f_streamed s ->
    (exists p e, FromMmf (Proposal p e) ∈ evs /\ same_match p m) /\
    (exists x, f_m s !! m_MatchId m = Some x /\ same_match x m) /\
    exists resp e, FromSynchronizer (Response resp e) ∈ evs /\ sr_MatchId resp = m_MatchId m;
  fetched_signals : (f_startMmfs s = true ->
      exists resp e, FromSynchronizer (Response resp e) ∈ evs /\ sr_StartMmfs resp = true) /\
    (f_cancelMmfs s = true ->
      exists resp e, FromSynchronizer (Response resp e) ∈ evs /\ sr_CancelMmfs resp = true);
}.

Lemma fetched_more evs evs' s : fetched evs s -> fetched (evs ++ evs') s.
Proof.
  intros [Hm Hs Hd Hst [Ha Hc]].
  assert (forall ev, ev ∈ evs -> ev ∈ evs ++ evs') as Hin by (intros; rewrite elem_of_app; by left).
  split; [..|split]; [|done|done| | |].
  - intros id m Hl. destruct (Hm id m Hl) as (? & p & e & ? & ?). split; [done|]. exists p, e. auto.
  - intros m Hl. destruct (Hst m Hl) as ((p & e & ? & ?) & ? & (r & e' & ? & ?)).
    split; [exists p, e; auto|]. split; [done|exists r, e'; auto].
  - intros Hl. destruct (Ha Hl) as (r & e & ? & ?). exists r, e. auto.
  - intros Hl. destruct (Hc Hl) as (r & e & ? & ?). exists r, e. auto.
Qed.

(** Only the error and the loops' ends differ. *)
Lemma fetched_ext evs s s' : fetched evs s ->
  f_m s' = f_m s -> f_synced s' = f_synced s -> f_streamed s' = f_streamed s ->
  f_startMmfs s' = f_startMmfs s -> f_cancelMmfs s' = f_cancelMmfs s -> fetched evs s'.
Proof. intros [] Hm Hs Hst Ha Hc. split; rewrite ?Hm, ?Hs, ?Hst, ?Ha, ?Hc; done. Qed.

Lemma fetched_send evs s ev : fetched evs s -> fetched (evs ++ [FromMmf ev]) (synchronizeSend s ev).
Proof.
  intros Hs%(fetched_more _ [FromMmf ev]). destruct ev as [p send_err|[m|]]; cbn;
    [|by eapply fetched_ext..].
  destruct (f_m s !! m_MatchId p) eqn:Hp; [by eapply fetched_ext|].
  assert (FromMmf (Proposal p send_err) ∈ evs ++ [FromMmf (Proposal p send_err)]) as Hin by set_solver.
  destruct Hs as [Hm Hsy Hd Hst Hsig].
  assert (forall id m, <[m_MatchId p := p]> (f_m s) !! id = Some m -> m_MatchId m = id /\
    exists q e, FromMmf (Proposal q e) ∈ evs ++ [FromMmf (Proposal p send_err)] /\ same_match q m) as Hm'.
  { intros id m [[<- <-]|[_ ?]]%lookup_insert_Some; [|by apply Hm]. split; [done|].
    eauto using same_match_refl. }
  assert (forall q, q ∈ f_synced s -> exists m, <[m_MatchId p := p]> (f_m s) !! m_MatchId q = Some m /\ same_match q m) as Hsy'.
  { intros q (m & Hq & ?)%Hsy. exists m. rewrite lookup_insert_ne by congruence. done. }
  assert (forall m, m ∈ f_streamed s ->
    (exists q e, FromMmf (Proposal q e) ∈ evs ++ [FromMmf (Proposal p send_err)] /\ same_match q m) /\
    (exists x, <[m_MatchId p := p]> (f_m s) !! m_MatchId m = Some x /\ same_match x m) /\
    exists resp e, FromSynchronizer (Response resp e) ∈ evs ++ [FromMmf (Proposal p send_err)] /\ sr_MatchId resp = m_MatchId m)
    as Hst'.
  { intros m (? & (x & Hx & ?) & ?)%Hst. split; [done|]. split; [|done]. exists x.
    rewrite lookup_insert_ne by congruence. done. }
  destruct send_err as [m|]; cbn; split; cbn; try done.
  - intros q [Hq| ->%list_elem_of_singleton]%elem_of_app; [by apply Hsy'|]. rewrite lookup_insert_eq.
    eauto using same_match_refl.
  - rewrite fmap_app. apply NoDup_app. split; [done|]. split; [|apply NoDup_singleton].
    intros id (q & -> & Hq)%list_elem_of_fmap. cbn. rewrite list_elem_of_singleton. intros Heq.
    destruct (Hsy q Hq) as (x & Hx & _). congruence.
Qed.

Lemma fetched_set_backfill evs s id m b : fetched evs s -> f_m s !! id = Some m ->
  fetched evs (mkFetchState (<[m_MatchId (set_match_backfill b m) := set_match_backfill b m]> (f_m s)) (f_synced s)
                 (f_streamed s) (f_startMmfs s) (f_cancelMmfs s) (f_sendDone s) (f_recvDone s) (f_syncErr s)).
Proof.
  intros [] Hid. split; cbn; try done.
  - intros id' m' [[<- <-]|[_ ?]]%lookup_insert_Some; [|by apply fetched_m0]. split; [done|].
    destruct (fetched_m0 _ _ Hid) as (_ & p & e & ? & ?). eauto using same_match_set.
  - intros p (x & Hx & Hp)%fetched_synced0. destruct (decide (m_MatchId m = m_MatchId p)) as [Heq|Hne].
    + rewrite Heq, lookup_insert_eq. assert (x = m) as -> by (destruct (fetched_m0 _ _ Hid); congruence).
      eauto using same_match_set.
    + rewrite lookup_insert_ne by done. eauto.
  - intros m' (? & (x & Hx & Hm) & ?)%fetched_streamed0. split; [done|]. split; [|done].
    destruct (decide (m_MatchId m = m_MatchId m')) as [Heq|Hne].
    + rewrite Heq, lookup_insert_eq. assert (x = m) as -> by (destruct (fetched_m0 _ _ Hid); congruence).
      eauto using same_match_reset.
    + rewrite lookup_insert_ne by done. eauto.
Qed.

Lemma fetched_stream evs s m err : fetched evs s -> f_m s !! m_MatchId m = Some m ->
  (exists resp e, FromSynchronizer (Response resp e) ∈ evs /\ sr_MatchId resp = m_MatchId m) ->
  fetched evs (stream_match m err s).
Proof.
  intros Hs Hm Hr. destruct err; cbn; [by eapply fetched_ext|]. destruct Hs. split; cbn; try done.
  intros m' [?| ->%list_elem_of_singleton]%elem_of_app; [auto|]. split; [by destruct (fetched_m0 _ _ Hm)|].
  split; [|done]. eauto using same_match_refl.
Qed.

Lemma fetched_recv evs s ev v : fetched evs s ->
  wp (synchronizeRecv store s ev) v (fun s' _ => fetched (evs ++ [FromSynchronizer ev]) s').
Proof.
  intros Hs%(fetched_more _ [FromSynchronizer ev]).
  destruct ev as [resp err| |]; cbn; [|by eapply fetched_ext..].
  set (s1 := mkFetchState _ _ _ (_ || _) _ _ _ _). set (evs' := evs ++ _) in *.
  assert (FromSynchronizer (Response resp err) ∈ evs') as Hin by set_solver.
  assert (fetched evs' s1) as Hs1.
  { destruct Hs as [? ? ? ? [Ha Hc]]. split; cbn; try done. split; intros [?|?]%orb_true_iff; eauto. }
  change (f_m s) with (f_m s1). destruct (f_m s1 !! sr_MatchId resp) as [m|] eqn:Hm; [|done].
  destruct (fetched_m _ _ Hs1 _ _ Hm) as [Hid _]. unfold accept_match.
  destruct (m_Backfill m) as [bf|]; cycle 1.
  { apply wp_ret, fetched_stream; [done|by rewrite Hid|eauto]. }
  apply wp_bind. eapply wp_mono; [apply wp_true|]. intros [bf' r] v' _. cbn beta iota.
  pose proof (fetched_set_backfill _ _ _ _ (Some bf') Hs1 Hm) as Hs2.
  destruct r as [[]|e].
  - apply wp_ret, fetched_stream; [exact Hs2|cbn; apply lookup_insert_eq|eauto].
  - case_bool_decide.
    + apply wp_bind. eapply wp_mono; [apply wp_true|]. intros _ v2 _. exact Hs2.
    + apply wp_ret. eapply fetched_ext; [exact Hs2|done..].
Qed.

Lemma fetched_run evs done_ s v : fetched done_ s ->
  wp (fetch_run store s evs) v (fun s' _ => fetched (done_ ++ evs) s').
Proof.
  revert done_ s v. induction evs as [|ev evs IH]; intros done_ s v Hs; cbn [fetch_run].
  { rewrite app_nil_r. done. }
  apply wp_bind. rewrite cons_middle, app_assoc. eapply wp_mono with (Q := fun s' _ => fetched (done_ ++ [ev]) s').
  - destruct ev as [ev|ev]; cbn.
    + destruct (f_sendDone s); [by apply fetched_more|by apply fetched_send].
    + destruct (f_recvDone s); [by apply fetched_more|by apply fetched_recv].
  - intros s' v' Hs'. by apply IH.
Qed.

Lemma fetched_all evs w s w' : run (fetch_run store fetch_init evs) w = (s, w') -> fetched evs s.
Proof.
  intros Hrun. run_start Hrun. apply (fetched_run evs []). split; cbn.
  - intros id m Hm. by rewrite lookup_empty in Hm.
  - intros p Hp. by apply not_elem_of_nil in Hp.
  - apply NoDup_nil_2.
  - intros m Hm. by apply not_elem_of_nil in Hm.
  - done.
Qed.

(** C11. What a caller of FetchMatches can get: however the proposals of the
    match function and the answers of the synchronizer interleave and
    whatever fails, every match streamed to the caller is a proposal of the
    match function, except that its backfill may have been completed, whose
    id the synchronizer returned; and no match id is sent to the
    synchronizer twice. *)
Theorem fetch_safety evs w s w' :
  run (fetch_run store fetch_init evs) w = (s, w') ->
  (forall m, m ∈ f_streamed s ->
     (exists p e, FromMmf (Proposal p e) ∈ evs /\ same_match p m) /\
     exists resp e, FromSynchronizer (Response resp e) ∈ evs /\ sr_MatchId resp = m_MatchId m) /\
  NoDup (m_MatchId <$> f_synced s) /\
  (f_startMmfs s = true -> exists resp e, FromSynchronizer (Response resp e) ∈ evs /\ sr_StartMmfs resp = true).
Proof.
  intros Hrun. destruct (fetched_all evs w s w' Hrun) as [_ _ Hd Hst [Ha _]].
  split; [|done]. intros m (? & _ & ?)%Hst. done.
Qed.
End Fetch.

Section Backend.
Context `{EnvironmentLaws} `{ProtoLaws} (cfg : View) (store : Service) `{!ServiceSpec cfg store}.
Implicit Types (w : env_state) (v : view).

(** The copy of a backfill a match carries is out of date. *)
Definition stale (d : db) (bf : Backfill) : Prop :=
  d !! b_Id bf = None \/
  exists b ids, backfill_at d (b_Id bf) = Some (mkBackfillInternal (Some b) ids) /\
                b_Generation b <> b_Generation bf.

Lemma wp_createOrUpdate_stale bf tids v (Q : Backfill * result unit -> view -> Prop) :
  sys_faulty = false -> b_Id bf <> "" -> lock_free v (mutex_name (b_Id bf)) (v_now v) -> stale (v_db v) bf ->
  (forall err t, err = errBackfillGenerationMismatch \/ status_of err = Some NotFound -> v_now v <= t ->
     Q (bf, Err err) (released (b_Id bf) v (v_db v) t)) ->
  wp (createOrUpdateBackfill store bf tids) v Q.
Proof.
  intros Hf Hne Hlock Hst HQ. unfold createOrUpdateBackfill. rewrite bool_decide_false by done. apply wp_bind.
  eapply (call_with_mutex cfg); [apply _|done|by intros|intros tok t0 Hlt0].
  call (call_GetBackfill cfg); cbn [v_db entered lock_taken set_locks set_now].
  - intros b0 ids0 Hb. destruct Hst as [Hn|(b & ids & Hat & Hg)].
    { unfold backfill_at, get_str in Hb. by rewrite Hn in Hb. }
    rewrite Hat in Hb. injection Hb as <- <-. rewrite bool_decide_true by done.
    apply wp_ret, wp_ret. rewrite (unlocked_left cfg _ tok t0 v) by done. apply (HQ _ t0); auto.
  - intros e Hn He. apply wp_ret. rewrite (unlocked_left cfg _ tok t0 v) by done. apply (HQ _ t0); [|done]. right.
    destruct Hst as [Hd|(b & ids & Hat & _)]; [|congruence]. by rewrite decide_True in He.
Qed.

(** C12. A match built on an outdated backfill is dropped, not delivered:
    when the synchronizer accepts a match whose backfill has since changed
    or vanished, nothing is sent to the caller, the call goes on without an
    error, and the match's tickets are released for other matches. *)
Theorem stale_match_dropped resp err s m bf w s' w' :
  sys_faulty = false -> typed (db_of w) -> f_m s !! sr_MatchId resp = Some m -> m_Backfill m = Some bf ->
  b_Id bf <> "" -> lock_free (env_view w) (mutex_name (b_Id bf)) (clock w) -> stale (db_of w) bf ->
  run (synchronizeRecv store s (Response resp err)) w = (s', w') ->
  f_streamed s' = f_streamed s /\ f_recvDone s' = f_recvDone s /\ f_syncErr s' = f_syncErr s /\
  locks w' = delete (mutex_name (b_Id bf)) (locks w) /\
  (forall id, pending (db_of w') !! id =
     if decide (id ∈ t_Id <$> m_Tickets m) then None else pending (db_of w) !! id) /\
  forall k, k <> proposedTicketIDs -> db_of w' !! k = db_of w !! k.
Proof.
  intros Hf Ht Hm Hbf Hne Hlock Hst Hrun. run_start Hrun. cbn. rewrite Hm. unfold accept_match. rewrite Hbf.
  apply wp_bind, wp_createOrUpdate_stale; [done..|]. intros e t He Hle. cbn -[errBackfillGenerationMismatch released].
  rewrite bool_decide_true by done. apply wp_bind. unfold doReleaseTickets. apply wp_bind.
  eapply (call_RemovePending cfg); [apply _|done..|]. cbn.
  split; [done|]. split; [done|]. split; [done|]. split; [done|]. split.
  - intros id. rewrite pending_remove_pending. apply lookup_zrem_all.
  - intros k Hk. unfold remove_pending. destruct (t_Id <$> m_Tickets m); [done|]. by apply put_zset_ne.
Qed.

End Backend.

Section AssignTickets.
Context `{Sys} `{ProtoLaws} (cfg : View) (store : Service) `{!ServiceSpec cfg store}.

Lemma record_all_wp ts v (Q : unit -> view -> Prop) :
  (forall t, v_now v <= t -> Q tt (upd v (v_db v) t)) -> wp (record_all ts) v Q.
Proof.
  revert v. induction ts as [|t ts IH]; intros v HQ; cbn [record_all].
  { apply wp_ret. rewrite <- (upd_id v). apply HQ. done. }
  apply wp_bind. unfold recordTimeToAssignment. destruct (t_Assignment t); [|apply wp_ret; by apply IH].
  apply wp_bind, wp_now. intros now Hnow.
  assert (wp (record_all ts) (set_now v now) Q) as Hrest by (apply IH; intros t' Ht'; apply HQ; cbn in *; lia).
  by destruct (t_CreateTime t ≫= ptypes_Timestamp).
Qed.

Lemma deindex_assigned_eq ids : deindex_assigned store ids = deindex_all store ids.
Proof. induction ids as [|id ids IH]; [done|]. cbn. by rewrite IH. Qed.

Lemma foldl_group_ids groups l :
  foldl (fun ids ag => ids ++ ag_TicketIds ag) l groups = l ++ group_ids groups.
Proof.
  revert l. induction groups as [|g groups IH]; intros l; cbn; [by rewrite app_nil_r|].
  rewrite IH. unfold group_ids. cbn. by rewrite app_assoc.
Qed.

(** The handler on a valid request. *)
Lemma assign_tickets_wp req v (Hf : sys_faulty = false) (Ht : typed (v_db v)) :
  let groups := atr_Assignments req in
  let ids := group_ids groups in
  valid_assign groups -> Forall not_reserved ids -> well_keyed ids (v_db v) ->
  (forall id, id ∈ ids -> get_str (v_db v) id <> None ->
     exists t, ticket_at (v_db v) id = Some t /\ is_Some (marshal_ticket (assigned_ticket groups t))) ->
  wp (AssignTickets store req) v (fun r v' =>
    r = Ok (mkAssignTicketsResponse (missing_failures (v_db v) ids)) /\
    (forall id t, id ∈ ids -> ticket_at (v_db v) id = Some t ->
       ticket_at (v_db v') id = Some (assigned_ticket groups t)) /\
    index (v_db v') = index (v_db v) ∖ list_to_set ids /\
    (forall id, pending (v_db v') !! id = if decide (id ∈ ids) then None else pending (v_db v) !! id) /\
    (forall k, k ∉ ids -> k <> allTickets -> k <> proposedTicketIDs -> v_db v' !! k = v_db v !! k) /\
    typed (v_db v') /\ v_now v <= v_now v' /\ v_xids v' = v_xids v).
Proof.
  intros groups ids Hv Hres Hk Hread.
  unfold AssignTickets, doAssignTickets. apply wp_rbind.
  call (call_UpdateAssignments cfg); [exact Hk|exact Hv|exact Hread|]. fold groups ids. intros d1 Hd1.
  assert (forall k, k ∈ reserved -> d1 !! k = v_db v !! k) as Hr1.
  { intros k Hkr. specialize (Hd1 k). rewrite decide_False in Hd1; [done|].
    intros Hi. by apply (proj1 (Forall_forall _ _) Hres k Hi). }
  destruct (readings_ext _ _ Hr1) as (Hi1 & Hp1 & _ & _ & Ht1).
  apply wp_bind, record_all_wp. cbn -[assign_db]. intros t Hnow. rewrite foldl_group_ids. cbn [app]. fold ids.
  apply wp_bind. rewrite deindex_assigned_eq. apply (wp_deindex_all cfg store); [done|by apply Ht1|].
  cbn. intros d2 Ht2 Hi2 Hd2.
  assert (pending d2 = pending (v_db v)) as Hp2 by (rewrite <- Hp1; unfold pending, get_zset; by rewrite Hd2).
  apply wp_bind. eapply (call_RemovePending cfg); [apply _|done|done|]. cbn.
  assert (forall k, k <> proposedTicketIDs -> remove_pending d2 ids !! k = d2 !! k) as Hd3.
  { intros k Hkp. unfold remove_pending. destruct ids; [done|]. by apply put_zset_ne. }
  split; [done|]. split; [|split; [|split; [|split; [|split; [|split]]]]]; cbn.
  - intros id x Hid Hx. rewrite (ticket_at_ext _ d1); cycle 1.
    { assert (not_reserved id) as Hn by by apply (proj1 (Forall_forall _ _) Hres).
      rewrite Hd3, Hd2; [done|intros ->; apply Hn; concrete..]. }
    specialize (Hd1 id). rewrite decide_True, Hx in Hd1 by done. destruct Hd1 as (b & Hb & Hl).
    unfold ticket_at, get_str. rewrite Hl. cbn. by apply unmarshal_marshal_ticket.
  - rewrite index_remove_pending, Hi2, Hi1. done.
  - intros id. rewrite pending_remove_pending, Hp2. apply lookup_zrem_all.
  - intros k Hkn Hka Hkp. rewrite Hd3, Hd2 by done. specialize (Hd1 k). by rewrite decide_False in Hd1.
  - auto with om.
  - cbn in *. lia.
  - done.
Qed.

End AssignTickets.

Section Assigned.
Context `{EnvironmentLaws} `{ProtoLaws} (cfg : View) (store : Service) `{!ServiceSpec cfg store}.

(** Assigning takes the tickets out of matchmaking: after a successful
    call on a valid request every named ticket that exists is stored with
    its assignment, the missing ones are reported, and none of the named
    tickets is indexed or marked as proposed any more; the other tickets
    and marks are as before. *)
Theorem assign_tickets_effect req w r w' :
  sys_faulty = false -> typed (db_of w) ->
  let groups := atr_Assignments req in
  let ids := group_ids groups in
  valid_assign groups -> Forall not_reserved ids -> well_keyed ids (db_of w) ->
  (forall id, id ∈ ids -> get_str (db_of w) id <> None ->
     exists t, ticket_at (db_of w) id = Some t /\ is_Some (marshal_ticket (assigned_ticket groups t))) ->
  run (AssignTickets store req) w = (r, w') ->
  r = Ok (mkAssignTicketsResponse (missing_failures (db_of w) ids)) /\
  (forall id t, id ∈ ids -> ticket_at (db_of w) id = Some t ->
     ticket_at (db_of w') id = Some (assigned_ticket groups t)) /\
  index (db_of w') = index (db_of w) ∖ list_to_set ids /\
  (forall id, pending (db_of w') !! id = if decide (id ∈ ids) then None else pending (db_of w) !! id) /\
  (forall k, k ∉ ids -> k <> allTickets -> k <> proposedTicketIDs -> db_of w' !! k = db_of w !! k).
Proof.
  intros Hf Ht groups ids Hv Hres Hk Hread Hrun.
  pose proof (run_wp _ _ _ _ _ (assign_tickets_wp cfg store req _ Hf Ht Hv Hres Hk Hread) Hrun) as Hp. naive_solver.
Qed.
End Assigned.

(** A proposal without a match id is delivered by the synchronizer's first
    signal: the lookup of [synchronizeRecv] does not tell "no match id" from
    an empty one. *)
Lemma empty_match_id_streamed `{EnvironmentLaws} `{Proto} (store : Service) p w :
  m_MatchId p = "" -> m_Backfill p = None ->
  exists w', run (fetch_run store fetch_init
    [FromSynchronizer (Response (mkSynchronizeResponse true false "") None);
     FromMmf (Proposal p None);
     FromSynchronizer (Response (mkSynchronizeResponse false true "") None)]) w = 
    (mkFetchState {["" := p]} [p] [p] true true false false None, w').
Proof.
  intros Hid Hb. exists w. destruct p; cbn in Hid, Hb. subst. reflexivity.
Qed.

(** ** Runs *)

Definition mem_match (id : string) (bf : option Backfill) (tids : list string) : Match :=
  mkMatch id "profile" "mmf" (mem_ticket <$> tids) ∅ bf false.

Lemma game_world_backfill :
  backfill_at (db_of game_world) "bf" = Some (mkBackfillInternal (Some (mem_backfill "bf" 1)) ["a"]).
Proof. vm_compute. reflexivity. Qed.

Lemma match_backfill_update_witness :
  let run_it g := run (createOrUpdateBackfill mem_store (mem_backfill "bf" g) ["b"]) game_world in
  (run_it 1).1.2 = Ok tt /\ (run_it 5).1.2 = Err errBackfillGenerationMismatch.
Proof.
  intros run_it. split; [vm_compute; reflexivity|].
  destruct (match_backfill_update mem_cfg mem_store (mem_backfill "bf" 5) ["b"] (mem_backfill "bf" 1) ["a"]
    game_world (run_it 5).1.1 (run_it 5).1.2 (run_it 5).2 eq_refl game_world_typed ltac:(discriminate)
    ltac:(concrete) ltac:(concrete) game_world_backfill eq_refl ltac:(intros; by eexists)
    ltac:(vm_compute; reflexivity)) as (_ & _ & Hmis & _).
  apply Hmis. discriminate.
Defined.

Lemma match_backfill_one_winner_witness :
  let p := createOrUpdateBackfill mem_store (mem_backfill "bf" 1) ["b"] in
  (ans p (after p game_world)).2 = Err errBackfillGenerationMismatch.
Proof.
  intros p.
  destruct (match_backfill_one_winner mem_cfg mem_store (mem_backfill "bf" 1) ["b"] (mem_backfill "bf" 1) ["b"]
    (mem_backfill "bf" 1) ["a"] game_world (mem_backfill "bf" 1) (after p game_world) (ans p (after p game_world))
    (after p (after p game_world)) eq_refl game_world_typed ltac:(discriminate)
    ltac:(concrete) ltac:(concrete) game_world_backfill eq_refl ltac:(intros; by eexists) eq_refl eq_refl
    ltac:(vm_compute; reflexivity) (surjective_pairing _)) as [Hr _].
  exact Hr.
Defined.

Lemma fetch_safety_witness :
  let m := mem_match "m1" None ["a"] in
  let evs := [FromSynchronizer (Response (mkSynchronizeResponse true false "") None);
              FromMmf (Proposal m None);
              FromSynchronizer (Response (mkSynchronizeResponse false false "m1") None)] in
  f_streamed (ans (fetch_run mem_store fetch_init evs) game_world) = [m] /\
  exists p e, FromMmf (Proposal p e) ∈ evs /\ same_match p m.
Proof.
  intros m evs. split; [vm_compute; reflexivity|].
  destruct (fetch_safety mem_store evs game_world (ans (fetch_run mem_store fetch_init evs) game_world)
    (after (fetch_run mem_store fetch_init evs) game_world) (surjective_pairing _)) as (Hs & _).
  apply (Hs m). vm_compute. left.
Defined.

Lemma stale_match_dropped_witness :
  let m := mem_match "m1" (Some (mem_backfill "bf" 9)) ["a"] in
  let s := mkFetchState {["m1" := m]} [m] [] true false false false None in
  let p := synchronizeRecv mem_store s (Response (mkSynchronizeResponse false false "m1") None) in
  f_streamed (ans p game_world) = [] /\ is_Some (pending (db_of game_world) !! "a") /\
  pending (db_of (after p game_world)) !! "a" = None.
Proof.
  intros m s p.
  assert (stale (db_of game_world) (mem_backfill "bf" 9)) as Hst.
  { right. exists (mem_backfill "bf" 1), ["a"]. split; [exact game_world_backfill|discriminate]. }
  destruct (stale_match_dropped mem_cfg mem_store (mkSynchronizeResponse false false "m1") None s m
    (mem_backfill "bf" 9) game_world (ans p game_world) (after p game_world) eq_refl game_world_typed eq_refl
    eq_refl ltac:(discriminate) ltac:(concrete) Hst (surjective_pairing _)) as (H1 & _ & _ & _ & H2 & _).
  split; [exact H1|]. split; [concrete|]. etrans; [apply H2|]. vm_compute. reflexivity.
Defined.

Lemma assign_tickets_effect_witness :
  let req := mkAssignTicketsRequest [mkAssignmentGroup ["a"; "x"] (Some (mkAssignment "10.0.0.1:80" ∅))] in
  ans (AssignTickets mem_store req) game_world =
    Ok (mkAssignTicketsResponse [mkAssignmentFailure "x" AssignmentFailure_TICKET_NOT_FOUND]) /\
  index (db_of (after (AssignTickets mem_store req) game_world)) = index (db_of game_world) ∖ {["a"; "x"]}.
Proof.
  intros req. split; [vm_compute; reflexivity|].
  assert (forall id, id ∈ group_ids (atr_Assignments req) -> id = "a" \/ id = "x") as Hids.
  { intros id Hid. change (id ∈ ["a"; "x"]) in Hid. rewrite !elem_of_cons in Hid.
    destruct Hid as [?|[?|Hn]]; [by left|by right|by apply not_elem_of_nil in Hn]. }
  assert (ticket_at (db_of game_world) "a" = Some (mem_ticket "a")) as Ha by (vm_compute; reflexivity).
  assert (ticket_at (db_of game_world) "x" = None) as Hx by (vm_compute; reflexivity).
  assert (get_str (db_of game_world) "x" = None) as Hx' by (vm_compute; reflexivity).
  destruct (assign_tickets_effect mem_cfg mem_store req game_world (ans (AssignTickets mem_store req) game_world)
    (after (AssignTickets mem_store req) game_world) eq_refl game_world_typed) as (_ & _ & Hi & _).
  - split; [repeat constructor; by eexists|]. split; [concrete|discriminate].
  - concrete.
  - intros id t [->| ->]%Hids Hq; [rewrite Ha in Hq; by injection Hq as <-|rewrite Hx in Hq; discriminate].
  - intros id [->| ->]%Hids Hs; [|destruct (Hs Hx')]. exists (mem_ticket "a"). split; [exact Ha|by eexists].
  - apply surjective_pairing.
  - etrans; [exact Hi|]. vm_compute. reflexivity.
Defined.
