(* ===== verification/Greedy.v ===== *)
(** * Sorting and greedy selection

    What Go's sort promises, the order of doubles, and the selection every
    evaluator of the repository makes: keep what conflicts with nothing kept
    before. *)
From S2P Require Export Data.

(** ** Sorting

    [sort.Sort] promises a permutation of its input and, when [Less] is a
    strict weak order, one without inversions. Nothing is promised about the
    order of equal elements. *)
Definition strict_weak {A} (less : A -> A -> bool) (P : A -> Prop) : Prop :=
  (forall x, P x -> less x x = false) /\
  (forall x y z, P x -> P y -> P z -> less x y = true -> less y z = true -> less x z = true) /\
  (forall x y z, P x -> P y -> P z -> less x y = false -> less y z = false -> less x z = false).

Class GoSort := {
  sort_Sort : forall {A}, (A -> A -> bool) -> list A -> list A;
  sort_perm {A} (less : A -> A -> bool) l : sort_Sort less l ≡ₚ l;
  sort_sorted {A} (less : A -> A -> bool) l :
    strict_weak less (fun x => x ∈ l) ->
    StronglySorted (fun x y => less y x = false) (sort_Sort less l);
}.

Lemma NoDup_fmap_inj {A B} (f : A -> B) l x y : NoDup (f <$> l) -> x ∈ l -> y ∈ l -> f x = f y -> x = y.
Proof.
  intros Hn [i Hi]%list_elem_of_lookup [j Hj]%list_elem_of_lookup He.
  assert (i = j) as ->; [|congruence].
  apply (NoDup_lookup _ i j (f x) Hn); rewrite list_lookup_fmap; [by rewrite Hi|by rewrite Hj, He].
Qed.

Lemma StronglySorted_NoDup {A B} (R : relation A) (f : A -> B) l : NoDup (f <$> l) ->
  (forall x y, x ∈ l -> y ∈ l -> f x <> f y -> R x y) -> StronglySorted R l.
Proof.
  induction l as [|x l IH]; intros Hn HR; constructor; apply NoDup_cons in Hn as [Hx Hn].
  - apply IH; [done|]. intros y z Hy Hz. apply HR; by right.
  - apply Forall_forall. intros y Hy. apply HR; [by left|by right|]. intros He. apply Hx. rewrite He. by apply list_elem_of_fmap_2.
Qed.

Lemma StronglySorted_lookup_lt {A} (R : relation A) l i j x y :
  StronglySorted R l -> l !! i = Some x -> l !! j = Some y -> (i < j)%nat -> R x y.
Proof.
  intros Hs. revert i j. induction Hs as [|z l Hs IH Hz]; [done|].
  intros [|i] [|j] Hi Hj ?; cbn in *; simplify_eq; [lia| |lia|].
  - by eapply Forall_lookup_1.
  - eapply (IH i j); [done..|lia].
Qed.

Lemma StronglySorted_sublist {A} (R : relation A) l k :
  sublist k l -> StronglySorted R l -> StronglySorted R k.
Proof.
  induction 1 as [|x k l Hk IH|x k l Hk IH]; intros Hs; [done|..]; inversion_clear Hs; auto.
  constructor; [auto|]. rewrite Forall_forall in *. intros y Hy. by eapply H0, elem_of_sublist.
Qed.

(** Insertion sort is a [sort.Sort]. *)
Section InsertionSort.
Context {A : Type} (less : A -> A -> bool).

Fixpoint insert_sorted (x : A) (l : list A) : list A :=
  match l with
  | [] => [x]
  | y :: l => if less y x then y :: insert_sorted x l else x :: y :: l
  end.

Definition insertion_sort (l : list A) : list A := foldr insert_sorted [] l.

Lemma insert_sorted_perm x l : insert_sorted x l ≡ₚ x :: l.
Proof.
  induction l as [|y l IH]; cbn; [done|]. destruct (less y x); [|done].
  rewrite IH. apply Permutation_swap.
Qed.

Lemma insertion_sort_perm l : insertion_sort l ≡ₚ l.
Proof. induction l as [|x l IH]; cbn; [done|]. by rewrite insert_sorted_perm, IH. Qed.

Lemma insert_sorted_sorted (P : A -> Prop) x l :
  strict_weak less P -> P x -> Forall P l ->
  StronglySorted (fun x y => less y x = false) l ->
  StronglySorted (fun x y => less y x = false) (insert_sorted x l).
Proof.
  intros (Hirr & Htr & Hneg) Hx. induction l as [|y l IH]; intros Hl Hs; cbn.
  { repeat constructor. }
  inversion_clear Hs as [|? ? Hs' Hy]. inversion_clear Hl as [|? ? HPy HPl].
  destruct (less y x) eqn:Hyx.
  - constructor; [by apply IH|]. rewrite insert_sorted_perm. constructor; [|done].
    destruct (less x y) eqn:Hxy; [|done]. rewrite <- (Hirr x Hx). symmetry. by apply (Htr x y x).
  - constructor; [by constructor|]. constructor; [done|].
    rewrite Forall_forall in Hy, HPl |- *. intros z Hz.
    destruct (less y x) eqn:E; [done|]. by apply (Hneg z y x); auto.
Qed.

Lemma insertion_sort_sorted l :
  strict_weak less (fun x => x ∈ l) -> StronglySorted (fun x y => less y x = false) (insertion_sort l).
Proof.
  intros Hw. assert (forall k, k ⊆ l -> StronglySorted (fun x y => less y x = false) (insertion_sort k)) as Hk;
    [|by apply Hk].
  induction k as [|x k IH]; intros Hsub; cbn; [constructor|].
  apply (insert_sorted_sorted (fun x => x ∈ l)); [done|set_solver| |apply IH; set_solver].
  apply Forall_forall. intros y. rewrite insertion_sort_perm. set_solver.
Qed.
End InsertionSort.

(** For concrete evaluations. *)
Definition insertion_go_sort : GoSort := {|
  sort_Sort := @insertion_sort;
  sort_perm := @insertion_sort_perm;
  sort_sorted := @insertion_sort_sorted;
|}.


Definition is_nan (f : float64) : bool := match f with S754_nan => true | _ => false end.

Definition score_key (f : float64) : Z * Z * Z :=
  match f with
  | S754_infinity true => (-2, 0, 0)
  | S754_finite true m e => (-1, - e, - Z.pos m)
  | S754_zero _ | S754_nan => (0, 0, 0)
  | S754_finite false m e => (1, e, Z.pos m)
  | S754_infinity false => (2, 0, 0)
  end.

Definition key_lt (x y : Z * Z * Z) : Prop :=
  let '(a, b, c) := x in let '(a', b', c') := y in
  a < a' \/ a = a' /\ (b < b' \/ b = b' /\ c < c').

Lemma f_lt_key x y : is_nan x = false -> is_nan y = false ->
  f_lt x y = true <-> key_lt (score_key x) (score_key y).
Proof.
  unfold f_lt, SFltb, SFcompare.
  destruct x as [[]|[]| |[] m e], y as [[]|[]| |[] m' e']; cbn; intros; try done;
    try (split; [done|lia]); try (split; [lia|done]).
  all: destruct (Z.compare_spec e e'); cbn; try (split; [done|lia]); try (split; [lia|done]).
  all: change (Pos.compare_cont Eq m m') with (Pos.compare m m');
       destruct (Pos.compare_spec m m'); cbn; split; intros; try done; lia.
Qed.

Lemma f_le_key x y : is_nan x = false -> is_nan y = false ->
  f_le x y = true <-> ~ key_lt (score_key y) (score_key x).
Proof.
  intros Hx Hy. rewrite <- f_lt_key, not_true_iff_false by done. unfold f_le, f_lt, SFleb, SFltb, SFcompare.
  destruct x as [[]|[]| |[] m e], y as [[]|[]| |[] m' e']; try done.
  all: rewrite (Z.compare_antisym e e'); destruct (Z.compare_spec e e'); cbn; try done.
  all: change (Pos.compare_cont Eq ?a ?b) with (Pos.compare a b);
       rewrite (Pos.compare_antisym m m'); destruct (Pos.compare_spec m m'); done.
Qed.

(** Doubles are totally ordered away from NaN. *)
Lemma f_le_total x y : is_nan x = false -> is_nan y = false -> f_le x y = true \/ f_lt y x = true.
Proof. intros Hx Hy. rewrite f_le_key, f_lt_key by done. destruct (score_key x) as [[]], (score_key y) as [[]]; cbn; lia. Qed.

Lemma f_le_trans x y z : is_nan x = false -> is_nan y = false -> is_nan z = false ->
  f_le x y = true -> f_le y z = true -> f_le x z = true.
Proof.
  intros Hx Hy Hz. rewrite !f_le_key by done.
  destruct (score_key x) as [[]], (score_key y) as [[]], (score_key z) as [[]]; cbn; lia.
Qed.

Lemma f_lt_le x y : f_lt x y = true -> f_le x y = true.
Proof. unfold f_lt, f_le, SFltb, SFleb. by destruct (SFcompare x y) as [[]|]. Qed.

Section ByScore.
Context {A : Type} (score : A -> float64).

(** Away from NaN, comparing scores is a strict weak order. *)
Lemma score_strict_weak (P : A -> Prop) :
  (forall x, P x -> is_nan (score x) = false) -> strict_weak (fun x y => f_lt (score x) (score y)) P.
Proof.
  intros Hn. unfold strict_weak.
  assert (forall x y, P x -> P y -> f_lt (score x) (score y) = true <-> key_lt (score_key (score x)) (score_key (score y)))
    as Hk by (intros; apply f_lt_key; auto).
  split_and!.
  - intros x Hx. apply not_true_iff_false. rewrite Hk by done.
    destruct (score_key _) as [[]]; cbn; lia.
  - intros x y z Hx Hy Hz. rewrite !Hk by done.
    destruct (score_key (score x)) as [[]], (score_key (score y)) as [[]], (score_key (score z)) as [[]]; cbn; lia.
  - intros x y z Hx Hy Hz. rewrite <- !not_true_iff_false, !Hk by done.
    destruct (score_key (score x)) as [[]], (score_key (score y)) as [[]], (score_key (score z)) as [[]]; cbn; lia.
Qed.

Lemma flip_strict_weak (less : A -> A -> bool) P : strict_weak less P -> strict_weak (fun x y => less y x) P.
Proof. intros (Hi & Ht & Hn). split_and!; [done|intros x y z ?????; by apply (Ht z y x)|intros x y z ?????; by apply (Hn z y x)]. Qed.

Lemma higher_strict_weak (P : A -> Prop) :
  (forall x, P x -> is_nan (score x) = false) -> strict_weak (fun x y => f_gt (score x) (score y)) P.
Proof. intros Hn. by apply (flip_strict_weak (fun x y => f_lt (score x) (score y))), score_strict_weak. Qed.
End ByScore.

(** ** Greedy selection *)
Section Greedy.
Context {A : Type} (conflict : A -> A -> Prop) `{!RelDecision conflict}.

(** The reference: keep what conflicts with nothing kept before. *)
Definition accept (acc : list A) (m : A) : list A :=
  if decide (Exists (conflict m) acc) then acc else acc ++ [m].

Definition greedy (ms : list A) : list A := foldl accept [] ms.

Lemma accept_mono acc m x : x ∈ acc -> x ∈ accept acc m.
Proof. unfold accept. case_decide; set_solver. Qed.

Lemma greedy_snoc ms m : greedy (ms ++ [m]) = accept (greedy ms) m.
Proof. unfold greedy. by rewrite foldl_app. Qed.

Lemma greedy_sublist ms : sublist (greedy ms) ms.
Proof.
  induction ms as [|m ms IH] using rev_ind; [done|]. rewrite greedy_snoc. unfold accept.
  case_decide; [by apply sublist_inserts_r|by apply sublist_app].
Qed.

Lemma greedy_disjoint ms i j x y :
  greedy ms !! i = Some x -> greedy ms !! j = Some y -> (i < j)%nat -> ~ conflict y x.
Proof.
  revert i j x y. induction ms as [|m ms IH] using rev_ind; [done|]. rewrite greedy_snoc. unfold accept.
  intros i j x y. case_decide as Hd; [apply IH|]. intros Hi Hj Hlt Hc.
  apply lookup_snoc_Some in Hj as [[Hj Hy]|[Hj ->]].
  - apply lookup_snoc_Some in Hi as [[Hi Hx]|[Hi ->]]; [|lia]. by eapply (IH i j).
  - apply lookup_snoc_Some in Hi as [[Hi Hx]|[Hi ->]]; [|lia].
    apply Hd, Exists_exists. exists x. split; [by eapply list_elem_of_lookup_2|done].
Qed.

(** A match that was not kept comes after one that was and that it collides
    with. *)
Lemma greedy_maximal ms i m :
  ms !! i = Some m -> m ∈ greedy ms \/
  exists j a, (j < i)%nat /\ ms !! j = Some a /\ a ∈ greedy ms /\ conflict m a.
Proof.
  revert i m. induction ms as [|x ms IH] using rev_ind; [done|]. rewrite greedy_snoc.
  intros i m [[Hi Hm]|[-> ->]]%lookup_snoc_Some.
  - destruct (IH i m Hm) as [?|(j & a & ? & Hj & ? & ?)]; [left; by apply accept_mono|].
    right. exists j, a. split_and!; [done| |by apply accept_mono|done]. by apply lookup_app_l_Some.
  - destruct (decide (Exists (conflict m) (greedy ms))) as [He|He].
    + right. apply Exists_exists in He as (a & Ha & Hc).
      destruct (list_elem_of_lookup_1 (ms) a) as [j Hj].
      { eapply elem_of_sublist; [exact Ha|apply greedy_sublist]. }
      exists j, a. split_and!; [by eapply lookup_lt_Some|by apply lookup_app_l_Some|by apply accept_mono|done].
    + left. unfold accept. rewrite decide_False by done. set_solver.
Qed.
End Greedy.

(** ** Sharing a ticket *)
Section Shares.
Context {A : Type} (tickets : A -> list Ticket).

Definition ids_of (x : A) : list string := t_Id <$> tickets x.

(** Two proposals that use one ticket. *)
Definition shares (x y : A) : Prop := Exists (fun t => t ∈ ids_of y) (ids_of x).

#[global] Instance shares_dec : RelDecision shares.
Proof. intros x y. unfold shares. apply _. Defined.

(** The test by what the proposals kept use. *)
Lemma existsb_shares (P : string -> Prop) `{!forall t, Decision (P t)} acc x :
  (forall t, P t <-> Exists (fun a => t ∈ ids_of a) acc) ->
  existsb (fun t => bool_decide (P (t_Id t))) (tickets x) = true <-> Exists (shares x) acc.
Proof.
  intros HP. rewrite existsb_exists. setoid_rewrite bool_decide_eq_true. setoid_rewrite <- list_elem_of_In.
  setoid_rewrite HP. unfold shares. rewrite Exists_exists. setoid_rewrite Exists_exists. unfold ids_of at 3.
  setoid_rewrite list_elem_of_fmap. naive_solver.
Qed.
End Shares.

(** Recording what a proposal uses. *)
Lemma is_Some_use_tickets {C} (u : C) ts (m : gmap string C) t :
  is_Some (foldl (fun m t => <[t_Id t := u]> m) m ts !! t) <-> t ∈ t_Id <$> ts \/ is_Some (m !! t).
Proof.
  revert m. induction ts as [|x ts IH]; intros m; cbn.
  - split; [auto|]. intros [[]%not_elem_of_nil|?]; done.
  - rewrite IH, is_Some_insert, elem_of_cons. tauto.
Qed.
