(* ===== verification/DefaultEval.v ===== *)
(** * The default evaluator ([internal/app/evaluator/defaulteval/evaluator.go])

    [evaluate] reads all the proposals, sorts them by score and accepts each
    one that collides with no match accepted before it. [sort.Sort] is the
    class [GoSort], unmarshalling the criteria a parameter. *)
From S2P Require Export Greedy.

(** ** [evaluate] *)

Record DefaultEvaluationCriteria := mkDefaultEvaluationCriteria { dec_Score : float64 }.

Record matchInp := mkMatchInp { match_ : Match; inp : DefaultEvaluationCriteria }.

Record collidingMatch := mkCollidingMatch { cm_id : string; cm_score : float64 }.

Record decollider := mkDecollider {
  resultIDs : list string;
  ticketsUsed : gmap string collidingMatch;
  backfillsUsed : gmap string collidingMatch;
}.

(** [m.match.Backfill != nil && m.match.Backfill.Id != ""]. *)
Definition backfill_key (m : Match) : option string :=
  b ← m_Backfill m; if bool_decide (b_Id b = "") then None else Some (b_Id b).

Definition maybeAdd (d : decollider) (m : matchInp) : decollider :=
  let used := mkCollidingMatch (m_MatchId (match_ m)) (dec_Score (inp m)) in
  match b ← backfill_key (match_ m); backfillsUsed d !! b with
  | Some _ => d
  | None =>
      if existsb (fun t => bool_decide (is_Some (ticketsUsed d !! t_Id t))) (m_Tickets (match_ m)) then d
      else
        mkDecollider
          (resultIDs d ++ [m_MatchId (match_ m)])
          (foldl (fun u t => <[t_Id t := used]> u) (ticketsUsed d) (m_Tickets (match_ m)))
          (match backfill_key (match_ m) with
           | Some b => <[b := used]> (backfillsUsed d)
           | None => backfillsUsed d
           end)
  end.

(** [byScore.Less]: higher scores first. *)
Definition Less (x y : matchInp) : bool := f_gt (dec_Score (inp x)) (dec_Score (inp y)).

Section Evaluate.
Context `{GoSort}.
(** [ptypes.UnmarshalAny] into a [DefaultEvaluationCriteria]: the message
    read, or none when the [Any] does not hold one. *)
Variable UnmarshalAny : Any -> option DefaultEvaluationCriteria.

(** The criteria of a proposal; none rejects it. *)
Definition criteria (m : Match) : option DefaultEvaluationCriteria :=
  match m_Extensions m !! "evaluation_input" with
  | Some a => UnmarshalAny a
  | None => Some (mkDefaultEvaluationCriteria f_neg_inf)
  end.

(** The loop over [in], which ends when the channel is closed. *)
Definition collect (in_ : list Match) : list matchInp :=
  foldl (fun matches m => match criteria m with
                          | Some inp => matches ++ [mkMatchInp m inp]
                          | None => matches
                          end) [] in_.

(** The ids sent on [out]. *)
Definition evaluate (in_ : list Match) : list string :=
  let matches := sort_Sort Less (collect in_) in
  resultIDs (foldl maybeAdd (mkDecollider [] ∅ ∅) matches).
End Evaluate.

(** ** What it accepts *)

Definition match_tickets (m : Match) : list string := t_Id <$> m_Tickets m.

(** Two matches that cannot both be used. *)
Definition collides (m m' : Match) : Prop :=
  Exists (fun t => t ∈ match_tickets m') (match_tickets m) \/
  (is_Some (backfill_key m) /\ backfill_key m = backfill_key m').

#[global] Instance collides_dec m m' : Decision (collides m m') := _.

(** As proposals with their criteria. *)
Definition collides_inp (x y : matchInp) : Prop := collides (match_ x) (match_ y).

#[global] Instance collides_inp_dec : RelDecision collides_inp.
Proof. intros x y. unfold collides_inp. apply _. Defined.

Definition result_id (m : matchInp) : string := m_MatchId (match_ m).

(** The decollider remembers what the accepted matches use. *)
Record remembers (d : decollider) (acc : list matchInp) : Prop := {
  rem_ids : resultIDs d = result_id <$> acc;
  rem_tickets t : is_Some (ticketsUsed d !! t) <-> Exists (fun a => t ∈ match_tickets (match_ a)) acc;
  rem_backfills b : is_Some (backfillsUsed d !! b) <-> Exists (fun a => backfill_key (match_ a) = Some b) acc;
}.

Lemma remembers_collision d acc m :
  remembers d acc ->
  Exists (fun a => collides m (match_ a)) acc <->
  is_Some (b ← backfill_key m; backfillsUsed d !! b) \/
  existsb (fun t => bool_decide (is_Some (ticketsUsed d !! t_Id t))) (m_Tickets m) = true.
Proof.
  intros [_ Ht Hb]. rewrite existsb_exists. setoid_rewrite bool_decide_eq_true. setoid_rewrite Ht.
  setoid_rewrite <- list_elem_of_In. unfold collides.
  rewrite !Exists_exists. setoid_rewrite Exists_exists. unfold match_tickets.
  setoid_rewrite list_elem_of_fmap. split.
  - intros (a & Ha & [(t & (x & -> & Hx) & y & Hy & Hin)|[[b Hk] Heq]]).
    + right. exists x. split; [done|]. exists a. split; [done|]. exists y; auto.
    + left. rewrite Hk; cbn. apply Hb, Exists_exists. exists a. split; congruence.
  - intros [[b' Hs]|(x & Hx & a & Ha & y & Hy & Hin)].
    + destruct (backfill_key m) as [b|] eqn:Hk; [|done]. cbn in Hs.
      pose proof (proj1 (Hb b) (ex_intro _ _ Hs)) as (a & Ha & Heq)%Exists_exists.
      exists a. split; [done|]. right. rewrite Heq. split; [eauto|done].
    + exists a. split; [done|]. left. exists (t_Id x). split; [eauto|]. exists y; auto.
Qed.

Lemma maybeAdd_accept d acc m : remembers d acc -> remembers (maybeAdd d m) (accept collides_inp acc m).
Proof.
  intros Hr. pose proof (remembers_collision d acc (match_ m) Hr) as Hc.
  unfold maybeAdd, accept. case_decide as Hd.
  - apply Hc in Hd. destruct (mbind _ _) as [u|]; [done|].
    destruct Hd as [[? [=]]|Hd]. by rewrite Hd.
  - assert (mbind (fun b => backfillsUsed d !! b) (backfill_key (match_ m)) = None) as Hn.
    { destruct (mbind _ _) as [u|]; [|done]. destruct Hd. apply Hc. eauto. }
    rewrite Hn. destruct (existsb _ _); [destruct Hd; apply Hc; by right|].
    destruct Hr as [Hi Ht Hb]. constructor; cbn.
    + by rewrite fmap_app, Hi.
    + intros t. rewrite is_Some_use_tickets, Ht, Exists_app, Exists_cons, Exists_nil. unfold match_tickets. tauto.
    + intros b. rewrite Exists_app, Exists_cons, Exists_nil, <- Hb.
      destruct (backfill_key (match_ m)) as [b'|].
      * rewrite is_Some_insert. naive_solver.
      * naive_solver.
Qed.

Lemma evaluate_greedy `{GoSort} U in_ :
  evaluate U in_ = result_id <$> greedy collides_inp (sort_Sort Less (collect U in_)).
Proof.
  unfold evaluate, greedy. generalize (sort_Sort Less (collect U in_)). intros ms.
  assert (forall d acc, remembers d acc -> resultIDs (foldl maybeAdd d ms) = result_id <$> foldl (accept collides_inp) acc ms) as Hf.
  { induction ms as [|m ms IH]; intros d acc Hr; cbn; [apply Hr|]. by apply IH, maybeAdd_accept. }
  apply Hf. constructor; [done|..]; intros x; cbn; rewrite lookup_empty, Exists_nil, <- not_eq_None_Some; tauto.
Qed.

Lemma Less_strict_weak (P : matchInp -> Prop) :
  (forall x, P x -> is_nan (dec_Score (inp x)) = false) -> strict_weak Less P.
Proof. apply (higher_strict_weak (fun x => dec_Score (inp x))). Qed.

Lemma elem_of_collect U in_ x :
  x ∈ collect U in_ <-> match_ x ∈ in_ /\ criteria U (match_ x) = Some (inp x).
Proof.
  unfold collect.
  set (step := fun (matches : list matchInp) m => _).
  assert (forall acc, x ∈ foldl step acc in_ <->
    x ∈ acc \/ (match_ x ∈ in_ /\ criteria U (match_ x) = Some (inp x))) as Hf.
  { induction in_ as [|m l IH]; intros acc; cbn; [set_solver|]. rewrite IH, elem_of_cons. unfold step.
    destruct x as [xm xi]. destruct (criteria U m) as [c|] eqn:Hc; [rewrite elem_of_app, list_elem_of_singleton|];
      naive_solver congruence. }
  rewrite Hf. set_solver.
Qed.

(** ** The theorems *)
Section Theorems.
Context `{GoSort} (UnmarshalAny : Any -> option DefaultEvaluationCriteria).

(** C9. The default evaluator returns the ids of a selection of the
    proposals whose criteria it can read, in which no two matches share a
    ticket or a backfill; every proposal with readable criteria is in the
    selection or collides with a match of it. Whatever the scores are (NaN
    included) and however equal scores are ordered. *)
Theorem evaluate_disjoint (in_ : list Match) :
  exists acc,
    evaluate UnmarshalAny in_ = result_id <$> acc /\
    acc ⊆+ collect UnmarshalAny in_ /\
    (forall i j x y, acc !! i = Some x -> acc !! j = Some y -> (i < j)%nat -> ~ collides (match_ y) (match_ x)) /\
    (forall m c, m ∈ in_ -> criteria UnmarshalAny m = Some c ->
       mkMatchInp m c ∈ acc \/ Exists (fun a => collides m (match_ a)) acc).
Proof.
  set (ms := sort_Sort Less (collect UnmarshalAny in_)).
  assert (ms ≡ₚ collect UnmarshalAny in_) as Hp by apply sort_perm.
  exists (greedy collides_inp ms). split_and!.
  - apply evaluate_greedy.
  - rewrite <- Hp. apply sublist_submseteq, greedy_sublist.
  - apply greedy_disjoint.
  - intros m c Hm Hc. assert (mkMatchInp m c ∈ ms) as [i Hi]%list_elem_of_lookup
      by (rewrite Hp; by apply elem_of_collect).
    destruct (greedy_maximal collides_inp _ _ _ Hi) as [?|(j & a & _ & _ & Ha & Hx)]; [by left|].
    right. apply Exists_exists; eauto.
Qed.

(** C8. When no score is NaN, the selection is made by score: a proposal
    that is left out collides with a selected match whose score is at least
    its own, so no proposal loses its tickets to a worse one, and the ids
    are returned in descending order of score. *)
Theorem evaluate_best (in_ : list Match)
  (Hscores : forall m c, m ∈ in_ -> criteria UnmarshalAny m = Some c -> is_nan (dec_Score c) = false) :
  exists acc,
    evaluate UnmarshalAny in_ = result_id <$> acc /\
    StronglySorted (fun x y => f_lt (dec_Score (inp x)) (dec_Score (inp y)) = false) acc /\
    (forall m c, m ∈ in_ -> criteria UnmarshalAny m = Some c ->
       mkMatchInp m c ∈ acc \/
       Exists (fun a => collides m (match_ a) /\ f_lt (dec_Score (inp a)) (dec_Score c) = false) acc).
Proof.
  set (ms := sort_Sort Less (collect UnmarshalAny in_)).
  assert (ms ≡ₚ collect UnmarshalAny in_) as Hp by apply sort_perm.
  assert (StronglySorted (fun x y => Less y x = false) ms) as Hs.
  { apply sort_sorted, Less_strict_weak. intros [m c] [Hm Hc]%elem_of_collect. by eapply Hscores. }
  exists (greedy collides_inp ms). split_and!.
  - apply evaluate_greedy.
  - eapply StronglySorted_sublist, Hs. apply greedy_sublist.
  - intros m c Hm Hc. assert (mkMatchInp m c ∈ ms) as [i Hi]%list_elem_of_lookup
      by (rewrite Hp; by apply elem_of_collect).
    destruct (greedy_maximal collides_inp _ _ _ Hi) as [?|(j & a & Hlt & Hj & Ha & Hx)]; [by left|].
    right. apply Exists_exists. exists a. split_and!; [done|done|].
    exact (StronglySorted_lookup_lt _ _ _ _ _ _ Hs Hj Hi Hlt).
Qed.
End Theorems.

(** ** A concrete evaluation *)
#[local] Existing Instance insertion_go_sort.

(** Criteria written as the decimal of a small natural score. *)

Definition demo_criteria (a : Any) : option DefaultEvaluationCriteria :=
  match atoi (any_value a) with
  | Some (Z.pos p) => Some (mkDefaultEvaluationCriteria (S754_finite false p 0))
  | _ => None
  end.

Definition demo_match (id : string) (score : option string) (tids : list string) : Match :=
  mkMatch id "" "" ((fun t => mkTicket t None None ∅ ∅ None) <$> tids)
    (match score with Some s => {["evaluation_input" := mkAny "" s]} | None => ∅ end) None false.

(** The higher score wins the shared ticket, the match without criteria comes
    last, the one whose criteria do not parse is rejected. *)
Definition demo_proposals : list Match :=
  [demo_match "a" (Some "3") ["t1"; "t2"]; demo_match "b" (Some "5") ["t2"; "t3"];
   demo_match "c" None ["t4"]; demo_match "d" (Some "bad") ["t5"]; demo_match "e" None ["t3"]].

Lemma evaluate_best_witness :
  evaluate demo_criteria demo_proposals = ["b"; "c"] /\
  exists acc, evaluate demo_criteria demo_proposals = result_id <$> acc /\
    (forall m c, m ∈ demo_proposals -> criteria demo_criteria m = Some c ->
       mkMatchInp m c ∈ acc \/
       Exists (fun a => collides m (match_ a) /\ f_lt (dec_Score (inp a)) (dec_Score c) = false) acc).
Proof.
  split; [vm_compute; reflexivity|].
  destruct (evaluate_best demo_criteria demo_proposals) as (acc & He & _ & Hall).
  - intros m c Hm. revert c.
    assert (Forall (fun m => forall c, criteria demo_criteria m = Some c -> is_nan (dec_Score c) = false)
              demo_proposals) as Hf.
    { repeat constructor; intros c Hc; vm_compute in Hc; try discriminate Hc; injection Hc as <-; reflexivity. }
    exact (proj1 (Forall_forall _ _) Hf m Hm).
  - exists acc. split; [exact He|exact Hall].
Defined.
