(* ===== verification/ContextCause.v ===== *)
(** * Cancellation with a cause ([internal/appmain/contextcause/contextcause.go])

    The context of a cycle (and of a FetchMatches call): cancelling it records
    the first cause, unless it was already over. The derived context is the
    standard library's: its [Err] is its parent's error once the parent is
    done, [context.Canceled] once its own cancel function was called,
    whichever came first. *)
From S2P Require Export Prelude.

Definition context_Canceled : error := EPlain "context canceled".

(** [context.WithCancel(parent)]: the error it reports, fixed when it is
    done. *)
Definition std_context := option error.
Definition std_cancel (p : std_context) : std_context :=
  match p with Some e => Some e | None => Some context_Canceled end.
Definition std_parent_done (e : error) (p : std_context) : std_context :=
  match p with Some e => Some e | None => Some e end.

Record contextWithCancelCause := mkContext { ctx_Context : std_context; ctx_err : option error }.

(** [parent] is the state of the parent when the context is made. *)
Definition WithCancelCause (parent : option error) : contextWithCancelCause := mkContext parent None.

(** The function [WithCancelCause] returns; the mutex makes it atomic. *)
Definition cancel_cause (err : option error) (ctx : contextWithCancelCause) : contextWithCancelCause :=
  let own := match ctx_err ctx, ctx_Context ctx with
             | None, None => err
             | own, _ => own
             end in
  mkContext (std_cancel (ctx_Context ctx)) own.

Definition Err_ (ctx : contextWithCancelCause) : option error :=
  match ctx_err ctx with
  | None => ctx_Context ctx
  | Some err => Some err
  end.

(** What can happen to it. *)
Inductive context_event := Cancelled_with (err : option error) | ParentDone (e : error).

Definition context_step (ctx : contextWithCancelCause) (ev : context_event) : contextWithCancelCause :=
  match ev with
  | Cancelled_with err => cancel_cause err ctx
  | ParentDone e => mkContext (std_parent_done e (ctx_Context ctx)) (ctx_err ctx)
  end.

Definition context_run (ctx : contextWithCancelCause) (evs : list context_event) : contextWithCancelCause :=
  foldl context_step ctx evs.

(** What the first event makes of a live context. *)
Definition first_cause (ev : context_event) : error :=
  match ev with
  | Cancelled_with (Some e) => e
  | Cancelled_with None => context_Canceled
  | ParentDone e => e
  end.

Lemma err_stays ctx ev e : Err_ ctx = Some e -> Err_ (context_step ctx ev) = Some e.
Proof. destruct ctx as [[|] [|]], ev as [[|]|]; cbn; intros; simplify_eq; done. Qed.

(** The first cause wins and stays: a live context reports no error until
    something happens to it; from then on [Err] is the cause given by the
    first cancellation, or the parent's error if that came first, whatever
    happens later. *)
Theorem first_cause_wins evs :
  Err_ (context_run (WithCancelCause None) evs) = first_cause <$> head evs.
Proof.
  destruct evs as [|ev evs]; [done|]. cbn [head fmap option_fmap option_map].
  assert (Err_ (context_step (WithCancelCause None) ev) = Some (first_cause ev)) as H
    by by destruct ev as [[]|].
  revert H. unfold context_run. cbn [foldl]. generalize (context_step (WithCancelCause None) ev).
  induction evs as [|ev' evs IH]; intros ctx H; [done|]. cbn [foldl]. by apply IH, err_stays.
Qed.
