(* ===== verification/Synchronizer.v ===== *)
(** * The synchronizer's goroutines ([internal/app/synchronizer/synchronizer_service.go])

    A cycle is a pipeline of goroutines on unbuffered channels. Each goroutine
    is a control state with one partial function per channel operation it can
    be waiting in: [None] when it is not. [Cycle.v] composes them; the parts
    that call the state store, and the per-call loop, are here too. *)
From S2P Require Export Store.

Abbreviation callid := nat.

(** [mAndM7c]: a proposal and the response channel of its Synchronize call,
    named by the call. *)
Record mAndM7c := mkMAndM7c { mm_m : Match; mm_m7c : callid }.

(** ** Intervals *)
Section Intervals.
Context (cfg : View).

Definition registrationInterval : Z :=
  if IsSet cfg "registrationInterval" then GetDuration cfg "registrationInterval" else time_Second.

Definition proposalCollectionInterval : Z :=
  if IsSet cfg "proposalCollectionInterval" then GetDuration cfg "proposalCollectionInterval"
  else 10 * time_Second.
End Intervals.

(** ** [cutoffSender] *)

(** The forwarding goroutine: in its select, forwarding to [m2c], or returned
    with [m2c] closed. *)
Inductive cutoff_pc := CutSelect | CutForward (m : mAndM7c) | CutReturned.

Record cutoffSender := mkCutoffSender { closed : bool; cut_pc : cutoff_pc }.

Definition newCutoffSender : cutoffSender := mkCutoffSender false CutSelect.

(** [send], seen from the goroutine: the value is handed over; or it is
    dropped, which takes a closed sender. *)
Definition cutoff_recv (c : cutoffSender) (m : mAndM7c) : option cutoffSender :=
  match cut_pc c with CutSelect => Some (mkCutoffSender (closed c) (CutForward m)) | _ => None end.
Definition cutoff_drop (c : cutoffSender) : bool := closed c.

(** [cutoff]; the [Once] makes it idempotent. *)
Definition cutoff (c : cutoffSender) : cutoffSender := mkCutoffSender true (cut_pc c).

Definition cutoff_send (c : cutoffSender) : option (mAndM7c * cutoffSender) :=
  match cut_pc c with CutForward m => Some (m, mkCutoffSender (closed c) CutSelect) | _ => None end.
Definition cutoff_stop (c : cutoffSender) : option cutoffSender :=
  match cut_pc c with
  | CutSelect => if closed c then Some (mkCutoffSender true CutReturned) else None
  | _ => None
  end.
Definition m2c_closed (c : cutoffSender) : bool :=
  match cut_pc c with CutReturned => true | _ => false end.

(** ** [fanInFanOut] *)

(** In the select; sending on [m3c]; sending an id on a call's [m7c]; in the
    deferred loop that drains [m2c]; returned. [fan_m2c] is [m2c != nil] and
    [m3c_closed] tells whether [m3c] was closed. *)
Inductive fan_pc := FanSelect | FanSend3 (m : Match) | FanSend7 (k : callid) (id : string) | FanDrain | FanReturned.

Record fan := mkFan { m7cMap : gmap string callid; fan_m2c : bool; m3c_closed : bool; f_pc : fan_pc }.

Definition fanInFanOut : fan := mkFan ∅ true false FanSelect.

Definition fan_goto (f : fan) (pc : fan_pc) : fan := mkFan (m7cMap f) (fan_m2c f) (m3c_closed f) pc.

Definition fan_recv2 (f : fan) (m2 : mAndM7c) : option fan :=
  match f_pc f with
  | FanSelect =>
      if fan_m2c f then
        Some (mkFan (<[m_MatchId (mm_m m2) := mm_m7c m2]> (m7cMap f)) true (m3c_closed f) (FanSend3 (mm_m m2)))
      else None
  | FanDrain => Some f
  | _ => None
  end.
Definition fan_closed2 (f : fan) : option fan :=
  match f_pc f with
  | FanSelect => if fan_m2c f then Some (mkFan (m7cMap f) false true FanSelect) else None
  | FanDrain => Some (fan_goto f FanReturned)
  | _ => None
  end.
Definition fan_send3 (f : fan) : option (Match * fan) :=
  match f_pc f with FanSend3 m => Some (m, fan_goto f FanSelect) | _ => None end.
Definition fan_recv6 (f : fan) (m5 : string) : option fan :=
  match f_pc f with
  | FanSelect =>
      Some (match m7cMap f !! m5 with
            | Some k => fan_goto f (FanSend7 k m5)
            | None => f
            end)
  | _ => None
  end.
Definition fan_closed6 (f : fan) : option fan :=
  match f_pc f with FanSelect => Some (fan_goto f FanDrain) | _ => None end.
Definition fan_send7 (f : fan) : option (callid * string * fan) :=
  match f_pc f with FanSend7 k id => Some (k, id, fan_goto f FanSelect) | _ => None end.

(** ** [cacheMatchIDToTicketIDs] *)

Definition getTicketIds (tickets : list Ticket) : list string :=
  foldl (fun tids ticket => tids ++ [t_Id ticket]) [] tickets.

(** Receiving from [m3c]; sending on [m4c]; returned with [m4c] closed. The
    map is shared with [addMatchesToPendingRelease]. *)
Inductive cache_pc := CacheRecv | CacheSend (m : Match) | CacheReturned.

Record ticket_cache := mkTicketCache { matchTickets : gmap string (list string); c_pc : cache_pc }.

Definition cacheMatchIDToTicketIDs : ticket_cache := mkTicketCache ∅ CacheRecv.

Definition cache_recv3 (c : ticket_cache) (m : Match) : option ticket_cache :=
  match c_pc c with
  | CacheRecv => Some (mkTicketCache (<[m_MatchId m := getTicketIds (m_Tickets m)]> (matchTickets c)) (CacheSend m))
  | _ => None
  end.
Definition cache_closed3 (c : ticket_cache) : option ticket_cache :=
  match c_pc c with CacheRecv => Some (mkTicketCache (matchTickets c) CacheReturned) | _ => None end.
Definition cache_send4 (c : ticket_cache) : option (Match * ticket_cache) :=
  match c_pc c with CacheSend m => Some (m, mkTicketCache (matchTickets c) CacheRecv) | _ => None end.

(** ** [bufferMatchChannel] and [bufferStringChannel]

    The same code at two types: waiting for a first element; holding a
    non-empty slice in the inner select; the input closed, the last slice
    still to send; the output closed. *)
Inductive buffer (A : Type) := BufFirst | BufHold (a : list A) | BufLast (a : list A) | BufClosed.
Arguments BufFirst {A}. Arguments BufHold {A} a. Arguments BufLast {A} a. Arguments BufClosed {A}.

Section Buffer.
Context {A : Type}.
Implicit Types b : buffer A.

Definition buf_recv b (x : A) : option (buffer A) :=
  match b with
  | BufFirst => Some (BufHold [x])
  | BufHold a => Some (BufHold (a ++ [x]))
  | _ => None
  end.
Definition buf_in_closed b : option (buffer A) :=
  match b with
  | BufFirst => Some BufClosed
  | BufHold a => Some (BufLast a)
  | _ => None
  end.
Definition buf_send b : option (list A * buffer A) :=
  match b with
  | BufHold a => Some (a, BufFirst)
  | BufLast a => Some (a, BufClosed)
  | _ => None
  end.
Definition buf_out_closed b : bool := match b with BufClosed => true | _ => false end.

(** What is in the buffer. *)
Definition buf_held b : list A := match b with BufHold a | BufLast a => a | _ => [] end.

(** The input was seen closed. *)
Definition buf_past b : bool := match b with BufLast _ | BufClosed => true | _ => false end.

Lemma buf_recv_held b x b' : buf_recv b x = Some b' -> buf_held b' = buf_held b ++ [x].
Proof. by destruct b; intros; simplify_eq/=. Qed.
Lemma buf_in_closed_held b b' : buf_in_closed b = Some b' -> buf_held b' = buf_held b.
Proof. by destruct b; intros; simplify_eq/=. Qed.
Lemma buf_send_held b a b' : buf_send b = Some (a, b') -> buf_held b = a /\ buf_held b' = [].
Proof. by destruct b; intros; simplify_eq/=. Qed.

Lemma buf_recv_past b x b' : buf_recv b x = Some b' -> buf_past b = false /\ buf_past b' = false.
Proof. by destruct b; intros; simplify_eq/=. Qed.
Lemma buf_in_closed_past b b' : buf_in_closed b = Some b' -> buf_past b = false /\ buf_past b' = true.
Proof. by destruct b; intros; simplify_eq/=. Qed.
Lemma buf_send_past b a b' : buf_send b = Some (a, b') -> buf_past b' = buf_past b /\ buf_out_closed b = false.
Proof. by destruct b; intros; simplify_eq/=. Qed.
Lemma buf_out_closed_past b : buf_out_closed b = true -> buf_past b = true.
Proof. by destruct b. Qed.
Lemma buf_before b : buf_past b = false ->
  (forall x, is_Some (buf_recv b x)) /\ is_Some (buf_in_closed b).
Proof. destruct b; cbn; intros; try done; eauto. Qed.
Lemma buf_after b : buf_past b = true -> buf_out_closed b = true \/ is_Some (buf_send b).
Proof. destruct b; cbn; intros; try done; eauto. Qed.
End Buffer.

Definition bufferMatchChannel : buffer Match := BufFirst.
Definition bufferStringChannel : buffer string := BufFirst.

(** ** [addMatchesToPendingRelease] *)
Section AddMatches.
Context `{Proto} (store : Service).

(** The tickets of a slice of match ids; an id that is not in the map is
    only logged. *)
Definition release_ids (m : gmap string (list string)) (mIDs : list string) : list string :=
  foldl (fun ids mID => match m !! mID with Some tids => ids ++ tids | None => ids end) [] mIDs.

Record add_counts := mkAddCounts { totalMatches : Z; successfulMatches : Z; lastErr : option error }.

(** What is counted once the store has answered for a slice. *)
Definition add_answer (mIDs : list string) (r : result unit) (s : add_counts) : add_counts :=
  let n := Z.of_nat (length mIDs) in
  mkAddCounts (totalMatches s + n)
    (match r with Ok _ => successfulMatches s + n | Err _ => successfulMatches s end)
    (match r with Ok _ => lastErr s | Err e => Some e end).

(** The cause the cycle is cancelled with after the loop. *)
Definition add_cancel (s : add_counts) : option error :=
  match lastErr s with
  | Some err =>
      if successfulMatches s =? 0 then
        Some (EWrap "no matches successfully added to the pending release.  Last error" err)
      else None
  | None => None
  end.

(** The counters and the ids sent on [m6c]. *)
Record add_state := mkAddState { counts : add_counts; m6c : list string }.

(** One slice: its tickets are added, its ids are sent on [m6c] whatever
    the store answered. *)
Definition add_slice (m : gmap string (list string)) (mIDs : list string) (s : add_state) : prog add_state :=
  r ←! svc_AddTicketsToPendingRelease store (release_ids m mIDs);
  Ret (mkAddState (add_answer mIDs r (counts s)) (m6c s ++ mIDs)).

(** The slices received on [m5c] until it is closed; with each the map as it
    is when the slice is handled. *)
Fixpoint add_slices (m5c : list (gmap string (list string) * list string)) (s : add_state) : prog add_state :=
  match m5c with
  | [] => Ret s
  | (m, mIDs) :: m5c => s ←! add_slice m mIDs s; add_slices m5c s
  end.

(** The ids sent on [m6c] and the cause the cycle is cancelled with. *)
Definition addMatchesToPendingRelease (m5c : list (gmap string (list string) * list string)) :
    prog (list string * option error) :=
  s ←! add_slices m5c (mkAddState (mkAddCounts 0 0 None) []);
  Ret (m6c s, add_cancel (counts s)).
End AddMatches.

(** [wrapEvaluator]: the cause the cycle is cancelled with; [m5c] is closed
    in either case. *)
Definition wrapEvaluator (r : result unit) : option error :=
  match r with Ok _ => None | Err err => Some (EWrap "error calling evaluator" err) end.

(** ** [Synchronize] *)

(** What the loop of [Synchronize] can be woken by, and the outcome of the
    stream call it makes then (of the [n]-th send of a slice). *)
Inductive sync_event :=
| SyncMatches (mIDs : list string) (send_err : nat -> option error)
| SyncBufferClosed (cycle_err : option error)
| SyncCancelMmfs (send_err : option error)
| SyncContextDone (err : error)
| SyncCycleDone (err : error).

(** [for _, mID := range mIDs { stream.Send(...) }]. *)
Fixpoint send_ids (mIDs : list string) (send_err : nat -> option error) (n : nat) :
    list SynchronizeResponse * option error :=
  match mIDs with
  | [] => ([], None)
  | mID :: mIDs =>
      match send_err n with
      | Some e => ([], Some e)
      | None => let '(rs, e) := send_ids mIDs send_err (S n) in (mkSynchronizeResponse false false mID :: rs, e)
      end
  end.

(** One turn of the loop: the responses sent and, if it returns, with what. *)
Definition sync_turn (ev : sync_event) : list SynchronizeResponse * option (result unit) :=
  match ev with
  | SyncMatches mIDs send_err =>
      let '(rs, e) := send_ids mIDs send_err O in (rs, Err <$> e)
  | SyncBufferClosed None => ([], Some (Ok tt))
  | SyncBufferClosed (Some e) => ([], Some (Err e))
  | SyncCancelMmfs None => ([mkSynchronizeResponse false true ""], None)
  | SyncCancelMmfs (Some e) => ([], Some (Err e))
  | SyncContextDone e | SyncCycleDone e => ([], Some (Err e))
  end.

Fixpoint sync_loop (evs : list sync_event) : list SynchronizeResponse * option (result unit) :=
  match evs with
  | [] => ([], None)
  | ev :: evs =>
      let '(rs, r) := sync_turn ev in
      match r with
      | Some _ => (rs, r)
      | None => let '(rs', r) := sync_loop evs in (rs ++ rs', r)
      end
  end.

(** The responses of a call and its result, if it has returned. *)
Definition Synchronize (start_err : option error) (evs : list sync_event) :
    list SynchronizeResponse * option (result unit) :=
  match start_err with
  | Some e => ([], Some (Err e))
  | None => let '(rs, r) := sync_loop evs in (mkSynchronizeResponse true false "" :: rs, r)
  end.
