(* ===== verification/Cycle.v ===== *)
(** * A synchronization cycle ([runCycle] and the calls registered with it)

    The goroutines of [Synchronizer.v] composed into one step relation: a
    step is a rendezvous on a channel, the observation of a closed channel, or
    a local action of one goroutine. [internal_step] are the steps the
    goroutines take on their own, with whatever the state store answers;
    [env_step] those that wait for the outside: callers, timers and the
    evaluator. The cycle ends with the sweep of expired backfills, on a context
    that may have been cancelled by then. *)
From S2P Require Export ContextCause Synchronizer.

(** ** State *)

(** A registered Synchronize call: its receiving goroutine still sends (the
    WaitGroup counts it); [m7c] is closed; its [bufferStringChannel]; its loop
    streams, or has returned and the deferred loop drains the buffer; the ids
    streamed so far; [cancelMmfs] holds its signal. *)
Record call := mkCall {
  cl_sending : bool; m7c_closed : bool; m6cBuffer : buffer string;
  cl_streaming : bool; cl_out : list string; cancelMmfs : bool;
}.

Definition new_call : call := mkCall true false bufferStringChannel true [] false.

(** The evaluator's side of [wrapEvaluator]: what it was given, whether its
    input was seen closed, what it returned on [m5c], whether it returned. *)
Record evaluation := mkEvaluation {
  ev_seen : list Match; ev_in_closed : bool; ev_out : list string; ev_returned : bool;
}.

(** [addMatchesToPendingRelease]: receiving a slice, calling the store with
    it, sending its ids on [m6c], returned with [m6c] closed. *)
Inductive add_pc := AddRecv | AddCall (mIDs : list string) | AddSend (mIDs : list string) | AddReturned.

(** The goroutine of [runCycle] itself: in the registration period; waiting
    on [closedOnCycleEnd]; past [CleanupBackfills], which was called when the
    context of the cycle reported [swept]. *)
Inductive run_pc := RunRegister | RunWait | RunReturned (swept : option error).

(** A call of [AddTicketsToPendingRelease]: the slice it was for, the tickets
    it was given and what it answered. *)
Record store_call := mkStoreCall { sc_mIDs : list string; sc_tickets : list string; sc_answer : result unit }.

Record cycle := mkCycle {
  cy_run : run_pc;
  calls : gmap callid call;
  cy_cut : cutoffSender;
  cy_fan : fan;
  cy_cache : ticket_cache;
  cy_m4c : buffer Match;      (* bufferMatchChannel(m4c) *)
  cy_eval : evaluation;
  cy_m5c : buffer string;     (* bufferStringChannel(m5c) *)
  cy_add : add_pc;
  cy_ctx : contextWithCancelCause;
  sent : list mAndM7c;        (* history: the proposals passed on m1c *)
  adds : list store_call;     (* history: the calls of the state store *)
}.

Definition runCycle : cycle :=
  mkCycle RunRegister ∅ newCutoffSender fanInFanOut cacheMatchIDToTicketIDs bufferMatchChannel
    (mkEvaluation [] false [] false) bufferStringChannel AddRecv (WithCancelCause None) [] [].

(** The registration period is not over. *)
Definition registering (s : cycle) : bool := match cy_run s with RunRegister => true | _ => false end.

(** The tickets given to [AddTicketsToPendingRelease]. *)
Definition released (s : cycle) : list string := concat (sc_tickets <$> adds s).

(** What the loop of [addMatchesToPendingRelease] has counted. *)
Definition cy_counts (s : cycle) : add_counts :=
  foldl (fun c a => add_answer (sc_mIDs a) (sc_answer a) c) (mkAddCounts 0 0 None) (adds s).

Definition set_run (x : run_pc) (s : cycle) : cycle :=
  mkCycle x (calls s) (cy_cut s) (cy_fan s) (cy_cache s) (cy_m4c s) (cy_eval s) (cy_m5c s) (cy_add s)
    (cy_ctx s) (sent s) (adds s).
Definition set_calls (x : gmap callid call) (s : cycle) : cycle :=
  mkCycle (cy_run s) x (cy_cut s) (cy_fan s) (cy_cache s) (cy_m4c s) (cy_eval s) (cy_m5c s) (cy_add s)
    (cy_ctx s) (sent s) (adds s).
Definition set_call (k : callid) (c : call) (s : cycle) : cycle := set_calls (<[k := c]> (calls s)) s.
Definition set_cut (x : cutoffSender) (s : cycle) : cycle :=
  mkCycle (cy_run s) (calls s) x (cy_fan s) (cy_cache s) (cy_m4c s) (cy_eval s) (cy_m5c s) (cy_add s)
    (cy_ctx s) (sent s) (adds s).
Definition set_fan (x : fan) (s : cycle) : cycle :=
  mkCycle (cy_run s) (calls s) (cy_cut s) x (cy_cache s) (cy_m4c s) (cy_eval s) (cy_m5c s) (cy_add s)
    (cy_ctx s) (sent s) (adds s).
Definition set_cache (x : ticket_cache) (s : cycle) : cycle :=
  mkCycle (cy_run s) (calls s) (cy_cut s) (cy_fan s) x (cy_m4c s) (cy_eval s) (cy_m5c s) (cy_add s)
    (cy_ctx s) (sent s) (adds s).
Definition set_m4c (x : buffer Match) (s : cycle) : cycle :=
  mkCycle (cy_run s) (calls s) (cy_cut s) (cy_fan s) (cy_cache s) x (cy_eval s) (cy_m5c s) (cy_add s)
    (cy_ctx s) (sent s) (adds s).
Definition set_eval (x : evaluation) (s : cycle) : cycle :=
  mkCycle (cy_run s) (calls s) (cy_cut s) (cy_fan s) (cy_cache s) (cy_m4c s) x (cy_m5c s) (cy_add s)
    (cy_ctx s) (sent s) (adds s).
Definition set_m5c (x : buffer string) (s : cycle) : cycle :=
  mkCycle (cy_run s) (calls s) (cy_cut s) (cy_fan s) (cy_cache s) (cy_m4c s) (cy_eval s) x (cy_add s)
    (cy_ctx s) (sent s) (adds s).
Definition set_add (x : add_pc) (s : cycle) : cycle :=
  mkCycle (cy_run s) (calls s) (cy_cut s) (cy_fan s) (cy_cache s) (cy_m4c s) (cy_eval s) (cy_m5c s) x
    (cy_ctx s) (sent s) (adds s).
Definition set_ctx (x : contextWithCancelCause) (s : cycle) : cycle :=
  mkCycle (cy_run s) (calls s) (cy_cut s) (cy_fan s) (cy_cache s) (cy_m4c s) (cy_eval s) (cy_m5c s) (cy_add s)
    x (sent s) (adds s).
Definition set_sent (x : list mAndM7c) (s : cycle) : cycle :=
  mkCycle (cy_run s) (calls s) (cy_cut s) (cy_fan s) (cy_cache s) (cy_m4c s) (cy_eval s) (cy_m5c s) (cy_add s)
    (cy_ctx s) x (adds s).
Definition set_adds (x : list store_call) (s : cycle) : cycle :=
  mkCycle (cy_run s) (calls s) (cy_cut s) (cy_fan s) (cy_cache s) (cy_m4c s) (cy_eval s) (cy_m5c s) (cy_add s)
    (cy_ctx s) (sent s) x.

(** [cancel(cause)], when there is one. *)
Definition cancelled (cause : option error) (s : cycle) : cycle :=
  set_ctx (match cause with None => cy_ctx s | Some _ => cancel_cause cause (cy_ctx s) end) s.

Definition call_buffer (b : buffer string) (c : call) : call :=
  mkCall (cl_sending c) (m7c_closed c) b (cl_streaming c) (cl_out c) (cancelMmfs c).
Definition call_close (c : call) : call :=
  mkCall (cl_sending c) true (m6cBuffer c) (cl_streaming c) (cl_out c) (cancelMmfs c).
Definition call_done (c : call) : call :=
  mkCall false (m7c_closed c) (m6cBuffer c) (cl_streaming c) (cl_out c) (cancelMmfs c).
Definition call_return (c : call) : call :=
  mkCall (cl_sending c) (m7c_closed c) (m6cBuffer c) false (cl_out c) (cancelMmfs c).
Definition call_cancel (c : call) : call :=
  mkCall (cl_sending c) (m7c_closed c) (m6cBuffer c) (cl_streaming c) (cl_out c) true.
(** The loop takes a slice off the buffer: its ids are streamed, or dropped
    once the call has returned. *)
Definition call_take (ids : list string) (b : buffer string) (c : call) : call :=
  mkCall (cl_sending c) (m7c_closed c) b (cl_streaming c)
    (if cl_streaming c then cl_out c ++ ids else cl_out c) (cancelMmfs c).

(** ** Steps *)

Definition callers_done : error := EPlain "canceled because all callers were done".

Inductive internal_step (s : cycle) : cycle -> Prop :=
  (* allM1cSent.Wait(); m1c.cutoff() *)
| int_all_sent : registering s = false -> closed (cy_cut s) = false ->
    (forall k c, calls s !! k = Some c -> cl_sending c = false) ->
    internal_step s (set_cut (cutoff (cy_cut s)) s)
| int_cut_stop c : cutoff_stop (cy_cut s) = Some c -> internal_step s (set_cut c s)
  (* m2c *)
| int_m2c m c f : cutoff_send (cy_cut s) = Some (m, c) -> fan_recv2 (cy_fan s) m = Some f ->
    internal_step s (set_fan f (set_cut c s))
| int_m2c_closed f : m2c_closed (cy_cut s) = true -> fan_closed2 (cy_fan s) = Some f ->
    internal_step s (set_fan f s)
  (* m3c *)
| int_m3c m f c : fan_send3 (cy_fan s) = Some (m, f) -> cache_recv3 (cy_cache s) m = Some c ->
    internal_step s (set_cache c (set_fan f s))
| int_m3c_closed c : m3c_closed (cy_fan s) = true -> cache_closed3 (cy_cache s) = Some c ->
    internal_step s (set_cache c s)
  (* m4c *)
| int_m4c m c b : cache_send4 (cy_cache s) = Some (m, c) -> buf_recv (cy_m4c s) m = Some b ->
    internal_step s (set_m4c b (set_cache c s))
| int_m4c_closed b : c_pc (cy_cache s) = CacheReturned -> buf_in_closed (cy_m4c s) = Some b ->
    internal_step s (set_m4c b s)
  (* m5c *)
| int_m5c_closed b : ev_returned (cy_eval s) = true -> buf_in_closed (cy_m5c s) = Some b ->
    internal_step s (set_m5c b s)
| int_slice mIDs b : buf_send (cy_m5c s) = Some (mIDs, b) -> cy_add s = AddRecv ->
    internal_step s (set_add (AddCall mIDs) (set_m5c b s))
  (* the store may answer anything *)
| int_add_call mIDs r : cy_add s = AddCall mIDs ->
    internal_step s (set_add (AddSend mIDs)
      (set_adds (adds s ++ [mkStoreCall mIDs (release_ids (matchTickets (cy_cache s)) mIDs) r]) s))
| int_add_next : cy_add s = AddSend [] -> internal_step s (set_add AddRecv s)
| int_add_return : buf_out_closed (cy_m5c s) = true -> cy_add s = AddRecv ->
    internal_step s (set_add AddReturned (cancelled (add_cancel (cy_counts s)) s))
  (* <-closedOnCycleEnd; CleanupBackfills(ctx) *)
| int_sweep : cy_run s = RunWait -> cy_add s = AddReturned ->
    internal_step s (set_run (RunReturned (Err_ (cy_ctx s))) s)
  (* m6c *)
| int_m6c id mIDs f : cy_add s = AddSend (id :: mIDs) -> fan_recv6 (cy_fan s) id = Some f ->
    internal_step s (set_fan f (set_add (AddSend mIDs) s))
| int_m6c_closed f : cy_add s = AddReturned -> fan_closed6 (cy_fan s) = Some f -> internal_step s (set_fan f s)
  (* m7c *)
| int_m7c k id f c b : fan_send7 (cy_fan s) = Some (k, id, f) -> calls s !! k = Some c -> m7c_closed c = false ->
    buf_recv (m6cBuffer c) id = Some b ->
    internal_step s (set_call k (call_buffer b c) (set_fan f s))
| int_m7c_close k c : f_pc (cy_fan s) = FanReturned -> calls s !! k = Some c -> m7c_closed c = false ->
    internal_step s (set_call k (call_close c) s)
| int_m7c_closed k c b : calls s !! k = Some c -> m7c_closed c = true -> buf_in_closed (m6cBuffer c) = Some b ->
    internal_step s (set_call k (call_buffer b c) s)
| int_take k c ids b : calls s !! k = Some c -> buf_send (m6cBuffer c) = Some (ids, b) ->
    internal_step s (set_call k (call_take ids b c) s).

Section Env.
(** What the evaluator may return, given what it has been sent, whether its
    input is closed and what it has returned before. *)
Context (emits : list Match -> bool -> list string -> string -> Prop).

Inductive env_step (s : cycle) : cycle -> Prop :=
| env_register k : registering s = true -> calls s !! k = None -> env_step s (set_call k new_call s)
  (* closeRegistration *)
| env_registered : registering s = true -> env_step s (set_run RunWait s)
  (* registration.m1c.send *)
| env_m1c k c m cut : calls s !! k = Some c -> cl_sending c = true ->
    cutoff_recv (cy_cut s) (mkMAndM7c m k) = Some cut ->
    env_step s (set_sent (sent s ++ [mkMAndM7c m k]) (set_cut cut s))
| env_drop k c : calls s !! k = Some c -> cl_sending c = true -> cutoff_drop (cy_cut s) = true -> env_step s s
  (* allM1cSent.Done *)
| env_done k c : calls s !! k = Some c -> cl_sending c = true -> env_step s (set_call k (call_done c) s)
  (* the proposal collection timer *)
| env_timeout : registering s = false ->
    env_step s (set_calls (call_cancel <$> calls s) (set_cut (cutoff (cy_cut s)) s))
  (* all callers are done; their contexts belong to the outside *)
| env_callers_done : registering s = false -> env_step s (cancelled (Some callers_done) s)
  (* Synchronize returns early: its context or the cycle's is done, or a send fails *)
| env_call_return k c : calls s !! k = Some c -> env_step s (set_call k (call_return c) s)
  (* a send of a slice fails: the call returns after the first [n] *)
| env_send_error k c ids b n : calls s !! k = Some c -> buf_send (m6cBuffer c) = Some (ids, b) ->
    env_step s (set_call k (call_return (call_take (take n ids) b c)) s)
  (* the evaluator *)
| env_eval_read ms b : ev_returned (cy_eval s) = false -> buf_send (cy_m4c s) = Some (ms, b) ->
    env_step s (set_eval (mkEvaluation (ev_seen (cy_eval s) ++ ms) (ev_in_closed (cy_eval s)) (ev_out (cy_eval s)) false)
                  (set_m4c b s))
| env_eval_closed : ev_returned (cy_eval s) = false -> buf_out_closed (cy_m4c s) = true ->
    env_step s (set_eval (mkEvaluation (ev_seen (cy_eval s)) true (ev_out (cy_eval s)) false) s)
| env_eval_emit id b : ev_returned (cy_eval s) = false ->
    emits (ev_seen (cy_eval s)) (ev_in_closed (cy_eval s)) (ev_out (cy_eval s)) id ->
    buf_recv (cy_m5c s) id = Some b ->
    env_step s (set_eval (mkEvaluation (ev_seen (cy_eval s)) (ev_in_closed (cy_eval s)) (ev_out (cy_eval s) ++ [id]) false)
                  (set_m5c b s))
| env_eval_return r : ev_returned (cy_eval s) = false ->
    env_step s (set_eval (mkEvaluation (ev_seen (cy_eval s)) (ev_in_closed (cy_eval s)) (ev_out (cy_eval s)) true)
                  (cancelled (wrapEvaluator r) s)).

Inductive cycle_step (s s' : cycle) : Prop :=
| cycle_internal : internal_step s s' -> cycle_step s s'
| cycle_env : env_step s s' -> cycle_step s s'.

Inductive cycle_reachable : cycle -> Prop :=
| cycle_start : cycle_reachable runCycle
| cycle_next s s' : cycle_reachable s -> cycle_step s s' -> cycle_reachable s'.
End Env.

(** ** Where the ids come from *)

Definition sent_by (s : cycle) (k : callid) (id : string) : Prop :=
  exists m, mkMAndM7c m k ∈ sent s /\ m_MatchId m = id.

(** The tickets of the match are in the map. *)
Definition known (s : cycle) (id : string) : Prop := is_Some (matchTickets (cy_cache s) !! id).

(** The evaluator returned the id and the tickets of a proposal with this id
    were given to [AddTicketsToPendingRelease]. *)
Definition accepted (s : cycle) (id : string) : Prop :=
  id ∈ ev_out (cy_eval s) /\ known s id /\
  exists mm, mm ∈ sent s /\ m_MatchId (mm_m mm) = id /\ forall t, t ∈ t_Id <$> m_Tickets (mm_m mm) -> t ∈ released s.

(** The evaluator returned the id of a match whose tickets are in the map. *)
Definition listed (s : cycle) (id : string) : Prop := known s id /\ id ∈ ev_out (cy_eval s).

(** What holds of every id on its way to call [k]. *)
Definition due (s : cycle) (k : callid) (id : string) : Prop := sent_by s k id /\ accepted s id.

Record routing (s : cycle) : Prop := {
  rt_cut m : cut_pc (cy_cut s) = CutForward m -> m ∈ sent s;
  rt_map id k : m7cMap (cy_fan s) !! id = Some k -> sent_by s k id;
  rt_fan3 m : f_pc (cy_fan s) = FanSend3 m -> exists k, mkMAndM7c m k ∈ sent s;
  rt_fan7 k id : f_pc (cy_fan s) = FanSend7 k id -> due s k id;
  rt_tickets id tids : matchTickets (cy_cache s) !! id = Some tids ->
    exists mm, mm ∈ sent s /\ m_MatchId (mm_m mm) = id /\ tids = t_Id <$> m_Tickets (mm_m mm);
  rt_cache m : c_pc (cy_cache s) = CacheSend m -> known s (m_MatchId m);
  rt_m4c m : m ∈ buf_held (cy_m4c s) -> known s (m_MatchId m);
  rt_seen m : m ∈ ev_seen (cy_eval s) -> known s (m_MatchId m);
  rt_m5c id : id ∈ buf_held (cy_m5c s) -> listed s id;
  rt_call mIDs id : cy_add s = AddCall mIDs -> id ∈ mIDs -> listed s id;
  rt_send mIDs id : cy_add s = AddSend mIDs -> id ∈ mIDs -> accepted s id;
  rt_out k c id : calls s !! k = Some c -> id ∈ buf_held (m6cBuffer c) \/ id ∈ cl_out c -> due s k id;
}.

(** What a step can only add to. *)
Record grows (s s' : cycle) : Prop := {
  gr_sent : sent s ⊆ sent s';
  gr_released : released s ⊆ released s';
  gr_out : ev_out (cy_eval s) ⊆ ev_out (cy_eval s');
  gr_known id : known s id -> known s' id;
}.

Lemma sent_by_grows s s' k id : grows s s' -> sent_by s k id -> sent_by s' k id.
Proof. intros [] (m & ? & ?). exists m. auto. Qed.

Lemma accepted_grows s s' id : grows s s' -> accepted s id -> accepted s' id.
Proof. intros [] (? & ? & mm & ? & ? & ?). split_and!; [auto..|]. exists mm. auto. Qed.

Lemma listed_grows s s' id : grows s s' -> listed s id -> listed s' id.
Proof. intros [] []. split; auto. Qed.

Lemma due_grows s s' k id : grows s s' -> due s k id -> due s' k id.
Proof. intros G []. split; eauto using sent_by_grows, accepted_grows. Qed.

Lemma getTicketIds_fmap ts : getTicketIds ts = t_Id <$> ts.
Proof.
  unfold getTicketIds. enough (forall acc, foldl (fun tids t => tids ++ [t_Id t]) acc ts = acc ++ (t_Id <$> ts)) as ->; [done|].
  induction ts as [|t ts IH]; intros acc; cbn; [by rewrite app_nil_r|]. by rewrite IH, <- app_assoc.
Qed.

Lemma release_ids_concat m ids : release_ids m ids = concat (omap (fun id => m !! id) ids).
Proof.
  unfold release_ids. set (f := fun _ _ => _).
  enough (forall acc, foldl f acc ids = acc ++ concat (omap (fun id => m !! id) ids)) as ->; [done|].
  induction ids as [|i ids IH]; intros acc; cbn; [by rewrite app_nil_r|].
  rewrite IH. unfold f. destruct (m !! i); cbn; [by rewrite app_assoc|done].
Qed.

Lemma elem_of_release_ids m ids id tids t : id ∈ ids -> m !! id = Some tids -> t ∈ tids -> t ∈ release_ids m ids.
Proof.
  intros Hid Hm Ht. rewrite release_ids_concat. apply elem_of_concat. exists tids. split; [|done].
  apply list_elem_of_omap. eauto.
Qed.

(** Read off the control states a step takes; of a buffer, what it holds. *)
Ltac channels :=
  unfold cutoff_recv, cutoff_drop, cutoff_send, cutoff_stop, m2c_closed, fan_recv2, fan_closed2, fan_send3,
    fan_recv6, fan_closed6, fan_send7, fan_goto, cache_recv3, cache_closed3, cache_send4 in *; cbn in *;
  repeat match goal with
  | H : Some _ = Some _ |- _ => injection H as H; try subst
  | H : context [match ?x with _ => _ end] |- _ => is_var x; destruct x; simplify_eq/=
  | H : context [if ?x then _ else _] |- _ => is_var x; destruct x; simplify_eq/=
  | H : context [match ?m !! ?i with _ => _ end] |- _ => destruct (m !! i) eqn:?; simplify_eq/=
  end; simplify_eq/=.

Lemma grows_refl s s' : sent s' = sent s -> released s' = released s -> ev_out (cy_eval s') = ev_out (cy_eval s) ->
  matchTickets (cy_cache s') = matchTickets (cy_cache s) -> grows s s'.
Proof. intros Hs Hr He Hm. split; unfold known; rewrite ?Hs, ?Hr, ?He, ?Hm; done. Qed.

Lemma internal_grows s s' : internal_step s s' -> grows s s'.
Proof.
  destruct s as [rg cs [] [] [] b4 [] b5 ad cx st ads].
  destruct 1; cbn in *; channels; try by apply grows_refl.
  - (* m3c *) split; unfold known; cbn; [done..|]. intros id. rewrite is_Some_insert. auto.
  - (* add_call *) split; unfold known, released; cbn; [done| |done..]. rewrite fmap_app, concat_app. set_solver.
Qed.

Lemma env_grows emits s s' : env_step emits s s' -> grows s s'.
Proof.
  destruct 1; try by apply grows_refl.
  - split; cbn; [set_solver|done..].
  - split; cbn; [done|done|set_solver|done].
Qed.

Lemma routing_init : routing runCycle.
Proof. split; cbn; try done; intros; simplify_map_eq; set_solver. Qed.

(** A fact about the old state, carried over. *)
Ltac carry G :=
  match goal with
  | |- sent_by _ _ _ => eapply sent_by_grows; [exact G|]
  | |- accepted _ _ => eapply accepted_grows; [exact G|]
  | |- known _ _ => apply (gr_known _ _ G)
  | |- listed _ _ => eapply listed_grows; [exact G|]
  | |- due _ _ _ => eapply due_grows; [exact G|]
  | _ => idtac
  end.

Ltac lookups :=
  repeat (match goal with
  | H : <[?k := _]> _ !! _ = Some _ |- _ => apply lookup_insert_Some in H as [[? ?]|[? H]]; subst
  | H : (call_cancel <$> _) !! _ = Some _ |- _ => apply lookup_fmap_Some in H as (? & ? & H); subst
  | H : _ ∈ _ ++ _ |- _ => apply elem_of_app in H as [H|H]
  | H : _ ∈ [_] |- _ => apply list_elem_of_singleton in H; subst
  | H : _ ∈ [] |- _ => by apply not_elem_of_nil in H
  | H : _ ∈ take _ _ |- _ => apply elem_of_take in H as (? & H & _); apply list_elem_of_lookup_2 in H
  | H : context [if cl_streaming ?c then _ else _] |- _ => destruct (cl_streaming c)
  | H : _ \/ _ |- _ => destruct H as [H|H]
  | H : buf_held ?b = _, Hx : _ ∈ buf_held ?b |- _ => rewrite H in Hx
  end; cbn in *).

Ltac held :=
  repeat match goal with
  | H : buf_recv _ _ = Some _ |- _ => apply buf_recv_held in H
  | H : buf_in_closed _ = Some _ |- _ => apply buf_in_closed_held in H
  | H : buf_send _ = Some (_, _) |- _ => apply buf_send_held in H as [<- H]
  end.

Ltac route G :=
  split; cbn in *; intros; lookups; simplify_eq/=;
  try solve [carry G; eauto 4 using list_elem_of_here, list_elem_of_further].

(** The tickets of a listed match, once given to the store. *)
Lemma listed_accepted s mIDs r id :
  routing s -> listed s id -> id ∈ mIDs ->
  accepted (set_adds (adds s ++ [mkStoreCall mIDs (release_ids (matchTickets (cy_cache s)) mIDs) r]) s) id.
Proof.
  intros R [[tids Hk] Ho] Hid. split_and!; [done|by exists tids|].
  destruct (rt_tickets _ R _ _ Hk) as (mm & Hmm & Hm & ->). exists mm. split_and!; [done..|].
  intros t Ht. unfold released. cbn. rewrite fmap_app, concat_app. cbn. rewrite app_nil_r.
  apply elem_of_app. right. by eapply elem_of_release_ids.
Qed.

Lemma routing_internal s s' : routing s -> internal_step s s' -> routing s'.
Proof.
  intros R Hs. pose proof (internal_grows s s' Hs) as G. pose proof (listed_accepted s) as Hacc.
  pose proof R as []. destruct s as [rg cs [] [] [] b4 [] b5 ad cx st ads].
  destruct Hs; cbn in *; channels; held; route G.
  - exists (mm_m m). destruct m. split; [by apply (rt_cut _ R)|done].
  - exists (mm_m7c m). destruct m. by apply (rt_cut _ R).
  - destruct (rt_fan3 _ R _ eq_refl) as [k Hk]. exists (mkMAndM7c m k). by rewrite getTicketIds_fmap.
  - unfold known. cbn. rewrite lookup_insert_eq. eauto.
  - apply Hacc; [done| |done]. by eapply (rt_call _ R).
  - (* m6c *) eapply due_grows; [exact G|]. split; [by eapply (rt_map _ R)|]. by eapply (rt_send _ R); [|left].
Qed.

Lemma routing_env emits s s' :
  (forall seen cl out id, emits seen cl out id -> exists m, m ∈ seen /\ m_MatchId m = id) ->
  routing s -> env_step emits s s' -> routing s'.
Proof.
  intros Hh R Hs. pose proof (env_grows _ s s' Hs) as G. pose proof R as [].
  destruct Hs; cbn in *; channels; held; route G.
  - destruct (cut_pc (cy_cut s)); simplify_eq/=. apply elem_of_app. by right; left.
  - destruct (rt_fan3 _ R _ H2) as [k' ?]. exists k'. apply elem_of_app. by left.
  - destruct (rt_tickets _ R _ _ H2) as (mm & ? & ?). exists mm. split; [|done]. apply elem_of_app. by left.
  - (* the evaluator returns an id *) destruct (Hh _ _ _ _ H0) as (m & Hm & <-).
    split; [by apply (rt_seen _ R)|]. apply elem_of_app. by right; left.
Qed.

Lemma cycle_routing emits s :
  (forall seen cl out id, emits seen cl out id -> exists m, m ∈ seen /\ m_MatchId m = id) ->
  cycle_reachable emits s -> routing s.
Proof.
  intros Hh. induction 1 as [|s s' _ IH [Hs|Hs]]; [apply routing_init| |].
  - by eapply routing_internal.
  - by eapply routing_env.
Qed.

(** ** Routing *)

(** C5. Every match id a Synchronize call streams to its backend is the id of
    a proposal this very call sent in the cycle, was returned by the
    evaluator, and the tickets of a proposal with that id were given to
    [AddTicketsToPendingRelease] first, whatever that answered; when proposal
    ids are not repeated these are the tickets of the call's own proposal. Whatever the
    interleaving of the goroutines, for an evaluator that returns only ids it
    was given. *)
Theorem cycle_routes emits s k c id
  (Hhonest : forall seen cl out id, emits seen cl out id -> exists m, m ∈ seen /\ m_MatchId m = id)
  (Hs : cycle_reachable emits s) (Hk : calls s !! k = Some c) (Hid : id ∈ cl_out c) :
  exists m, mkMAndM7c m k ∈ sent s /\ m_MatchId m = id /\ id ∈ ev_out (cy_eval s) /\
    (exists mm, mm ∈ sent s /\ m_MatchId (mm_m mm) = id /\ forall t, t ∈ t_Id <$> m_Tickets (mm_m mm) -> t ∈ released s) /\
    (NoDup ((fun mm => m_MatchId (mm_m mm)) <$> sent s) -> forall t, t ∈ t_Id <$> m_Tickets m -> t ∈ released s).
Proof.
  pose proof (cycle_routing emits s Hhonest Hs) as R.
  destruct (rt_out _ R _ _ _ Hk (or_intror Hid)) as [(m & Hm & <-) (Ho & _ & mm & Hmm & Heq & Ht)].
  exists m. split_and!; [done..|eauto|]. intros Hn.
  enough (mm = mkMAndM7c m k) as -> by done.
  apply list_elem_of_lookup in Hm as [i Hi], Hmm as [j Hj].
  assert (i = j) as ->; [|congruence].
  eapply NoDup_lookup; [exact Hn|..]; rewrite list_lookup_fmap, ?Hi, ?Hj; cbn; [done|by rewrite Heq].
Qed.
