(* ===== verification/CycleLive.v ===== *)
(** * A cycle does not block

    No goroutine of a cycle waits for another for ever: while the cycle is not
    over some goroutine can move or the evaluator is asked for something, and
    the goroutines' own steps are bounded. *)
From S2P Require Export Cycle.

(** ** Nothing blocks

    Which channels are closed tells how far each goroutine can be. *)
Record wiring (s : cycle) : Prop := {
  wr_registering : registering s = true -> closed (cy_cut s) = false;
  wr_cut : m2c_closed (cy_cut s) = true -> closed (cy_cut s) = true;
  wr_forward m : cut_pc (cy_cut s) = CutForward m -> is_Some (calls s !! mm_m7c m);
  wr_map id k : m7cMap (cy_fan s) !! id = Some k -> is_Some (calls s !! k);
  wr_send7 k id : f_pc (cy_fan s) = FanSend7 k id -> is_Some (calls s !! k);
  wr_send3 m : f_pc (cy_fan s) = FanSend3 m -> fan_m2c (cy_fan s) = true;
  wr_m3c : m3c_closed (cy_fan s) = negb (fan_m2c (cy_fan s));
  wr_m2c : fan_m2c (cy_fan s) = false -> m2c_closed (cy_cut s) = true;
  wr_drain : f_pc (cy_fan s) = FanDrain -> cy_add s = AddReturned;
  wr_returned : f_pc (cy_fan s) = FanReturned -> cy_add s = AddReturned /\ m2c_closed (cy_cut s) = true;
  wr_cache : c_pc (cy_cache s) = CacheReturned -> m3c_closed (cy_fan s) = true;
  wr_m4c : buf_past (cy_m4c s) = true -> c_pc (cy_cache s) = CacheReturned;
  wr_eval : ev_in_closed (cy_eval s) = true -> buf_out_closed (cy_m4c s) = true;
  wr_m5c : buf_past (cy_m5c s) = true -> ev_returned (cy_eval s) = true;
  wr_add : cy_add s = AddReturned -> buf_out_closed (cy_m5c s) = true;
  wr_m7c k c : calls s !! k = Some c -> buf_past (m6cBuffer c) = true -> m7c_closed c = true;
  wr_close k c : calls s !! k = Some c -> m7c_closed c = true -> f_pc (cy_fan s) = FanReturned;
}.

Ltac past :=
  repeat match goal with
  | H : buf_recv _ _ = Some _ |- _ => apply buf_recv_past in H as [? ?]
  | H : buf_in_closed _ = Some _ |- _ => apply buf_in_closed_past in H as [? ?]
  | H : buf_send _ = Some (_, _) |- _ => apply buf_send_past in H as [? ?]
  end.

Lemma wiring_init : wiring runCycle.
Proof. split; cbn; try done; intros; simplify_map_eq. Qed.

Lemma is_Some_insert_old {A} (m : gmap nat A) k x k' : is_Some (m !! k') -> is_Some (<[k := x]> m !! k').
Proof. rewrite lookup_insert_is_Some. destruct (decide (k = k')); auto. Qed.

Lemma is_Some_cancelled (m : gmap nat call) k : is_Some (m !! k) -> is_Some ((call_cancel <$> m) !! k).
Proof. rewrite lookup_fmap, fmap_is_Some. done. Qed.

(** Use what is known about the control states in the invariants. *)
Ltac forward :=
  repeat match goal with
  | W : forall k c, _ !! k = Some c -> m7c_closed c = true -> _, H : _ !! _ = Some ?c, H2 : m7c_closed ?c = true |- _ =>
      specialize (W _ _ H H2)
  | H : ?x = ?x -> _ |- _ => specialize (H eq_refl)
  | H : ?P, W : ?P -> _ |- _ => specialize (W H)
  | H : buf_out_closed ?b = true |- _ =>
      lazymatch goal with _ : buf_past b = true |- _ => fail | _ => pose proof (buf_out_closed_past _ H) end
  | H : _ /\ _ |- _ => destruct H
  end.

Ltac wire :=
  repeat match goal with |- context [match ?m !! ?i with _ => _ end] => destruct (m !! i) eqn:? end;
  split; cbn in *; intros; lookups; simplify_eq/=; eauto using is_Some_insert_old, is_Some_cancelled; try congruence;
  try solve [forward; simplify_eq/=; eauto; congruence].

Lemma wiring_internal s s' : wiring s -> internal_step s s' -> wiring s'.
Proof.
  intros R Hs. pose proof R as []. destruct s as [rg cs [] [] [] b4 [] b5 ad cx st ads].
  destruct Hs; cbn in *; channels; past; wire.
Qed.

Lemma wiring_env emits s s' : wiring s -> env_step emits s s' -> wiring s'.
Proof.
  intros R Hs. pose proof R as [].  destruct s as [rg cs [] [] [] b4 [] b5 ad cx st ads].
  destruct Hs; cbn in *; channels; past; wire.
Qed.


Lemma cycle_wiring emits s : cycle_reachable emits s -> wiring s.
Proof.
  induction 1 as [|s s' _ IH [Hs|Hs]]; [apply wiring_init| |].
  - by eapply wiring_internal.
  - by eapply wiring_env.
Qed.

(** The cycle is over: [fanInFanOut] has returned, every response channel and
    its buffer are closed. *)
Definition cycle_over (s : cycle) : Prop :=
  f_pc (cy_fan s) = FanReturned /\ forall k c, calls s !! k = Some c -> buf_out_closed (m6cBuffer c) = true.

(** The evaluator has not returned and is offered a slice or the end of its
    input. *)
Definition evaluator_turn (s : cycle) : Prop :=
  ev_returned (cy_eval s) = false /\ (buf_out_closed (cy_m4c s) = true \/ is_Some (buf_send (cy_m4c s))).

Section Progress.
Context (s : cycle) (W : wiring s).

Lemma cache_moves m : c_pc (cy_cache s) = CacheSend m -> exists s', internal_step s s'.
Proof.
  intros Hc. destruct (buf_past (cy_m4c s)) eqn:Hp.
  - apply (wr_m4c _ W) in Hp. congruence.
  - destruct (buf_before _ Hp) as [Hr _]. destruct (Hr m) as [b Hb].
    eexists. eapply int_m4c; [unfold cache_send4; by rewrite Hc|done].
Qed.

Lemma fan3_moves m : f_pc (cy_fan s) = FanSend3 m -> exists s', internal_step s s'.
Proof.
  intros Hf. destruct (c_pc (cy_cache s)) eqn:Hc; [|by eapply cache_moves|].
  - eexists. eapply int_m3c; [unfold fan_send3; by rewrite Hf|unfold cache_recv3; by rewrite Hc].
  - apply (wr_cache _ W) in Hc. rewrite (wr_m3c _ W), (wr_send3 _ W _ Hf) in Hc. done.
Qed.

Lemma fan7_moves k id : f_pc (cy_fan s) = FanSend7 k id -> exists s', internal_step s s'.
Proof.
  intros Hf. destruct (wr_send7 _ W _ _ Hf) as [c Hc].
  destruct (m7c_closed c) eqn:Hm; [apply (wr_close _ W _ _ Hc) in Hm; congruence|].
  destruct (buf_past (m6cBuffer c)) eqn:Hp; [apply (wr_m7c _ W _ _ Hc) in Hp; congruence|].
  destruct (buf_before _ Hp) as [Hr _]. destruct (Hr id) as [b Hb].
  eexists. eapply int_m7c; [unfold fan_send7; by rewrite Hf|done..].
Qed.

(** The collector of accepted ids moves unless it waits for [fanInFanOut] or
    for the evaluator. *)
Lemma add_moves : f_pc (cy_fan s) = FanSelect ->
  (exists s', internal_step s s') \/ ev_returned (cy_eval s) = false.
Proof.
  intros Hf. destruct (cy_add s) as [|mIDs|[|id mIDs]|] eqn:Ha.
  - destruct (buf_past (cy_m5c s)) eqn:Hp.
    + left. destruct (buf_after _ Hp) as [Hc|[[mIDs b] Hb]].
      * eexists. by apply int_add_return.
      * eexists. by eapply int_slice.
    + destruct (ev_returned (cy_eval s)) eqn:He; [left|by right].
      destruct (buf_before _ Hp) as [_ [b Hb]]. eexists. by eapply int_m5c_closed.
  - left. eexists. by apply (int_add_call _ mIDs (Ok tt)).
  - left. eexists. by eapply int_add_next.
  - left. eexists. eapply int_m6c; [done|]. unfold fan_recv6. by rewrite Hf.
  - left. eexists. eapply int_m6c_closed; [done|]. unfold fan_closed6. by rewrite Hf.
Qed.

(** With the proposals' side shut, the matches' side moves until the
    evaluator is the one to move. *)
Lemma matches_move : m3c_closed (cy_fan s) = true -> ev_returned (cy_eval s) = false ->
  (exists s', internal_step s s') \/ evaluator_turn s.
Proof.
  intros Hm He. destruct (c_pc (cy_cache s)) eqn:Hc.
  - left. eexists. eapply int_m3c_closed; [done|]. unfold cache_closed3. by rewrite Hc.
  - left. by eapply cache_moves.
  - destruct (buf_past (cy_m4c s)) eqn:Hp.
    + right. split; [done|]. by apply buf_after.
    + left. destruct (buf_before _ Hp) as [_ [b Hb]]. eexists. by eapply int_m4c_closed.
Qed.

Lemma calls_move : f_pc (cy_fan s) = FanReturned -> cycle_over s \/ exists s', internal_step s s'.
Proof.
  intros Hf.
  destruct (decide (map_Exists (fun _ c => buf_out_closed (m6cBuffer c) = false) (calls s))) as [He|He].
  - right. destruct He as (k & c & Hk & Hc).
    destruct (m7c_closed c) eqn:Hm; [|eexists; by eapply int_m7c_close].
    destruct (buf_past (m6cBuffer c)) eqn:Hp.
    + destruct (buf_after _ Hp) as [?|[[ids b] Hb]]; [congruence|]. eexists. by eapply int_take.
    + destruct (buf_before _ Hp) as [_ [b Hb]]. eexists. by eapply int_m7c_closed.
  - left. split; [done|]. intros k c Hk. apply not_false_iff_true. intros Hc. apply He. by exists k, c.
Qed.

Lemma cycle_can_move : closed (cy_cut s) = true ->
  cycle_over s \/ (exists s', internal_step s s') \/ evaluator_turn s.
Proof.
  intros Hcl. destruct (m2c_closed (cy_cut s)) eqn:Hcut.
  - destruct (f_pc (cy_fan s)) as [|m|k id| |] eqn:Hf.
    + destruct (fan_m2c (cy_fan s)) eqn:H2.
      { right; left. eexists. eapply int_m2c_closed; [done|]. unfold fan_closed2. by rewrite Hf, H2. }
      destruct (add_moves Hf) as [?|He]; [by right; left|].
      right. apply matches_move; [|done]. by rewrite (wr_m3c _ W), H2.
    + right; left. by eapply fan3_moves.
    + right; left. by eapply fan7_moves.
    + right; left. eexists. eapply int_m2c_closed; [done|]. unfold fan_closed2. by rewrite Hf.
    + destruct (calls_move Hf); auto.
  - right; left. destruct (cut_pc (cy_cut s)) as [|m|] eqn:Hp.
    + eexists. apply int_cut_stop. unfold cutoff_stop. by rewrite Hp, Hcl.
    + destruct (f_pc (cy_fan s)) eqn:Hf; [|by eapply fan3_moves|by eapply fan7_moves| |].
      * destruct (fan_m2c (cy_fan s)) eqn:H2; [|rewrite (wr_m2c _ W H2) in Hcut; done].
        eexists. eapply int_m2c; [unfold cutoff_send; by rewrite Hp|unfold fan_recv2; by rewrite Hf, H2].
      * eexists. eapply int_m2c; [unfold cutoff_send; by rewrite Hp|unfold fan_recv2; by rewrite Hf].
      * destruct (wr_returned _ W Hf) as [_ Hx]. congruence.
    + unfold m2c_closed in Hcut. by rewrite Hp in Hcut.
Qed.
End Progress.

(** ** The goroutines' own steps end *)

Definition buffer_weight {A} (u : nat) (b : buffer A) : nat :=
  match b with
  | BufFirst => 1
  | BufHold a => u * length a + 4
  | BufLast a => u * length a + 3
  | BufClosed => 0
  end.

Definition run_weight (r : run_pc) : nat := match r with RunReturned _ => 0 | _ => 1 end.

Definition cut_weight (c : cutoffSender) : nat :=
  (if closed c then 0 else 1) + match cut_pc c with CutSelect => 1 | CutForward _ => 8 | CutReturned => 0 end.

Definition fan_weight (f : fan) : nat :=
  (if fan_m2c f then 1 else 0) +
  match f_pc f with FanSelect => 2 | FanSend3 _ | FanSend7 _ _ => 8 | FanDrain => 1 | FanReturned => 0 end.

Definition cache_weight (c : ticket_cache) : nat :=
  match c_pc c with CacheRecv => 1 | CacheSend _ => 6 | CacheReturned => 0 end.

Definition add_weight (a : add_pc) : nat :=
  match a with
  | AddRecv => 1
  | AddCall ids => 7 * length ids + 3
  | AddSend ids => 7 * length ids + 2
  | AddReturned => 0
  end.

Definition call_weight (c : call) : nat :=
  (if m7c_closed c then 0 else 1) + buffer_weight 1 (m6cBuffer c).

(** A bound on the steps the goroutines can still make by themselves. *)
Definition cycle_measure (s : cycle) : nat :=
  run_weight (cy_run s) + cut_weight (cy_cut s) + fan_weight (cy_fan s) + cache_weight (cy_cache s) + buffer_weight 1 (cy_m4c s) +
  buffer_weight 7 (cy_m5c s) + add_weight (cy_add s) + total call_weight (calls s).

Lemma buf_recv_weight {A} u (b : buffer A) x b' :
  buf_recv b x = Some b' -> (buffer_weight u b' <= buffer_weight u b + u + 3)%nat.
Proof. destruct b; intros; simplify_eq/=; rewrite ?length_app; cbn; lia. Qed.
Lemma buf_in_closed_weight {A} u (b : buffer A) b' :
  buf_in_closed b = Some b' -> (buffer_weight u b' < buffer_weight u b)%nat.
Proof. destruct b; intros; simplify_eq/=; lia. Qed.
Lemma buf_send_weight {A} u (b : buffer A) a b' :
  buf_send b = Some (a, b') -> (buffer_weight u b' + u * length a + 3 <= buffer_weight u b)%nat.
Proof. destruct b; intros; simplify_eq/=; lia. Qed.

Lemma call_weight_insert m k c c' : m !! k = Some c ->
  (total call_weight (<[k := c']> m) + (if m7c_closed c then 0 else 1) + buffer_weight 1 (m6cBuffer c) =
   (if m7c_closed c' then 0 else 1) + buffer_weight 1 (m6cBuffer c') + total call_weight m)%nat.
Proof. intros Hk. pose proof (total_insert call_weight m k c c' Hk). unfold call_weight in *. lia. Qed.

Ltac weigh :=
  repeat match goal with
  | H : ?m !! ?k = Some ?c |- context [total call_weight (<[?k := ?c']> ?m)] =>
      pose proof (call_weight_insert m k c c' H); clear H
  | H : buf_recv _ _ = Some _ |- _ =>
      pose proof (buf_recv_weight 1 _ _ _ H); pose proof (buf_recv_weight 7 _ _ _ H); clear H
  | H : buf_in_closed _ = Some _ |- _ =>
      pose proof (buf_in_closed_weight 1 _ _ H); pose proof (buf_in_closed_weight 7 _ _ H); clear H
  | H : buf_send _ = Some _ |- _ =>
      pose proof (buf_send_weight 1 _ _ _ H); pose proof (buf_send_weight 7 _ _ _ H); clear H
  | H : m7c_closed ?c = _, H' : context [m7c_closed ?c] |- _ => cbn in H'; rewrite !H in H'
  | |- context [match ?m !! ?i with _ => _ end] => destruct (m !! i)
  end; cbn in *.

Lemma internal_decreases s s' : internal_step s s' -> (cycle_measure s' < cycle_measure s)%nat.
Proof.
  destruct s as [rg cs [] [] [] b4 [] b5 ad cx st ads].
  unfold cycle_measure, cut_weight, fan_weight, cache_weight.
  destruct 1; cbn in *; channels; weigh; lia.
Qed.

Lemma internal_closed s s' : closed (cy_cut s) = true -> internal_step s s' -> closed (cy_cut s') = true.
Proof.
  intros Hc. destruct s as [rg cs [] [] [] b4 [] b5 ad cx st ads]. destruct 1; cbn in *; channels; done.
Qed.
