(* ===== verification/CycleProps.v ===== *)
(** * What a cycle guarantees

    The theorems about the pipeline of [Cycle.v]: which proposals the
    evaluator is given, which ids each call is sent, that accepted ids are
    delivered and that the cycle ends. *)
From S2P Require Export CycleLive.

(** ** Proposals arrive in order *)

Definition cut_item (c : cutoffSender) : list Match :=
  match cut_pc c with CutForward m => [mm_m m] | _ => [] end.
Definition fan_item (f : fan) : list Match := match f_pc f with FanSend3 m => [m] | _ => [] end.
Definition cache_item (c : ticket_cache) : list Match := match c_pc c with CacheSend m => [m] | _ => [] end.

(** [fanInFanOut] drains [m2c] without forwarding. *)
Definition draining (f : fan) : bool :=
  fan_m2c f && match f_pc f with FanDrain | FanReturned => true | _ => false end.

(** What is between the evaluator and [m1c], oldest first. *)
Definition in_flight (s : cycle) : list Match :=
  buf_held (cy_m4c s) ++ cache_item (cy_cache s) ++ fan_item (cy_fan s) ++ cut_item (cy_cut s).

Definition fifo (s : cycle) : Prop :=
  draining (cy_fan s) = false -> mm_m <$> sent s = ev_seen (cy_eval s) ++ in_flight s.

Ltac queue :=
  unfold fifo, in_flight, draining, cut_item, fan_item, cache_item in *; cbn in *; intros Hd;
  repeat match goal with
  | |- context [match ?m !! ?i with _ => _ end] => destruct (m !! i)
  | H : buf_held _ = _ |- _ => rewrite H in *; clear H
  | F : ?b = false -> _ = _ |- _ => rewrite F by (first [done | by destruct b | apply andb_false_r]); clear F
  end; cbn in *; rewrite <- ?app_assoc; cbn; rewrite <- ?app_assoc; cbn; rewrite ?app_nil_r; try done.

Lemma fifo_internal s s' : wiring s -> fifo s -> internal_step s s' -> fifo s'.
Proof.
  intros W F Hs. destruct s as [rg cs [] [] [] b4 [] b5 ad cx st ads].
  destruct Hs; cbn in *; channels; held; queue.
  (* m2c is not drained once it is closed *)
  rewrite andb_true_r in Hd. by specialize (wr_m2c _ W Hd).
Qed.

Lemma fifo_env emits s s' : wiring s -> fifo s -> env_step emits s s' -> fifo s'.
Proof.
  intros W F Hs. destruct Hs; unfold fifo, in_flight in *; cbn in *; held; try done; intros Hd.
  - destruct (cy_cut s) as [b []]; unfold cutoff_recv, cut_item in *; simplify_eq/=.
    rewrite fmap_app, (F Hd). cbn.
    by rewrite app_nil_r, <- !app_assoc.
  - rewrite (F Hd), H0. by rewrite <- app_assoc.
Qed.

Lemma cycle_fifo emits s : cycle_reachable emits s -> fifo s.
Proof.
  induction 1 as [|s s' Hr IH [Hs|Hs]]; [done| |]; apply cycle_wiring in Hr.
  - by eapply fifo_internal.
  - by eapply fifo_env.
Qed.

(** When the evaluator saw the end of its input nothing is left between. *)
Lemma pipeline_drained s : wiring s -> fifo s -> ev_in_closed (cy_eval s) = true ->
  ev_seen (cy_eval s) = mm_m <$> sent s.
Proof.
  intros W F Hend.
  pose proof (wr_eval _ W Hend) as H4. pose proof (wr_m4c _ W (buf_out_closed_past _ H4)) as Hc.
  pose proof (wr_cache _ W Hc) as H3. rewrite (wr_m3c _ W) in H3. apply negb_true_iff in H3.
  rewrite F by (unfold draining; by rewrite H3). unfold in_flight, cut_item, fan_item, cache_item. rewrite Hc.
  pose proof (wr_m2c _ W H3) as H2. unfold m2c_closed in H2. destruct (cut_pc (cy_cut s)); try done.
  destruct (f_pc (cy_fan s)) eqn:Hf; [|by rewrite (wr_send3 _ W _ Hf) in H3|..];
    destruct (cy_m4c s); try done; cbn; by rewrite app_nil_r.
Qed.

(** C7. When the evaluator sees the end of its input it has been given, in
    the order they were taken from the calls, exactly the proposals passed on
    before the cutoff: none is lost, repeated or reordered between [m1c] and
    the evaluator, however the slices are cut. *)
Theorem evaluator_sees_all emits s
  (Hs : cycle_reachable emits s) (Hend : ev_in_closed (cy_eval s) = true) :
  ev_seen (cy_eval s) = mm_m <$> sent s.
Proof. apply pipeline_drained; [by eapply cycle_wiring|by eapply cycle_fifo|done]. Qed.

(** ** Accepted ids are delivered *)

(** The id is with the call: buffered, streamed, or dropped because the call
    has returned. *)
Definition holds (c : call) (id : string) : Prop :=
  id ∈ buf_held (m6cBuffer c) \/ id ∈ cl_out c \/ cl_streaming c = false.

(** On its way to a call that sent it, or there. *)
Definition dispatched (s : cycle) (id : string) : Prop :=
  (exists k, f_pc (cy_fan s) = FanSend7 k id /\ sent_by s k id) \/
  (exists k c, calls s !! k = Some c /\ sent_by s k id /\ holds c id).

(** Not yet taken by [fanInFanOut]. *)
Definition queued (s : cycle) (id : string) : Prop :=
  id ∈ buf_held (cy_m5c s) \/
  match cy_add s with AddCall l | AddSend l => id ∈ l | _ => False end.

Record mapped (s : cycle) : Prop := {
  mp_known id : known s id -> is_Some (m7cMap (cy_fan s) !! id);
  mp_fan m : f_pc (cy_fan s) = FanSend3 m -> is_Some (m7cMap (cy_fan s) !! m_MatchId m);
}.

Lemma mapped_internal s s' : mapped s -> internal_step s s' -> mapped s'.
Proof.
  intros [Hk Hf] Hs. destruct s as [rg cs [] [] [] b4 [] b5 ad cx st ads]. unfold known in *.
  destruct Hs; cbn in *; channels; split; unfold known; cbn in *;
    repeat match goal with |- context [match ?m !! ?i with _ => _ end] => destruct (m !! i) end; cbn;
    intros; rewrite ?is_Some_insert in *; simplify_eq/=; eauto.
  match goal with H : _ \/ _ |- _ => destruct H as [->|]; eauto end.
Qed.

Lemma mapped_env emits s s' : mapped s -> env_step emits s s' -> mapped s'.
Proof. intros [Hk Hf] Hs. by destruct Hs. Qed.

Lemma cycle_mapped emits s : cycle_reachable emits s -> mapped s.
Proof.
  induction 1 as [|s s' _ IH [Hs|Hs]].
  - split; unfold known; cbn; intros; [|done]. rewrite lookup_empty in *. by destruct H.
  - by eapply mapped_internal.
  - by eapply mapped_env.
Qed.

(** What a call holds it keeps. *)
Definition kept (s s' : cycle) : Prop :=
  forall k c, calls s !! k = Some c -> exists c', calls s' !! k = Some c' /\ forall id, holds c id -> holds c' id.

Lemma kept_set s s' k c c' : calls s !! k = Some c -> calls s' = <[k := c']> (calls s) ->
  (forall id, holds c id -> holds c' id) -> kept s s'.
Proof.
  intros Hk Hs Hh q x Hq. rewrite Hs. destruct (decide (q = k)) as [->|].
  - rewrite lookup_insert_eq. simplify_eq. eauto.
  - rewrite lookup_insert_ne by done. eauto.
Qed.

Lemma kept_same s s' : calls s' = calls s -> kept s s'.
Proof. intros Hs k c Hk. rewrite Hs. eauto. Qed.

Lemma holds_take ids b c id : buf_send (m6cBuffer c) = Some (ids, b) -> holds c id -> holds (call_take ids b c) id.
Proof.
  intros [Hh _]%buf_send_held. unfold holds, call_take. cbn. rewrite Hh.
  destruct (cl_streaming c); [rewrite elem_of_app|]; tauto.
Qed.

Lemma internal_kept s s' : internal_step s s' -> kept s s'.
Proof.
  destruct 1; try by apply kept_same.
  - eapply kept_set; [done..|]. apply buf_recv_held in H2. unfold holds. cbn. intros. rewrite H2, elem_of_app. tauto.
  - by eapply kept_set.
  - eapply kept_set; [done..|]. apply buf_in_closed_held in H1. unfold holds. cbn. by rewrite H1.
  - eapply kept_set; [done..|]. intros. by apply holds_take.
Qed.

Lemma env_kept emits s s' : env_step emits s s' -> kept s s'.
Proof.
  destruct 1; try by apply kept_same.
  - intros q c Hq. cbn. exists c. rewrite lookup_insert_ne by congruence. done.
  - by eapply kept_set.
  - intros q c Hq. cbn. exists (call_cancel c). rewrite lookup_fmap, Hq. done.
  - eapply kept_set; [done..|]. unfold holds; cbn. tauto.
  - eapply kept_set; [done..|]. unfold holds; cbn. tauto.
Qed.

Lemma dispatched_kept s s' id :
  kept s s' -> sent s ⊆ sent s' -> (forall k, f_pc (cy_fan s) = FanSend7 k id -> dispatched s' id) ->
  dispatched s id -> dispatched s' id.
Proof.
  intros Hk Hs Hf [(k & Hp & _)|(k & c & Hc & (m & ? & ?) & Hh)]; [by eapply Hf|].
  destruct (Hk _ _ Hc) as (c' & Hc' & Hh'). right. exists k, c'. split_and!; [done| |auto]. exists m. auto.
Qed.

Lemma dispatched_internal s s' id : routing s -> internal_step s s' -> dispatched s id -> dispatched s' id.
Proof.
  intros R Hs. pose proof (internal_grows _ _ Hs) as G. pose proof (internal_kept _ _ Hs) as K.
  apply dispatched_kept; [done|apply G|]. intros k Hf. pose proof (proj1 (rt_fan7 _ R _ _ Hf)) as Hsent.
  apply (sent_by_grows _ _ _ _ G) in Hsent.
  destruct Hs; try (left; exists k; split; [exact Hf|exact Hsent]);
    unfold fan_recv2, fan_closed2, fan_send3, fan_recv6, fan_closed6, fan_send7 in *; rewrite Hf in *; simplify_eq/=.
  right. do 2 eexists. split_and!; [apply lookup_insert_eq|done|].
  left. cbn. rewrite (buf_recv_held _ _ _ H2), elem_of_app. by right; left.
Qed.

Lemma dispatched_env emits s s' id : env_step emits s s' -> dispatched s id -> dispatched s' id.
Proof.
  intros Hs. pose proof (env_grows _ _ _ Hs) as G. pose proof (env_kept _ _ _ Hs) as K.
  intros Hd. eapply dispatched_kept; [done|apply G| |done]. intros k Hf.
  destruct Hd as [(k' & Hf' & Hsent)|(q & c & Hc & Hsent & Hh)].
  - left. exists k'. split; [by destruct Hs|]. by eapply sent_by_grows.
  - destruct (K _ _ Hc) as (c' & Hc' & Hh'). right. exists q, c'. split_and!; [done| |auto]. by eapply sent_by_grows.
Qed.

Definition delivery (s : cycle) : Prop :=
  forall id, id ∈ ev_out (cy_eval s) -> queued s id \/ dispatched s id.

Lemma delivery_internal s s' : routing s -> mapped s -> delivery s -> internal_step s s' -> delivery s'.
Proof.
  intros R M D Hs id Hid.
  assert (id ∈ ev_out (cy_eval s)) as Hid0 by by destruct Hs.
  destruct (D id Hid0) as [Hq|Hd]; [|right; by eapply dispatched_internal].
  destruct Hs; try by left.
  - left. unfold queued in *; cbn in *. by rewrite (buf_in_closed_held _ _ H0).
  - left. unfold queued in *; cbn in *. apply buf_send_held in H as [Hb _]. rewrite H0, Hb in Hq. tauto.
  - left. unfold queued in *; cbn in *. by rewrite H in Hq.
  - left. unfold queued in *; cbn in *. rewrite H in Hq. destruct Hq as [?|[]%not_elem_of_nil]. tauto.
  - left. unfold queued in *; cbn in *. by rewrite H0 in Hq.
  - (* m6c *) unfold queued in Hq. rewrite H in Hq.
    assert (id ∈ buf_held (cy_m5c s) \/ id = id0 \/ id ∈ mIDs) as [?|[->|?]]
      by (destruct Hq as [?|Hq]; [auto|apply elem_of_cons in Hq; tauto]); [by left; left| |by left; right].
    right. left. destruct (rt_send _ R _ _ H ltac:(by left)) as (_ & Hk & _).
    destruct (mp_known _ M _ Hk) as [k Hm]. exists k. cbn. unfold fan_recv6 in H0.
    destruct (f_pc (cy_fan s)); simplify_eq. rewrite Hm. split; [done|].
    destruct (rt_map _ R _ _ Hm) as (m & ? & ?). exists m. done.
Qed.

Lemma delivery_env emits s s' : delivery s -> env_step emits s s' -> delivery s'.
Proof.
  intros D Hs id Hid.
  assert (id ∈ ev_out (cy_eval s) \/ exists b, cy_m5c s' = b /\ id ∈ buf_held b) as [Hid0|(b & <- & Hb)].
  { destruct Hs; try by left. cbn in *. apply elem_of_app in Hid as [?|Hid%list_elem_of_singleton]; [by left|].
    subst. right. eexists. split; [done|]. rewrite (buf_recv_held _ _ _ H1), elem_of_app. right. by left. }
  - destruct (D id Hid0) as [Hq|Hd]; [left|right; by eapply dispatched_env].
    destruct Hs; try done. unfold queued in *; cbn in *. rewrite (buf_recv_held _ _ _ H1), elem_of_app. tauto.
  - by left; left.
Qed.

Section Honest.
Context (emits : list Match -> bool -> list string -> string -> Prop).
Hypothesis Hhonest : forall seen cl out id, emits seen cl out id -> exists m, m ∈ seen /\ m_MatchId m = id.

Lemma cycle_delivery s : cycle_reachable emits s -> delivery s.
Proof.
  induction 1 as [|s s' Hr IH [Hs|Hs]].
  - intros id []%not_elem_of_nil.
  - eapply delivery_internal; eauto using cycle_routing, cycle_mapped.
  - by eapply delivery_env.
Qed.

(** C6. No accepted id is lost: once the cycle is over, every id the
    evaluator returned was streamed to a call that sent a proposal with this
    id, unless that call had returned early. *)
Theorem cycle_delivers s id (Hs : cycle_reachable emits s) (Hover : cycle_over s)
  (Hid : id ∈ ev_out (cy_eval s)) :
  exists k c, calls s !! k = Some c /\ sent_by s k id /\ (id ∈ cl_out c \/ cl_streaming c = false).
Proof.
  pose proof (cycle_wiring _ _ Hs) as W. destruct Hover as [Hf Hc].
  destruct (wr_returned _ W Hf) as [Ha _]. pose proof (wr_add _ W Ha) as H5.
  destruct (cycle_delivery s Hs id Hid) as [[Hq|Hq]|[(k & Hk & _)|(k & c & Hk & Hsent & Hh)]].
  - destruct (cy_m5c s); try done. by apply not_elem_of_nil in Hq.
  - by rewrite Ha in Hq.
  - congruence.
  - exists k, c. split_and!; [done..|]. specialize (Hc _ _ Hk). destruct Hh as [Hh|?]; [|done].
    destruct (m6cBuffer c); try done. by apply not_elem_of_nil in Hh.
Qed.
End Honest.

(** ** The cycle ends *)

(** C4. A cycle cannot deadlock or run for ever: once the proposals are cut
    off, its goroutines make at most [cycle_measure s] steps of their own, in
    whatever order, and when none of them can move the cycle is over or it is
    the evaluator's turn (it has not returned and is offered a slice or the
    end of its input). This holds for every evaluator, one that returns early
    or returns ids nobody sent included. *)
Theorem cycle_ends emits s n s'
  (Hs : cycle_reachable emits s) (Hcut : closed (cy_cut s) = true)
  (Hn : relations.nsteps internal_step n s s') :
  (n <= cycle_measure s)%nat /\
  ((forall s'', ~ internal_step s' s'') -> cycle_over s' \/ evaluator_turn s').
Proof.
  split; [pose proof (nsteps_measure _ _ internal_decreases _ _ _ Hn); lia|]. intros Hmax.
  assert (wiring s' /\ closed (cy_cut s') = true) as [W Hcut'].
  { eapply (nsteps_preserved internal_step (fun s => wiring s /\ closed (cy_cut s) = true)); [|done|].
    - intros x y [? ?] ?. split; [by eapply wiring_internal|by eapply internal_closed].
    - eauto using cycle_wiring. }
  destruct (cycle_can_move _ W Hcut') as [?|[[s'' Hs'']|?]]; [by left| |by right].
  by apply Hmax in Hs''.
Qed.

(** ** The context of a cycle

    It is cancelled by the evaluator's failure, by the store's, or once all
    callers are done; the sweep of expired backfills that ends a cycle runs on
    it. *)

Definition answered (a : store_call) : bool := match sc_answer a with Ok _ => true | Err _ => false end.

(** The loop cancels the cycle when a call of the store failed and no match
    was in a slice the store took. *)
Lemma add_cancel_calls l :
  is_Some (add_cancel (foldl (fun c a => add_answer (sc_mIDs a) (sc_answer a) c) (mkAddCounts 0 0 None) l)) <->
  Exists (fun a => answered a = false) l /\ Forall (fun a => answered a = true -> sc_mIDs a = []) l.
Proof.
  set (f := fun c a => _). assert (forall c, 0 <= successfulMatches c ->
    (is_Some (lastErr (foldl f c l)) <-> is_Some (lastErr c) \/ Exists (fun a => answered a = false) l) /\
    0 <= successfulMatches (foldl f c l) /\
    (successfulMatches (foldl f c l) = 0 <->
       successfulMatches c = 0 /\ Forall (fun a => answered a = true -> sc_mIDs a = []) l)) as Hf.
  { induction l as [|a l IH]; intros c Hc; cbn; [rewrite Exists_nil, Forall_nil; intuition|].
    destruct (IH (f c a)) as (-> & Hn & ->); [subst f; cbn; destruct (sc_answer a); lia|].
    rewrite Exists_cons, Forall_cons. subst f. unfold answered. cbn. split_and!; [|done|].
    - destruct (sc_answer a); [naive_solver|]. rewrite is_Some_alt. cbn. naive_solver.
    - destruct (sc_answer a); [|naive_solver]. split.
      + intros [? ?]. split_and!; [lia|intros _; apply length_zero_iff_nil; lia|done].
      + intros (? & Ha & ?). rewrite (Ha eq_refl). split; [cbn; lia|done]. }
  destruct (Hf (mkAddCounts 0 0 None)) as (Hl & _ & Hs); [cbn; lia|]. cbn in Hl, Hs. unfold add_cancel.
  assert (~ is_Some (None : option error)) by (intros [? [=]]).
  destruct (lastErr _) as [e|]; [|split; [intros [? [=]]|intros [He _]; exfalso; destruct (proj2 Hl (or_intror He)) as [? [=]]]].
  destruct (Z.eqb_spec (successfulMatches (foldl f (mkAddCounts 0 0 None) l)) 0); split.
  - intros _. split; [destruct (proj1 Hl) as [?|?]; [eauto|done|done]|by apply Hs].
  - eauto.
  - intros [? [=]].
  - intros [_ Ha]. exfalso. naive_solver.
Qed.

Inductive cancel_reason (s : cycle) : error -> Prop :=
| reason_callers : registering s = false -> cancel_reason s callers_done
| reason_evaluator err : ev_returned (cy_eval s) = true -> cancel_reason s (EWrap "error calling evaluator" err)
| reason_store e : cy_add s = AddReturned -> add_cancel (cy_counts s) = Some e -> cancel_reason s e.

Record cancellation (s : cycle) : Prop := {
  cn_reason e : Err_ (cy_ctx s) = Some e -> cancel_reason s e;
  cn_store : cy_add s = AddReturned -> is_Some (add_cancel (cy_counts s)) -> is_Some (Err_ (cy_ctx s));
  cn_swept c : cy_run s = RunReturned c ->
    cy_add s = AddReturned /\ (is_Some (add_cancel (cy_counts s)) -> is_Some c);
}.

Lemma err_cancel cause c :
  Err_ match cause with None => c | Some _ => cancel_cause cause c end =
  match Err_ c with Some e => Some e | None => cause end.
Proof. unfold Err_, cancel_cause, std_cancel. by destruct cause, c as [[] []]. Qed.

(** A reason stays one. *)
Lemma cancel_reason_step emits s s' e : cycle_step emits s s' -> cancel_reason s e -> cancel_reason s' e.
Proof.
  intros Hs [Hr|err He|e' Ha Hc]; destruct Hs as [Hs|Hs]; destruct Hs; unfold registering in *; cbn in *;
    try (by constructor); try congruence; try (by apply reason_callers; unfold registering; cbn; auto).
Qed.

Lemma cancellation_step emits s s' : cycle_step emits s s' -> cancellation s -> cancellation s'.
Proof.
  intros Hs [Cr Ca Cs]. assert (forall e, Err_ (cy_ctx s) = Some e -> cancel_reason s' e) as Hold.
  { intros e He. by eapply cancel_reason_step; [exact Hs|apply Cr]. }
  destruct Hs as [Hs|Hs]; destruct Hs; cbn in *.
  all: try (split; [exact Hold|exact Ca|exact Cs]).
  all: try (split; cbn; [exact Hold|congruence|intros c Hc; destruct (Cs c Hc); congruence]).
  - (* the loop of the collector ends *)
    split; cbn; rewrite ?err_cancel; [intros e|intros _|intros c Hc; destruct (Cs c Hc); congruence];
      destruct (Err_ (cy_ctx s)) as [e'|] eqn:He; [intros [= <-]; by apply Hold|intros Hc; by apply reason_store|eauto|done].
  - (* the sweep *)
    split; cbn; [exact Hold|exact Ca|]. intros c [= <-]. split; [done|]. by apply Ca.
  - (* the registration period ends *)
    split; cbn; [exact Hold|exact Ca|discriminate].
  - (* all callers are done *)
    split; [intros e| |exact Cs]; cbn -[cancel_cause]; rewrite (err_cancel (Some callers_done));
      destruct (Err_ (cy_ctx s)) as [e'|] eqn:He; [intros [= <-]; by apply Hold|intros [= <-]; by apply reason_callers|eauto..].
  - (* the evaluator returns *)
    split; [intros e| |exact Cs]; cbn -[wrapEvaluator]; rewrite err_cancel;
      destruct (Err_ (cy_ctx s)) as [e'|] eqn:He; [intros [= <-]; by apply Hold| |eauto|].
    + destruct r; cbn; [done|]. intros [= <-]. by apply reason_evaluator.
    + intros Hadd Hc. destruct (Ca Hadd Hc) as [? [=]].
Qed.

Lemma cycle_cancellation emits s : cycle_reachable emits s -> cancellation s.
Proof.
  induction 1 as [|s s' _ IH Hs]; [by split; cbn; intros|]. by eapply cancellation_step.
Qed.

(** When the store failed for every slice, the sweep that ends the cycle is
    given a context that is already done. *)
Lemma sweep_on_done_context emits s c : cycle_reachable emits s -> cy_run s = RunReturned c ->
  adds s <> [] -> Forall (fun a => answered a = false) (adds s) -> is_Some c.
Proof.
  intros Hs Hc Hne Hall. apply (cn_swept _ (cycle_cancellation _ _ Hs) c Hc), add_cancel_calls. split.
  - destruct (adds s) as [|a l]; [done|]. apply Exists_cons. left. by apply Forall_cons in Hall as [? _].
  - eapply Forall_impl; [exact Hall|]. congruence.
Qed.
