(* ===== verification/CycleRun.v ===== *)
(** * Running a cycle

    An executable scheduler for the step relation of [Cycle.v]: a label names
    the step to take, [exec] takes it if it is enabled. It produces the
    concrete runs at which the theorems about cycles are applied, and a run
    that ends with goroutines left behind. *)
From S2P Require Export CycleProps.

Inductive label :=
| LRegister (k : callid) | LRegistered | LSend (k : callid) (m : Match) | LDone (k : callid) | LTimeout
| LCallersDone
| LRead | LReadClosed | LEmit (id : string) | LReturn (r : result unit)
| LAllSent | LCutStop | L2 | L2Closed | L3 | L3Closed | L4 | L4Closed | L5Closed | LSlice | LAdd (r : result unit) | LAddNext
| LAddReturn | LSweep | L6 | L6Closed | L7 | L7Close (k : callid) | L7Closed (k : callid) | LTake (k : callid).

Definition when {A} (b : bool) (x : option A) : option A := if b then x else None.

Definition add_slice_of (a : add_pc) : option (list string) := match a with AddCall l => Some l | _ => None end.
Definition add_first (a : add_pc) : option (string * list string) :=
  match a with AddSend (id :: l) => Some (id, l) | _ => None end.
Definition add_idle (a : add_pc) : bool := match a with AddRecv => true | _ => false end.
Definition add_sent (a : add_pc) : bool := match a with AddSend [] => true | _ => false end.
Definition add_returned (a : add_pc) : bool := match a with AddReturned => true | _ => false end.

(** An evaluator that returns ids of matches it was given. *)
Definition returns_given (seen : list Match) (cl : bool) (out : list string) (id : string) : Prop :=
  exists m, m ∈ seen /\ m_MatchId m = id.

Definition exec (l : label) (s : cycle) : option cycle :=
  let ev := cy_eval s in
  match l with
  | LRegister k =>
      when (registering s) (match calls s !! k with None => Some (set_call k new_call s) | Some _ => None end)
  | LRegistered => when (registering s) (Some (set_run RunWait s))
  | LSend k m =>
      c ← calls s !! k; cut ← cutoff_recv (cy_cut s) (mkMAndM7c m k);
      when (cl_sending c) (Some (set_sent (sent s ++ [mkMAndM7c m k]) (set_cut cut s)))
  | LDone k => c ← calls s !! k; when (cl_sending c) (Some (set_call k (call_done c) s))
  | LTimeout =>
      when (negb (registering s)) (Some (set_calls (call_cancel <$> calls s) (set_cut (cutoff (cy_cut s)) s)))
  | LCallersDone => when (negb (registering s)) (Some (cancelled (Some callers_done) s))
  | LRead =>
      '(ms, b) ← buf_send (cy_m4c s);
      when (negb (ev_returned ev))
        (Some (set_eval (mkEvaluation (ev_seen ev ++ ms) (ev_in_closed ev) (ev_out ev) false) (set_m4c b s)))
  | LReadClosed =>
      when (negb (ev_returned ev) && buf_out_closed (cy_m4c s))
        (Some (set_eval (mkEvaluation (ev_seen ev) true (ev_out ev) false) s))
  | LEmit id =>
      b ← buf_recv (cy_m5c s) id;
      when (negb (ev_returned ev) && existsb (fun m => bool_decide (m_MatchId m = id)) (ev_seen ev))
        (Some (set_eval (mkEvaluation (ev_seen ev) (ev_in_closed ev) (ev_out ev ++ [id]) false) (set_m5c b s)))
  | LReturn r =>
      when (negb (ev_returned ev))
        (Some (set_eval (mkEvaluation (ev_seen ev) (ev_in_closed ev) (ev_out ev) true) (cancelled (wrapEvaluator r) s)))
  | LAllSent =>
      when (negb (registering s) && negb (closed (cy_cut s)) &&
              bool_decide (map_Forall (fun _ c => cl_sending c = false) (calls s)))
        (Some (set_cut (cutoff (cy_cut s)) s))
  | LCutStop => c ← cutoff_stop (cy_cut s); Some (set_cut c s)
  | L2 => '(m, c) ← cutoff_send (cy_cut s); f ← fan_recv2 (cy_fan s) m; Some (set_fan f (set_cut c s))
  | L2Closed => f ← fan_closed2 (cy_fan s); when (m2c_closed (cy_cut s)) (Some (set_fan f s))
  | L3 => '(m, f) ← fan_send3 (cy_fan s); c ← cache_recv3 (cy_cache s) m; Some (set_cache c (set_fan f s))
  | L3Closed => c ← cache_closed3 (cy_cache s); when (m3c_closed (cy_fan s)) (Some (set_cache c s))
  | L4 => '(m, c) ← cache_send4 (cy_cache s); b ← buf_recv (cy_m4c s) m; Some (set_m4c b (set_cache c s))
  | L4Closed =>
      b ← buf_in_closed (cy_m4c s);
      match c_pc (cy_cache s) with CacheReturned => Some (set_m4c b s) | _ => None end
  | L5Closed => b ← buf_in_closed (cy_m5c s); when (ev_returned ev) (Some (set_m5c b s))
  | LSlice => '(l, b) ← buf_send (cy_m5c s); when (add_idle (cy_add s)) (Some (set_add (AddCall l) (set_m5c b s)))
  | LAdd r =>
      l ← add_slice_of (cy_add s);
      Some (set_add (AddSend l)
              (set_adds (adds s ++ [mkStoreCall l (release_ids (matchTickets (cy_cache s)) l) r]) s))
  | LAddNext => when (add_sent (cy_add s)) (Some (set_add AddRecv s))
  | LAddReturn => when (buf_out_closed (cy_m5c s) && add_idle (cy_add s)) (Some (set_add AddReturned (cancelled (add_cancel (cy_counts s)) s)))
  | LSweep =>
      when (add_returned (cy_add s))
        (match cy_run s with RunWait => Some (set_run (RunReturned (Err_ (cy_ctx s))) s) | _ => None end)
  | L6 => '(id, l) ← add_first (cy_add s); f ← fan_recv6 (cy_fan s) id; Some (set_fan f (set_add (AddSend l) s))
  | L6Closed => f ← fan_closed6 (cy_fan s); when (add_returned (cy_add s)) (Some (set_fan f s))
  | L7 =>
      '(k, id, f) ← fan_send7 (cy_fan s); c ← calls s !! k; b ← buf_recv (m6cBuffer c) id;
      when (negb (m7c_closed c)) (Some (set_call k (call_buffer b c) (set_fan f s)))
  | L7Close k =>
      c ← calls s !! k;
      when (negb (m7c_closed c)) (match f_pc (cy_fan s) with FanReturned => Some (set_call k (call_close c) s) | _ => None end)
  | L7Closed k =>
      c ← calls s !! k; b ← buf_in_closed (m6cBuffer c); when (m7c_closed c) (Some (set_call k (call_buffer b c) s))
  | LTake k => c ← calls s !! k; '(ids, b) ← buf_send (m6cBuffer c); Some (set_call k (call_take ids b c) s)
  end.

Fixpoint exec_all (ls : list label) (s : cycle) : option cycle :=
  match ls with
  | [] => Some s
  | l :: ls => s ← exec l s; exec_all ls s
  end.

Ltac exec_cases :=
  unfold when, add_slice_of, add_first, add_idle, add_sent, add_returned in *; cbn in *;
  repeat match goal with
  | H : mbind _ ?o = Some _ |- _ => destruct o eqn:?; cbn in H; [|discriminate H]
  | H : context [match ?x with _ => _ end] |- _ => destruct x eqn:?; simplify_eq/=
  end; simplify_eq/=;
  repeat match goal with
  | H : _ && _ = true |- _ => apply andb_true_iff in H as [? ?]
  | H : negb _ = true |- _ => apply negb_true_iff in H
  end.

(** A label of the evaluator's names an id it may return. *)
Definition may_emit (emits : list Match -> bool -> list string -> string -> Prop) (l : label) (s : cycle) : Prop :=
  match l with
  | LEmit id => emits (ev_seen (cy_eval s)) (ev_in_closed (cy_eval s)) (ev_out (cy_eval s)) id
  | _ => True
  end.

Lemma exec_sound emits l s s' : may_emit emits l s -> exec l s = Some s' -> cycle_step emits s s'.
Proof.
  destruct l; cbn; intros Hm He; exec_cases;
    first [ apply cycle_internal; econstructor; eassumption | apply cycle_env; econstructor; eassumption
          | discriminate | idtac ].
  apply cycle_internal, int_all_sent; [done..|]. by match goal with H : bool_decide _ = true |- _ => apply bool_decide_eq_true in H end.
Qed.

Lemma exec_given l s s' : exec l s = Some s' -> may_emit returns_given l s.
Proof.
  destruct l; cbn; try done. intros He. exec_cases.
  match goal with H : existsb _ _ = true |- _ => apply existsb_exists in H as (m & Hm & Hid%bool_decide_eq_true) end.
  exists m. by rewrite list_elem_of_In.
Qed.

(** All the ids named in a run may be returned when they are. *)
Fixpoint emits_along (emits : list Match -> bool -> list string -> string -> Prop) (ls : list label) (s : cycle) : Prop :=
  match ls with
  | [] => True
  | l :: ls => match exec l s with Some s' => may_emit emits l s /\ emits_along emits ls s' | None => True end
  end.

Lemma exec_all_reachable emits ls s s' : emits_along emits ls s ->
  cycle_reachable emits s -> exec_all ls s = Some s' -> cycle_reachable emits s'.
Proof.
  revert s. induction ls as [|l ls IH]; cbn; intros s Hl Hs He; [by simplify_eq|].
  destruct (exec l s) as [s1|] eqn:H1; [|done]. cbn in He. destruct Hl as [Hm Hl].
  eapply IH; [exact Hl| |exact He]. eapply cycle_next; [exact Hs|]. by eapply exec_sound.
Qed.

Lemma given_along ls s : emits_along returns_given ls s.
Proof.
  revert s. induction ls as [|l ls IH]; cbn; intros s; [done|]. destruct (exec l s) as [s1|] eqn:H1; [|done].
  split; [by eapply exec_given|apply IH].
Qed.

(** ** A cycle of two calls

    Each call sends one proposal; the evaluator accepts the second one. *)
Definition cycle_match (id tid : string) : Match :=
  mkMatch id "" "" [mkTicket tid None None ∅ ∅ None] ∅ None false.

Definition two_calls : list label :=
  [LRegister 0; LRegister 1; LSend 0 (cycle_match "a" "t1"); L2; LRegistered; L3; LSend 1 (cycle_match "b" "t2");
   L4; L2; LRead; L3; L4; LDone 0; LDone 1].

Definition two_calls_finish : list label :=
  [LRead; LAllSent; LCutStop; L2Closed; L3Closed; L4Closed; LReadClosed; LEmit "b"; LSlice; LAdd (Ok tt); L6; L7; LTake 1;
   LReturn (Ok tt); L5Closed; LAddNext; LAddReturn; L6Closed; L2Closed; L7Close 0; L7Close 1; L7Closed 0; L7Closed 1].

Definition after_run (ls : list label) : cycle := default runCycle (exec_all ls runCycle).

Definition two_calls_cut : cycle := after_run (two_calls ++ [LRead; LAllSent]).
Definition two_calls_read : cycle := after_run (two_calls ++ take 7 two_calls_finish).
Definition two_calls_end : cycle := after_run (two_calls ++ two_calls_finish).

(** The evaluator fails at once: the calls are closed, [m3c] is not. *)
Definition eval_fails : list label :=
  [LRegister 0; LReturn (Err (EPlain "evaluator")); L5Closed; LAddReturn; L6Closed; LRegistered; LDone 0; LAllSent; LCutStop; L2Closed;
   L7Close 0; L7Closed 0].

Lemma after_run_emits emits ls : emits_along emits ls runCycle -> cycle_reachable emits (after_run ls).
Proof.
  intros He. unfold after_run. destruct (exec_all ls runCycle) as [s|] eqn:Hs; [|apply cycle_start].
  eapply exec_all_reachable; [exact He|apply cycle_start|exact Hs].
Qed.

Lemma after_run_reachable ls :
  match exec_all ls runCycle with Some _ => True | None => False end -> cycle_reachable returns_given (after_run ls).
Proof. intros _. apply after_run_emits, given_along. Qed.

Lemma returns_given_honest seen cl out id : returns_given seen cl out id -> exists m, m ∈ seen /\ m_MatchId m = id.
Proof. done. Qed.

Lemma cycle_over_by s :
  (match f_pc (cy_fan s) with FanReturned => true | _ => false end) &&
    forallb (fun '(_, c) => buf_out_closed (m6cBuffer c)) (map_to_list (calls s)) = true ->
  cycle_over s.
Proof.
  intros [Hf Hc]%andb_true_iff. split; [by destruct (f_pc (cy_fan s))|]. intros k c Hk.
  rewrite forallb_forall in Hc. apply (Hc (k, c)). by apply list_elem_of_In, elem_of_map_to_list.
Qed.

Lemma cycle_routes_witness :
  exists c, calls two_calls_end !! 1%nat = Some c /\ cl_out c = ["b"] /\
    exists m, mkMAndM7c m 1 ∈ sent two_calls_end /\ m_MatchId m = "b" /\ "b" ∈ ev_out (cy_eval two_calls_end).
Proof.
  destruct (calls two_calls_end !! 1%nat) as [c|] eqn:Hc; [|exfalso; vm_compute in Hc; discriminate Hc].
  exists c. assert (cl_out c = ["b"]) as Hout by (vm_compute in Hc; injection Hc as <-; reflexivity).
  split; [reflexivity|]. split; [exact Hout|].
  destruct (cycle_routes returns_given two_calls_end 1 c "b" returns_given_honest
    (after_run_reachable (two_calls ++ two_calls_finish) I) Hc) as (m & ? & ? & ? & _).
  - rewrite Hout. apply list_elem_of_here.
  - exists m. split; [assumption|]. split; assumption.
Defined.

Lemma evaluator_sees_all_witness :
  m_MatchId <$> ev_seen (cy_eval two_calls_read) = ["a"; "b"] /\
  ev_seen (cy_eval two_calls_read) = mm_m <$> sent two_calls_read.
Proof.
  split; [vm_compute; reflexivity|].
  apply (evaluator_sees_all returns_given two_calls_read); [apply after_run_reachable; exact I|vm_compute; reflexivity].
Defined.

Lemma cycle_delivers_witness :
  exists k c, calls two_calls_end !! k = Some c /\ sent_by two_calls_end k "b" /\
    ("b" ∈ cl_out c \/ cl_streaming c = false).
Proof.
  apply (cycle_delivers returns_given returns_given_honest two_calls_end "b").
  - apply after_run_reachable. exact I.
  - apply cycle_over_by. vm_compute. reflexivity.
  - assert (ev_out (cy_eval two_calls_end) = ["b"]) as -> by (vm_compute; reflexivity). apply list_elem_of_here.
Defined.

Lemma cycle_ends_witness :
  exists s', relations.nsteps internal_step 1 two_calls_cut s' /\ (1 <= cycle_measure two_calls_cut)%nat.
Proof.
  assert (internal_step two_calls_cut (set_cut (mkCutoffSender true CutReturned) two_calls_cut)) as Hi.
  { apply int_cut_stop. vm_compute. reflexivity. }
  eexists. split; [exact (relations.nsteps_once _ _ Hi)|].
  apply (cycle_ends returns_given two_calls_cut 1 _ (after_run_reachable (two_calls ++ [LRead; LAllSent]) I)
           ltac:(vm_compute; reflexivity) (relations.nsteps_once _ _ Hi)).
Defined.

(** ** Goroutines left behind

    When [fanInFanOut] returns because [m6c] was closed while it still
    received proposals, it never closes [m3c]: [cacheMatchIDToTicketIDs] waits
    on it for ever, whatever happens then. *)
Definition leaked (s : cycle) : Prop :=
  f_pc (cy_fan s) = FanReturned /\ m3c_closed (cy_fan s) = false /\ c_pc (cy_cache s) = CacheRecv.

Lemma leaked_forever emits s s' : leaked s -> cycle_step emits s s' -> leaked s'.
Proof.
  intros (Hf & Hm & Hc) Hs. unfold leaked. destruct Hs as [Hs|Hs]; destruct Hs; cbn;
    unfold fan_recv2, fan_closed2, fan_send3, fan_recv6, fan_closed6, fan_send7, cache_send4 in *;
    rewrite ?Hf, ?Hc in *; try discriminate; auto; congruence.
Qed.

(** The cycle is over for its calls, and a goroutine of it never ends: it
    happens as soon as the evaluator fails before the cutoff. *)
Lemma cycle_over_leaks :
  exists s, cycle_reachable returns_given s /\ cycle_over s /\ leaked s.
Proof.
  exists (after_run eval_fails). split; [apply after_run_reachable; exact I|]. split; [|vm_compute; done].
  apply cycle_over_by. vm_compute. reflexivity.
Qed.

(** ** The store fails

    The id is streamed all the same, and the sweep at the end of the cycle is
    given a context that is done. *)
Definition store_fails : list label :=
  two_calls ++
  [LRead; LAllSent; LCutStop; L2Closed; L3Closed; L4Closed; LReadClosed; LEmit "b"; LSlice;
   LAdd (Err (EPlain "connection refused")); L6; L7; LTake 1; LReturn (Ok tt); L5Closed; LAddNext; LAddReturn; LSweep].

Example store_fails_streams :
  cl_out <$> calls (after_run store_fails) !! 1%nat = Some ["b"] /\
  cy_run (after_run store_fails) =
    RunReturned (Some (EWrap "no matches successfully added to the pending release.  Last error" (EPlain "connection refused"))).
Proof. by vm_compute. Qed.
