(* ===== verification/MatchFunction.v ===== *)
(** * The match function library ([pkg/matchfunction/matchfunction.go])

    What match functions call to read pools through the query service. A call
    of the service is given by its outcome: an error, or a stream of pages
    ended by EOF or by an error. *)
From S2P Require Export Query.

Section QueryPool.
(** The two queries differ in the type of the elements and in the text of
    the errors only. *)
Context {A : Type} (what method : string).

Inductive recv_item := Page (xs : list A) | RecvError (m : string).

(** [for { resp, err := query.Recv(); ... }]: the end of the list is EOF. *)
Fixpoint recv_pages (xs : list A) (items : list recv_item) : result (list A) :=
  match items with
  | [] => Ok xs
  | RecvError m :: _ => Err (EWrap ("error receiving " +:+ what +:+ " from queryService." +:+ method) (EPlain m))
  | Page ys :: items => recv_pages (xs ++ ys) items
  end.

Definition query_pool (call : result (list recv_item)) : result (list A) :=
  match call with
  | Err err => Err (EWrap ("error calling queryService." +:+ method) err)
  | Ok items => recv_pages [] items
  end.

(** The goroutines of the pools deliver one result each, in an order of their
    own; [Done m] is the context ending before the next result is taken. *)
Inductive arrival := Arrived (name : string) (r : result (list A)) | Done (m : string).

Fixpoint collect_pools (n : nat) (arrivals : list arrival) (poolMap : gmap string (list A)) :
    option (result (gmap string (list A))) :=
  match n, arrivals with
  | O, _ => Some (Ok poolMap)
  | S _, [] => None
  | S _, Done m :: _ => Some (Err (EWrap "context canceled while querying pools" (EPlain m)))
  | S _, Arrived _ (Err err) :: _ => Some (Err err)
  | S n, Arrived name (Ok xs) :: arrivals => collect_pools n arrivals (<[name := xs]> poolMap)
  end.
End QueryPool.
Arguments recv_item A : clear implicits.
Arguments arrival A : clear implicits.

Definition QueryPool : result (list (recv_item Ticket)) -> result (list Ticket) :=
  query_pool "tickets" "QueryTickets".
Definition QueryBackfillPool : result (list (recv_item Backfill)) -> result (list Backfill) :=
  query_pool "backfills" "QueryBackfills".

(** The loop over [len(pools)] results; [None] is a call that still waits. *)
Definition query_pools {A} (pools : list Pool) (arrivals : list (arrival A)) :
    option (result (gmap string (list A))) :=
  collect_pools (length pools) arrivals ∅.

Definition QueryPools : list Pool -> list (arrival Ticket) -> option (result (gmap string (list Ticket))) := query_pools.
Definition QueryBackfillPools : list Pool -> list (arrival Backfill) -> option (result (gmap string (list Backfill))) :=
  query_pools.

(** ** Reading a pool *)

Lemma recv_pages_ok {A} what method (acc : list A) pages :
  recv_pages what method acc (Page <$> pages) = Ok (acc ++ concat pages).
Proof.
  revert acc. induction pages as [|p pages IH]; intros acc; cbn; [by rewrite app_nil_r|].
  by rewrite IH, <- app_assoc.
Qed.

(** The results of the goroutines in the order they arrive. *)
Definition arrive {A} (outcome : Pool -> result (list A)) (order : list Pool) : list (arrival A) :=
  (fun p => Arrived (p_Name p) (outcome p)) <$> order.

Section Collect.
Context {A : Type} (outcome : Pool -> result (list A)).

Definition fill (m : gmap string (list A)) (p : Pool) : gmap string (list A) :=
  match outcome p with Ok xs => <[p_Name p := xs]> m | Err _ => m end.

Lemma collect_pools_ok order m :
  (forall p, p ∈ order -> is_ok (outcome p) = true) ->
  collect_pools (length order) (arrive outcome order) m =
    Some (Ok (foldl fill m order)).
Proof.
  revert m. induction order as [|p order IH]; intros m Hok; cbn; [done|].
  pose proof (Hok p ltac:(by left)) as Hp. unfold fill at 2. destruct (outcome p) as [xs|e]; [|done].
  apply IH. intros q Hq. apply Hok. by right.
Qed.

Lemma lookup_collected order (m : gmap string (list A)) p xs :
  NoDup (p_Name <$> order) -> p ∈ order -> outcome p = Ok xs ->
  foldl fill m order !! p_Name p = Some xs.
Proof.
  revert m. induction order as [|q order IH]; intros m Hn Hp Hxs; [by apply not_elem_of_nil in Hp|].
  cbn in Hn. apply NoDup_cons in Hn as [Hq Hn]. cbn. apply elem_of_cons in Hp as [->|Hp]; [|by apply IH].
  clear IH Hn. assert (forall m : gmap string (list A), m !! p_Name q = Some xs ->
    foldl fill m order !! p_Name q = Some xs) as Hkeep.
  { clear m. induction order as [|y order IH]; intros m Hm; cbn in *; [done|]. apply not_elem_of_cons in Hq as [Hne Hq].
    apply IH; [done|]. unfold fill. destruct (outcome y); [|done]. by rewrite lookup_insert_ne. }
  apply Hkeep. unfold fill. rewrite Hxs. apply lookup_insert_eq.
Qed.

Lemma collect_pools_error order m :
  (exists p, p ∈ order /\ is_ok (outcome p) = false) ->
  exists p e, p ∈ order /\ outcome p = Err e /\
    collect_pools (length order) (arrive outcome order) m = Some (Err e).
Proof.
  revert m. induction order as [|q order IH]; intros m (p & Hp & He); [by apply not_elem_of_nil in Hp|].
  cbn. destruct (outcome q) as [xs|e] eqn:Hq.
  - apply elem_of_cons in Hp as [->|Hp]; [by rewrite Hq in He|].
    destruct (IH (<[p_Name q := xs]> m) ltac:(eauto)) as (p' & e & ? & ? & ?). exists p', e. split_and!; [by right|done..].
  - exists q, e. split_and!; [by left|done..].
Qed.

(** The order in which pools answer does not matter: for pools with
    distinct names that are not cancelled, [QueryPools] (and
    [QueryBackfillPools]) returns for each pool what was read for it when all
    succeed, and the error of one of the failed pools when any fails. *)
Theorem query_pools_any_order pools order
  (Hnames : NoDup (p_Name <$> pools)) (Horder : order ≡ₚ pools) :
  match query_pools pools (arrive outcome order) with
  | Some (Ok m) => forall p, p ∈ pools -> exists xs, outcome p = Ok xs /\ m !! p_Name p = Some xs
  | Some (Err e) => exists p, p ∈ pools /\ outcome p = Err e
  | None => False
  end.
Proof.
  unfold query_pools. rewrite <- (Permutation_length Horder).
  destruct (decide (Exists (fun p => is_ok (outcome p) = false) order)) as [Hex|Hall].
  - apply Exists_exists in Hex. destruct (collect_pools_error order ∅ Hex) as (p & e & Hp & He & ->).
    exists p. by rewrite <- Horder.
  - rewrite collect_pools_ok.
    + intros p Hp. rewrite <- Horder in Hp. destruct (outcome p) as [xs|e] eqn:Hxs.
      * exists xs. split; [done|]. apply lookup_collected; [by rewrite Horder|done..].
      * destruct Hall. apply Exists_exists. exists p. by rewrite Hxs.
    + intros p Hp. apply not_false_iff_true. intros He. apply Hall, Exists_exists. eauto.
Qed.
End Collect.

(** A pool read through the library is the pool the query service
    selected: the pages the service streams for any page size arrive as the
    whole list, in order. *)
Theorem query_pool_reads_query cfg (results : list Ticket) :
  let pSize := Z.to_nat (getPageSize cfg) in
  QueryPool (Ok (Page <$> (send_pages (fun _ _ => None) pSize results (length results) 0 0).1)) = Ok results.
Proof.
  intros pSize. pose proof (getPageSize_bounds cfg) as Hb. unfold minPageSize in Hb.
  destruct (send_pages_ok (fun _ _ => None) pSize results (length results) 0 0) as (pages & -> & Hc & _);
    [done|lia|lia|]. unfold QueryPool, query_pool. rewrite recv_pages_ok. cbn. by rewrite Hc.
Qed.

Lemma query_pools_any_order_witness :
  let pool n := mkPool n [] [] [] None None in
  let outcome p := if bool_decide (p_Name p = "a") then Ok [1] else Ok [2; 3] in
  match query_pools [pool "a"; pool "b"] (arrive outcome [pool "b"; pool "a"]) with
  | Some (Ok m) => forall p, p ∈ [pool "a"; pool "b"] -> exists xs, outcome p = Ok xs /\ m !! p_Name p = Some xs
  | Some (Err e) => exists p, p ∈ [pool "a"; pool "b"] /\ outcome p = Err e
  | None => False
  end.
Proof.
  intros pool outcome. apply (query_pools_any_order outcome).
  - apply (bool_decide_unpack _). vm_compute. exact I.
  - apply Permutation_swap.
Defined.
