(* ===== verification/Mmf.v ===== *)
(** * Sample match functions ([examples/functions/golang/backfill/mmf/matchfunction.go],
      [examples/functions/golang/soloduel/mmf/matchfunction.go],
      [tutorials/default_evaluator/solution/matchfunction/mmf/matchfunction.go])

    The backfill match function used as the reference for backfills, the 1v1
    match function, and the tutorials' match function with its scores. *)
From S2P Require Export MatchFunction.

(** The decimal rendering of a count. *)
Definition num (n : nat) : string := itoa (Z.of_nat n).

(** The end of every [Run]: the proposals are streamed in order, up to the
    first that cannot be sent; [send n] is the outcome of the [n]-th. What
    was sent and what [Run] returns. *)
Fixpoint stream_proposals (send : nat -> option error) (n : nat) (proposals : list Match) : list Match * result unit :=
  match proposals with
  | [] => ([], Ok tt)
  | proposal :: proposals =>
      match send n with
      | Some err => ([], Err err)
      | None => let '(sent, r) := stream_proposals send (S n) proposals in (proposal :: sent, r)
      end
  end.

(** What [Run] does with the matches made, or the error instead. *)
Definition stream_result (send : nat -> option error) (proposals : result (list Match)) : list Match * result unit :=
  match proposals with
  | Err err => ([], Err err)
  | Ok proposals => stream_proposals send 0 proposals
  end.

(** ** The backfill match function *)

Definition playersPerMatch : nat := 2.
Definition openSlotsKey : string := "open-slots".
Definition backfill_matchName : string := "backfill-matchfunction".

(** [ptypes.MarshalAny] and [ptypes.UnmarshalAny] on an [Int32Value]; [None]
    is an error. *)
Class Int32Any := {
  MarshalInt32 : Z -> option Any;
  UnmarshalInt32 : Any -> option Z;
}.
Class Int32AnyLaws `{Int32Any} : Prop := {
  marshal_int32_ok z : - 2 ^ 31 <= z < 2 ^ 31 -> is_Some (MarshalInt32 z);
  unmarshal_marshal_int32 z a : MarshalInt32 z = Some a -> UnmarshalInt32 a = Some z;
}.

(** Arithmetic on doubles. *)
Definition f_sub (a b : float64) : float64 := SFsub 53 1024 a b.
Definition f_add (a b : float64) : float64 := SFadd 53 1024 a b.
Definition f_div (a b : float64) : float64 := SFdiv 53 1024 a b.

Definition newSearchFields (pool : Pool) : SearchFields :=
  mkSearchFields
    (foldl (fun m f => <[drf_DoubleArg f := f_div (f_sub (drf_Max f) (drf_Min f)) (f_int 2)]> m) ∅ (p_DoubleRangeFilters pool))
    (foldl (fun m f => <[sef_StringArg f := sef_Value f]> m) ∅ (p_StringEqualsFilters pool))
    (* make([]string, len(tagFilters)) and then append *)
    (replicate (length (p_TagPresentFilters pool)) "" ++ (tpf_Tag <$> p_TagPresentFilters pool)).

Section Backfill.
Context `{Int32Any}.

Definition marshal_error : error := EPlain "proto: marshal failed".
Definition unmarshal_error : error := EPlain "proto: unmarshal failed".

Definition setOpenSlots (b : Backfill) (val : Z) : result Backfill :=
  match MarshalInt32 val with
  | None => Err marshal_error
  | Some any => Ok (set_bf_extensions (<[openSlotsKey := any]> (b_Extensions b)) b)
  end.

Definition getOpenSlots (b : Backfill) : result Z :=
  match b_Extensions b !! openSlotsKey with
  | Some any => match UnmarshalInt32 any with Some v => Ok v | None => Err unmarshal_error end
  | None => Ok (Z.of_nat playersPerMatch)
  end.

(** [now] renders the clock when the match is made. *)
Definition newMatch (now : string) (n : nat) (profile : string) (tickets : list Ticket) (b : option Backfill) : Match :=
  mkMatch ("profile-" +:+ profile +:+ "-time-" +:+ now +:+ "-num-" +:+ num n) profile backfill_matchName tickets ∅ b false.

Definition newBackfill (create : Timestamp) (searchFields : SearchFields) (openSlots : Z) : result Backfill :=
  setOpenSlots (mkBackfill "" (Some searchFields) ∅ ∅ (Some create) 0) openSlots.

(** [for openSlots > 0 && len(tickets) > 0]: the tickets taken, the open
    slots and the tickets left. *)
Fixpoint take_slots (openSlots : Z) (matchTickets tickets : list Ticket) : list Ticket * Z * list Ticket :=
  match tickets with
  | t :: rest =>
      if 0 <? openSlots then take_slots (openSlots - 1) (matchTickets ++ [t]) rest
      else (matchTickets, openSlots, tickets)
  | [] => (matchTickets, openSlots, [])
  end.

(** The clock is read for every match: [now n] when the [n]-th is made. *)
Variable now : nat -> string.

Fixpoint handleBackfills (profile : string) (tickets : list Ticket) (backfills : list Backfill) (matchId : nat)
    (matches : list Match) : result (list Match * list Ticket) :=
  match backfills with
  | [] => Ok (matches, tickets)
  | b :: backfills =>
      match getOpenSlots b with
      | Err err => Err err
      | Ok openSlots =>
          let '(matchTickets, openSlots, tickets) := take_slots openSlots [] tickets in
          match matchTickets with
          | [] => handleBackfills profile tickets backfills matchId matches
          | _ =>
              match setOpenSlots b openSlots with
              | Err err => Err err
              | Ok b =>
                  let matchId := S matchId in
                  handleBackfills profile tickets backfills matchId
                    (matches ++ [newMatch (now matchId) matchId profile matchTickets (Some b)])
              end
          end
      end
  end.

(** The loop of [makeFullMatches] on its variables; [None]: out of fuel. *)
Fixpoint full_matches_loop (fuel : nat) (profile : string) (tickets : list Ticket) (ticketNum matchId : nat)
    (matches : list Match) : option (list Match * list Ticket) :=
  if (ticketNum <? playersPerMatch)%nat && (playersPerMatch <=? length tickets)%nat then
    match fuel with
    | O => None
    | S fuel =>
        let ticketNum := S ticketNum in
        if (ticketNum =? playersPerMatch)%nat then
          let matchId := S matchId in
          full_matches_loop fuel profile (drop playersPerMatch tickets) O matchId
            (matches ++ [newMatch (now matchId) matchId profile (take playersPerMatch tickets) None])
        else full_matches_loop fuel profile tickets ticketNum matchId matches
    end
  else Some (matches, tickets).

(** Each turn but every second one takes a match's tickets away. *)
Definition makeFullMatches (profile : string) (tickets : list Ticket) (lastMatchId : nat) : option (list Match * list Ticket) :=
  full_matches_loop (S (length tickets)) profile tickets O lastMatchId [].

Definition set_allocate (m : Match) : Match :=
  mkMatch (m_MatchId m) (m_MatchProfile m) (m_MatchFunction m) (m_Tickets m) (m_Extensions m) (m_Backfill m) true.

Definition makeMatchWithBackfill (create : Timestamp) (profile : string) (pool : Pool) (tickets : list Ticket)
    (lastMatchId : nat) : result Match :=
  if (length tickets =? 0)%nat then Err (EPlain "tickets are required")
  else if (playersPerMatch <=? length tickets)%nat then Err (EPlain "too many tickets")
  else
    match newBackfill create (newSearchFields pool) (Z.of_nat (playersPerMatch - length tickets)) with
    | Err err => Err err
    | Ok backfill =>
        let matchId := S lastMatchId in
        Ok (set_allocate (newMatch (now matchId) matchId profile tickets (Some backfill)))
    end.

(** [makeMatches]; [None]: out of fuel, which [backfill_mmf_total] rules out. *)
Definition makeMatches (create : Timestamp) (profile : string) (pool : Pool) (tickets : list Ticket)
    (backfills : list Backfill) : option (result (list Match)) :=
  match handleBackfills profile tickets backfills 0 [] with
  | Err err => Some (Err err)
  | Ok (matches, remainingTickets) =>
      '(newMatches, remainingTickets) ← makeFullMatches profile remainingTickets (length matches);
      let matches := matches ++ newMatches in
      Some (match remainingTickets with
            | [] => Ok matches
            | _ => result_bind (makeMatchWithBackfill create profile pool remainingTickets (length matches))
                     (fun match_ => Ok (matches ++ [match_]))
            end)
  end.

(** The loop of [Run]: the proposals of the pools in order, up to the first
    failure. The outcome of the two queries of each pool is given. *)
Fixpoint run_pools (create : Timestamp) (profile : string) (pools : list (Pool * result (list Ticket) * result (list Backfill)))
    (proposals : list Match) : option (result (list Match)) :=
  match pools with
  | [] => Some (Ok proposals)
  | (p, Err err, _) :: _ => Some (Err err)
  | (p, Ok tickets, Err err) :: _ => Some (Err err)
  | (p, Ok tickets, Ok backfills) :: pools =>
      r ← makeMatches create profile p tickets backfills;
      match r with
      | Err err => Some (Err err)
      | Ok matches => run_pools create profile pools (proposals ++ matches)
      end
  end.

Definition backfill_Run (create : Timestamp) (profile : string)
    (pools : list (Pool * result (list Ticket) * result (list Backfill))) (send : nat -> option error) :
    option (list Match * result unit) :=
  stream_result send <$> run_pools create profile pools [].
End Backfill.

(** ** The 1v1 match function *)
Section SoloDuel.
Context `{MapOrder}.

Definition soloduel_matchName : string := "a-simple-1v1-matchfunction".

(** The tickets of all the pools by id: of tickets with one id, the last. *)
Definition by_id (poolTickets : gmap string (list Ticket)) : gmap string Ticket :=
  foldl (fun m '(_, pool) => foldl (fun m t => <[t_Id t := t]> m) m pool) ∅ (map_iter poolTickets).

Record duel_state := mkDuel { d_matches : list Match; d_thisMatch : list Ticket; d_matchNum : nat }.

Definition duel_step (t : string) (s : duel_state) (ticket : Ticket) : duel_state :=
  let thisMatch := d_thisMatch s ++ [ticket] in
  if (2 <=? length thisMatch)%nat then
    mkDuel (d_matches s ++
      [mkMatch ("profile-" +:+ soloduel_matchName +:+ "-time-" +:+ t +:+ "-num-" +:+ num (d_matchNum s))
         soloduel_matchName soloduel_matchName thisMatch ∅ None false]) [] (S (d_matchNum s))
  else mkDuel (d_matches s) thisMatch (d_matchNum s).

Definition soloduel_makeMatches (t : string) (poolTickets : gmap string (list Ticket)) : list Match :=
  d_matches (foldl (duel_step t) (mkDuel [] [] 0) (map_iter (by_id poolTickets)).*2).

(** [poolTickets] is the outcome of [matchfunction.QueryPools]. *)
Definition soloduel_Run (t : string) (poolTickets : result (gmap string (list Ticket))) (send : nat -> option error) :
    list Match * result unit :=
  match poolTickets with
  | Err err => ([], Err err)
  | Ok poolTickets => stream_result send (Ok (soloduel_makeMatches t poolTickets))
  end.
End SoloDuel.

(** ** The tutorials' match function *)
Section Tutorial.
Context `{MapOrder} (MarshalScore : float64 -> option Any) (ticketsPerPoolPerMatch : nat).

Definition tutorial_matchName : string := "basic-matchfunction".

(** A missing argument reads as zero. *)
Definition enter_queue (t : Ticket) : float64 :=
  match t_SearchFields t with
  | Some sf => default (S754_zero false) (sf_DoubleArgs sf !! "time.enterqueue")
  | None => S754_zero false
  end.

(** [now] is [float64(time.Now().UnixNano())]. *)
Definition scoreCalculator (now : float64) (tickets : list Ticket) : float64 :=
  foldl (fun matchScore ticket => f_add matchScore (f_sub now (enter_queue ticket))) (S754_zero false) tickets.

(** One pass over the pools: the tickets taken and the pools left, and
    whether a pool had too few. A range over a map reads each entry when it
    gets to it; the loop writes only the entry it is at. *)
Fixpoint take_round (pools : list string) (poolTickets : gmap string (list Ticket)) (matchTickets : list Ticket) :
    bool * list Ticket * gmap string (list Ticket) :=
  match pools with
  | [] => (false, matchTickets, poolTickets)
  | pool :: pools =>
      let tickets := default [] (poolTickets !! pool) in
      if (length tickets <? ticketsPerPoolPerMatch)%nat then (true, matchTickets, poolTickets)
      else take_round pools (<[pool := drop ticketsPerPoolPerMatch tickets]> poolTickets)
             (matchTickets ++ take ticketsPerPoolPerMatch tickets)
  end.

(** The clock at each turn: as a double, and rendered. *)
Variable clock : nat -> float64 * string.

(** The [for] loop; [None]: still running. *)
Fixpoint tutorial_loop (fuel : nat) (profile : string) (poolTickets : gmap string (list Ticket)) (count : nat)
    (matches : list Match) : option (result (list Match)) :=
  match fuel with
  | O => None
  | S fuel =>
      let '(insufficientTickets, matchTickets, poolTickets) := take_round (map_iter poolTickets).*1 poolTickets [] in
      if insufficientTickets then Some (Ok matches)
      else
        match MarshalScore (scoreCalculator (clock count).1 matchTickets) with
        | None => Some (Err (EWrapf "Failed to marshal DefaultEvaluationCriteria, got " (EPlain "proto: marshal failed")))
        | Some evaluationInput =>
            tutorial_loop fuel profile poolTickets (S count)
              (matches ++
               [mkMatch ("profile-" +:+ profile +:+ "-time-" +:+ (clock count).2 +:+ "-" +:+ num count) profile
                  tutorial_matchName matchTickets {["evaluation_input" := evaluationInput]} None false])
        end
  end.

Definition tutorial_makeMatches (fuel : nat) (profile : string) (poolTickets : gmap string (list Ticket)) :
    option (result (list Match)) :=
  tutorial_loop fuel profile poolTickets 0 [].

Definition tutorial_Run (fuel : nat) (profile : string) (poolTickets : result (gmap string (list Ticket)))
    (send : nat -> option error) : option (list Match * result unit) :=
  match poolTickets with
  | Err err => Some ([], Err err)
  | Ok poolTickets => stream_result send <$> tutorial_makeMatches fuel profile poolTickets
  end.
End Tutorial.

(** Without a failure everything is sent, in order. *)
Lemma stream_proposals_ok send n ms : (forall i, send i = None) -> stream_proposals send n ms = (ms, Ok tt).
Proof. intros Hs. revert n. induction ms as [|m ms IH]; intros n; cbn; [done|]. by rewrite Hs, IH. Qed.

(** In any case a prefix is sent, and [Run] succeeds only if it is all. *)
Lemma stream_proposals_prefix send n ms :
  let r := stream_proposals send n ms in r.1 `prefix_of` ms /\ (r.2 = Ok tt -> r.1 = ms).
Proof.
  revert n. induction ms as [|m ms IH]; intros n; cbn; [done|]. destruct (send n); cbn; [split; [apply prefix_nil|done]|].
  specialize (IH (S n)). destruct (stream_proposals send (S n) ms) as [sent r]. cbn in *. destruct IH as [Hp Hr].
  split; [by apply prefix_cons|]. intros Hok. by rewrite Hr.
Qed.
