(* ===== verification/MmfProps.v ===== *)
(** * What the sample match functions propose *)
From Stdlib Require Import DecimalString DecimalZ DecimalPos.
From S2P Require Export Mmf Filter.
From S2P Require Import MemEnv.

(** ** Backfills first, then full matches, then a new backfill *)
Section BackfillMmf.
Context `{Int32AnyLaws} (now : nat -> string).

Lemma take_slots_spec s acc ts : exists n, (n <= length ts)%nat /\
  take_slots s acc ts = (acc ++ take n ts, s - Z.of_nat n, drop n ts) /\
  (n = O \/ Z.of_nat n <= s) /\ (Z.of_nat n < s -> n = length ts).
Proof.
  revert s acc. induction ts as [|t ts IH]; intros s acc; cbn [take_slots].
  { exists O. cbn. rewrite app_nil_r, Z.sub_0_r. split_and!; auto. }
  destruct (Z.ltb_spec 0 s) as [Hs|Hs].
  - destruct (IH (s - 1) (acc ++ [t])) as (n & Hn & -> & Hle & Hfull). exists (S n).
    cbn [take drop length]. rewrite <- app_assoc. split_and!; [lia| |lia|lia].
    by replace (s - 1 - Z.of_nat n) with (s - Z.of_nat (S n)) by lia.
  - exists O. cbn. rewrite app_nil_r, Z.sub_0_r. split_and!; [lia|done|auto|lia].
Qed.

(** A match that fills a backfill: as many tickets as it has open slots or
    fewer, and the backfill with the slots that are left. *)
Definition fills (b : Backfill) (m : Match) : Prop :=
  exists slots b', getOpenSlots b = Ok slots /\ m_Backfill m = Some b' /\
    setOpenSlots b (slots - Z.of_nat (length (m_Tickets m))) = Ok b' /\
    (0 < length (m_Tickets m))%nat /\ Z.of_nat (length (m_Tickets m)) <= slots /\ m_AllocateGameserver m = false.

Definition readable_slots (b : Backfill) : Prop :=
  exists s, getOpenSlots b = Ok s /\ - 2 ^ 31 <= s < 2 ^ 31.

Lemma set_open_slots b z : - 2 ^ 31 <= z < 2 ^ 31 ->
  exists b', setOpenSlots b z = Ok b' /\ getOpenSlots b' = Ok z /\ b_Id b' = b_Id b.
Proof.
  intros Hz. destruct (marshal_int32_ok z Hz) as [a Ha]. unfold setOpenSlots. rewrite Ha.
  eexists. split; [done|]. unfold getOpenSlots. cbn. rewrite lookup_insert_eq.
  by rewrite (unmarshal_marshal_int32 z a Ha).
Qed.

(** The matches made so far, numbered from one. *)
Definition numbered (profile : string) (start : nat) (ms : list Match) : Prop :=
  forall j m, ms !! j = Some m ->
    m_MatchId m = "profile-" +:+ profile +:+ "-time-" +:+ now (S (start + j)) +:+ "-num-" +:+ num (S (start + j)) /\
    m_MatchProfile m = profile.

Lemma numbered_nil profile start : numbered profile start [].
Proof. intros j m. by rewrite lookup_nil. Qed.

Lemma numbered_app profile start ms1 ms2 :
  numbered profile start ms1 -> numbered profile (start + length ms1) ms2 -> numbered profile start (ms1 ++ ms2).
Proof.
  intros H1 H2 j m [Hj|[Hlen Hj]]%lookup_app_Some; [by apply H1|]. destruct (H2 _ _ Hj) as [-> Hp]. split; [|done].
  by replace (start + length ms1 + (j - length ms1))%nat with (start + j)%nat by lia.
Qed.

Lemma numbered_one profile n tickets b m :
  m_MatchId m = m_MatchId (newMatch (now (S n)) (S n) profile tickets b) -> m_MatchProfile m = profile ->
  numbered profile n [m].
Proof. intros He Hp [|j] m'; cbn; [intros [= <-]; by rewrite Nat.add_0_r|]. done. Qed.

Lemma handleBackfills_spec profile backfills : forall tickets matchId matches,
  Forall readable_slots backfills -> matchId = length matches ->
  exists new rest used, handleBackfills now profile tickets backfills matchId matches = Ok (matches ++ new, rest) /\
    used `sublist_of` backfills /\ Forall2 fills used new /\
    tickets = concat (m_Tickets <$> new) ++ rest /\ numbered profile matchId new.
Proof.
  induction backfills as [|b bs IH]; intros tickets matchId matches Hr Hid; cbn [handleBackfills].
  { exists [], tickets, []. rewrite app_nil_r. split_and!; done. }
  apply Forall_cons in Hr as [(s & Hs & Hrange) Hr]. rewrite Hs.
  destruct (take_slots_spec s [] tickets) as (n & Hn & -> & Hle & Hfull). cbn [app].
  destruct (take n tickets) as [|t ts] eqn:Htake.
  - assert (drop n tickets = tickets) as ->.
    { rewrite <- (take_drop n tickets) at 2. by rewrite Htake. }
    destruct (IH tickets matchId matches Hr Hid) as (new & rest & used & ? & ? & ? & ? & ?).
    exists new, rest, used. split_and!; try done. by apply sublist_cons.
  - assert (length (t :: ts) = n) as Hlen by (rewrite <- Htake, length_take; lia).
    destruct (set_open_slots b (s - Z.of_nat n)) as (b' & Hb' & _ & _); [cbn in Hlen; lia|]. rewrite Hb'.
    set (m := newMatch (now (S matchId)) (S matchId) profile (t :: ts) (Some b')).
    destruct (IH (drop n tickets) (S matchId) (matches ++ [m]) Hr) as (new & rest & used & -> & Hsub & Hf & Ht & Hnum).
    { rewrite length_app. cbn. lia. }
    exists (m :: new), rest, (b :: used). rewrite <- app_assoc. split_and!; [done|by apply sublist_skip| | |].
    + constructor; [|done]. exists s, b'. change (m_Tickets m) with (t :: ts). rewrite Hlen.
      split_and!; [done..|cbn in Hlen; lia| |done]. cbn in Hlen. lia.
    + change (m_Tickets <$> m :: new) with ((t :: ts) :: (m_Tickets <$> new)). cbn [concat].
      rewrite <- app_assoc, <- Ht, <- Htake. symmetry. apply take_drop.
    + apply (numbered_app _ _ [m] new); [by apply (numbered_one _ _ (t :: ts) (Some b'))|].
      cbn. by rewrite Nat.add_1_r.
Qed.

Lemma full_matches_spec profile fuel : forall tickets matchId matches,
  (length tickets <= fuel)%nat ->
  exists new rest, full_matches_loop now (S fuel) profile tickets 0 matchId matches = Some (matches ++ new, rest) /\
    Forall (fun m => length (m_Tickets m) = playersPerMatch /\ m_Backfill m = None /\ m_AllocateGameserver m = false) new /\
    tickets = concat (m_Tickets <$> new) ++ rest /\ (length rest < playersPerMatch)%nat /\ numbered profile matchId new.
Proof.
  induction fuel as [fuel IH] using lt_wf_ind. intros tickets matchId matches Hf.
  destruct tickets as [|t1 [|t2 tickets]].
  - exists [], []. rewrite app_nil_r. split_and!; try done; unfold playersPerMatch; cbn; lia.
  - exists [], [t1]. rewrite app_nil_r. split_and!; try done; unfold playersPerMatch; cbn; lia.
  - destruct fuel as [|[|fuel]]; [cbn in Hf; lia|cbn in Hf; lia|].
    set (m := newMatch (now (S matchId)) (S matchId) profile [t1; t2] None).
    destruct (IH fuel ltac:(lia) tickets (S matchId) (matches ++ [m])) as (new & rest & He & Hm & Ht & Hr & Hn).
    { cbn in Hf. lia. }
    exists (m :: new), rest. split_and!.
    + change (full_matches_loop now (S fuel) profile tickets 0 (S matchId) (matches ++ [m]) = Some (matches ++ m :: new, rest)).
      rewrite He. by rewrite <- app_assoc.
    + constructor; [|done]. done.
    + cbn. by rewrite Ht.
    + done.
    + apply (numbered_app _ _ [m] new); [by apply (numbered_one _ _ [t1; t2] None)|]. cbn. by rewrite Nat.add_1_r.
Qed.
(** A match made for the last tickets, with a new backfill for the slots that
    are open. *)
Definition opens (m : Match) : Prop :=
  m_Tickets m <> [] /\ (length (m_Tickets m) < playersPerMatch)%nat /\ m_AllocateGameserver m = true /\
  exists b, m_Backfill m = Some b /\ b_Id b = "" /\
    getOpenSlots b = Ok (Z.of_nat (playersPerMatch - length (m_Tickets m))).

Lemma makeMatchWithBackfill_spec create profile pool tickets n :
  tickets <> [] -> (length tickets < playersPerMatch)%nat ->
  exists m, makeMatchWithBackfill now create profile pool tickets n = Ok m /\
    m_Tickets m = tickets /\ opens m /\ numbered profile n [m].
Proof.
  intros Hne Hlen. unfold makeMatchWithBackfill.
  destruct (Nat.eqb_spec (length tickets) 0) as [?%length_zero_iff_nil|_]; [done|].
  destruct (Nat.leb_spec playersPerMatch (length tickets)); [lia|]. unfold newBackfill.
  destruct (set_open_slots (mkBackfill "" (Some (newSearchFields pool)) ∅ ∅ (Some create) 0)
    (Z.of_nat (playersPerMatch - length tickets))) as (b & -> & Hslots & Hid).
  { unfold playersPerMatch in *. lia. }
  eexists. split; [done|]. split; [done|]. split.
  - split_and!; [done|done|done|]. exists b. by split_and!.
  - by apply (numbered_one _ _ tickets (Some b)).
Qed.

(** C37. Nobody is left out and nobody is matched twice. For backfills whose open
    slots can be read the match function succeeds: the tickets of its matches
    are the tickets of the pool, each once and in order; first come the
    matches that fill backfills, one for each backfill used, of at most its
    open slots, with the backfill updated to the slots that are left; then
    matches of exactly two without a backfill; and then, when a ticket is left,
    one match with a new backfill for the other player, for which a game
    server is to be allocated. *)
Theorem backfill_mmf_partition create profile pool tickets backfills (Hb : Forall readable_slots backfills) :
  exists filled full opened used,
    makeMatches now create profile pool tickets backfills = Some (Ok (filled ++ full ++ opened)) /\
    concat (m_Tickets <$> filled ++ full ++ opened) = tickets /\
    used `sublist_of` backfills /\ Forall2 fills used filled /\
    Forall (fun m => length (m_Tickets m) = playersPerMatch /\ m_Backfill m = None /\ m_AllocateGameserver m = false) full /\
    Forall opens opened /\ (length opened <= 1)%nat /\ numbered profile 0 (filled ++ full ++ opened).
Proof.
  unfold makeMatches, makeFullMatches.
  destruct (handleBackfills_spec profile backfills tickets 0 [] Hb eq_refl)
    as (filled & rest & used & -> & Hsub & Hfills & Ht & Hn1).
  destruct (full_matches_spec profile (length rest) rest (length filled) [] ltac:(done))
    as (full & left & Hf & Hfull & Hr & Hleft & Hn2).
  cbn [app] in *. rewrite Hf. cbn [mbind option_bind app].
  assert (numbered profile 0 (filled ++ full)) as Hn by (by apply numbered_app).
  destruct left as [|t left].
  - exists filled, full, [], used. rewrite !app_nil_r in *. split_and!; try done; [|cbn; lia].
    rewrite Ht, Hr, fmap_app, concat_app. done.
  - destruct (makeMatchWithBackfill_spec create profile pool (t :: left) (length (filled ++ full)))
      as (m & -> & Hm & Ho & Hn3); [done|done|].
    exists filled, full, [m], used. cbn [result_bind]. rewrite <- app_assoc. split_and!; try done.
    + rewrite Ht, Hr, !fmap_app, !concat_app. cbn. by rewrite Hm, app_nil_r.
    + by constructor.
    + rewrite app_assoc. by apply numbered_app.
Qed.
End BackfillMmf.

(** *** Ids

    Within one pool the numbers tell the matches apart; across pools of one
    run they start again at one. *)
(** The text after the last occurrence of a character. *)
Lemma last_field c s1 s2 d1 d2 : has_char c d1 = false -> has_char c d2 = false ->
  s1 +:+ String c d1 = s2 +:+ String c d2 -> d1 = d2.
Proof.
  intros H1 H2. revert s2. induction s1 as [|a s1 IH]; intros [|b s2]; rewrite ?append_cons; change ("" +:+ ?x) with x.
  - by intros [= ->].
  - intros [= -> Hd]. exfalso. rewrite Hd, has_char_app in H1. cbn in H1.
    rewrite bool_decide_eq_true_2 in H1 by done. by rewrite orb_true_r in H1.
  - intros [= -> Hd]. exfalso. rewrite <- Hd, has_char_app in H2. cbn in H2.
    rewrite bool_decide_eq_true_2 in H2 by done. by rewrite orb_true_r in H2.
  - intros [= -> Hd]. by apply (IH s2).
Qed.

Lemma uint_no_dash u : has_char "-" (NilEmpty.string_of_uint u) = false.
Proof. induction u; cbn; auto. Qed.

Lemma num_uint n : exists u, u <> Decimal.Nil /\ Z.to_int (Z.of_nat n) = Decimal.Pos u.
Proof.
  destruct n as [|n]; [by exists (Decimal.D0 Decimal.Nil)|]. cbn. eexists. split; [|done].
  apply DecimalPos.Unsigned.to_uint_nonnil.
Qed.

Lemma num_no_dash n : has_char "-" (num n) = false.
Proof.
  unfold num, itoa. destruct (num_uint n) as (u & Hu & ->). cbn. unfold NilZero.string_of_uint.
  destruct u; [done|apply uint_no_dash..].
Qed.

Lemma num_inj n1 n2 : num n1 = num n2 -> n1 = n2.
Proof.
  unfold num, itoa. destruct (num_uint n1) as (u1 & Hu1 & H1), (num_uint n2) as (u2 & Hu2 & H2).
  rewrite H1, H2. intros Hn. apply (f_equal NilZero.int_of_string) in Hn.
  rewrite !NilZero.isi in Hn by congruence. apply Nat2Z.inj, DecimalZ.to_int_inj. congruence.
Qed.

Lemma numbered_distinct now profile ms : numbered now profile 0 ms -> NoDup (m_MatchId <$> ms).
Proof.
  intros Hn. apply NoDup_alt. intros i j id Hi Hj. rewrite list_lookup_fmap in Hi, Hj.
  apply fmap_Some in Hi as (m1 & Hm1 & ->), Hj as (m2 & Hm2 & He).
  apply Hn in Hm1 as [H1 _], Hm2 as [H2 _]. rewrite H1, H2 in He. cbn [plus] in He.
  assert (forall now n, "profile-" +:+ profile +:+ "-time-" +:+ now +:+ "-num-" +:+ num n =
    ("profile-" +:+ profile +:+ "-time-" +:+ now +:+ "-num") +:+ String "-" (num n)) as Hs.
  { intros t n. by rewrite !append_assoc. }
  rewrite !Hs in He. apply last_field, num_inj in He; [lia|apply num_no_dash..].
Qed.

(** ** The 1v1 match function *)
Section SoloDuelProps.
Context `{MapOrder}.

Definition pool_tickets (poolTickets : gmap string (list Ticket)) (t : Ticket) : Prop :=
  exists name ts, poolTickets !! name = Some ts /\ t ∈ ts.

Lemma foldl_by_id ts (m : gmap string Ticket) id t :
  foldl (fun m t => <[t_Id t := t]> m) m ts !! id = Some t ->
  (t_Id t = id /\ t ∈ ts) \/ m !! id = Some t.
Proof.
  revert m. induction ts as [|x ts IH]; intros m; cbn; [auto|]. intros [[? ?]|Hm]%IH; [left; split; [done|by right]|].
  apply lookup_insert_Some in Hm as [[<- <-]|[_ Hm]]; [left; split; [done|by left]|auto].
Qed.

Lemma lookup_by_id poolTickets id t : by_id poolTickets !! id = Some t -> t_Id t = id /\ pool_tickets poolTickets t.
Proof.
  unfold by_id. assert (forall l (m : gmap string Ticket),
    foldl (fun m '(_, pool) => foldl (fun m t => <[t_Id t := t]> m) m pool) m l !! id = Some t ->
    (t_Id t = id /\ exists (name : string) ts, (name, ts) ∈ l /\ t ∈ ts) \/ m !! id = Some t) as Hl.
  { induction l as [|[name ts] l IH]; intros m; cbn; [auto|]. intros [(? & n & ts' & ? & ?)|Hm]%IH.
    - left. split; [done|]. exists n, ts'. split; [by right|done].
    - apply foldl_by_id in Hm as [[? ?]|?]; [|auto]. left. split; [done|]. exists name, ts. split; [by left|done]. }
  intros Hid. apply Hl in Hid as [(? & n & ts & Hn & ?)|He]; [|by rewrite lookup_empty in He].
  split; [done|]. exists n, ts. by rewrite elem_of_map_iter in Hn.
Qed.

Lemma duel_loop t ts : forall s, Forall (fun m => length (m_Tickets m) = 2%nat) (d_matches s) -> (length (d_thisMatch s) <= 1)%nat ->
  let s' := foldl (duel_step t) s ts in
  Forall (fun m => length (m_Tickets m) = 2%nat) (d_matches s') /\ (length (d_thisMatch s') <= 1)%nat /\
  concat (m_Tickets <$> d_matches s') ++ d_thisMatch s' = concat (m_Tickets <$> d_matches s) ++ d_thisMatch s ++ ts.
Proof.
  induction ts as [|x ts IH]; intros s Hm Hl; cbn; [by rewrite app_nil_r|].
  destruct (IH (duel_step t s x)) as (H1 & H2 & H3); unfold duel_step in *.
  - destruct (Nat.leb_spec 2 (length (d_thisMatch s ++ [x]))) as [Hlen|]; [|done]. rewrite length_app in Hlen. cbn in *.
    apply Forall_app. split; [done|]. constructor; [|done]. cbn. rewrite length_app. cbn. lia.
  - destruct (Nat.leb_spec 2 (length (d_thisMatch s ++ [x]))); cbn; lia.
  - split_and!; [exact H1|exact H2|]. etransitivity; [exact H3|].
    destruct (Nat.leb_spec 2 (length (d_thisMatch s ++ [x]))); cbn; rewrite ?fmap_app, ?concat_app; cbn;
      by rewrite ?app_nil_r, <- ?app_assoc.
Qed.

(** The 1v1 matches of a set of pools pair up the tickets: every match has
    two tickets of the pools, no ticket is in two matches or twice in one even
    when it is in several pools, and of all the ids at most one is left
    without a match. *)
Theorem soloduel_pairs t poolTickets :
  let ms := soloduel_makeMatches t poolTickets in
  Forall (fun m => length (m_Tickets m) = 2%nat) ms /\
  NoDup (t_Id <$> concat (m_Tickets <$> ms)) /\
  (forall x, x ∈ concat (m_Tickets <$> ms) -> pool_tickets poolTickets x) /\
  (2 * length ms <= size (by_id poolTickets) <= 2 * length ms + 1)%nat.
Proof.
  intros ms. unfold ms, soloduel_makeMatches.
  destruct (duel_loop t (map_iter (by_id poolTickets)).*2 (mkDuel [] [] 0)) as (Hl & Hlast & Hc); [by constructor|cbn; lia|].
  set (s := foldl _ _ _) in *. cbn in Hc.
  assert (t_Id <$> (map_iter (by_id poolTickets)).*2 = (map_iter (by_id poolTickets)).*1) as Hids.
  { assert (forall l : list (string * Ticket), (forall k x, (k, x) ∈ l -> t_Id x = k) -> t_Id <$> l.*2 = l.*1) as Hg.
    { induction l as [|[k x] l IH]; intros Hk; cbn; [done|]. rewrite (Hk k x) by by left. f_equal. apply IH.
      intros k' x' ?. apply Hk. by right. }
    apply Hg. intros k x Hk. apply elem_of_map_iter, lookup_by_id in Hk. tauto. }
  assert (length (map_iter (by_id poolTickets)).*2 = size (by_id poolTickets)) as Hsize.
  { rewrite length_fmap, map_iter_perm. by rewrite length_map_to_list. }
  assert (length (concat (m_Tickets <$> d_matches s)) = (2 * length (d_matches s))%nat) as Hlen.
  { clear -Hl. induction Hl as [|m l Hm _ IH]; [done|]. cbn. rewrite length_app, IH. cbn in Hm. lia. }
  split_and!; [done| | | |].
  - pose proof (NoDup_map_iter (by_id poolTickets)) as Hn. rewrite <- Hids, <- Hc, fmap_app in Hn.
    by apply NoDup_app in Hn as [? _].
  - intros x Hx. assert (x ∈ (map_iter (by_id poolTickets)).*2) as Hin by (rewrite <- Hc; apply elem_of_app; by left).
    apply list_elem_of_fmap in Hin as ([k y] & -> & Hin). apply elem_of_map_iter, lookup_by_id in Hin. apply Hin.
  - rewrite <- Hsize, <- Hc, length_app, Hlen. lia.
  - rewrite <- Hsize, <- Hc, length_app, Hlen. lia.
Qed.
End SoloDuelProps.

(** ** The tutorials' match function *)
Section TutorialProps.
Context `{MapOrder} (MarshalScore : float64 -> option Any) (k : nat) (clock : nat -> float64 * string).
Hypothesis marshal_ok : forall f, is_Some (MarshalScore f).

Definition enough (m : gmap string (list Ticket)) : Prop := map_Forall (fun _ ts => (k <= length ts)%nat) m.

(** The tickets of one round, pool by pool. *)
Definition round (m : gmap string (list Ticket)) (pools : list string) : list Ticket :=
  concat ((fun p => take k (default [] (m !! p))) <$> pools).

Lemma take_round_enough pools : forall m acc, NoDup pools ->
  (forall p, p ∈ pools -> (k <= length (default [] (m !! p)))%nat) ->
  exists m', take_round k pools m acc = (false, acc ++ round m pools, m') /\
    (forall p, m' !! p = if decide (p ∈ pools) then Some (drop k (default [] (m !! p))) else m !! p).
Proof.
  induction pools as [|p pools IH]; intros m acc Hn Hk; cbn [take_round].
  { exists m. cbn. rewrite app_nil_r. split; [done|]. intros p. by rewrite decide_False by apply not_elem_of_nil. }
  apply NoDup_cons in Hn as [Hp Hn]. destruct (Nat.ltb_spec (length (default [] (m !! p))) k) as [Hlt|Hge].
  { specialize (Hk p ltac:(by left)). lia. }
  set (m1 := <[p := drop k (default [] (m !! p))]> m).
  assert (forall q, q ∈ pools -> m1 !! q = m !! q) as Hne.
  { intros q Hq. apply lookup_insert_ne. by intros ->. }
  destruct (IH m1 (acc ++ take k (default [] (m !! p))) Hn) as (m' & -> & Hm').
  { intros q Hq. rewrite Hne by done. apply Hk. by right. }
  exists m'. split.
  - assert (round m1 pools = round m pools) as ->; [|by rewrite <- app_assoc].
    unfold round. f_equal. apply list_fmap_ext. intros i q Hq. rewrite Hne; [done|]. by eapply list_elem_of_lookup_2.
  - intros q. rewrite Hm'. destruct (decide (q = p)) as [->|Hqp].
    + rewrite (decide_False (P := p ∈ pools)) by done. rewrite decide_True by by left. apply lookup_insert_eq.
    + assert (m1 !! q = m !! q) as -> by (by apply lookup_insert_ne).
      destruct (decide (q ∈ pools)); [by rewrite decide_True by by right|].
      rewrite decide_False; [done|]. by intros [->|?]%elem_of_cons.
Qed.

Lemma take_round_short pools : forall m acc, NoDup pools ->
  (exists p, p ∈ pools /\ (length (default [] (m !! p)) < k)%nat) -> (take_round k pools m acc).1.1 = true.
Proof.
  induction pools as [|p pools IH]; intros m acc Hn (q & Hq & Hlt); [by apply not_elem_of_nil in Hq|].
  cbn [take_round].
  destruct (Nat.ltb_spec (length (default [] (m !! p))) k) as [|Hge]; [done|].
  apply NoDup_cons in Hn as [Hp Hn]. apply elem_of_cons in Hq as [->|Hq]; [lia|]. apply IH; [done|].
  exists q. split; [done|]. rewrite lookup_insert_ne; [done|]. by intros ->.
Qed.

Lemma pools_of (m : gmap string (list Ticket)) p : p ∈ (map_iter m).*1 <-> is_Some (m !! p).
Proof.
  rewrite list_elem_of_fmap. split.
  - intros ([q ts] & -> & Hq). apply elem_of_map_iter in Hq. eauto.
  - intros [ts Hts]. exists (p, ts). split; [done|]. by apply elem_of_map_iter.
Qed.

(** A turn of the loop with enough tickets in every pool. *)
Lemma take_round_drop m : enough m ->
  take_round k (map_iter m).*1 m [] = (false, round m (map_iter m).*1, drop k <$> m).
Proof.
  intros Hm. destruct (take_round_enough (map_iter m).*1 m [] (NoDup_map_iter m)) as (m' & -> & Hm').
  - intros p [ts Hts]%pools_of. rewrite Hts. cbn. by apply (Hm p ts).
  - f_equal. apply map_eq. intros p. rewrite Hm', lookup_fmap. destruct (decide _) as [[ts Hts]%pools_of|Hp].
    + by rewrite Hts.
    + rewrite pools_of in Hp. apply eq_None_not_Some in Hp. by rewrite Hp.
Qed.

(** The pools after [j] rounds, and a round of them. *)
Definition after_rounds (j : nat) (m : gmap string (list Ticket)) : gmap string (list Ticket) := drop (j * k) <$> m.

Lemma after_rounds_S j m : after_rounds (S j) m = after_rounds j (drop k <$> m).
Proof.
  unfold after_rounds. rewrite <- map_fmap_compose. apply map_fmap_ext. intros p ts _. cbn. rewrite drop_drop. f_equal.
Qed.

Lemma tutorial_loop_spec profile : forall N m count matches fuel,
  (forall j, (j < N)%nat -> enough (after_rounds j m)) -> ~ enough (after_rounds N m) -> (N < fuel)%nat ->
  exists ms, tutorial_loop MarshalScore k clock fuel profile m count matches = Some (Ok (matches ++ ms)) /\ length ms = N /\
    forall j mt, ms !! j = Some mt ->
      exists order, order ≡ₚ (map_to_list m).*1 /\ m_Tickets mt = round (after_rounds j m) order.
Proof.
  induction N as [|N IH]; intros m count matches fuel Hok Hshort Hfuel; (destruct fuel as [|fuel]; [lia|]); cbn [tutorial_loop].
  - assert (after_rounds 0 m = m) as Hm0.
    { unfold after_rounds. apply map_eq. intros p. rewrite lookup_fmap. by destruct (m !! p). }
    rewrite Hm0 in Hshort.
    assert (exists p ts, m !! p = Some ts /\ (length ts < k)%nat) as (p & ts & Hp & Hlt).
    { unfold enough in Hshort. apply map_not_Forall in Hshort; [|apply _]. destruct Hshort as (p & ts & ? & ?).
      exists p, ts. split; [done|lia]. }
    pose proof (take_round_short (map_iter m).*1 m [] (NoDup_map_iter m)) as Hs.
    destruct (take_round k _ m []) as [[insufficient mt] m']. cbn in Hs. rewrite Hs.
    + exists []. rewrite app_nil_r. split_and!; try done.
    + exists p. split; [apply pools_of; eauto|]. by rewrite Hp.
  - assert (enough m) as Hm.
    { specialize (Hok 0%nat ltac:(lia)). unfold after_rounds in Hok. intros p ts Hp. apply (Hok p (drop 0 ts)).
      by rewrite lookup_fmap, Hp. }
    rewrite take_round_drop by done. destruct (marshal_ok (scoreCalculator (clock count).1 (round m (map_iter m).*1))) as [a ->].
    match goal with |- context [tutorial_loop _ _ _ fuel profile _ (S count) (matches ++ [?x])] => set (m1 := x) end.
    destruct (IH (drop k <$> m) (S count) (matches ++ [m1]) fuel) as (ms & -> & Hl & Hms).
    { intros j Hj. rewrite <- after_rounds_S. apply Hok. lia. }
    { by rewrite <- after_rounds_S. }
    { lia. }
    exists (m1 :: ms). rewrite <- app_assoc. split_and!; [done|cbn; by rewrite Hl|].
    intros [|j] mt; cbn.
    + intros [= <-]. exists (map_iter m).*1. split; [by rewrite map_iter_perm|]. cbn.
      unfold round. f_equal. apply list_fmap_ext. intros i p _. unfold after_rounds. rewrite lookup_fmap. by destruct (m !! p).
    + intros (order & Ho & Hmt)%Hms. exists order. rewrite after_rounds_S. split; [|done].
      rewrite Ho. rewrite map_to_list_fmap, <- list_fmap_compose. by apply reflexive_eq, list_fmap_ext.
Qed.

Lemma enough_after j m : enough (after_rounds j m) <-> forall p ts, m !! p = Some ts -> (S j * k <= length ts)%nat.
Proof.
  unfold enough, after_rounds. split.
  - intros He p ts Hp. specialize (He p (drop (j * k) ts)). rewrite lookup_fmap, Hp, length_drop in He.
    destruct (decide (k = 0)%nat) as [->|]; [lia|]. specialize (He eq_refl). lia.
  - intros He p ts Hp. rewrite lookup_fmap in Hp. apply fmap_Some in Hp as (ts' & Hp & ->).
    apply He in Hp. rewrite length_drop. lia.
Qed.

(** The first round for which some pool is too short. *)
Lemma first_short (m : gmap string (list Ticket)) n : ~ enough (after_rounds n m) ->
  exists N, (forall j, (j < N)%nat -> enough (after_rounds j m)) /\ ~ enough (after_rounds N m).
Proof.
  induction n as [n IH] using lt_wf_ind. intros Hn.
  destruct (decide (Exists (fun j => ~ map_Forall (fun _ ts => (k <= length ts)%nat) (after_rounds j m)) (seq 0 n))) as [He|He].
  - apply Exists_exists in He as (j & Hj & He). apply elem_of_seq in Hj. apply (IH j); [lia|done].
  - exists n. split; [|done]. intros j Hj. apply dec_stable. intros Hs. apply He, Exists_exists.
    exists j. split; [|done]. apply elem_of_seq. lia.
Qed.

Lemma concat_fmap_app {A B} (f g : A -> list B) l : concat (f <$> l) ++ concat (g <$> l) ≡ₚ concat ((fun x => f x ++ g x) <$> l).
Proof.
  induction l as [|x l IH]; cbn; [done|]. rewrite <- IH, <- !app_assoc. apply Permutation_app_head.
  rewrite !app_assoc. by apply Permutation_app_tail, Permutation_app_comm.
Qed.

(** All the rounds together: the front of every pool. *)
Lemma rounds_use (m : gmap string (list Ticket)) ms :
  (forall j mt, ms !! j = Some mt -> exists order, order ≡ₚ (map_to_list m).*1 /\
     m_Tickets mt = concat ((fun p => take k (drop (j * k) (default [] (m !! p)))) <$> order)) ->
  concat (m_Tickets <$> ms) ≡ₚ concat ((fun p => take (length ms * k) p.2) <$> map_to_list m).
Proof.
  induction ms as [|mt ms IH] using rev_ind; intros Hms.
  { cbn. clear. induction (map_to_list m) as [|x l IH]; cbn; [done|]. by rewrite take_0. }
  rewrite fmap_app, concat_app. cbn. rewrite app_nil_r, IH; cycle 1.
  { intros j mt' Hj. apply Hms. by apply lookup_app_l_Some. }
  destruct (Hms (length ms) mt) as (order & Ho & ->); [by apply list_lookup_middle|].
  rewrite Ho, <- list_fmap_compose.
  rewrite (list_fmap_ext (_ ∘ fst) (fun p => take k (drop (length ms * k) p.2)) (map_to_list m)); cycle 1.
  { intros i [p ts] Hi%list_elem_of_lookup_2%elem_of_map_to_list. cbn. by rewrite Hi. }
  rewrite concat_fmap_app. apply reflexive_eq. f_equal. apply list_fmap_ext. intros i [p ts] _. cbn.
  rewrite length_app. cbn. replace ((length ms + 1) * k)%nat with (length ms * k + k)%nat by lia. by rewrite take_take_drop.
Qed.

(** C38. The loop of the tutorials' match function, for a profile that has a
    pool, ends when some pool has too few tickets left, having made as many
    matches as the smallest pool allows; match number [j] holds the [j]-th
    group of tickets of every pool and nothing else, and the matches together
    hold the front of every pool, each ticket as often as it is there. (A
    ticket that two pools share can be in a match twice.) *)
Theorem tutorial_matches profile m (Hk : (0 < k)%nat) (Hm : m <> ∅) :
  exists N, (forall p ts, m !! p = Some ts -> (N * k <= length ts)%nat) /\
    (exists p ts, m !! p = Some ts /\ (length ts < S N * k)%nat) /\
    forall fuel, (N < fuel)%nat ->
      exists ms, tutorial_makeMatches MarshalScore k clock fuel profile m = Some (Ok ms) /\ length ms = N /\
        concat (m_Tickets <$> ms) ≡ₚ concat ((fun p => take (N * k) p.2) <$> map_to_list m) /\
        forall j mt, ms !! j = Some mt ->
          exists order, order ≡ₚ (map_to_list m).*1 /\
            m_Tickets mt = concat ((fun p => take k (drop (j * k) (default [] (m !! p)))) <$> order).
Proof.
  destruct (map_choose m Hm) as (p0 & ts0 & Hp0).
  destruct (first_short m (length ts0)) as (N & Hok & Hshort).
  { rewrite enough_after. intros He. specialize (He _ _ Hp0). nia. }
  exists N. split_and!.
  - intros p ts Hp. destruct N as [|N]; [lia|]. specialize (Hok N ltac:(lia)). rewrite enough_after in Hok. by apply (Hok p).
  - unfold enough in Hshort. apply map_not_Forall in Hshort; [|apply _]. destruct Hshort as (p & ts & Hp & Hlt).
    unfold after_rounds in Hp. rewrite lookup_fmap in Hp. apply fmap_Some in Hp as (ts' & Hp & ->).
    exists p, ts'. split; [done|]. rewrite length_drop in Hlt. lia.
  - intros fuel Hf. destruct (tutorial_loop_spec profile N m 0 [] fuel Hok Hshort Hf) as (ms & He & Hl & Hms).
    exists ms. split; [exact He|]. split; [done|].
    assert (forall j mt, ms !! j = Some mt -> exists order, order ≡ₚ (map_to_list m).*1 /\
      m_Tickets mt = concat ((fun p => take k (drop (j * k) (default [] (m !! p)))) <$> order)) as Hj.
    { intros j mt Hj. destruct (Hms j mt Hj) as (order & Ho & ->).
      exists order. split; [done|]. unfold round. f_equal. apply list_fmap_ext. intros i p _.
      unfold after_rounds. rewrite lookup_fmap. destruct (m !! p); cbn; by rewrite ?drop_nil. }
    split; [|exact Hj]. rewrite <- Hl. by apply rounds_use.
Qed.

(** With no pool at all the loop never ends: it makes empty matches for
    ever. *)
Lemma tutorial_no_pools profile fuel : tutorial_makeMatches MarshalScore k clock fuel profile ∅ = None.
Proof.
  unfold tutorial_makeMatches. generalize 0%nat, (@nil Match). induction fuel as [|fuel IH]; intros count ms; [done|].
  cbn [tutorial_loop]. rewrite take_round_drop by apply map_Forall_empty.
  destruct (marshal_ok (scoreCalculator (clock count).1 (round ∅ (map_iter (∅ : gmap string (list Ticket))).*1))) as [a ->].
  rewrite fmap_empty. apply IH.
Qed.
End TutorialProps.

(** ** Examples *)
Section MmfExamples.

Definition demo_int32 : Int32Any := {|
  MarshalInt32 z := if (- 2 ^ 31 <=? z) && (z <? 2 ^ 31) then Some (mkAny "Int32Value" (itoa z)) else None;
  UnmarshalInt32 a := atoi (any_value a);
|}.
#[local] Existing Instance demo_int32.

#[local] Instance demo_int32_laws : Int32AnyLaws.
Proof.
  split.
  - intros z Hz. unfold MarshalInt32. cbn -[Z.pow Z.opp]. rewrite (proj2 (Z.leb_le _ _)), (proj2 (Z.ltb_lt _ _)) by lia. eauto.
  - intros z a. unfold MarshalInt32. cbn -[Z.pow Z.opp]. destruct ((_ <=? z) && _) eqn:Hz; [|done]. intros [= <-]. cbn.
    apply andb_true_iff in Hz as [?%Z.leb_le ?%Z.ltb_lt]. apply atoi_itoa. unfold in_int64, int64_min, int64_max.
    apply andb_true_iff. split; [apply Z.leb_le|apply Z.leb_le]; lia.
Qed.

Definition player (id : string) : Ticket := mkTicket id None None ∅ ∅ None.
Definition one_slot : Backfill :=
  mkBackfill "bf" None {[openSlotsKey := mkAny "Int32Value" "1"]} ∅ None 3.
Definition any_pool : Pool := mkPool "everyone" [] [] [] None None.
Definition noon (_ : nat) : string := "2021-03-01T12:00:00.00".
Definition epoch : Timestamp := mkTimestamp 0 0.

Lemma backfill_mmf_partition_witness :
  exists filled full opened,
    makeMatches noon epoch "p" any_pool [player "a"; player "b"; player "c"; player "d"] [one_slot]
      = Some (Ok (filled ++ full ++ opened)) /\
    concat (m_Tickets <$> filled ++ full ++ opened) = [player "a"; player "b"; player "c"; player "d"].
Proof.
  destruct (backfill_mmf_partition noon epoch "p" any_pool [player "a"; player "b"; player "c"; player "d"] [one_slot])
    as (filled & full & opened & used & He & Ht & _).
  - constructor; [|constructor]. exists 1. split; [vm_compute; reflexivity|lia].
  - exists filled, full, opened. split; [exact He|exact Ht].
Defined.

(** Two pools of a profile handled within the resolution of the clock get
    matches with the same id, which the evaluator's client refuses. *)
Lemma pools_share_ids :
  exists m1 m2 b1 b2,
    run_pools noon epoch "p" [(any_pool, Ok [player "a"], Ok []); (any_pool, Ok [player "b"], Ok [])] [] = Some (Ok [m1; m2]) /\
    m_MatchId m1 = m_MatchId m2 /\ m_Tickets m1 = [player "a"] /\ m_Tickets m2 = [player "b"] /\
    m_Backfill m1 = Some b1 /\ m_Backfill m2 = Some b2.
Proof. eexists _, _, _, _. split; [vm_compute; reflexivity|]. vm_compute. repeat split. Qed.

(** The backfill made for a pool need not be in it: the level of the new
    backfill is half the width of the range. *)
Lemma new_backfill_outside_pool `{Proto} :
  let pool := mkPool "mid" [mkDoubleRangeFilter "level" (f_int 20) (f_int 10) Exclude_NONE] [] [] None None in
  exists pf b, NewPoolFilter pool = Ok pf /\ newBackfill epoch (newSearchFields pool) 1 = Ok b /\ Filter.In pf b = false.
Proof. intros pool. eexists _, _. split; [reflexivity|]. split; [vm_compute; reflexivity|]. vm_compute. reflexivity. Qed.

Lemma tutorial_matches_witness :
  let score (f : float64) := Some (mkAny "DefaultEvaluationCriteria" "") in
  let clock (n : nat) := (f_int 10, "t") in
  let pools := {["red" := [player "a"; player "b"; player "c"]; "blue" := [player "d"; player "e"]]} in
  exists N ms, tutorial_makeMatches score 2 clock 10 "p" pools = Some (Ok ms) /\ length ms = N /\ (N * 2 <= 2)%nat.
Proof.
  intros score clock pools.
  destruct (tutorial_matches score 2 clock ltac:(intros f; eexists; reflexivity) "p" pools ltac:(lia))
    as (N & Hall & _ & Hrun).
  - intros He. apply (f_equal (lookup "red")) in He. vm_compute in He. discriminate He.
  - pose proof (Hall "blue" [player "d"; player "e"] eq_refl) as HN. cbn in HN.
    destruct (Hrun 10%nat ltac:(lia)) as (ms & He & Hl & _). exists N, ms. split; [exact He|]. split; [exact Hl|exact HN].
Defined.
End MmfExamples.
