(* ===== verification/Evaluators.v ===== *)
(** * Calling the evaluator ([internal/app/synchronizer/evaluator_client.go],
      [internal/app/evaluator/evaluator_service.go])

    The synchronizer's side of the evaluator call (gRPC and HTTP), its
    construction from the configuration, and the harness that serves an
    evaluator function. *)
From S2P Require Export Cacher Rpc DefaultEval.
#[local] Open Scope reader_scope.

(** ** The gRPC client *)

(** What the goroutines of one call share. History: the proposals taken from
    the input and those sent to the evaluator. *)
Record grpc_state := mkGrpcState {
  matchIDs : gmap string bool;
  g_given : list Match;
  g_sent : list Match;
  acceptedIds : list string;
  g_sendDone : bool;
  g_recvDone : bool;
  g_err : option error;
}.

Definition grpc_init : grpc_state := mkGrpcState ∅ [] [] [] false false None.

(** The error group keeps the first error. *)
Definition group_error (e1 e2 : option error) : option error := match e1 with Some e => Some e | None => e2 end.

Definition grpc_send_return (err : option error) (s : grpc_state) : grpc_state :=
  mkGrpcState (matchIDs s) (g_given s) (g_sent s) (acceptedIds s) true (g_recvDone s) (group_error (g_err s) err).
Definition grpc_recv_return (err : option error) (s : grpc_state) : grpc_state :=
  mkGrpcState (matchIDs s) (g_given s) (g_sent s) (acceptedIds s) (g_sendDone s) true (group_error (g_err s) err).

(** The next proposal of the slices on [pc] with the outcome of sending it,
    or the end of [pc] with the outcome of [CloseSend]; a response, the end
    of the responses or an error. *)
Inductive grpc_event :=
| ClProposal (p : Match) (send_err : option string)
| ClInputClosed (close_err : option string)
| ClResponse (id : string)
| ClEOF
| ClRecvErr (m : string).

Definition grpc_send (s : grpc_state) (p : Match) (send_err : option string) : grpc_state :=
  let s := mkGrpcState (matchIDs s) (g_given s ++ [p]) (g_sent s) (acceptedIds s) (g_sendDone s) (g_recvDone s) (g_err s) in
  match matchIDs s !! m_MatchId p with
  | Some _ =>
      grpc_send_return (Some (EPlain ("multiple match functions used same match_id: " +:+ quoted (m_MatchId p)))) s
  | None =>
      let s := mkGrpcState (<[m_MatchId p := true]> (matchIDs s)) (g_given s) (g_sent s) (acceptedIds s)
                 (g_sendDone s) (g_recvDone s) (g_err s) in
      match send_err with
      | Some m => grpc_send_return (Some (EWrap "failed to send request to evaluator, desc" (EPlain m))) s
      | None => mkGrpcState (matchIDs s) (g_given s) (g_sent s ++ [p]) (acceptedIds s) (g_sendDone s) (g_recvDone s) (g_err s)
      end
  end.

Definition grpc_recv (s : grpc_state) (id : string) : grpc_state :=
  match matchIDs s !! id with
  | None =>
      grpc_recv_return (Some (EPlain ("evaluator returned match_id " +:+ quoted id +:+
        " which does not correspond to its any match in its input"))) s
  | Some false => grpc_recv_return (Some (EPlain ("evaluator returned same match_id twice: " +:+ quoted id))) s
  | Some true =>
      mkGrpcState (<[id := false]> (matchIDs s)) (g_given s) (g_sent s) (acceptedIds s ++ [id])
        (g_sendDone s) (g_recvDone s) (g_err s)
  end.

(** One turn of the goroutine the event is for, unless it has returned. *)
Definition grpc_step (s : grpc_state) (ev : grpc_event) : grpc_state :=
  match ev with
  | ClProposal p send_err => if g_sendDone s then s else grpc_send s p send_err
  | ClInputClosed close_err =>
      if g_sendDone s then s
      else grpc_send_return
             ((fun m => EWrap "failed to close the send direction of evaluator stream, desc" (EPlain m)) <$> close_err) s
  | ClResponse id => if g_recvDone s then s else grpc_recv s id
  | ClEOF => if g_recvDone s then s else grpc_recv_return None s
  | ClRecvErr m =>
      if g_recvDone s then s
      else grpc_recv_return (Some (EWrap "failed to get response from evaluator client, desc" (EPlain m))) s
  end.

Definition grpc_run (s : grpc_state) (evs : list grpc_event) : grpc_state := foldl grpc_step s evs.

(** The ids sent on [acceptedIds] and the result of the call, given the
    outcome of opening the stream and what happens on it, in order. *)
Definition grpc_evaluate (start : result unit) (evs : list grpc_event) : list string * result unit :=
  match start with
  | Err err => ([], Err (EWrap "error starting evaluator call" err))
  | Ok _ =>
      let s := grpc_run grpc_init evs in
      (acceptedIds s, match g_err s with Some err => Err err | None => Ok tt end)
  end.

(** ** The HTTP client *)
Section HTTP.
(** [jsonpb] marshalling of a proposal and the [n]-th write to the pipe, by
    their errors. *)
Variable (marshal_err : Match -> option string) (write_err : nat -> option string).

Fixpoint http_send (n : nat) (proposals : list Match) : option error :=
  match proposals with
  | [] => None
  | p :: proposals =>
      match marshal_err p with
      | Some m => Some (EStatus FailedPrecondition ("failed to marshal proposal to string: " +:+ m))
      | None =>
          match write_err n with
          | Some m => Some (EStatus FailedPrecondition ("failed to write proto string to io writer: " +:+ m))
          | None => http_send (S n) proposals
          end
      end
  end.

(** An item of the response: a result that unmarshals to a match id or not, a
    non-empty error object, or text that does not decode. *)
Inductive http_answer := HResult (id : option string) | HError (m : string) | HUndecodable (m : string).

Fixpoint http_recv (items : list http_answer) : list string * option error :=
  match items with
  | [] => ([], None)
  | HUndecodable m :: _ => ([], Some (EStatus Unavailable ("failed to read response from HTTP JSON stream: " +:+ m)))
  | HError m :: _ => ([], Some (EStatus Unavailable ("failed to execute evaluator.Evaluate: " +:+ m)))
  | HResult None :: _ => ([], Some (EStatus Unavailable "failed to execute jsonpb.UnmarshalString"))
  | HResult (Some id) :: items => let '(ids, e) := http_recv items in (id :: ids, e)
  end.

(** The sender's error is reported before the receiver's. *)
Definition http_evaluate (request_err : option string) (do : result (list http_answer)) (proposals : list Match) :
    list string * result unit :=
  match request_err, do with
  | Some m, _ => ([], Err (EStatus Aborted ("failed to create evaluator http request, desc: " +:+ m)))
  | None, Err err => ([], Err (EStatus Aborted ("failed to get response from evaluator, desc: " +:+ err_string err)))
  | None, Ok items =>
      let '(ids, rc) := http_recv items in
      (ids, match http_send 0 proposals, rc with
            | Some err, _ => Err err
            | None, Some err => Err err
            | None, None => Ok tt
            end)
  end.
End HTTP.

(** ** Construction *)

Definition errNoEvaluatorType : error :=
  EStatus FailedPrecondition
    "unable to determine evaluator type, either api.evaluator.grpcport or api.evaluator.httpport must be specified in the config".

Section Construction.
Context `{Host}.

Inductive evaluator := GrpcEvaluator (conn : ClientConn) | HttpEvaluator (client : HttpClient) (baseURL : string).

Definition newGrpcEvaluator : reader (@instance evaluator) :=
  read! host := RGetString "api.evaluator.hostname" in
  read! port := RGetInt64 "api.evaluator.grpcport" in
  let* r := GRPCClientFromEndpoint (toAddress host port) in
  RDone (match r with
         | Ok conn => mkInstance (Some (GrpcEvaluator conn)) true None
         | Err err => mkInstance None false (Some (EWrap "failed to create grpc evaluator client" err))
         end).

Definition newHTTPEvaluator : reader (@instance evaluator) :=
  read! host := RGetString "api.evaluator.hostname" in
  read! port := RGetInt64 "api.evaluator.httpport" in
  let* r := HTTPClientFromEndpoint (toAddress host port) in
  RDone (match r with
         | Ok (client, baseURL) => mkInstance (Some (HttpEvaluator client baseURL)) true None
         | Err err =>
             mkInstance None false
               (Some (EWrap ("failed to get a HTTP client from the endpoint " +:+ toAddress host port) err))
         end).

(** gRPC is preferred over HTTP. *)
Definition newEvaluator : reader (@instance evaluator) :=
  read! grpc := RIsSet "api.evaluator.grpcport" in
  if grpc then newGrpcEvaluator
  else
    read! http := RIsSet "api.evaluator.httpport" in
    if http then newHTTPEvaluator else RDone (mkInstance None false (Some errNoEvaluatorType)).

(** [deferredEvaluator.evaluate]: [call e] is the outcome of evaluating with
    the client obtained; a failure forgets the client. *)
Definition deferred_evaluate (cfg : View) (cfgs : nat -> View) (c : @cacher evaluator)
    (call : evaluator -> list string * result unit) : @cacher evaluator * (list string * result unit) :=
  let '(c, e) := Get (fun _ => newEvaluator) cfg cfgs c in
  match e with
  | Err err => (c, ([], Err err))
  | Ok None => (c, ([], Err EPanic))
  | Ok (Some e) =>
      let '(ids, r) := call e in
      match r with
      | Ok _ => (c, (ids, r))
      | Err _ => (ForceReset c, (ids, r))
      end
  end.
End Construction.

(** ** The harness

    [evaluatorService.Evaluate] for an evaluator that reads all its input
    before it returns an id, as the default one does: the proposals received,
    the error that ended them if it was not EOF, what the evaluator makes of
    them, and the first send that fails. *)
Definition harness_sent (ids : list string) (send_err : nat -> option error) : list string * option error :=
  (fix go n ids :=
     match ids with
     | [] => ([], None)
     | id :: ids =>
         match send_err n with
         | Some e => ([], Some e)
         | None => let '(sent, e) := go (S n) ids in (id :: sent, e)
         end
     end) O ids.

Record harness_outcome := mkHarness { h_sent : list string; h_errors : list error }.

Definition Evaluate (evaluate : list Match -> list string * option error)
    (received : list Match) (recv_err : option error) (send_err : nat -> option error) : harness_outcome :=
  let '(ids, eval_err) := evaluate received in
  let '(sent, sent_err) := harness_sent ids send_err in
  mkHarness sent (omap id [recv_err; eval_err; sent_err]).

(** [errors.Wrap(g.Wait(), ...)]: nil when no goroutine failed, otherwise the
    error of the one that failed first, whichever it is. *)
Definition Evaluate_returns (h : harness_outcome) (r : result unit) : Prop :=
  match h_errors h with
  | [] => r = Ok tt
  | es => exists e, e ∈ es /\ r = Err (EWrap "Error in evaluator.Evaluate" e)
  end.

(** ** What the gRPC client lets through *)

Record grpc_inv (s : grpc_state) : Prop := {
  gi_dom id : is_Some (matchIDs s !! id) <-> id ∈ m_MatchId <$> g_given s;
  gi_accepted id : matchIDs s !! id = Some false <-> id ∈ acceptedIds s;
  gi_nodup : NoDup (acceptedIds s);
  gi_sent : sublist (g_sent s) (g_given s);
  gi_distinct : g_err s = None -> NoDup (m_MatchId <$> g_given s) /\ g_sent s = g_given s;
}.

Lemma grpc_inv_init : grpc_inv grpc_init.
Proof.
  split; cbn; try done.
  - intros id. rewrite lookup_empty. split; [intros []%is_Some_None|intros []%not_elem_of_nil].
  - intros id. rewrite lookup_empty. split; [done|intros []%not_elem_of_nil].
  - constructor.
  - split; [constructor|done].
Qed.

Lemma grpc_inv_return e s : grpc_inv s -> grpc_inv (grpc_send_return e s) /\ grpc_inv (grpc_recv_return e s).
Proof.
  intros []. split; split; cbn; try done; intros Hn; apply gi_distinct0; by destruct (g_err s).
Qed.

Lemma grpc_inv_send s p e : grpc_inv s -> grpc_inv (grpc_send s p e).
Proof.
  intros []. unfold grpc_send. cbn. destruct (matchIDs s !! m_MatchId p) as [b|] eqn:Hp.
  - split; cbn; try done.
    + intros id. rewrite fmap_app, elem_of_app, gi_dom0. cbn. rewrite list_elem_of_singleton.
      split; [auto|]. intros [?| ->]; [done|]. apply gi_dom0. eauto.
    + by apply sublist_inserts_r.
    + by destruct (g_err s).
  - assert (m_MatchId p ∉ m_MatchId <$> g_given s) as Hfresh
      by (rewrite <- gi_dom0, Hp; intros []%is_Some_None).
    assert (forall id, <[m_MatchId p := true]> (matchIDs s) !! id = Some false <-> id ∈ acceptedIds s) as Hacc.
    { intros id. rewrite <- gi_accepted0. destruct (decide (id = m_MatchId p)) as [->|].
      - rewrite lookup_insert_eq, Hp. done.
      - by rewrite lookup_insert_ne. }
    assert (forall id, is_Some (<[m_MatchId p := true]> (matchIDs s) !! id) <-> id ∈ m_MatchId <$> (g_given s ++ [p])) as Hdom.
    { intros id. rewrite is_Some_insert, gi_dom0, fmap_app, elem_of_app. cbn. rewrite list_elem_of_singleton. tauto. }
    destruct e as [m|]; split; cbn; try done.
    + by apply sublist_inserts_r.
    + by destruct (g_err s).
    + by apply sublist_app.
    + intros Hn. destruct (gi_distinct0 Hn) as [Hnd Hs]. rewrite Hs. split; [|done].
      rewrite fmap_app. apply NoDup_app. split_and!; [done| |apply NoDup_singleton].
      intros id Hid. cbn. rewrite list_elem_of_singleton. by intros ->.
Qed.

Lemma grpc_inv_recv s id : grpc_inv s -> grpc_inv (grpc_recv s id).
Proof.
  intros Hi. pose proof Hi as []. unfold grpc_recv. destruct (matchIDs s !! id) as [[]|] eqn:Hid.
  2,3: by apply grpc_inv_return.
  split; cbn; try done.
  - intros q. rewrite is_Some_insert, <- gi_dom0. split; [intros [->|?]; [eauto|done]|auto].
  - intros q. rewrite elem_of_app, list_elem_of_singleton, <- gi_accepted0.
    destruct (decide (q = id)) as [->|Hne]; [rewrite lookup_insert_eq|rewrite lookup_insert_ne by done]; naive_solver.
  - apply NoDup_app. split_and!; [done| |apply NoDup_singleton].
    intros q Hq. rewrite list_elem_of_singleton. intros ->. apply gi_accepted0 in Hq. congruence.
Qed.

Lemma grpc_inv_run evs : grpc_inv (grpc_run grpc_init evs).
Proof.
  unfold grpc_run. pose proof grpc_inv_init as Hi. revert Hi. generalize grpc_init.
  induction evs as [|ev evs IH]; intros s Hs; cbn; [done|]. apply IH.
  destruct ev as [p e|e|id| |m]; cbn; first [destruct (g_sendDone s); [done|]|destruct (g_recvDone s); [done|]].
  - by apply grpc_inv_send.
  - by apply grpc_inv_return.
  - by apply grpc_inv_recv.
  - by apply grpc_inv_return.
  - by apply grpc_inv_return.
Qed.

(** C33. What the gRPC client lets through: however proposals and responses
    interleave, and whatever the evaluator answers, the ids passed on are ids
    of proposals the client was given (a proposal counts from the moment its
    id is recorded, which is before it is sent, and even when sending it
    fails) and none is passed on twice; and a call that succeeds was given
    proposals with distinct ids, all of which were sent. *)
Theorem grpc_client_vouches evs :
  let s := grpc_run grpc_init evs in
  let '(ids, r) := grpc_evaluate (Ok tt) evs in
  NoDup ids /\ (forall id, id ∈ ids -> id ∈ m_MatchId <$> g_given s) /\
  (r = Ok tt -> NoDup (m_MatchId <$> g_given s) /\ g_sent s = g_given s).
Proof.
  intros s. cbn. fold s. pose proof (grpc_inv_run evs) as Hi. fold s in Hi. split_and!.
  - apply Hi.
  - intros id Hid. apply (gi_dom _ Hi). apply (gi_accepted _ Hi) in Hid. eauto.
  - destruct (g_err s) eqn:He; [done|]. intros _. by apply Hi.
Qed.

(** ** The client, the harness and the default evaluator together *)

Lemma collect_submseteq U ps : match_ <$> collect U ps ⊆+ ps.
Proof.
  unfold collect. set (step := fun _ _ => _).
  enough (forall acc, exists rest, match_ <$> foldl step acc ps = (match_ <$> acc) ++ rest /\ rest ⊆+ ps) as Hf.
  { destruct (Hf []) as (rest & -> & Hr). done. }
  induction ps as [|p ps IH]; intros acc; cbn.
  - exists []. by rewrite app_nil_r.
  - unfold step at 2. destruct (criteria U p) as [c|].
    + destruct (IH (acc ++ [mkMatchInp p c])) as (rest & -> & Hr). exists (p :: rest).
      rewrite fmap_app, <- app_assoc. split; [done|]. by apply submseteq_skip.
    + destruct (IH acc) as (rest & -> & Hr). exists rest. split; [done|]. by apply submseteq_cons.
Qed.

Lemma evaluate_submseteq `{GoSort} U ps : evaluate U ps ⊆+ m_MatchId <$> ps.
Proof.
  rewrite evaluate_greedy. transitivity (m_MatchId <$> (match_ <$> collect U ps)).
  - rewrite <- list_fmap_compose. change (m_MatchId ∘ match_) with result_id.
    apply fmap_submseteq.
    rewrite <- (sort_perm Less (collect U ps)) at 2. apply sublist_submseteq, greedy_sublist.
  - apply fmap_submseteq, collect_submseteq.
Qed.

Lemma grpc_run_app s evs evs' : grpc_run s (evs ++ evs') = grpc_run (grpc_run s evs) evs'.
Proof. apply foldl_app. Qed.

(** Proposals with new ids are all sent. *)
Lemma grpc_run_proposals ps s :
  g_sendDone s = false -> NoDup (m_MatchId <$> ps) ->
  (forall p, p ∈ ps -> matchIDs s !! m_MatchId p = None) ->
  let s' := grpc_run s ((fun p => ClProposal p None) <$> ps) in
  (forall p, p ∈ ps -> matchIDs s' !! m_MatchId p = Some true) /\
  acceptedIds s' = acceptedIds s /\ g_recvDone s' = g_recvDone s /\ g_sendDone s' = false /\ g_err s' = g_err s /\
  (forall id, id ∉ m_MatchId <$> ps -> matchIDs s' !! id = matchIDs s !! id).
Proof.
  revert s. induction ps as [|p ps IH]; intros s Hd Hn Hf; cbn.
  { split_and!; try done. by intros p ?%not_elem_of_nil. }
  cbn in Hn. apply NoDup_cons in Hn as [Hp Hn]. rewrite Hd. unfold grpc_send. cbn.
  rewrite (Hf p) by (by left). set (s1 := mkGrpcState _ _ _ _ _ _ _).
  destruct (IH s1) as (H1 & H2 & H3 & H4 & H5 & H6).
  - exact Hd.
  - done.
  - intros q Hq. cbn. rewrite lookup_insert_ne; [apply Hf; by right|].
    intros He. apply Hp. rewrite He. by apply list_elem_of_fmap_2.
  - split_and!; [|exact H2|exact H3|exact H4|exact H5|].
    + intros q [->|Hq]%elem_of_cons; [|by apply H1]. etransitivity; [exact (H6 _ Hp)|apply lookup_insert_eq].
    + intros id [Hne Hid]%not_elem_of_cons. etransitivity; [exact (H6 _ Hid)|]. by apply lookup_insert_ne.
Qed.

(** Responses with distinct ids of sent proposals are all accepted. *)
Lemma grpc_run_responses ids s :
  g_recvDone s = false -> NoDup ids -> (forall id, id ∈ ids -> matchIDs s !! id = Some true) ->
  let s' := grpc_run s (ClResponse <$> ids) in
  acceptedIds s' = acceptedIds s ++ ids /\ g_recvDone s' = false /\ g_err s' = g_err s.
Proof.
  revert s. induction ids as [|id ids IH]; intros s Hd Hn Hf; cbn; [by rewrite app_nil_r|].
  apply NoDup_cons in Hn as [Hid Hn]. rewrite Hd. unfold grpc_recv. rewrite (Hf id) by (by left).
  set (s1 := mkGrpcState _ _ _ _ _ _ _). destruct (IH s1) as (H1 & H2 & H3); [done|done| |].
  - intros q Hq. cbn. rewrite lookup_insert_ne; [apply Hf; by right|]. by intros ->.
  - split_and!; [etransitivity; [exact H1|cbn; by rewrite <- app_assoc]|exact H2|exact H3].
Qed.

Lemma harness_sent_all ids : harness_sent ids (fun _ => None) = (ids, None).
Proof.
  unfold harness_sent. generalize 0%nat. induction ids as [|id ids IH]; intros n; [done|]. by rewrite IH.
Qed.

(** C34. The parts fit: for proposals with distinct ids on streams that do
    not fail, the default evaluator served by the harness and called through
    the gRPC client passes on exactly what it selects, and neither side
    reports an error. *)
Theorem default_evaluator_served `{GoSort} U ps (Hids : NoDup (m_MatchId <$> ps)) :
  let h := Evaluate (fun ps => (evaluate U ps, None)) ps None (fun _ => None) in
  Evaluate_returns h (Ok tt) /\
  grpc_evaluate (Ok tt) (((fun p => ClProposal p None) <$> ps) ++ [ClInputClosed None] ++
    (ClResponse <$> h_sent h) ++ [ClEOF]) = (evaluate U ps, Ok tt).
Proof.
  intros h. assert (h = mkHarness (evaluate U ps) []) as -> by (unfold h, Evaluate; by rewrite harness_sent_all).
  split; [done|]. cbn [h_sent].
  pose proof (evaluate_submseteq U ps) as Hsub.
  destruct (grpc_run_proposals ps grpc_init eq_refl Hids) as (H1 & H2 & H3 & H4 & H5 & _).
  { intros p _. cbn. apply lookup_empty. }
  unfold grpc_evaluate. rewrite !grpc_run_app. set (s := grpc_run _ ((fun p => ClProposal p None) <$> ps)) in *.
  set (s1 := grpc_run s [ClInputClosed None]).
  assert (s1 = grpc_send_return None s) as Hs1 by (unfold s1; cbn; by rewrite H4).
  destruct (grpc_run_responses (evaluate U ps) s1) as (Ha & Hd & He).
  - by rewrite Hs1.
  - apply submseteq_Permutation in Hsub as [rest Hr]. rewrite Hr in Hids. by apply NoDup_app in Hids as [? _].
  - intros id Hid. rewrite Hs1. cbn. apply (elem_of_submseteq _ _ _ Hid) in Hsub.
    apply list_elem_of_fmap in Hsub as (p & -> & Hp). by apply H1.
  - set (s2 := grpc_run s1 _) in *. cbn. rewrite Hd. cbn. rewrite Ha, He, Hs1. cbn. by rewrite H2, H5.
Qed.

#[local] Existing Instance insertion_go_sort.

Lemma default_evaluator_served_witness :
  let h := Evaluate (fun ps => (evaluate demo_criteria ps, None)) demo_proposals None (fun _ => None) in
  h_sent h = ["b"; "c"] /\ Evaluate_returns h (Ok tt).
Proof.
  intros h. split; [vm_compute; reflexivity|].
  apply (default_evaluator_served demo_criteria demo_proposals).
  apply (bool_decide_unpack _). vm_compute. exact I.
Defined.

(** ** The client as the evaluator of a cycle *)

(** The next id the client passes on, when [seen] was taken off the input
    and [out] was passed on before. *)
Definition grpc_emits (seen : list Match) (_ : bool) (out : list string) (id : string) : Prop :=
  exists evs, g_given (grpc_run grpc_init evs) `prefix_of` seen /\
    acceptedIds (grpc_run grpc_init evs) = out /\
    acceptedIds (grpc_run grpc_init (evs ++ [ClResponse id])) = out ++ [id].

Lemma grpc_emits_seen seen cl out id :
  grpc_emits seen cl out id -> exists m, m ∈ seen /\ m_MatchId m = id.
Proof.
  intros (evs & Hpre & Hout & Hid).
  pose proof (grpc_inv_run (evs ++ [ClResponse id])) as Hi.
  assert (g_given (grpc_run grpc_init (evs ++ [ClResponse id])) = g_given (grpc_run grpc_init evs)) as Hg.
  { rewrite grpc_run_app. cbn. destruct (g_recvDone _); [done|]. unfold grpc_recv.
    destruct (matchIDs _ !! id) as [[]|]; done. }
  assert (id ∈ acceptedIds (grpc_run grpc_init (evs ++ [ClResponse id]))) as Hin
    by (rewrite Hid; apply elem_of_app; right; by left).
  apply (gi_accepted _ Hi) in Hin. assert (is_Some (matchIDs (grpc_run grpc_init (evs ++ [ClResponse id])) !! id)) as Hs by eauto.
  apply (gi_dom _ Hi) in Hs. rewrite Hg in Hs. apply list_elem_of_fmap in Hs as (m & -> & Hm).
  exists m. split; [|done]. destruct Hpre as [rest ->]. apply elem_of_app. by left.
Qed.

(** ** A failed evaluation forgets its client *)
Section Deferred.
Context `{Host}.

(** After an evaluation that fails nothing is kept: if the client was
    built its cleanup has run, and the next evaluation builds a client again,
    whether the settings changed or not. An evaluation that succeeds keeps
    its client open. *)
Theorem deferred_evaluate_resets cfg cfgs c call :
  let '(c', (ids, r)) := deferred_evaluate cfg cfgs c call in
  match r with
  | Err e => e = EPanic \/ (c_r c' = None /\ c_c c' = None /\ live (Get (fun _ => newEvaluator) cfg cfgs c).1 ⊆ c_closed c')
  | Ok _ => c' = (Get (fun _ => newEvaluator) cfg cfgs c).1
  end.
Proof.
  unfold deferred_evaluate. destruct (Get _ cfg cfgs c) as [c1 [[e|]|err]] eqn:Hg; cbn [fst].
  - destruct (call e) as [ids [[]|err]]; [done|]. right. split_and!; [done..|].
    unfold ForceReset. rewrite reset_closed. set_solver.
  - by left.
  - right. unfold Get in Hg. destruct (match c_r c with Some _ => _ | None => _ end); [|done].
    destruct (detect _ _ _ _) as [i d]. destruct (i_err i); simplify_eq/=.
    split_and!; [done..|]. unfold live. cbn. set_solver.
Qed.
End Deferred.
