(* ===== verification/SyncStore.v ===== *)
(** * The synchronizer and the state store

    What [addMatchesToPendingRelease] and the register/start protocol
    guarantee: accepted matches hide their tickets before their ids are
    returned, and at most one cycle runs at a time. *)
From S2P Require Export StoreCalls Synchronizer MemEnv.
From S2P Require Import StoreRedis.

(** ** Any store: nothing is dropped

    The ids of a slice are passed on whatever the store answers. *)
Lemma add_slices_ids `{Sys} (store : Service) m5c s v :
  wp (add_slices store m5c s) v (fun s' _ => m6c s' = m6c s ++ concat (m5c.*2)).
Proof.
  revert s v. induction m5c as [|[m mIDs] m5c IH]; intros s v; cbn; [by rewrite app_nil_r|].
  apply wp_bind. unfold add_slice. apply wp_bind. eapply wp_mono; [apply wp_true|]. intros r v1 _. cbn.
  eapply wp_mono; [apply IH|]. cbn. intros s' v' ->. by rewrite <- app_assoc.
Qed.

(** A match whose tickets could not be hidden is returned all the same. *)
Lemma add_matches_forwards `{Sys} (store : Service) m5c v :
  wp (addMatchesToPendingRelease store m5c) v (fun x _ => x.1 = concat (m5c.*2)).
Proof.
  unfold addMatchesToPendingRelease. apply wp_bind. eapply wp_mono; [apply add_slices_ids|]. cbn. auto.
Qed.

(** ** A store that does not fail *)
Section AddMatches.
Context `{EnvironmentLaws} `{ProtoLaws} (cfg : View) (store : Service) `{!ServiceSpec cfg store}.

(** Hidden at some time between [lo] and [hi]. *)
Definition hidden (lo hi : Z) (d : db) (t : string) : Prop :=
  exists tau, pending d !! t = Some (sys_score tau) /\ lo <= tau <= hi.

(** The tickets of the matches of the slices. *)
Definition slice_tickets (m5c : list (gmap string (list string) * list string)) : list string :=
  concat ((fun '(m, mIDs) => release_ids m mIDs) <$> m5c).

Lemma add_slices_hides m5c s v (Hf : sys_faulty = false) :
  typed (v_db v) ->
  wp (add_slices store m5c s) v (fun s' v' =>
    typed (v_db v') /\ v_now v <= v_now v' /\ index (v_db v') = index (v_db v) /\
    lastErr (counts s') = lastErr (counts s) /\
    (forall t, t ∈ slice_tickets m5c -> hidden (v_now v) (v_now v') (v_db v') t) /\
    (forall t, t ∉ slice_tickets m5c -> pending (v_db v') !! t = pending (v_db v) !! t) /\
    (forall k, k <> proposedTicketIDs -> v_db v' !! k = v_db v !! k) /\ v_xids v' = v_xids v).
Proof using All.
  revert s v. induction m5c as [|[m mIDs] m5c IH]; intros s v Ht; cbn [add_slices].
  { cbn. split_and!; try done. by intros t ?%not_elem_of_nil. }
  apply wp_bind. unfold add_slice. apply wp_bind.
  eapply call_AddPending; [apply _|assumption..|]. intros t1 Ht1. cbn [wp].
  eapply wp_mono; [apply IH; cbn; auto with om|]. cbn.
  intros s' v' (Hty & Hnow & Hi & He & Hin & Hout & Hfr & Hx). split_and!; [done|lia| |done|..].
  - rewrite Hi. apply index_add_pending.
  - intros t Htk. unfold slice_tickets in Htk. cbn in Htk. apply elem_of_app in Htk.
    destruct (decide (t ∈ slice_tickets m5c)) as [Hl|Hl].
    + destruct (Hin t Hl) as (tau & ? & ?). exists tau. split; [done|lia].
    + destruct Htk as [Htk|Htk]; [|done]. exists t1. rewrite (Hout t Hl), pending_add_pending, lookup_zadd_all.
      rewrite decide_True by done. split; [done|lia].
  - intros t Htk. unfold slice_tickets in Htk. cbn in Htk. apply not_elem_of_app in Htk as [Hn Hl].
    by rewrite (Hout t Hl), pending_add_pending, lookup_zadd_all, decide_False.
  - intros k Hk. rewrite Hfr by done. unfold add_pending. cbn. destruct (release_ids m mIDs); [done|]. by apply put_zset_ne.
  - done.
Qed.

(** The whole call. *)
Lemma add_matches_wp m5c v (Hf : sys_faulty = false) (Ht : typed (v_db v)) :
  wp (addMatchesToPendingRelease store m5c) v (fun x v' =>
    x.2 = None /\ typed (v_db v') /\ v_now v <= v_now v' /\ index (v_db v') = index (v_db v) /\
    (forall t, t ∈ slice_tickets m5c -> hidden (v_now v) (v_now v') (v_db v') t) /\
    (forall t, t ∉ slice_tickets m5c -> pending (v_db v') !! t = pending (v_db v) !! t) /\
    (forall k, k <> proposedTicketIDs -> v_db v' !! k = v_db v !! k) /\ v_xids v' = v_xids v).
Proof using All.
  unfold addMatchesToPendingRelease. apply wp_bind. eapply wp_mono; [by apply add_slices_hides|].
  cbn. intros s v' (? & ? & ? & He & Hrest). unfold add_cancel. by rewrite He.
Qed.

(** Hidden for the release timeout. *)
Lemma hidden_in_window lo hi d t now ttl : hidden lo hi d t -> hi <= now -> now - lo <= ttl ->
  in_window (pending d) (now - ttl) (now + time_Hour) t.
Proof using All.
  intros (tau & Htau & Hlo & Hhi) Hnow Httl. exists (sys_score tau). split; [done|].
  split; apply sys_score_mono; unfold time_Hour, time_Minute, time_Second; lia.
Qed.
End AddMatches.

Section AddMatchesRun.
Context `{EnvironmentLaws} `{ProtoLaws} (cfg : View) (store : Service) `{!ServiceSpec cfg store}.

(** Accepted matches hide their tickets before their ids are returned:
    with a store that does not fail, all the ids received are passed on in
    order and the cycle is not cancelled, and then the tickets of every match
    whose id is in the map are in the pending-release window of every query
    made within the release timeout of the call; the marks of other tickets
    and the index are unchanged. *)
Theorem add_matches_hides m5c w ids cancel w'
  (Hf : sys_faulty = false) (Ht : typed (v_db (env_view w)))
  (Hrun : run (addMatchesToPendingRelease store m5c) w = ((ids, cancel), w')) :
  let ttl := GetDuration cfg "pendingReleaseTimeout" in
  let d' := v_db (env_view w') in
  ids = concat (m5c.*2) /\ cancel = None /\
  index d' = index (v_db (env_view w)) /\
  (forall m mIDs id tids t now, (m, mIDs) ∈ m5c -> id ∈ mIDs -> m !! id = Some tids -> t ∈ tids ->
     v_now (env_view w') <= now -> now - v_now (env_view w) <= ttl ->
     in_window (pending d') (now - ttl) (now + time_Hour) t) /\
  (forall t, t ∉ slice_tickets m5c -> pending d' !! t = pending (v_db (env_view w)) !! t).
Proof.
  pose proof (run_wp _ _ _ _ _ (add_matches_forwards store m5c (env_view w)) Hrun) as Hids. cbn in Hids.
  apply (run_wp _ _ _ _ _ (add_matches_wp cfg store m5c _ Hf Ht)) in Hrun as (Hc & _ & _ & Hi & Hin & Hout & _).
  cbn in Hc. split_and!; [done..| |done]. intros m mIDs id tids t now Hm Hid Htids Htk Hnow Httl.
  eapply (hidden_in_window cfg store); [apply Hin|done|done].
  unfold slice_tickets. apply elem_of_concat. exists (release_ids m mIDs). split.
  - apply list_elem_of_fmap. by exists (m, mIDs).
  - clear -Hid Htids Htk. unfold release_ids.
    assert (forall l acc, t ∈ acc \/ id ∈ l -> t ∈ foldl (fun ids mID => match m !! mID with Some tids => ids ++ tids | None => ids end) acc l) as Hf; [|by apply Hf; right].
    induction l as [|i l IH]; intros acc Hor; cbn.
    + destruct Hor as [?|?%not_elem_of_nil]; done.
    + apply IH. destruct Hor as [Hor|[->|Hor]%elem_of_cons]; [left|left|by right].
      * destruct (m !! i); rewrite ?elem_of_app; auto.
      * rewrite Htids, elem_of_app. auto.
Qed.
End AddMatchesRun.

Lemma add_matches_hides_witness :
  let p := addMatchesToPendingRelease (redisBackend mem_cfg) [({["m" := ["a"; "b"]]}, ["m"]); (∅, ["n"])] in
  (ans p mem_init).1 = ["m"; "n"] /\
  in_window (pending (v_db (env_view (after p mem_init)))) (v_now (env_view (after p mem_init)) - GetDuration mem_cfg "pendingReleaseTimeout")
    (v_now (env_view (after p mem_init)) + time_Hour) "b".
Proof.
  intros p. split; [vm_compute; reflexivity|].
  destruct (add_matches_hides mem_cfg (redisBackend mem_cfg) [({["m" := ["a"; "b"]]}, ["m"]); (∅, ["n"])]
    mem_init (ans p mem_init).1 (ans p mem_init).2 (after p mem_init)) as (_ & _ & _ & Hin & _).
  - reflexivity.
  - concrete.
  - etrans; [apply surjective_pairing|]. f_equal.
  - eapply (Hin {["m" := ["a"; "b"]]} ["m"] "m" ["a"; "b"] "b").
    + apply list_elem_of_here.
    + apply list_elem_of_here.
    + reflexivity.
    + apply list_elem_of_further, list_elem_of_here.
    + apply Z.le_refl.
    + vm_compute. discriminate.
Defined.

(** ** [register] and [startCycle]

    Calls wait in the select of [register]; a goroutine that runs a cycle
    registers calls for a while, finishes the cycle, and puts the token back
    into the channel of capacity one. *)
Inductive cycle_phase := Registering | Finishing | PuttingBack.

Record synchronizerService := mkSyncService {
  startCycle : bool;                        (* the channel holds its token *)
  cycles : gmap nat cycle_phase;
  registered : gmap callid (option nat);    (* calls, and the cycle they got *)
}.

Definition newSynchronizerService : synchronizerService := mkSyncService true ∅ ∅.

Inductive register_step (s : synchronizerService) : synchronizerService -> Prop :=
| reg_call k : registered s !! k = None ->
    register_step s (mkSyncService (startCycle s) (cycles s) (<[k := None]> (registered s)))
  (* case <-s.startCycle *)
| reg_start k c : registered s !! k = Some None -> startCycle s = true -> cycles s !! c = None ->
    register_step s (mkSyncService false (<[c := Registering]> (cycles s)) (registered s))
  (* case s.synchronizeRegistration <- req, met by the registration loop *)
| reg_register k c : registered s !! k = Some None -> cycles s !! c = Some Registering ->
    register_step s (mkSyncService (startCycle s) (cycles s) (<[k := Some c]> (registered s)))
| reg_close c : cycles s !! c = Some Registering ->
    register_step s (mkSyncService (startCycle s) (<[c := Finishing]> (cycles s)) (registered s))
| reg_over c : cycles s !! c = Some Finishing ->
    register_step s (mkSyncService (startCycle s) (<[c := PuttingBack]> (cycles s)) (registered s))
  (* s.startCycle <- struct{}{} needs room in the channel *)
| reg_put_back c : cycles s !! c = Some PuttingBack -> startCycle s = false ->
    register_step s (mkSyncService true (delete c (cycles s)) (registered s)).

Inductive register_reachable : synchronizerService -> Prop :=
| register_init : register_reachable newSynchronizerService
| register_next s s' : register_reachable s -> register_step s s' -> register_reachable s'.

(** Either the token is there and no cycle runs, or one cycle runs. *)
Lemma register_token s : register_reachable s ->
  if startCycle s then cycles s = ∅ else exists c ph, cycles s = {[c := ph]}.
Proof.
  induction 1 as [|s s' _ IH Hs]; [done|]. destruct Hs as [k Hk|k c Hk Htok Hc|k c Hk Hc|c Hc|c Hc|c Hc Htok]; cbn.
  - done.
  - rewrite Htok in IH. rewrite IH. exists c, Registering. done.
  - done.
  - destruct (startCycle s); [by rewrite IH, lookup_empty in Hc|]. destruct IH as (c' & ph & Hcs).
    rewrite Hcs in *. apply lookup_singleton_Some in Hc as [-> _]. exists c, Finishing. by rewrite insert_singleton_eq.
  - destruct (startCycle s); [by rewrite IH, lookup_empty in Hc|]. destruct IH as (c' & ph & Hcs).
    rewrite Hcs in *. apply lookup_singleton_Some in Hc as [-> _]. exists c, PuttingBack. by rewrite insert_singleton_eq.
  - rewrite Htok in IH. destruct IH as (c' & ph & Hcs). rewrite Hcs in *.
    apply lookup_singleton_Some in Hc as [-> _]. by rewrite delete_singleton_eq.
Qed.

(** C32. At most one cycle runs at a time, and the protocol cannot get stuck:
    the token is in the channel exactly when no cycle runs, so putting it
    back never blocks; a call that waits can start a cycle or register with
    the one running unless that one is past its registration period, and then
    the cycle can end and put the token back. *)
Theorem one_cycle_at_a_time s (Hs : register_reachable s) :
  (size (cycles s) <= 1)%nat /\ (startCycle s = true <-> cycles s = ∅) /\
  (forall c, cycles s !! c = Some PuttingBack -> startCycle s = false) /\
  (forall k, registered s !! k = Some None ->
     (exists s', register_step s s' /\ cycles s' <> ∅ /\ startCycle s = true) \/
     (exists c s', register_step s s' /\ registered s' !! k = Some (Some c)) \/
     (exists c s', (cycles s = {[c := Finishing]} \/ cycles s = {[c := PuttingBack]}) /\ register_step s s' /\
        registered s' = registered s)).
Proof.
  pose proof (register_token s Hs) as Ht. destruct (startCycle s) eqn:Htok.
  - rewrite Ht. split_and!; [by rewrite map_size_empty; lia|done|by intros c ?%lookup_empty_Some|].
    intros k Hk. left. eexists. split; [apply (reg_start s k 0%nat Hk Htok); by rewrite Ht, lookup_empty|].
    split; [apply insert_non_empty|done].
  - destruct Ht as (c & ph & Hc). rewrite Hc. split_and!; [by rewrite map_size_singleton| |done|].
    { split; [done|]. intros He. apply (f_equal (lookup c)) in He. by rewrite lookup_singleton_eq, lookup_empty in He. }
    assert (cycles s !! c = Some ph) as Hl by (rewrite Hc; apply lookup_singleton_eq).
    intros k Hk. right. destruct ph.
    + left. exists c. eexists. split; [by apply (reg_register s k c)|]. apply lookup_insert_eq.
    + right. exists c. eexists. split; [by left|]. split; [by apply reg_over|done].
    + right. exists c. eexists. split; [by right|]. split; [by apply reg_put_back|done].
Qed.

Lemma register_by s s1 s' : register_reachable s -> register_step s s1 -> s1 = s' -> register_reachable s'.
Proof. intros Hr Hs <-. by eapply register_next. Qed.

Lemma one_cycle_at_a_time_witness :
  let s := mkSyncService false {[0%nat := Registering]} {[7%nat := None]} in
  register_reachable s /\ (size (cycles s) <= 1)%nat.
Proof.
  intros s. assert (register_reachable s) as Hs.
  { assert (register_reachable (mkSyncService true ∅ {[7%nat := None]})) as H1.
    { eapply register_by; [apply register_init|by apply (reg_call newSynchronizerService 7%nat)|reflexivity]. }
    eapply register_by; [exact H1|by apply (reg_start _ 7%nat 0%nat)|reflexivity]. }
  split; [exact Hs|]. apply (one_cycle_at_a_time s Hs).
Defined.
