(* ===== verification/Journey.v ===== *)
(** * The journey of a ticket

    The services together, from the outside: a ticket is created through the
    frontend, found by the query service, hidden by the synchronizer when a
    match with it is accepted, taken out of matchmaking when the backend
    assigns it, and read back with its assignment. The services share nothing
    but the state store. *)
From S2P Require Export FrontendProps BackendProps QueryProps SyncStore.

(** ** What the calls keep *)
Section Kept.
Context `{Sys} `{Proto} (cfg : View).
Implicit Types (d : db).

(** What the index names and the store holds can be read. *)
Definition index_ok d : Prop :=
  forall id, id ∈ index d -> get_str d id <> None -> exists x, ticket_at d id = Some x /\ t_Id x = id.

Lemma index_ok_readable d : index_ok d -> forall t, readable cfg d t.
Proof. intros Hok t id [Hi _] Hs. by apply Hok. Qed.

(** A call that leaves the tickets that are not in [ids] where they are. *)
Definition keeps (ids : gset string) d d' : Prop :=
  forall k, k ∉ ids -> k <> allTickets -> k <> proposedTicketIDs -> d' !! k = d !! k.

Lemma keeps_ticket ids d d' k x : typed d -> typed d' -> keeps ids d d' -> k ∉ ids ->
  ticket_at d' k = Some x <-> ticket_at d k = Some x.
Proof.
  intros Ht Ht' Hk Hin. destruct (decide (k ∈ reserved)) as [Hr|Hr].
  - unfold ticket_at. by rewrite !reserved_not_str.
  - rewrite (ticket_at_ext d' d); [done|]. apply Hk; [done|unfold reserved in Hr; set_solver..].
Qed.

Lemma keeps_str ids d d' k : typed d -> typed d' -> keeps ids d d' -> k ∉ ids -> get_str d' k = get_str d k.
Proof.
  intros Ht Ht' Hk Hin. destruct (decide (k ∈ reserved)) as [Hr|Hr].
  - by rewrite !reserved_not_str.
  - apply get_str_ext, Hk; [done|unfold reserved in Hr; set_solver..].
Qed.

Lemma keeps_coherent ids d d' tc : typed d -> typed d' -> keeps ids d d' -> coherent tc d ->
  (forall id, id ∈ index d' -> id ∉ ids -> id ∈ index d) ->
  (forall id, id ∈ index d' -> id ∈ ids -> tc !! id = None) -> coherent tc d'.
Proof.
  intros Ht Ht' Hk Hc Hi Hn id x Hx Hid. destruct (decide (id ∈ ids)) as [Hin|Hin].
  - by rewrite (Hn id Hid Hin) in Hx.
  - apply (keeps_ticket ids d d'); [done..|]. apply Hc; auto.
Qed.

Lemma keeps_index_ok ids d d' : typed d -> typed d' -> keeps ids d d' -> index_ok d ->
  (forall id, id ∈ index d' -> id ∉ ids -> id ∈ index d) ->
  (forall id, id ∈ index d' -> id ∈ ids -> exists x, ticket_at d' id = Some x /\ t_Id x = id) ->
  index_ok d'.
Proof.
  intros Ht Ht' Hk Hok Hi Hids id Hid Hs. destruct (decide (id ∈ ids)) as [Hin|Hin]; [by apply Hids|].
  rewrite (keeps_str ids d d') in Hs by done. destruct (Hok id (Hi id Hid Hin) Hs) as (x & Hx & ?).
  exists x. by rewrite (keeps_ticket ids d d').
Qed.
End Kept.

Section Journey.
Context `{EnvironmentLaws} `{ProtoLaws} `{MapOrder} (cfg : View) (store : Service) `{!ServiceSpec cfg store}.
Implicit Types (w : env_state).

(** A query between two worlds. *)
Lemma query_step send pool pf tc w out w' (Hf : sys_faulty = false) (Ht : typed (db_of w)) (Hok : index_ok (db_of w))
  (Hc : coherent tc (db_of w)) (Hpf : NewPoolFilter pool = Ok pf) (Hsend : forall i page, send i page = None)
  (Hrun : run (QueryTickets store cfg send (Some pool) tc) w = (out, w')) :
  db_of w' = db_of w /\ clock w <= clock w' /\ v_xids (env_view w') = v_xids (env_view w) /\
  exists now, clock w <= now <= clock w' /\
    (forall id, ~ visible cfg (db_of w) now id -> out.1 !! id = None /\ (id ∉ t_Id <$> concat out.2.1)) /\
    coherent out.1 (db_of w) /\
    (forall x, x ∈ concat out.2.1 <->
       exists id, visible cfg (db_of w) now id /\ ticket_at (db_of w) id = Some x /\ Filter.In pf x = true) /\
    (forall id x, out.1 !! id = Some x -> ticket_at (db_of w) id = Some x).
Proof.
  pose proof (run_wp _ _ _ _ _ (query_tickets_wp cfg store send pool pf tc _ Hf Ht Hc (index_ok_readable cfg _ Hok) Hpf Hsend) Hrun)
    as Hq. destruct out as [tc' [pages r]]. destruct Hq as (_ & Hd & Hxid & (now & Hnow & Htc & Hp) & _). cbn in *.
  split; [done|]. split; [lia|]. split; [done|]. exists now. split; [done|]. split; [|split; [|split; [done|by intros id x [_ ?]%Htc]]].
  - intros id Hnv. split.
    + destruct (tc' !! id) eqn:Hid; [|done]. by apply Htc in Hid as [? _].
    + intros (x & -> & Hx)%list_elem_of_fmap. apply Hp in Hx as (id & Hv & Hx & _).
      destruct (Hok id (proj1 Hv)) as (x' & Hx' & Hid).
      { intros Hs. unfold ticket_at in Hx. by rewrite Hs in Hx. }
      rewrite Hx in Hx'. injection Hx' as <-. by rewrite Hid in Hnv.
  - by intros id x [_ ?]%Htc _.
Qed.

(** Creating a ticket between two worlds. *)
Lemma create_step t w r w' (Hf : sys_faulty = false) (Ht : typed (db_of w)) (Hok : index_ok (db_of w))
  (Hids : forall i, is_xid i = true -> is_Some (db_of w !! i) \/ is_Some (pending (db_of w) !! i) -> i ∈ v_xids (env_view w))
  (Hnew : t_Assignment t = None /\ t_CreateTime t = None)
  (Hm : forall id c, is_Some (marshal_ticket (set_ticket_create_time c (set_ticket_id id t))))
  (Hrun : run (Frontend.CreateTicket store (Some t)) w = (Ok r, w')) :
  (exists now, clock w <= now <= clock w' /\
     r = set_ticket_create_time (Some (TimestampNow now)) (set_ticket_id (t_Id r) t)) /\
  typed (db_of w') /\ index_ok (db_of w') /\ not_reserved (t_Id r) /\
  (forall tc, coherent tc (db_of w) -> tc !! t_Id r = None -> coherent tc (db_of w')) /\
  ticket_at (db_of w') (t_Id r) = Some r /\ (forall now, visible cfg (db_of w') now (t_Id r)) /\
  (* a new id *)
  (is_xid (t_Id r) = true /\ t_Id r ∉ v_xids (env_view w)) /\
  v_xids (env_view w') = {[t_Id r]} ∪ v_xids (env_view w) /\
  keeps {[t_Id r]} (db_of w) (db_of w') /\ index (db_of w') = {[t_Id r]} ∪ index (db_of w) /\
  pending (db_of w') = pending (db_of w).
Proof.
  destruct Hnew as [Ha Hc].
  pose proof (run_wp _ _ _ _ _ (create_ticket_wp cfg store t _ Hf Ht Hm Ha Hc) Hrun)
    as (id & now & Hr & Hfresh & Hxid & Hnow & Hat & Hi & Hfr & Ht' & Hx).
  injection Hr as Hr. assert (t_Id r = id) as Hid by (by rewrite Hr). rewrite Hid.
  pose proof (xid_not_reserved id Hxid) as Hres.
  assert (db_of w !! id = None /\ pending (db_of w) !! id = None) as [Hd Hp].
  { split; apply eq_None_not_Some; intros Hs; apply Hfresh, Hids; auto. }
  assert (keeps {[id]} (db_of w) (db_of w')) as Hk by (intros k Hk ??; apply Hfr; set_solver).
  assert (pending (db_of w') = pending (db_of w)) as He.
  { unfold pending, get_zset. rewrite Hfr; [done|intros <-; apply Hres; concrete|done]. }
  split; [exists now; split; [done|exact Hr]|]. split; [done|].
  split; [|split; [done|split; [|split; [|split; [|by split_and!]]]]].
  - apply (keeps_index_ok {[id]} (db_of w)); [done..| |].
    + intros k. rewrite Hi. set_solver.
    + intros k _ ->%elem_of_singleton. exists r. split; [by rewrite Hat, Hr|done].
  - intros tc Hc' Hn. apply (keeps_coherent {[id]} (db_of w)); [done..| |].
    + intros k. rewrite Hi. set_solver.
    + by intros k _ ->%elem_of_singleton.
  - by rewrite Hat, Hr.
  - intros n. split; [rewrite Hi; set_solver|]. intros (sc & Hs & _).
    rewrite He in Hs. congruence.
Qed.

(** Processing an accepted match of one ticket between two worlds. *)
Lemma propose_step mid id w x w' (Hf : sys_faulty = false) (Ht : typed (db_of w))
  (Hrun : run (addMatchesToPendingRelease store [({[mid := [id]]}, [mid])]) w = (x, w')) :
  typed (db_of w') /\ index (db_of w') = index (db_of w) /\ keeps ∅ (db_of w) (db_of w') /\
  clock w <= clock w' /\
  (forall now, clock w' <= now -> now - clock w <= GetDuration cfg "pendingReleaseTimeout" ->
     ~ visible cfg (db_of w') now id).
Proof.
  pose proof (run_wp _ _ _ _ _ (add_matches_wp cfg store [({[mid := [id]]}, [mid])] _ Hf Ht) Hrun)
    as (_ & Ht' & Hnow & Hi & Hin & _ & Hk). split_and!; [done..| |done|].
  - intros k _ _ Hkp. by apply Hk.
  - intros now Hlo Hhi [_ Hv]. apply Hv. eapply (hidden_in_window cfg store); [apply Hin|exact Hlo|exact Hhi].
    unfold slice_tickets, release_ids. cbn [fmap list_fmap foldl concat].
    rewrite lookup_singleton_eq. by left.
Qed.

(** Assigning one stored ticket between two worlds. *)
Lemma assign_step x a w r w' (Hf : sys_faulty = false) (Ht : typed (db_of w)) (Hres : not_reserved (t_Id x))
  (Hx : ticket_at (db_of w) (t_Id x) = Some x) (Hm : is_Some (marshal_ticket (set_ticket_assignment (Some a) x)))
  (Hrun : run (AssignTickets store (mkAssignTicketsRequest [mkAssignmentGroup [t_Id x] (Some a)])) w = (r, w')) :
  r = Ok (mkAssignTicketsResponse []) /\ typed (db_of w') /\ keeps {[t_Id x]} (db_of w) (db_of w') /\
  index (db_of w') = index (db_of w) ∖ {[t_Id x]} /\
  ticket_at (db_of w') (t_Id x) = Some (set_ticket_assignment (Some a) x).
Proof.
  set (req := mkAssignTicketsRequest _) in *.
  assert (assigned_ticket (atr_Assignments req) x = set_ticket_assignment (Some a) x) as Has.
  { unfold assigned_ticket. cbn. by rewrite decide_True by (by left). }
  assert (group_ids (atr_Assignments req) = [t_Id x]) as Hg by done.
  destruct (run_wp _ _ _ _ _ (assign_tickets_wp cfg store req _ Hf Ht
    ltac:(split; [repeat constructor; by eexists|rewrite Hg; split; [apply NoDup_singleton|done]])
    ltac:(rewrite Hg; by repeat constructor)
    ltac:(rewrite Hg; intros id y ->%list_elem_of_singleton Hy; by simplify_eq)
    ltac:(rewrite Hg; intros id ->%list_elem_of_singleton _; exists x; by rewrite Has)) Hrun)
    as (-> & Hat & Hi & _ & Hk & Ht' & _).
  rewrite Hg in *. split_and!; [|done| | |].
  - unfold missing_failures. rewrite filter_cons_False; [done|]. unfold ticket_at in Hx. by destruct (get_str _ _).
  - intros k Hk1 ??. apply Hk; [set_solver|done..].
  - rewrite Hi. f_equal. set_solver.
  - rewrite (Hat _ x); [by rewrite Has|by left|done].
Qed.

(** C14. A ticket's journey. Start with a store that can be read, a cache of the
    query service that agrees with it, and calls that do not fail for outside
    reasons. A ticket created through the frontend is streamed to every query
    whose pool it is in; once the synchronizer has processed an accepted match
    with the ticket it is streamed to no query within the release timeout, and
    once it is assigned to none at all; and whoever gets it reads what was
    submitted with the creation time and the assignment. *)
Theorem ticket_journey t pool pf send tc mid a w0 w1 w2 w3 w4 w5 w6 w7 r1 out1 synced out2 r3 out3 r4
  (Hf : sys_faulty = false)
  (* the start *)
  (Ht : typed (db_of w0)) (Hok : index_ok (db_of w0)) (Hc : coherent tc (db_of w0))
  (Hids : forall i, is_xid i = true -> is_Some (db_of w0 !! i) \/ is_Some (pending (db_of w0) !! i) \/ is_Some (tc !! i) ->
     i ∈ v_xids (env_view w0))
  (Hnew : t_Assignment t = None /\ t_CreateTime t = None)
  (Hm : forall id c a, is_Some (marshal_ticket (set_ticket_assignment a (set_ticket_create_time c (set_ticket_id id t)))))
  (Hpf : NewPoolFilter pool = Ok pf) (Hsend : forall i page, send i page = None)
  (* the calls *)
  (Hcreate : run (Frontend.CreateTicket store (Some t)) w0 = (Ok r1, w1))
  (Hquery1 : run (QueryTickets store cfg send (Some pool) tc) w1 = (out1, w2))
  (Hpropose : run (addMatchesToPendingRelease store [({[mid := [t_Id r1]]}, [mid])]) w2 = (synced, w3))
  (Hquery2 : run (QueryTickets store cfg send (Some pool) out1.1) w3 = (out2, w4))
  (Hassign : run (AssignTickets store (mkAssignTicketsRequest [mkAssignmentGroup [t_Id r1] (Some a)])) w4 = (r3, w5))
  (Hquery3 : run (QueryTickets store cfg send (Some pool) out2.1) w5 = (out3, w6))
  (Hget : run (Frontend.GetTicket store (t_Id r1)) w6 = (r4, w7))
  (Hsoon : clock w4 - clock w2 <= GetDuration cfg "pendingReleaseTimeout") :
  (exists now, clock w0 <= now <= clock w1 /\
     r1 = set_ticket_create_time (Some (TimestampNow now)) (set_ticket_id (t_Id r1) t)) /\
  (r1 ∈ concat out1.2.1 <-> Filter.In pf r1 = true) /\
  (t_Id r1 ∉ t_Id <$> concat out2.2.1) /\
  r3 = Ok (mkAssignTicketsResponse []) /\
  (t_Id r1 ∉ t_Id <$> concat out3.2.1) /\
  r4 = Ok (set_ticket_assignment (Some a) r1).
Proof.
  destruct (create_step t w0 r1 w1 Hf Ht Hok ltac:(naive_solver) Hnew)
    as (Hr1 & Ht1 & Hok1 & Hres & Hc1 & Hat1 & Hv1 & [Hxid Hnew1] & _);
    [intros id c; destruct Hnew as [Ha _], t; cbn in Ha; subst; exact (Hm id c None)|done|].
  assert (is_Some (marshal_ticket (set_ticket_assignment (Some a) r1))) as Hmr by (destruct Hr1 as (now & _ & ->); apply Hm).
  set (id := t_Id r1) in *.
  assert (tc !! id = None) as Hun by (apply eq_None_not_Some; intros Hs; apply Hnew1, Hids; auto).
  destruct (query_step _ _ _ _ _ _ _ Hf Ht1 Hok1 (Hc1 _ Hc Hun) Hpf Hsend Hquery1) as (Hd2 & _ & _ & n1 & _ & _ & Hc2 & Hp1 & _).
  rewrite <- Hd2 in Ht1, Hok1, Hc2, Hat1, Hv1.
  destruct (propose_step _ _ _ _ _ Hf Ht1 Hpropose) as (Ht3 & Hi3 & Hk3 & Hn3 & Hhide).
  assert (index_ok (db_of w3)) as Hok3 by (apply (keeps_index_ok ∅ (db_of w2)); [done..|intros k; by rewrite Hi3|set_solver]).
  assert (coherent out1.1 (db_of w3)) as Hc3 by (apply (keeps_coherent ∅ (db_of w2)); [done..|intros k; by rewrite Hi3|set_solver]).
  assert (ticket_at (db_of w3) id = Some r1) as Hat3 by (apply (keeps_ticket ∅ (db_of w2)); [done..|set_solver|done]).
  destruct (query_step _ _ _ _ _ _ _ Hf Ht3 Hok3 Hc3 Hpf Hsend Hquery2) as (Hd4 & _ & _ & n2 & Hn2 & Hout2 & Hc4 & _).
  destruct (Hout2 id) as [Htc2 Hpages2]; [apply Hhide; lia|].
  rewrite <- Hd4 in Ht3, Hok3, Hat3, Hc4.
  destruct (assign_step r1 a w4 r3 w5 Hf Ht3 Hres Hat3 Hmr Hassign) as (Hr3 & Ht5 & Hk5 & Hi5 & Hat5).
  assert (index_ok (db_of w5)) as Hok5.
  { apply (keeps_index_ok {[id]} (db_of w4)); [done..|intros k; rewrite Hi5; set_solver|].
    intros k Hk ->%elem_of_singleton. rewrite Hi5 in Hk. set_solver. }
  assert (coherent out2.1 (db_of w5)) as Hc5.
  { apply (keeps_coherent {[id]} (db_of w4)); [done..|intros k; rewrite Hi5; set_solver|].
    by intros k _ ->%elem_of_singleton. }
  destruct (query_step _ _ _ _ _ _ _ Hf Ht5 Hok5 Hc5 Hpf Hsend Hquery3) as (Hd6 & _ & _ & n3 & _ & Hout3 & _).
  split_and!; [done| |done|done| |].
  - rewrite Hp1. rewrite Hd2 in Hat1, Hv1. split; [by intros (id' & _ & _ & Hin)|]. intros Hin. by exists id.
  - apply Hout3. intros [Hv _]. rewrite Hi5 in Hv. set_solver.
  - run_start Hget. unfold Frontend.GetTicket. rewrite <- Hd6 in Hat5. call (call_GetTicket cfg).
    + intros x Hx. unfold id in *. congruence.
    + intros e Hn. unfold id in *. congruence.
Qed.
End Journey.

(** *** In memory *)
Definition journey_ticket : Ticket :=
  mkTicket "" None (Some (mkSearchFields ∅ {["mode" := "demo"]} ["beta"])) ∅ ∅ None.
Definition journey_pool : Pool := mkPool "demo" [] [mkStringEqualsFilter "mode" "demo"] [mkTagPresentFilter "beta"] None None.
Definition journey_filter : PoolFilter :=
  mkPoolFilter [] [mkStringEqualsFilter "mode" "demo"] [mkTagPresentFilter "beta"] time_zero time_zero.

Lemma ticket_journey_witness :
  let create := Frontend.CreateTicket mem_store (Some journey_ticket) in
  let query tc := QueryTickets mem_store mem_cfg (fun _ _ => None) (Some journey_pool) tc in
  let w1 := after create mem_init in
  let id := mem_id 0 in
  let w2 := after (query ∅) w1 in
  let propose := addMatchesToPendingRelease mem_store [({["m" := [id]]}, ["m"])] in
  let w3 := after propose w2 in
  let out1 := ans (query ∅) w1 in
  let out2 := ans (query out1.1) w3 in
  let w4 := after (query out1.1) w3 in
  let a := mkAssignment "10.0.0.1:80" ∅ in
  let assign := AssignTickets mem_store (mkAssignTicketsRequest [mkAssignmentGroup [id] (Some a)]) in
  let w5 := after assign w4 in
  let out3 := ans (query out2.1) w5 in
  length (concat out1.2.1) = 1%nat /\ (id ∉ t_Id <$> concat out2.2.1) /\ (id ∉ t_Id <$> concat out3.2.1) /\
  concat out2.2.1 = [] /\ concat out3.2.1 = [].
Proof.
  intros create query w1 id w2 propose w3 out1 out2 w4 a assign w5 out3.
  set (t' := default journey_ticket (match ans create mem_init with Ok t => Some t | Err _ => None end)).
  assert (t_Id t' = id) as Hid by (vm_compute; reflexivity).
  destruct (ticket_journey mem_cfg mem_store journey_ticket journey_pool journey_filter (fun _ _ => None) ∅ "m" a
    mem_init w1 w2 w3 w4 w5 (after (query out2.1) w5) (after (Frontend.GetTicket mem_store id) (after (query out2.1) w5))
    t' out1 (ans propose w2) out2 (ans assign w4) out3 (ans (Frontend.GetTicket mem_store id) (after (query out2.1) w5)))
    as (_ & _ & H2 & _ & H3 & _).
  - reflexivity.
  - concrete.
  - intros i Hi. change (i ∈ (∅ : gset string)) in Hi. apply elem_of_empty in Hi as [].
  - apply coherent_empty.
  - intros i _ [[x Hx]|[[x Hx]|[x Hx]]].
    + change (db_of mem_init) with (∅ : db) in Hx. rewrite lookup_empty in Hx. discriminate Hx.
    + change (pending (db_of mem_init)) with (∅ : gmap string Z) in Hx. rewrite lookup_empty in Hx. discriminate Hx.
    + rewrite lookup_empty in Hx. discriminate Hx.
  - split; reflexivity.
  - intros i c a'. by eexists.
  - reflexivity.
  - intros i page. reflexivity.
  - etrans; [apply surjective_pairing|]. f_equal.
  - apply surjective_pairing.
  - rewrite Hid. apply surjective_pairing.
  - apply surjective_pairing.
  - rewrite Hid. apply surjective_pairing.
  - apply surjective_pairing.
  - rewrite Hid. apply surjective_pairing.
  - vm_compute. discriminate.
  - rewrite Hid in H2, H3. split; [vm_compute; reflexivity|]. split; [exact H2|]. split; [exact H3|].
    split; vm_compute; reflexivity.
Defined.
