(* ===== verification/Tutorials.v ===== *)
(** * The custom evaluator tutorial
      ([tutorials/custom_evaluator/solution/evaluator/evaluate]) and the match
      functions of the first two tutorials

    An evaluator that prefers the match whose longest waiting player has
    waited longest. *)
From S2P Require Export Mmf Evaluators.

(** ** The evaluator *)
Module CustomEvaluator.

Record matchEval := mkMatchEval { match_ : Match; maxWait : float64 }.
Record collidingMatch := mkColliding { id : string; cm_maxWait : float64 }.
Record decollider := mkDecollider { resultIDs : list string; ticketsUsed : gmap string collidingMatch }.

(** [now] is [float64(time.Now().UnixNano())]. *)
Definition longest_wait (now : float64) (m : Match) : float64 :=
  foldl (fun maxWait t => let qt := f_sub now (enter_queue t) in if f_gt qt maxWait then qt else maxWait)
    (S754_zero false) (m_Tickets m).

Definition maybeAdd (d : decollider) (m : matchEval) : decollider :=
  if existsb (fun t => bool_decide (is_Some (ticketsUsed d !! t_Id t))) (m_Tickets (match_ m)) then d
  else
    mkDecollider (resultIDs d ++ [m_MatchId (match_ m)])
      (foldl (fun u t => <[t_Id t := mkColliding (m_MatchId (match_ m)) (maxWait m)]> u) (ticketsUsed d)
         (m_Tickets (match_ m))).

(** [byMaxWait.Less]. *)
Definition Less (x y : matchEval) : bool := f_gt (maxWait x) (maxWait y).

Definition with_wait (now : float64) (m : Match) : matchEval := mkMatchEval m (longest_wait now m).

Definition evaluate `{GoSort} (now : float64) (proposals : list Match) : list string :=
  let matches := sort_Sort Less (with_wait now <$> proposals) in
  resultIDs (foldl maybeAdd (mkDecollider [] ∅) matches).

(** [EvaluatorService.Evaluate]: what is sent and returned. The getters read a
    message without a match as an empty one. *)
Definition no_match : Match := mkMatch "" "" "" [] ∅ None false.

Definition Evaluate `{GoSort} (now : float64) (received : list (option Match)) (recv_err : option error)
    (send_err : nat -> option error) : list string * result unit :=
  match recv_err with
  | Some err => ([], Err err)
  | None =>
      let '(sent, e) := harness_sent (evaluate now (default no_match <$> received)) send_err in
      (sent, match e with Some err => Err err | None => Ok tt end)
  end.

(** *** What it accepts *)

Lemma f_gt_not_nan x y : f_gt x y = true -> is_nan x = false.
Proof. unfold f_gt, SFltb. destruct x; try done. by destruct y as [| | |[]]. Qed.

(** A wait is never NaN, whatever the arguments of the tickets are. *)
Lemma longest_wait_not_nan now m : is_nan (longest_wait now m) = false.
Proof.
  unfold longest_wait. assert (is_nan (S754_zero false) = false) as Hz by done. revert Hz.
  generalize (S754_zero false). induction (m_Tickets m) as [|t ts IH]; intros z Hz; cbn; [done|]. apply IH.
  destruct (f_gt _ z) eqn:Hgt; [by eapply f_gt_not_nan|done].
Qed.

#[local] Abbreviation tickets_of := (fun x => m_Tickets (match_ x)).
#[local] Abbreviation sharing := (shares tickets_of).

Lemma custom_maybeAdd_accept d acc m :
  resultIDs d = (fun x => m_MatchId (match_ x)) <$> acc ->
  (forall t, is_Some (ticketsUsed d !! t) <-> Exists (fun a => t ∈ ids_of tickets_of a) acc) ->
  let d' := maybeAdd d m in let acc' := accept sharing acc m in
  resultIDs d' = (fun x => m_MatchId (match_ x)) <$> acc' /\
  (forall t, is_Some (ticketsUsed d' !! t) <-> Exists (fun a => t ∈ ids_of tickets_of a) acc').
Proof.
  intros Hr Ht. unfold maybeAdd, accept. cbn zeta.
  assert (existsb (fun t => bool_decide (is_Some (ticketsUsed d !! t_Id t))) (m_Tickets (match_ m)) = true <->
    Exists (sharing m) acc) as He by exact (existsb_shares tickets_of (fun t => is_Some (ticketsUsed d !! t)) acc m Ht).
  case_decide as Hd.
  - rewrite (proj2 He Hd). done.
  - destruct (existsb _ _); [by destruct Hd; apply He|]. cbn. split; [by rewrite fmap_app, Hr|].
    intros t. rewrite is_Some_use_tickets, Ht, Exists_app, Exists_cons, Exists_nil. unfold ids_of. tauto.
Qed.

(** The custom evaluator selects by waiting time, whatever the search fields
    of the tickets hold: no two selected matches share a ticket, they are
    returned from the longest wait to the shortest, and a proposal is left out
    only for a selected match that shares a ticket with it and whose longest
    wait is at least its own. *)
Theorem custom_evaluate_best `{GoSort} now proposals :
  exists sel, evaluate now proposals = (fun x => m_MatchId (match_ x)) <$> sel /\
    sel ⊆+ with_wait now <$> proposals /\
    StronglySorted (fun x y => f_lt (maxWait x) (maxWait y) = false) sel /\
    (forall i j x y, sel !! i = Some x -> sel !! j = Some y -> (i < j)%nat -> ~ sharing y x) /\
    (forall m, m ∈ proposals -> with_wait now m ∈ sel \/
       Exists (fun a => sharing (with_wait now m) a /\ f_lt (maxWait a) (longest_wait now m) = false) sel).
Proof.
  unfold evaluate. set (l := with_wait now <$> proposals). pose proof (sort_perm Less l) as Hp.
  assert (StronglySorted (fun x y => Less y x = false) (sort_Sort Less l)) as Hs.
  { apply sort_sorted, (higher_strict_weak maxWait). intros x (m & -> & _)%list_elem_of_fmap. apply longest_wait_not_nan. }
  set (ms := sort_Sort Less l) in *. exists (greedy sharing ms). split_and!.
  - assert (forall d acc, resultIDs d = (fun x => m_MatchId (match_ x)) <$> acc ->
      (forall t, is_Some (ticketsUsed d !! t) <-> Exists (fun a => t ∈ ids_of tickets_of a) acc) ->
      resultIDs (foldl maybeAdd d ms) = (fun x => m_MatchId (match_ x)) <$> foldl (accept sharing) acc ms) as Hf.
    { clear Hs Hp. induction ms as [|m ms IH]; intros d acc Hr Ht; cbn; [done|].
      destruct (custom_maybeAdd_accept d acc m Hr Ht). by apply IH. }
    apply Hf; [done|]. intros t. cbn. rewrite lookup_empty, Exists_nil, <- not_eq_None_Some. tauto.
  - rewrite <- Hp. apply sublist_submseteq, greedy_sublist.
  - eapply StronglySorted_sublist, Hs. apply greedy_sublist.
  - apply greedy_disjoint.
  - intros m Hm. assert (with_wait now m ∈ ms) as [i Hi]%list_elem_of_lookup
      by (rewrite Hp; by apply list_elem_of_fmap_2).
    destruct (greedy_maximal sharing _ _ _ Hi) as [?|(j & a & Hlt & Hj & Ha & Hx)]; [by left|].
    right. apply Exists_exists. exists a. split_and!; [done|done|].
    exact (StronglySorted_lookup_lt _ _ _ _ _ _ Hs Hj Hi Hlt).
Qed.
End CustomEvaluator.

(** ** Match functions without a score

    The loop of the first tutorials' match functions and of the custom
    evaluator's, which differ in the ids and in the numbers of tickets taken. *)
Section SimpleMmf.
Context `{MapOrder}.

(** [match_id n] is the id of the [n]-th match; [None]: still running. *)
Fixpoint simple_loop (ticketsPerPoolPerMatch : nat) (matchName : string) (match_id : nat -> string) (fuel : nat)
    (profile : string) (poolTickets : gmap string (list Ticket)) (matches : list Match) : option (list Match) :=
  match fuel with
  | O => None
  | S fuel =>
      let '(insufficientTickets, matchTickets, poolTickets) :=
        take_round ticketsPerPoolPerMatch (map_iter poolTickets).*1 poolTickets [] in
      if insufficientTickets then Some matches
      else
        simple_loop ticketsPerPoolPerMatch matchName match_id fuel profile poolTickets
          (matches ++ [mkMatch (match_id (length matches)) profile matchName matchTickets ∅ None false])
  end.

(** [xids n] is the [n]-th id generated, [now n] the clock as rendered then. *)
Definition matchmaker101_makeMatches (xids : nat -> string) (fuel : nat) (profile : string)
    (poolTickets : gmap string (list Ticket)) : option (list Match) :=
  simple_loop 4 "basic-matchfunction" (fun n => "profile-" +:+ profile +:+ "-" +:+ xids n) fuel profile poolTickets [].

Definition matchmaker102_makeMatches (now : nat -> string) (fuel : nat) (profile : string)
    (poolTickets : gmap string (list Ticket)) : option (list Match) :=
  simple_loop 1 "multipool-matchfunction"
    (fun n => "profile-" +:+ profile +:+ "-time-" +:+ now n +:+ "-" +:+ num n) fuel profile poolTickets [].

Definition custom_makeMatches (now : nat -> string) (fuel : nat) (profile : string)
    (poolTickets : gmap string (list Ticket)) : option (list Match) :=
  simple_loop 4 "basic-matchfunction"
    (fun n => "profile-" +:+ profile +:+ "-time-" +:+ now n +:+ "-" +:+ num n) fuel profile poolTickets [].

(** The score does not change who plays with whom: the match function of the
    default evaluator's tutorial takes the same tickets in the same order. *)
Lemma tutorial_loop_simple k MarshalScore clock name match_id fuel profile : (forall f, is_Some (MarshalScore f)) ->
  forall poolTickets count matches matches' ms,
  tutorial_loop MarshalScore k clock fuel profile poolTickets count matches = Some (Ok ms) ->
  m_Tickets <$> matches = m_Tickets <$> matches' ->
  exists ms', simple_loop k name match_id fuel profile poolTickets matches' = Some ms' /\
    m_Tickets <$> ms = m_Tickets <$> ms'.
Proof.
  intros Hscore. induction fuel as [|fuel IH]; intros poolTickets count matches matches' ms; cbn; [done|].
  destruct (take_round _ _ _ _) as [[[] matchTickets] rest]; [intros [= <-]; eauto|].
  destruct (Hscore (scoreCalculator (clock count).1 matchTickets)) as [a ->]. intros Hms He.
  eapply IH; [exact Hms|]. by rewrite !fmap_app, He.
Qed.
End SimpleMmf.
