(* ===== verification/Scale.v ===== *)
(** * The scenarios of the load tests ([examples/scale/scenarios])

    Each scenario says what tickets and profiles look like, how tickets are
    matched and how the evaluator decides: first match, battle royal, team
    shooter and backfill. A clock that renders the time for the [n]-th match
    of a call is given as [now n]; random numbers are arguments. *)
From S2P Require Export Mmf Evaluators.

(** The ids of all four: the profile, the time and the number of matches so
    far. *)
Definition scale_id (now : nat -> string) (profile : string) (n : nat) : string :=
  "profile-" +:+ profile +:+ "-time-" +:+ now n +:+ "-" +:+ num n.

(** [tickets[i:j]]. *)
Definition slice {A} (i j : nat) (l : list A) : list A := take (j - i) (drop i l).

Definition all_poolName : string := "all".
Definition entire_pool : list MatchProfile := [mkMatchProfile "entirePool" [mkPool all_poolName [] [] [] None None] ∅].
Definition empty_ticket : Ticket := mkTicket "" None None ∅ ∅ None.
Definition empty_backfill : Backfill := mkBackfill "" None ∅ ∅ None 0.

(** ** First come, first served

    What the evaluators of three scenarios share: they buffer the ids of the
    proposals whose tickets no accepted proposal used, in the order received,
    and send them when the input ends. A message without a match is a nil
    dereference. *)
Definition is_used (used : gset string) (ts : list Ticket) : bool :=
  existsb (fun t => bool_decide (t_Id t ∈ used)) ts.
Definition use (used : gset string) (ts : list Ticket) : gset string :=
  foldl (fun used t => {[t_Id t]} ∪ used) used ts.

Fixpoint fifo_loop (received : list (option Match)) (used : gset string) (matchIDs : list string) :
    result (list string) :=
  match received with
  | [] => Ok matchIDs
  | None :: _ => Err EPanic
  | Some m :: received =>
      if is_used used (m_Tickets m) then fifo_loop received used matchIDs
      else fifo_loop received (use used (m_Tickets m)) (matchIDs ++ [m_MatchId m])
  end.

(** What was sent and what the call returns; [recv_err] is the error that
    ended the input, if it was not EOF. *)
Definition send_ids (text : string) (ids : list string) (send_err : nat -> option error) : list string * result unit :=
  let '(sent, e) := harness_sent ids send_err in
  (sent, match e with Some err => Err (EWrap text err) | None => Ok tt end).

Definition fifo_Evaluate (received : list (option Match)) (recv_err : option error) (send_err : nat -> option error) :
    list string * result unit :=
  match fifo_loop received ∅ [] with
  | Err err => ([], Err err)
  | Ok matchIDs =>
      match recv_err with
      | Some err => ([], Err (EWrap "Error reading evaluator input stream" err))
      | None => send_ids "Error sending evaluator output stream" matchIDs send_err
      end
  end.

(** ** First match *)
Module FirstMatch.

Definition Profiles : list MatchProfile := entire_pool.
Definition Ticket_ : Ticket := empty_ticket.

Section MMF.
Variable now : nat -> string.

(** The loop; [None]: out of fuel. Both indices are in range by its condition. *)
Fixpoint match_loop (fuel : nat) (profile : string) (tickets : list Ticket) (i : nat) (matches : list Match) :
    option (list Match) :=
  if (i + 1 <? length tickets)%nat then
    match fuel with
    | O => None
    | S fuel =>
        match_loop fuel profile tickets (i + 2)
          (matches ++ [mkMatch (scale_id now profile (length matches)) profile "rangeExpandingMatchFunction"
                         (omap (fun j => tickets !! j) [i; i + 1]%nat) ∅ None false])
    end
  else Some matches.

Definition MatchFunction (profile : string) (poolTickets : gmap string (list Ticket)) : option (list Match) :=
  let tickets := default [] (poolTickets !! all_poolName) in
  match_loop (length tickets) profile tickets 0 [].
End MMF.

Definition Evaluate := fifo_Evaluate.
End FirstMatch.

(** ** Battle royal *)
Module BattleRoyal.

Definition regionArg : string := "region".
Definition battleRoyalRegionName (i : nat) : string := "region_" +:+ num i.
(** The scenario. *)
Definition regions : nat := 20.

Definition Profiles : list MatchProfile :=
  (fun i =>
     mkMatchProfile (battleRoyalRegionName i)
       [mkPool all_poolName [] [mkStringEqualsFilter regionArg (battleRoyalRegionName i)] [] None None] ∅)
  <$> seq 0 regions.

(** [a = rand.Intn(b.regions) + 1] and [r = rand.Intn(a)]. *)
Definition Ticket_ (r : nat) : Ticket :=
  mkTicket "" None (Some (mkSearchFields ∅ {[regionArg := battleRoyalRegionName r]} [])) ∅ ∅ None.

Definition playersInMatch : nat := 100.

Section MMF.
Variable now : nat -> string.

Fixpoint match_loop (fuel : nat) (profile : string) (tickets : list Ticket) (i : nat) (matches : list Match) :
    option (list Match) :=
  if (i + playersInMatch <=? length tickets)%nat then
    match fuel with
    | O => None
    | S fuel =>
        match_loop fuel profile tickets (i + playersInMatch)
          (matches ++ [mkMatch (scale_id now profile (length matches)) profile "battleRoyal"
                         (slice i (i + playersInMatch) tickets) ∅ None false])
    end
  else Some matches.

Definition MatchFunction (profile : string) (poolTickets : gmap string (list Ticket)) : option (list Match) :=
  let tickets := default [] (poolTickets !! all_poolName) in
  match_loop (length tickets) profile tickets 0 [].
End MMF.

Definition Evaluate := fifo_Evaluate.
End BattleRoyal.

(** ** Team shooter *)
Module TeamShooter.

Definition skillArg : string := "skill".
Definition modeArg : string := "mode".
Definition f_mul (a b : float64) : float64 := SFmul 53 1024 a b.
Definition f_hundredth : float64 := f_div (f_int 1) (f_int 100).

(** [weightedChoice]: the values, and the value chosen for a remainder drawn
    below the sum of the weights, given the orders of the two ranges over the
    map; the range that chooses subtracts the weights in turn. [None] is the
    panic. *)
Definition weights_total (m : list (string * Z)) : Z := foldl (fun total '(_, v) => total + v) 0 m.

Fixpoint weighted_pick (order : list (string * Z)) (remainder : Z) : option string :=
  match order with
  | [] => None
  | (k, v) :: order => if remainder - v <? 0 then Some k else weighted_pick order (remainder - v)
  end.

Record TeamShooterScenario := mkTeamShooter {
  regions : list string;
  maxRegions : nat;
  playersPerGame : nat;
  skillBoundaries : list float64;
  maxSkillDifference : float64;
  modes : list string;
}.

Definition mode_weights : gmap string Z := {["pl" := 100; "cp" := 25]}.

Definition Scenario `{MapOrder} : TeamShooterScenario :=
  mkTeamShooter ((fun i => "region_" +:+ num i) <$> seq 0 2) 1 12 [f_neg_inf; f_int 0; f_inf] f_hundredth
    (map_iter mode_weights).*1.

Section Profiles.
(** [fmt]'s rendering of a double with the verb v. *)
Variable fmt_float : float64 -> string.

Definition profile (t : TeamShooterScenario) (region mode : string) (lo hi : float64) : MatchProfile :=
  let skillMin := f_sub lo (f_div (maxSkillDifference t) (f_int 2)) in
  let skillMax := f_add hi (f_div (maxSkillDifference t) (f_int 2)) in
  mkMatchProfile (region +:+ "_" +:+ mode +:+ "_" +:+ fmt_float skillMin +:+ "-" +:+ fmt_float skillMax)
    [mkPool all_poolName [mkDoubleRangeFilter skillArg skillMax skillMin Exclude_NONE]
       [mkStringEqualsFilter modeArg mode] [mkTagPresentFilter region] None None] ∅.

(** Two boundaries that follow each other: [for i := 0; i+1 < len(...)]. *)
Fixpoint boundary_pairs (l : list float64) : list (float64 * float64) :=
  match l with
  | lo :: ((hi :: _) as l') => (lo, hi) :: boundary_pairs l'
  | _ => []
  end.

Definition Profiles (t : TeamShooterScenario) : list MatchProfile :=
  region ← regions t; mode ← modes t; '(lo, hi) ← boundary_pairs (skillBoundaries t); [profile t region mode lo hi].
End Profiles.

Definition clamp (v min max : float64) : float64 :=
  if f_lt v min then min else if f_gt v max then max else v.

(** The tags from a region drawn, going round. *)
Fixpoint region_tags (t : TeamShooterScenario) (numRegions region : nat) : list string :=
  match numRegions with
  | O => []
  | S n => default "" (regions t !! region) :: region_tags t n ((region + 1) mod length (regions t))
  end.

(** [region], [numRegions] and the normal variate are drawn, as is [mode]. *)
Definition Ticket_ (t : TeamShooterScenario) (region numRegions : nat) (norm : float64) (mode : string) : Ticket :=
  mkTicket "" None
    (Some (mkSearchFields {[skillArg := clamp norm (f_int (-3)) (f_int 3)]} {[modeArg := mode]}
             (region_tags t numRegions region))) ∅ ∅ None.

(** *** Matches with a quality *)
Record matchExt := mkMatchExt {
  me_id : string;
  me_tickets : list Ticket;
  me_quality : float64;
  me_matchProfile : string;
  me_matchFunction : string;
}.

(** [ptypes.MarshalAny] and [ptypes.UnmarshalAny] on a [DoubleValue]. *)
Class DoubleAny := {
  MarshalDouble : float64 -> option Any;
  UnmarshalDouble : Any -> option float64;
}.
Class DoubleAnyLaws `{DoubleAny} : Prop := {
  marshal_double_ok z : is_Some (MarshalDouble z);
  unmarshal_marshal_double z a : MarshalDouble z = Some a -> UnmarshalDouble a = Some z;
}.

Section Quality.
Context `{DoubleAny}.

(** Unmarshalling a missing [Any] is an error like unmarshalling a wrong one. *)
Definition unpackMatch (m : Match) : result matchExt :=
  match a ← m_Extensions m !! "quality"; UnmarshalDouble a with
  | None => Err (EWrap "Error unpacking match quality" unmarshal_error)
  | Some q => Ok (mkMatchExt (m_MatchId m) (m_Tickets m) q (m_MatchProfile m) (m_MatchFunction m))
  end.

Definition pack (m : matchExt) : result Match :=
  match MarshalDouble (me_quality m) with
  | None => Err (EWrap "Error packing match quality" marshal_error)
  | Some a => Ok (mkMatch (me_id m) (me_matchProfile m) (me_matchFunction m) (me_tickets m) {["quality" := a]} None false)
  end.

(** [t.SearchFields.DoubleArgs[skillArg]]: a nil dereference without search
    fields, zero without the argument. *)
Definition skill (t : Ticket) : option float64 :=
  (fun sf => default (S754_zero false) (sf_DoubleArgs sf !! skillArg)) <$> t_SearchFields t.

(** Both are only used on tickets whose skill could be read. *)
Definition skill_of (t : Ticket) : float64 := default (S754_zero false) (skill t).

(** Each operation rounds on its own; a compiler that fuses a product with a
    sum may differ in the last bit of the quality. *)
Definition average (mt : list Ticket) : float64 :=
  f_div (foldl (fun avg t => f_add avg (skill_of t)) (S754_zero false) mt) (f_int (Z.of_nat (length mt))).
Definition quality (mt : list Ticket) : float64 :=
  let avg := average mt in
  foldl (fun q t => let diff := f_sub (skill_of t) avg in f_sub q (f_mul diff diff)) (S754_zero false) mt.

Section MMF.
Context `{GoSort} (now : nat -> string) (t : TeamShooterScenario).

(** The loop over the sorted tickets; [None]: out of fuel. [mt[len(mt)-1]] and
    [mt[0]] panic on an empty slice. *)
Fixpoint match_loop (fuel : nat) (profile : string) (tickets : list Ticket) (i : nat) (matches : list Match) :
    option (result (list Match)) :=
  if (i + playersPerGame t <=? length tickets)%nat then
    match fuel with
    | O => None
    | S fuel =>
        let mt := slice i (i + playersPerGame t) tickets in
        match last mt, head mt with
        | Some z, Some a =>
            match skill z, skill a with
            | Some _, Some _ =>
                if f_lt (f_sub (skill_of z) (skill_of a)) (maxSkillDifference t) then
                  match pack (mkMatchExt (scale_id now profile (length matches)) mt (quality mt) profile "skillmatcher") with
                  | Err err => Some (Err err)
                  | Ok m => match_loop fuel profile tickets (S i) (matches ++ [m])
                  end
                else match_loop fuel profile tickets (S i) matches
            | _, _ => Some (Err EPanic)
            end
        | _, _ => Some (Err EPanic)
        end
    end
  else Some (Ok matches).

(** Sorting two tickets or more reads the skill of each. *)
Definition MatchFunction (profile : string) (poolTickets : gmap string (list Ticket)) : option (result (list Match)) :=
  let tickets := default [] (poolTickets !! all_poolName) in
  if (2 <=? length tickets)%nat && existsb (fun t => bool_decide (skill t = None)) tickets then Some (Err EPanic)
  else
    let tickets := sort_Sort (fun x y => f_lt (skill_of x) (skill_of y)) tickets in
    match_loop (S (length tickets)) profile tickets 0 [].
End MMF.

(** *** The evaluator *)
Fixpoint unpack_all (received : list (option Match)) (recv_err : option error) (proposals : list matchExt) :
    result (list matchExt) :=
  match received with
  | [] =>
      match recv_err with
      | Some err => Err (EWrap "Error reading evaluator input stream" err)
      | None => Ok proposals
      end
  | None :: _ => Err EPanic
  | Some m :: received =>
      match unpackMatch m with
      | Err err => Err err
      | Ok p => unpack_all received recv_err (proposals ++ [p])
      end
  end.

(** Accepted ids are sent at once; [n] is the number sent before. *)
Fixpoint select_loop (proposals : list matchExt) (used : gset string) (n : nat) (send_err : nat -> option error) :
    list string * result unit :=
  match proposals with
  | [] => ([], Ok tt)
  | p :: proposals =>
      if is_used used (me_tickets p) then select_loop proposals used n send_err
      else
        match send_err n with
        | Some err => ([], Err (EWrap "Error sending evaluator output stream" err))
        | None =>
            let '(sent, r) := select_loop proposals (use used (me_tickets p)) (S n) send_err in
            (me_id p :: sent, r)
        end
  end.

Definition higher (x y : matchExt) : bool := f_gt (me_quality x) (me_quality y).

Definition Evaluate `{GoSort} (received : list (option Match)) (recv_err : option error) (send_err : nat -> option error) :
    list string * result unit :=
  match unpack_all received recv_err [] with
  | Err err => ([], Err err)
  | Ok proposals => select_loop (sort_Sort higher proposals) ∅ 0 send_err
  end.
End Quality.
End TeamShooter.

(** ** Backfill *)
Module BackfillScenario.

(** [int32(val)]. *)
Definition wrap32 (z : Z) : Z := (z + 2 ^ 31) `mod` 2 ^ 32 - 2 ^ 31.

(** The scenario. *)
Definition TicketsPerMatch : Z := 4.
Definition MaxTicketsPerNotFullMatch : Z := 3.

Definition Profiles : list MatchProfile := entire_pool.
Definition Ticket_ : Ticket := empty_ticket.
Definition Backfill_ : Backfill := empty_backfill.

Section MMF.
Context `{Int32Any} `{MapOrder} (now : nat -> string).

Definition getOpenSlots (b : Backfill) (defaultVal : Z) : result Z :=
  match b_Extensions b !! openSlotsKey with
  | None => Ok defaultVal
  | Some any => match UnmarshalInt32 any with Some v => Ok v | None => Err EPanic end
  end.

Definition setOpenSlots (b : Backfill) (val : Z) : result Backfill :=
  match MarshalInt32 (wrap32 val) with
  | None => Err EPanic
  | Some any => Ok (set_bf_extensions (<[openSlotsKey := any]> (b_Extensions b)) b)
  end.

Definition BackfillDeleteCond (b : Backfill) : result bool :=
  result_bind (getOpenSlots b TicketsPerMatch) (fun openSlots => Ok (openSlots <=? 0)).

Definition newMatch (profile : string) (n : nat) (tickets : list Ticket) (b : Backfill) (allocate : bool) : Match :=
  mkMatch (scale_id now profile n) profile "backfill" tickets ∅ (Some b) allocate.

(** The loop over the backfills of a pool: the matches and the tickets left. *)
Fixpoint fill_backfills (profile : string) (ticketsPerMatch : Z) (backfills : list Backfill) (tickets : list Ticket)
    (matches : list Match) : result (list Match * list Ticket) :=
  match backfills with
  | [] => Ok (matches, tickets)
  | b :: backfills =>
      let l := Z.of_nat (length tickets) in
      if l =? 0 then Ok (matches, tickets)
      else
        result_bind (getOpenSlots b ticketsPerMatch) (fun openSlots =>
        if openSlots <=? 0 then fill_backfills profile ticketsPerMatch backfills tickets matches
        else
          let l := if openSlots <? l then openSlots else l in
          result_bind (setOpenSlots b (openSlots - l)) (fun b =>
          fill_backfills profile ticketsPerMatch backfills (drop (Z.to_nat l) tickets)
            (matches ++ [newMatch profile (length matches) (take (Z.to_nat l) tickets) b false])))
  end.

(** The loop that creates matches that are not full; [None]: still running. A
    slice with a negative end panics. *)
Fixpoint create_matches (fuel : nat) (profile : string) (ticketsPerMatch maxTicketsPerNotFullMatch : Z)
    (tickets : list Ticket) (matches : list Match) : option (result (list Match)) :=
  match fuel with
  | O => None
  | S fuel =>
      let l := Z.of_nat (length tickets) in
      if l =? 0 then Some (Ok matches)
      else
        let l := if maxTicketsPerNotFullMatch <? l then maxTicketsPerNotFullMatch else l in
        match setOpenSlots empty_backfill (ticketsPerMatch - l) with
        | Err err => Some (Err err)
        | Ok b =>
            if l <? 0 then Some (Err EPanic)
            else
              create_matches fuel profile ticketsPerMatch maxTicketsPerNotFullMatch (drop (Z.to_nat l) tickets)
                (matches ++ [newMatch profile (length matches) (take (Z.to_nat l) tickets) b true])
        end
  end.

Fixpoint statefull_pools (fuel : nat) (profile : string) (pools : list (string * list Backfill))
    (poolTickets : gmap string (list Ticket)) (ticketsPerMatch maxTicketsPerNotFullMatch : Z) (matches : list Match) :
    option (result (list Match)) :=
  match pools with
  | [] => Some (Ok matches)
  | (pool, backfills) :: pools =>
      match poolTickets !! pool with
      | None | Some [] =>
          statefull_pools fuel profile pools poolTickets ticketsPerMatch maxTicketsPerNotFullMatch matches
      | Some tickets =>
          match fill_backfills profile ticketsPerMatch backfills tickets matches with
          | Err err => Some (Err err)
          | Ok (matches, tickets) =>
              r ← create_matches fuel profile ticketsPerMatch maxTicketsPerNotFullMatch tickets matches;
              match r with
              | Err err => Some (Err err)
              | Ok matches =>
                  statefull_pools fuel profile pools poolTickets ticketsPerMatch maxTicketsPerNotFullMatch matches
              end
          end
      end
  end.

Definition statefullMMF (fuel : nat) (profile : string) (poolBackfills : gmap string (list Backfill))
    (poolTickets : gmap string (list Ticket)) (ticketsPerMatch maxTicketsPerNotFullMatch : Z) :
    option (result (list Match)) :=
  statefull_pools fuel profile (map_iter poolBackfills) poolTickets ticketsPerMatch maxTicketsPerNotFullMatch [].

Definition MatchFunction (fuel : nat) (profile : string) (poolBackfills : gmap string (list Backfill))
    (poolTickets : gmap string (list Ticket)) : option (result (list Match)) :=
  statefullMMF fuel profile poolBackfills poolTickets TicketsPerMatch MaxTicketsPerNotFullMatch.

(** [statelessMMF], which leaves the backfills as they are. *)
Fixpoint give_backfills (profile : string) (ticketsPerMatch : Z) (backfills : list Backfill) (tickets : list Ticket)
    (matches : list Match) : list Match :=
  match backfills with
  | [] => matches
  | b :: backfills =>
      let l := Z.of_nat (length tickets) in
      if l =? 0 then matches
      else
        let l := if (ticketsPerMatch <? l) && (0 <? ticketsPerMatch) then ticketsPerMatch else l in
        give_backfills profile ticketsPerMatch backfills (drop (Z.to_nat l) tickets)
          (matches ++ [newMatch profile (length matches) (take (Z.to_nat l) tickets) b false])
  end.

Definition statelessMMF (profile : string) (poolBackfills : gmap string (list Backfill))
    (poolTickets : gmap string (list Ticket)) (ticketsPerMatch : Z) : list Match :=
  foldl (fun matches '(pool, backfills) =>
    match poolTickets !! pool with
    | None | Some [] => matches
    | Some tickets => give_backfills profile ticketsPerMatch backfills tickets matches
    end) [] (map_iter poolBackfills).
End MMF.

(** *** The evaluator

    [m.Backfill.Id] is a nil dereference for a match without a backfill.
    Nothing is ever added to [backfills]. *)
Fixpoint evaluate_loop (received : list (option Match)) (tickets backfills : gset string) (matchIds : list string) :
    result (list string) :=
  match received with
  | [] => Ok matchIds
  | None :: _ => Err EPanic
  | Some m :: received =>
      match m_Backfill m with
      | None => Err EPanic
      | Some b =>
          if bool_decide (b_Id b ∈ backfills) then evaluate_loop received tickets backfills matchIds
          else if is_used tickets (m_Tickets m) then evaluate_loop received tickets backfills matchIds
          else evaluate_loop received (use tickets (m_Tickets m)) backfills (matchIds ++ [m_MatchId m])
      end
  end.

Definition Evaluate (received : list (option Match)) (recv_err : option error) (send_err : nat -> option error) :
    list string * result unit :=
  match evaluate_loop received ∅ ∅ [] with
  | Err err => ([], Err err)
  | Ok matchIds =>
      match recv_err with
      | Some err => ([], Err (EWrap "failed to read evaluator input stream" err))
      | None => send_ids "failed to sending evaluator output stream" matchIds send_err
      end
  end.
End BackfillScenario.

(** ** Serving a scenario

    [queryPoolsWrapper]: the outcome of the two queries of the profile's pools,
    the match function, and the stream. The connection is made on the first
    call. *)
Definition queryPoolsWrapper (mmf : gmap string (list Backfill) -> gmap string (list Ticket) -> option (result (list Match)))
    (poolTickets : result (gmap string (list Ticket))) (poolBackfills : result (gmap string (list Backfill)))
    (send : nat -> option error) : option (list Match * result unit) :=
  match poolTickets, poolBackfills with
  | Err err, _ => Some ([], Err err)
  | Ok _, Err err => Some ([], Err err)
  | Ok poolTickets, Ok poolBackfills => stream_result send <$> mmf poolBackfills poolTickets
  end.
