(* ===== verification/ScaleProps.v ===== *)
(** * What the scenarios of the load tests do *)
From S2P Require Export Scale MmfProps.
From S2P Require Import MemEnv.

(** ** The evaluators *)
Section Tracks.
Context {A : Type} (tickets : A -> list Ticket).
#[local] Abbreviation ids_of := (ids_of tickets).
#[local] Abbreviation shares := (shares tickets).

(** The set of ids used is that of the proposals kept. *)
Definition tracks (used : gset string) (acc : list A) : Prop :=
  forall t, t ∈ used <-> Exists (fun a => t ∈ ids_of a) acc.

Lemma tracks_nil : tracks ∅ [].
Proof. intros t. rewrite Exists_nil. set_solver. Qed.

Lemma elem_of_use used ts t : t ∈ use used ts <-> t ∈ t_Id <$> ts \/ t ∈ used.
Proof.
  revert used. induction ts as [|x ts IH]; intros used; cbn; [set_solver|]. rewrite IH. set_solver.
Qed.

Lemma tracks_use used acc x : tracks used acc -> tracks (use used (tickets x)) (acc ++ [x]).
Proof. unfold tracks. intros Ht t. rewrite elem_of_use, Ht, Exists_app, Exists_cons, Exists_nil. unfold ids_of at 2. tauto. Qed.

Lemma tracks_is_used used acc x : tracks used acc -> is_used used (tickets x) = bool_decide (Exists (shares x) acc).
Proof.
  unfold tracks. intros Ht. apply eq_true_iff_eq. rewrite bool_decide_eq_true. exact (existsb_shares tickets (fun t => t ∈ used) acc x Ht).
Qed.

(** What [accept] does, by the test the code makes. *)
Lemma accept_used used acc x : tracks used acc ->
  accept shares acc x = if is_used used (tickets x) then acc else acc ++ [x].
Proof. intros Ht. unfold accept. rewrite (tracks_is_used _ _ _ Ht). case_decide; by case_bool_decide. Qed.
End Tracks.

Lemma fifo_loop_greedy ms used acc : tracks m_Tickets used acc ->
  fifo_loop (Some <$> ms) used (m_MatchId <$> acc) = Ok (m_MatchId <$> foldl (accept (shares m_Tickets)) acc ms).
Proof.
  revert used acc. induction ms as [|m ms IH]; intros used acc Ht; cbn; [done|].
  rewrite (accept_used _ _ _ _ Ht). destruct (is_used _ _); [by apply IH|].
  rewrite <- (IH (use used (m_Tickets m)) (acc ++ [m])); [by rewrite fmap_app|by apply tracks_use].
Qed.

Lemma send_ids_ok text ids : send_ids text ids (fun _ => None) = (ids, Ok tt).
Proof. unfold send_ids. by rewrite harness_sent_all. Qed.

(** First come, first served: when the streams do not fail, the ids returned
    are those of a selection of the proposals, in the order received, of which
    no two share a ticket, and a proposal is left out only for one that came
    before it. When reading fails nothing is returned. *)
Lemma fifo_first_come ms :
  exists sel, fifo_Evaluate (Some <$> ms) None (fun _ => None) = (m_MatchId <$> sel, Ok tt) /\
    (forall err send_err, fifo_Evaluate (Some <$> ms) (Some err) send_err =
       ([], Err (EWrap "Error reading evaluator input stream" err))) /\
    sel `sublist_of` ms /\
    (forall i j x y, sel !! i = Some x -> sel !! j = Some y -> (i < j)%nat -> ~ shares m_Tickets y x) /\
    (forall i m, ms !! i = Some m -> m ∈ sel \/
       exists j a, (j < i)%nat /\ ms !! j = Some a /\ a ∈ sel /\ shares m_Tickets m a).
Proof.
  pose proof (fifo_loop_greedy ms ∅ [] (tracks_nil _)) as Hl. change (m_MatchId <$> []) with (@nil string) in Hl.
  exists (greedy (shares m_Tickets) ms). unfold fifo_Evaluate. rewrite Hl, send_ids_ok. split_and!; try done.
  - apply greedy_sublist.
  - apply greedy_disjoint.
  - apply greedy_maximal.
Qed.

(** *** By quality *)
Section TeamEvaluate.
Import TeamShooter.
Context `{DoubleAny} `{GoSort}.

(** The proposals with their qualities. *)
Definition unpacked (ms : list Match) (ps : list matchExt) : Prop :=
  Forall2 (fun m p => unpackMatch m = Ok p) ms ps.

Lemma unpack_all_ok ms ps acc : unpacked ms ps -> unpack_all (Some <$> ms) None acc = Ok (acc ++ ps).
Proof.
  intros Hu. revert acc. induction Hu as [|m p ms ps Hp Hu IH]; intros acc; cbn; [by rewrite app_nil_r|].
  by rewrite Hp, IH, <- app_assoc.
Qed.

Lemma select_loop_greedy ps used acc n : tracks me_tickets used acc ->
  exists ids, select_loop ps used n (fun _ => None) = (ids, Ok tt) /\
    me_id <$> foldl (accept (shares me_tickets)) acc ps = (me_id <$> acc) ++ ids.
Proof.
  revert used acc n. induction ps as [|p ps IH]; intros used acc n Ht; cbn.
  { exists []. by rewrite app_nil_r. }
  rewrite (accept_used _ _ _ _ Ht). destruct (is_used _ _); [by apply IH|].
  destruct (IH (use used (me_tickets p)) (acc ++ [p]) (S n)) as (ids & -> & ->); [by apply tracks_use|].
  exists (me_id p :: ids). split; [done|]. by rewrite fmap_app, <- app_assoc.
Qed.

(** The team shooter's evaluator selects by quality: no two selected matches
    share a ticket, they are returned in descending order of quality, and a
    proposal is left out only for a selected one of at least its quality. *)
Theorem team_evaluate_best ms ps (Hps : unpacked ms ps)
  (Hq : forall p, p ∈ ps -> is_nan (me_quality p) = false) :
  exists sel, TeamShooter.Evaluate (Some <$> ms) None (fun _ => None) = (me_id <$> sel, Ok tt) /\
    sel ⊆+ ps /\
    StronglySorted (fun x y => f_lt (me_quality x) (me_quality y) = false) sel /\
    (forall i j x y, sel !! i = Some x -> sel !! j = Some y -> (i < j)%nat -> ~ shares me_tickets y x) /\
    (forall p, p ∈ ps -> p ∈ sel \/
       Exists (fun a => shares me_tickets p a /\ f_lt (me_quality a) (me_quality p) = false) sel).
Proof.
  unfold TeamShooter.Evaluate. rewrite (unpack_all_ok ms ps [] Hps). cbn [app].
  pose proof (sort_perm higher ps) as Hp.
  assert (StronglySorted (fun x y => higher y x = false) (sort_Sort higher ps)) as Hs
    by (by apply sort_sorted, (higher_strict_weak me_quality)).
  destruct (select_loop_greedy (sort_Sort higher ps) ∅ [] 0 (tracks_nil _)) as (ids & -> & Hids).
  cbn [app fmap list_fmap] in Hids. set (l := sort_Sort higher ps) in *.
  exists (greedy (shares me_tickets) l). unfold greedy at 1. split_and!.
  - by rewrite Hids.
  - rewrite <- Hp. apply sublist_submseteq, greedy_sublist.
  - eapply StronglySorted_sublist, Hs. apply greedy_sublist.
  - apply greedy_disjoint.
  - intros p Hin. rewrite <- Hp in Hin. apply list_elem_of_lookup in Hin as [i Hi].
    destruct (greedy_maximal (shares me_tickets) _ _ _ Hi) as [?|(j & a & Hlt & Hj & Ha & Hx)]; [by left|].
    right. apply Exists_exists. exists a. split_and!; [done|done|].
    exact (StronglySorted_lookup_lt _ _ _ _ _ _ Hs Hj Hi Hlt).
Qed.
End TeamEvaluate.

(** ** The backfill scenario's match function *)
Section Statefull.
Import BackfillScenario.
Context `{Int32AnyLaws} `{MapOrder} (now : nat -> string).

Lemma wrap32_id z : - 2 ^ 31 <= z < 2 ^ 31 -> wrap32 z = z.
Proof. intros Hz. unfold wrap32. rewrite Z.mod_small by lia. lia. Qed.

Lemma scale_set_slots b z : - 2 ^ 31 <= z < 2 ^ 31 ->
  exists b', setOpenSlots b z = Ok b' /\ b_Id b' = b_Id b /\ forall d, getOpenSlots b' d = Ok z.
Proof.
  intros Hz. unfold setOpenSlots. rewrite (wrap32_id _ Hz). destruct (marshal_int32_ok z Hz) as [a Ha]. rewrite Ha.
  eexists. split; [done|]. split; [done|]. intros d. unfold getOpenSlots. cbn. rewrite lookup_insert_eq.
  by rewrite (unmarshal_marshal_int32 z a Ha).
Qed.

Definition scale_numbered (profile : string) (start : nat) (ms : list Match) : Prop :=
  forall j m, ms !! j = Some m -> m_MatchId m = scale_id now profile (start + j) /\ m_MatchProfile m = profile.

Lemma scale_numbered_nil profile start : scale_numbered profile start [].
Proof. intros j m. by rewrite lookup_nil. Qed.

Lemma scale_numbered_cons profile start m ms :
  m_MatchId m = scale_id now profile start -> m_MatchProfile m = profile -> scale_numbered profile (S start) ms ->
  scale_numbered profile start (m :: ms).
Proof.
  intros Hm Hp Hms [|j] m'; cbn; [intros [= <-]; by rewrite Nat.add_0_r|]. intros Hj. rewrite Nat.add_succ_r. by apply Hms.
Qed.

Lemma scale_numbered_app profile start ms1 ms2 :
  scale_numbered profile start ms1 -> scale_numbered profile (start + length ms1) ms2 ->
  scale_numbered profile start (ms1 ++ ms2).
Proof.
  intros Hn1 Hn2 j m [Hj|[Hlen Hj]]%lookup_app_Some; [by apply Hn1|]. destruct (Hn2 _ _ Hj) as [-> Hp]. split; [|done].
  by replace (start + length ms1 + (j - length ms1))%nat with (start + j)%nat by lia.
Qed.

(** The number makes the ids of one call distinct. *)
Lemma scale_numbered_distinct profile ms : scale_numbered profile 0 ms -> NoDup (m_MatchId <$> ms).
Proof.
  intros Hn. apply NoDup_alt. intros i j id Hi Hj. rewrite list_lookup_fmap in Hi, Hj.
  apply fmap_Some in Hi as (m1 & Hm1 & ->), Hj as (m2 & Hm2 & He).
  apply Hn in Hm1 as [Hid1 _], Hm2 as [Hid2 _]. rewrite Hid1, Hid2 in He. cbn [plus] in He. unfold scale_id in He.
  assert (forall now n, "profile-" +:+ profile +:+ "-time-" +:+ now +:+ "-" +:+ num n =
    ("profile-" +:+ profile +:+ "-time-" +:+ now) +:+ String "-" (num n)) as Hs.
  { intros t n. by rewrite !append_assoc. }
  rewrite !Hs in He. apply last_field, num_inj in He; [lia|apply num_no_dash..].
Qed.

Context (tpm max : Z).

Definition slots_readable (b : Backfill) : Prop := exists s, getOpenSlots b tpm = Ok s /\ - 2 ^ 31 <= s < 2 ^ 31.

(** A match that takes tickets into the open slots of a backfill. *)
Definition scale_fills (b : Backfill) (m : Match) : Prop :=
  exists slots b', getOpenSlots b tpm = Ok slots /\ m_Backfill m = Some b' /\ b_Id b' = b_Id b /\
    getOpenSlots b' tpm = Ok (slots - Z.of_nat (length (m_Tickets m))) /\
    0 < Z.of_nat (length (m_Tickets m)) <= slots /\ m_AllocateGameserver m = false.

(** A match with a new backfill for the players still missing. *)
Definition scale_opens (m : Match) : Prop :=
  exists b, m_Backfill m = Some b /\ b_Id b = "" /\
    getOpenSlots b tpm = Ok (tpm - Z.of_nat (length (m_Tickets m))) /\
    0 < Z.of_nat (length (m_Tickets m)) <= max /\ m_AllocateGameserver m = true.

Lemma fill_backfills_spec profile bs : forall tickets matches, Forall slots_readable bs ->
  exists new rest used, fill_backfills now profile tpm bs tickets matches = Ok (matches ++ new, rest) /\
    used `sublist_of` bs /\ Forall2 scale_fills used new /\ tickets = concat (m_Tickets <$> new) ++ rest /\
    scale_numbered profile (length matches) new.
Proof.
  induction bs as [|b bs IH]; intros tickets matches Hr; cbn [fill_backfills].
  { exists [], tickets, []. rewrite app_nil_r. split_and!; try done. }
  apply Forall_cons in Hr as [(s & Hs & Hrange) Hr].
  destruct (Z.eqb_spec (Z.of_nat (length tickets)) 0) as [Hz|Hz].
  { exists [], tickets, []. rewrite app_nil_r. split_and!; try done. apply sublist_nil_l. }
  rewrite Hs. cbn [result_bind]. destruct (Z.leb_spec s 0).
  { destruct (IH tickets matches Hr) as (new & rest & used & ? & ? & ? & ? & ?).
    exists new, rest, used. split_and!; try done. by apply sublist_cons. }
  set (l := if s <? _ then s else _). assert (0 < l <= s /\ l <= Z.of_nat (length tickets)) as Hl
    by (unfold l; destruct (Z.ltb_spec s (Z.of_nat (length tickets))); lia).
  destruct (scale_set_slots b (s - l)) as (b' & -> & Hid & Hslots); [lia|]. cbn [result_bind].
  set (m := newMatch _ _ _ _ _ _). assert (Z.of_nat (length (m_Tickets m)) = l) as Hlen by (cbn; rewrite length_take; lia).
  destruct (IH (drop (Z.to_nat l) tickets) (matches ++ [m]) Hr) as (new & rest & used & -> & Hsub & Hf & Ht & Hn).
  exists (m :: new), rest, (b :: used). rewrite <- app_assoc. split_and!; [done|by apply sublist_skip| | |].
  - constructor; [|done]. exists s, b'. rewrite Hlen. split_and!; [done|done|done|by rewrite Hslots|lia|lia|done].
  - change (m_Tickets <$> m :: new) with (take (Z.to_nat l) tickets :: (m_Tickets <$> new)). cbn [concat].
    rewrite <- app_assoc, <- Ht. symmetry. apply take_drop.
  - apply scale_numbered_cons; [done..|]. rewrite length_app in Hn. cbn in Hn. by rewrite Nat.add_1_r in Hn.
Qed.

Context (Hmax : 0 < max) (Hmt : max <= tpm) (Htpm : tpm < 2 ^ 31).

Lemma create_matches_spec profile fuel : forall tickets matches, (length tickets < fuel)%nat ->
  exists new, create_matches now fuel profile tpm max tickets matches = Some (Ok (matches ++ new)) /\
    Forall scale_opens new /\ tickets = concat (m_Tickets <$> new) /\ scale_numbered profile (length matches) new.
Proof.
  induction fuel as [|fuel IH]; intros tickets matches Hf; [lia|]. cbn [create_matches].
  destruct (Z.eqb_spec (Z.of_nat (length tickets)) 0) as [Hz|Hz].
  { exists []. rewrite app_nil_r. destruct tickets; [by split_and!|cbn in Hz; lia]. }
  set (l := if max <? _ then max else _). assert (0 < l <= max /\ l <= Z.of_nat (length tickets)) as Hl
    by (unfold l; destruct (Z.ltb_spec max (Z.of_nat (length tickets))); lia).
  destruct (scale_set_slots empty_backfill (tpm - l)) as (b' & -> & Hid & Hslots); [lia|].
  destruct (Z.ltb_spec l 0); [lia|]. set (m := newMatch _ _ _ _ _ _).
  assert (Z.of_nat (length (m_Tickets m)) = l) as Hlen by (cbn; rewrite length_take; lia).
  destruct (IH (drop (Z.to_nat l) tickets) (matches ++ [m])) as (new & -> & Hop & Ht & Hn); [rewrite length_drop; lia|].
  exists (m :: new). rewrite <- app_assoc. split_and!; [done| | |].
  - constructor; [|done]. exists b'. rewrite Hlen. split_and!; [done|by rewrite Hid|by rewrite Hslots|lia|lia|done].
  - change (m_Tickets <$> m :: new) with (take (Z.to_nat l) tickets :: (m_Tickets <$> new)). cbn [concat].
    rewrite <- Ht. symmetry. apply take_drop.
  - apply scale_numbered_cons; [done..|]. rewrite length_app in Hn. cbn in Hn. by rewrite Nat.add_1_r in Hn.
Qed.

(** The backfills of a pool first, then new ones. *)
Definition scale_pool_match (bs : list Backfill) (m : Match) : Prop :=
  (exists b, b ∈ bs /\ scale_fills b m) \/ scale_opens m.

Lemma statefull_pools_spec profile poolTickets fuel pools : forall matches,
  (forall pool ts, poolTickets !! pool = Some ts -> (length ts < fuel)%nat) ->
  Forall (fun '(_, bs) => Forall slots_readable bs) pools ->
  exists new, statefull_pools now fuel profile pools poolTickets tpm max matches = Some (Ok (matches ++ new)) /\
    Forall (scale_pool_match (concat pools.*2)) new /\
    concat (m_Tickets <$> new) = concat ((fun pool => default [] (poolTickets !! pool)) <$> pools.*1) /\
    scale_numbered profile (length matches) new.
Proof.
  intros matches Hfuel. revert matches. induction pools as [|[pool bs] pools IH]; intros matches Hr; cbn [statefull_pools].
  { exists []. rewrite app_nil_r. by split_and!. }
  apply Forall_cons in Hr as [Hb Hr].
  assert (forall bs' m, scale_pool_match bs' m -> bs' ⊆ concat ((pool, bs) :: pools).*2 ->
    scale_pool_match (concat ((pool, bs) :: pools).*2) m) as Hmono.
  { intros bs' m [(b & Hin & Hf)|Ho] Hsub; [left; exists b; split; [by apply Hsub|done]|by right]. }
  destruct (poolTickets !! pool) as [[|t ts]|] eqn:Hp.
  2: { set (tickets := t :: ts) in *.
    destruct (fill_backfills_spec profile bs tickets matches Hb) as (new1 & rest & used & -> & Hsub & Hf & Ht & Hn1).
    destruct (create_matches_spec profile fuel rest (matches ++ new1)) as (new2 & -> & Ho & Hrest & Hn2).
    { apply Hfuel in Hp. rewrite Ht, length_app in Hp. lia. }
    cbn [mbind option_bind]. destruct (IH ((matches ++ new1) ++ new2) Hr) as (new3 & -> & Hm & Hc & Hn3).
    exists (new1 ++ new2 ++ new3). rewrite !app_assoc. split; [done|]. rewrite <- !app_assoc. split_and!.
    - rewrite !Forall_app. split_and!.
      + apply Forall_forall. intros m (i & Hi)%list_elem_of_lookup. destruct (Forall2_lookup_r _ _ _ _ _ Hf Hi) as (b & Hbi & Hbm).
        left. exists b. split; [|done]. cbn. apply elem_of_app. left. eapply elem_of_sublist, Hsub. by eapply list_elem_of_lookup_2.
      + eapply Forall_impl; [exact Ho|]. intros m. by right.
      + eapply Forall_impl; [exact Hm|]. intros m ?. eapply Hmono; [done|]. cbn. set_solver.
    - rewrite !fmap_app, !concat_app, Hc, <- Hrest, app_assoc, <- Ht. cbn [fmap list_fmap fst concat]. by rewrite Hp.
    - apply scale_numbered_app; [done|]. rewrite <- length_app. apply scale_numbered_app; [done|].
      rewrite <- length_app. done. }
  all: destruct (IH matches Hr) as (new & -> & Hm & Hc & Hn); exists new;
    (split_and!; [done| |cbn; by rewrite Hp|done]; eapply Forall_impl; [exact Hm|]; intros m ?; eapply Hmono; [done|]; cbn; set_solver).
Qed.
End Statefull.

(** Everybody is in a match that can be filled. For backfills whose open slots
    can be read and less than [ticketsPerMatch] tickets for a match that is not
    full, the match function ends: the tickets of its matches are, in order,
    the tickets of the pools whose backfills were read, each once; a match
    either takes tickets into the open slots of a backfill of a pool and leaves
    it the slots that remain, or opens a backfill with the slots its own
    tickets leave and asks for a game server; and no two matches have the same
    id, whatever the clock says. *)
Theorem statefull_matches `{Int32AnyLaws} `{MapOrder} now profile poolBackfills poolTickets tpm max fuel
  (Hmax : 0 < max) (Hmt : max <= tpm) (Htpm : tpm < 2 ^ 31)
  (Hb : forall pool bs, poolBackfills !! pool = Some bs -> Forall (slots_readable tpm) bs)
  (Hfuel : forall pool ts, poolTickets !! pool = Some ts -> (length ts < fuel)%nat) :
  exists ms, BackfillScenario.statefullMMF now fuel profile poolBackfills poolTickets tpm max = Some (Ok ms) /\
    concat (m_Tickets <$> ms) = concat ((fun pool => default [] (poolTickets !! pool)) <$> (map_iter poolBackfills).*1) /\
    Forall (fun m => (exists pool bs b, poolBackfills !! pool = Some bs /\ b ∈ bs /\ scale_fills tpm b m) \/
                     scale_opens tpm max m) ms /\
    NoDup (m_MatchId <$> ms).
Proof.
  destruct (statefull_pools_spec now tpm max Hmax Hmt Htpm profile poolTickets fuel (map_iter poolBackfills) [] Hfuel)
    as (ms & He & Hm & Hc & Hn).
  { apply Forall_forall. intros [pool bs] Hin%elem_of_map_iter. eauto. }
  exists ms. split_and!; [exact He|exact Hc| |by eapply scale_numbered_distinct].
  eapply Forall_impl; [exact Hm|]. intros m [(b & Hin & Hf)|Ho]; [left|by right].
  apply elem_of_concat in Hin as (bs & ([pool bs'] & -> & Hp)%list_elem_of_fmap & Hin).
  apply elem_of_map_iter in Hp. by exists pool, bs', b.
Qed.

(** ** Tickets and profiles *)
Section ScaleProfiles.
Context `{Proto}.

Lemma region_name_inj i j : BattleRoyal.battleRoyalRegionName i = BattleRoyal.battleRoyalRegionName j -> i = j.
Proof. unfold BattleRoyal.battleRoyalRegionName. intros [= Hn]. by apply num_inj. Qed.

(** A battle royal ticket is in the pool of its region's profile and in no
    other. *)
Lemma battle_royal_one_profile r i id create mp pool :
  (r < BattleRoyal.regions)%nat -> BattleRoyal.Profiles !! i = Some mp -> mp_Pools mp = [pool] ->
  in_pool pool (set_ticket_create_time create (set_ticket_id id (BattleRoyal.Ticket_ r))) <-> i = r.
Proof.
  intros Hr Hi Hpool. unfold BattleRoyal.Profiles in Hi. rewrite list_lookup_fmap in Hi.
  apply fmap_Some in Hi as (k & Hk & ->). apply lookup_seq in Hk as [-> Hk]. cbn in Hpool. injection Hpool as <-.
  rewrite in_pool_fields. unfold fields, string_equals_match. cbn.
  change BattleRoyal.regionArg with "region". rewrite lookup_insert_eq, !andb_true_r.
  rewrite bool_decide_eq_true. split; [apply region_name_inj|by intros ->].
Qed.

(** Clamping keeps a double in bounds. *)
Lemma clamp_bounds v lo hi : is_nan v = false -> is_nan lo = false -> is_nan hi = false -> f_le lo hi = true ->
  let c := TeamShooter.clamp v lo hi in
  is_nan c = false /\ f_le lo c = true /\ f_le c hi = true.
Proof.
  intros Hv Hlo Hhi Hle. unfold TeamShooter.clamp, f_gt. fold (f_lt hi v). pose proof (f_le_total lo v Hlo Hv).
  pose proof (f_le_total v hi Hv Hhi). assert (f_le lo lo = true /\ f_le hi hi = true) as [? ?].
  { split; apply f_le_key; try done; [destruct (score_key lo) as [[]]|destruct (score_key hi) as [[]]]; cbn; lia. }
  destruct (f_lt v lo) eqn:Hvl; cbn; [done|]. destruct (f_lt hi v) eqn:Hvh; cbn; [done|]. naive_solver.
Qed.

(** A team shooter ticket, for any draw, is in the pool of some profile. *)
Lemma team_ticket_in_profile `{MapOrder} fmt_float region numRegions norm mode id create :
  let t := TeamShooter.Scenario in
  (region < length (TeamShooter.regions t))%nat -> (1 <= numRegions <= TeamShooter.maxRegions t)%nat ->
  is_nan norm = false -> mode ∈ TeamShooter.modes t ->
  exists mp pool, mp ∈ TeamShooter.Profiles fmt_float t /\ mp_Pools mp = [pool] /\
    in_pool pool (set_ticket_create_time create (set_ticket_id id (TeamShooter.Ticket_ t region numRegions norm mode))).
Proof.
  intros t Hr Hn Hnan Hmode. cbn in Hr, Hn. assert (numRegions = 1%nat) as -> by lia.
  destruct (lookup_lt_is_Some_2 (TeamShooter.regions t) region Hr) as [name Hname].
  set (skill := TeamShooter.clamp norm (f_int (-3)) (f_int 3)).
  destruct (clamp_bounds norm (f_int (-3)) (f_int 3)) as (Hs & Hlo & Hhi); try done.
  set (half := f_div TeamShooter.f_hundredth (f_int 2)).
  assert (exists lo hi, (lo, hi) ∈ TeamShooter.boundary_pairs (TeamShooter.skillBoundaries t) /\
    f_le (f_sub lo half) skill = true /\ f_le skill (f_add hi half) = true) as (lo & hi & Hb & Hge & Hle).
  { destruct (f_le_total skill (f_add (f_int 0) half)) as [Hc|Hc]; [done|vm_compute; reflexivity| |].
    - exists f_neg_inf, (f_int 0). split_and!; [left| |done]. by apply (f_le_trans _ (f_int (-3))).
    - exists (f_int 0), f_inf. split_and!; [right; left| |by apply (f_le_trans _ (f_int 3))].
      apply (f_le_trans _ (f_add (f_int 0) half)); try done. by apply f_lt_le. }
  exists (TeamShooter.profile fmt_float t name mode lo hi). eexists. split; [|split; [reflexivity|]].
  - unfold TeamShooter.Profiles. apply list_elem_of_bind. exists name. split; [|by eapply list_elem_of_lookup_2].
    apply list_elem_of_bind. exists mode. split; [|exact Hmode].
    apply list_elem_of_bind. exists (lo, hi). split; [by left|exact Hb].
  - rewrite in_pool_fields. change (fields _) with
      (mkSearchFields {[TeamShooter.skillArg := skill]} {[TeamShooter.modeArg := mode]} (TeamShooter.region_tags t 1 region)).
    unfold double_range_match, string_equals_match, tag_present_match.
    cbn [forallb sf_DoubleArgs sf_StringArgs sf_Tags drf_DoubleArg drf_Exclude drf_Min drf_Max sef_StringArg sef_Value
         tpf_Tag TeamShooter.region_tags existsb].
    rewrite !lookup_singleton_eq, Hname. cbn [default].
    change (f_ge skill _) with (f_le (f_sub lo half) skill). change (f_add hi _) with (f_add hi half).
    rewrite Hge, Hle, !bool_decide_eq_true_2 by done. done.
Qed.
End ScaleProfiles.

(** ** Matches of a fixed size

    First match and battle royal cut the pool into matches of two and of a
    hundred, in order. *)
Section Chunks.
Context (k : nat) (Hk : (0 < k)%nat) (mk : nat -> list Ticket -> Match) (Hmk : forall n ts, m_Tickets (mk n ts) = ts).

Fixpoint chunk_loop (fuel : nat) (tickets : list Ticket) (i : nat) (matches : list Match) : option (list Match) :=
  if (i + k <=? length tickets)%nat then
    match fuel with
    | O => None
    | S fuel => chunk_loop fuel tickets (i + k) (matches ++ [mk (length matches) (slice i (i + k) tickets)])
    end
  else Some matches.

Lemma chunk_loop_spec fuel : forall tickets i matches, (length tickets - i <= fuel)%nat ->
  exists new rest, chunk_loop fuel tickets i matches = Some (matches ++ new) /\
    Forall (fun m => length (m_Tickets m) = k) new /\ drop i tickets = concat (m_Tickets <$> new) ++ rest /\
    (length rest < k)%nat /\ forall j m, new !! j = Some m -> exists ts, m = mk (length matches + j)%nat ts.
Proof.
  induction fuel as [|fuel IH]; intros tickets i matches Hf; cbn [chunk_loop];
    destruct (Nat.leb_spec (i + k) (length tickets)) as [Hle|Hlt]; try lia.
  1,3: exists [], (drop i tickets); rewrite app_nil_r, length_drop; split_and!; [done..|lia|done].
  set (m := mk _ _). destruct (IH tickets (i + k)%nat (matches ++ [m])) as (new & rest & -> & Hl & Hc & Hr & Hn); [lia|].
  exists (m :: new), rest. rewrite <- app_assoc. split_and!; [done| | |done|].
  - constructor; [|done]. unfold m, slice. rewrite Hmk, length_take, length_drop. lia.
  - cbn. unfold m at 1. rewrite Hmk, <- app_assoc, <- Hc. unfold slice. rewrite <- drop_drop.
    replace (i + k - i)%nat with k by lia. symmetry. apply take_drop.
  - intros [|j] m'; cbn; [intros [= <-]; rewrite Nat.add_0_r; by eexists|]. intros Hj.
    destruct (Hn j m' Hj) as [ts ->]. exists ts. f_equal. rewrite length_app. cbn. lia.
Qed.
End Chunks.

(** What the two loops have in common. *)
Definition first_match (now : nat -> string) (profile : string) (n : nat) (ts : list Ticket) : Match :=
  mkMatch (scale_id now profile n) profile "rangeExpandingMatchFunction" ts ∅ None false.
Definition royal_match (now : nat -> string) (profile : string) (n : nat) (ts : list Ticket) : Match :=
  mkMatch (scale_id now profile n) profile "battleRoyal" ts ∅ None false.

Lemma slice_two {A} (l : list A) i : (i + 1 < length l)%nat -> omap (fun j => l !! j) [i; i + 1]%nat = slice i (i + 2) l.
Proof.
  intros Hi. destruct (lookup_lt_is_Some_2 l i) as [x Hx]; [lia|]. destruct (lookup_lt_is_Some_2 l (i + 1)) as [y Hy]; [lia|].
  cbn. rewrite Hx, Hy. unfold slice. replace (i + 2 - i)%nat with 2%nat by lia.
  rewrite (drop_S _ _ _ Hx). rewrite Nat.add_1_r in Hy. by rewrite (drop_S _ _ _ Hy).
Qed.

Lemma first_loop_chunks now profile fuel tickets i matches :
  FirstMatch.match_loop now fuel profile tickets i matches = chunk_loop 2 (first_match now profile) fuel tickets i matches.
Proof.
  revert i matches. induction fuel as [|fuel IH]; intros i matches; cbn [FirstMatch.match_loop chunk_loop];
    destruct (Nat.ltb_spec (i + 1) (length tickets)), (Nat.leb_spec (i + 2) (length tickets)); try lia; try done.
  by rewrite IH, slice_two.
Qed.

Lemma royal_loop_chunks now profile fuel tickets i matches :
  BattleRoyal.match_loop now fuel profile tickets i matches =
    chunk_loop BattleRoyal.playersInMatch (royal_match now profile) fuel tickets i matches.
Proof. revert i matches. induction fuel as [|fuel IH]; intros i matches; cbn [BattleRoyal.match_loop chunk_loop]; [done|]. by rewrite IH. Qed.

(** The matches are full and hold the tickets of the pool in order, but for a
    remainder too small for a match; their ids are distinct. *)
Definition cut_into (k : nat) (tickets : list Ticket) (ms : list Match) : Prop :=
  Forall (fun m => length (m_Tickets m) = k) ms /\ NoDup (m_MatchId <$> ms) /\
  exists rest, tickets = concat (m_Tickets <$> ms) ++ rest /\ (length rest < k)%nat.

Lemma chunk_loop_cut now profile k mk tickets : (0 < k)%nat ->
  (forall n ts, m_Tickets (mk n ts) = ts /\ m_MatchId (mk n ts) = scale_id now profile n /\ m_MatchProfile (mk n ts) = profile) ->
  exists ms, chunk_loop k mk (length tickets) tickets 0 [] = Some ms /\ cut_into k tickets ms.
Proof.
  intros Hk Hmk. destruct (chunk_loop_spec k Hk mk (fun n ts => proj1 (Hmk n ts)) (length tickets) tickets 0 [])
    as (ms & rest & He & Hl & Hc & Hr & Hn); [lia|]. exists ms. split; [done|]. split_and!; [done| |eauto].
  apply (scale_numbered_distinct now profile). intros j m Hj. destruct (Hn j m Hj) as [ts ->].
  destruct (Hmk (length (@nil Match) + j)%nat ts) as (_ & -> & ->). done.
Qed.

Lemma first_match_cuts now profile poolTickets :
  exists ms, FirstMatch.MatchFunction now profile poolTickets = Some ms /\
    cut_into 2 (default [] (poolTickets !! all_poolName)) ms.
Proof. unfold FirstMatch.MatchFunction. rewrite first_loop_chunks. by apply (chunk_loop_cut now profile); [lia|]. Qed.

Lemma battle_royal_cuts now profile poolTickets :
  exists ms, BattleRoyal.MatchFunction now profile poolTickets = Some ms /\
    cut_into 100 (default [] (poolTickets !! all_poolName)) ms.
Proof. unfold BattleRoyal.MatchFunction. rewrite royal_loop_chunks. by apply (chunk_loop_cut now profile); [lia|]. Qed.

(** ** Matches by skill *)
Section TeamMatches.
Import TeamShooter.
Context `{DoubleAnyLaws} `{GoSort} (now : nat -> string) (t : TeamShooterScenario) (profile : string).
Let p := playersPerGame t.
Context (Hp : (0 < p)%nat).

(** The skill of the first and last of a group are close enough. *)
Definition close (mt : list Ticket) : bool :=
  match head mt, last mt with
  | Some a, Some z => f_lt (f_sub (skill_of z) (skill_of a)) (maxSkillDifference t)
  | _, _ => false
  end.

(** The groups of tickets that follow each other, from the [i]-th on. *)
Definition windows (i : nat) (tickets : list Ticket) : list (list Ticket) :=
  (fun j => slice j (j + p) tickets) <$> seq i (S (length tickets) - p - i).

Lemma length_window i (tickets : list Ticket) : (i + p <= length tickets)%nat -> length (slice i (i + p) tickets) = p.
Proof. intros Hi. unfold slice. rewrite length_take, length_drop. lia. Qed.

Lemma head_last_nonempty {A} (l : list A) : l <> [] -> exists a z, head l = Some a /\ last l = Some z /\ a ∈ l /\ z ∈ l.
Proof.
  intros Hl. destruct l as [|a l]; [done|]. destruct (last (a :: l)) as [z|] eqn:Hz; [|by apply last_None in Hz].
  exists a, z. split_and!; try done; [by left|]. apply last_Some in Hz as [l' ->]. set_solver.
Qed.

Lemma elem_of_slice {A} i j (l : list A) x : x ∈ slice i j l -> x ∈ l.
Proof. unfold slice. intros Hx. rewrite <- (take_drop i l). apply elem_of_app. right.
  rewrite <- (take_drop (j - i) (drop i l)). apply elem_of_app. by left.
Qed.

(** A match of a group carries its quality. *)
Definition team_match (m : Match) (mt : list Ticket) : Prop :=
  m_Tickets m = mt /\ unpackMatch m = Ok (mkMatchExt (m_MatchId m) mt (quality mt) profile "skillmatcher").

Lemma pack_team_match n mt : exists m,
  pack (mkMatchExt (scale_id now profile n) mt (quality mt) profile "skillmatcher") = Ok m /\
  team_match m mt /\ m_MatchId m = scale_id now profile n /\ m_MatchProfile m = profile.
Proof.
  unfold pack. cbn. destruct (marshal_double_ok (quality mt)) as [a Ha]. rewrite Ha. eexists. split; [done|].
  split; [|done]. split; [done|]. unfold unpackMatch. cbn [m_Extensions]. rewrite lookup_singleton_eq. cbn.
  by rewrite (unmarshal_marshal_double _ _ Ha).
Qed.

Lemma team_loop_spec fuel tickets : forall i matches,
  Forall (fun x => is_Some (skill x)) tickets -> (length tickets - i < fuel)%nat ->
  exists new, match_loop now t fuel profile tickets i matches = Some (Ok (matches ++ new)) /\
    Forall2 team_match new (List.filter close (windows i tickets)) /\
    scale_numbered now profile (length matches) new.
Proof.
  induction fuel as [|fuel IH]; intros i matches Hs Hf; [lia|]. cbn [match_loop]. fold p. unfold windows.
  destruct (Nat.leb_spec (i + p) (length tickets)) as [Hle|Hlt].
  2: { exists []. rewrite app_nil_r. replace (S (length tickets) - p - i)%nat with 0%nat by lia. by split_and!. }
  replace (S (length tickets) - p - i)%nat with (S (S (length tickets) - p - S i)) by lia. cbn [seq fmap list_fmap List.filter].
  pose proof (length_window i tickets Hle) as Hlen. set (mt := slice i (i + p) tickets) in *.
  destruct (head_last_nonempty mt) as (a & z & Ha & Hz & Hia & Hiz); [intros Hn; rewrite Hn in Hlen; cbn in Hlen; lia|].
  rewrite Forall_forall in Hs. destruct (Hs a (elem_of_slice _ _ _ _ Hia)) as [fa Hfa].
  destruct (Hs z (elem_of_slice _ _ _ _ Hiz)) as [fz Hfz]. rewrite <- Forall_forall in Hs.
  rewrite Hz, Ha, Hfz, Hfa. unfold close at 1. rewrite Ha, Hz. destruct (f_lt _ _).
  - destruct (pack_team_match (length matches) mt) as (m & -> & Hm & Hid & Hpr).
    destruct (IH (S i) (matches ++ [m]) Hs) as (new & -> & Hall & Hn); [lia|].
    exists (m :: new). rewrite <- app_assoc. split_and!; [done|by constructor|].
    apply scale_numbered_cons; [done..|]. rewrite length_app in Hn. cbn in Hn. by rewrite Nat.add_1_r in Hn.
  - apply (IH (S i) matches Hs). lia.
Qed.

(** The team shooter's match function proposes every group of
    [playersPerGame] tickets that are next to each other by skill and close
    enough, in order of skill, each with its quality, which the evaluator reads
    back; the ids are distinct. It does not fail when every ticket has search
    fields, which tickets of its pools do. *)
Lemma team_matches poolTickets :
  let tickets := default [] (poolTickets !! all_poolName) in
  Forall (fun x => is_Some (t_SearchFields x)) tickets ->
  exists sorted ms, sorted ≡ₚ tickets /\
    ((forall x, x ∈ tickets -> is_nan (skill_of x) = false) ->
     StronglySorted (fun x y => f_lt (skill_of y) (skill_of x) = false) sorted) /\
    TeamShooter.MatchFunction now t profile poolTickets = Some (Ok ms) /\
    Forall2 team_match ms (List.filter close (windows 0 sorted)) /\ NoDup (m_MatchId <$> ms).
Proof.
  intros tickets Hs. set (less := fun x y => f_lt (skill_of x) (skill_of y)).
  assert (forall x, is_Some (t_SearchFields x) -> is_Some (skill x)) as Hskill by (intros x [sf Hx]; unfold skill; rewrite Hx; eauto).
  pose proof (sort_perm less tickets) as Hperm.
  destruct (team_loop_spec (S (length (sort_Sort less tickets))) (sort_Sort less tickets) 0 []) as (ms & He & Hall & Hn);
    [rewrite Hperm; eapply Forall_impl; eauto|lia|].
  exists (sort_Sort less tickets), ms. split_and!; [done| | |done|by eapply scale_numbered_distinct].
  - intros Hnan. by apply sort_sorted, score_strict_weak.
  - unfold MatchFunction. fold tickets. replace (existsb _ tickets) with false; [by rewrite andb_false_r|].
    symmetry. apply not_true_iff_false. rewrite existsb_exists. intros (x & Hx & Hnone%bool_decide_eq_true).
    rewrite Forall_forall in Hs. destruct (Hskill x (Hs x ltac:(by apply list_elem_of_In))). congruence.
Qed.
End TeamMatches.

(** ** What the backfill scenario's evaluator lets through *)

(** Backfills are looked up but never recorded: two matches for one backfill
    are both accepted. *)
Lemma scale_backfill_accepted_twice id1 id2 t1 t2 b : t_Id t1 <> t_Id t2 ->
  let m id t := mkMatch id "" "" [t] ∅ (Some b) false in
  BackfillScenario.Evaluate (Some <$> [m id1 t1; m id2 t2]) None (fun _ => None) = ([id1; id2], Ok tt).
Proof.
  intros Hne m. assert (is_used ∅ [t1] = false /\ is_used (use ∅ [t1]) [t2] = false) as [H1 H2].
  { unfold is_used. cbn [existsb]. rewrite !bool_decide_eq_false_2; [done|rewrite elem_of_use; cbn; set_solver|set_solver]. }
  unfold BackfillScenario.Evaluate. cbn [fmap list_fmap m BackfillScenario.evaluate_loop m_Backfill m_Tickets].
  rewrite (bool_decide_eq_false_2 (b_Id b ∈ ∅)) by set_solver. rewrite H1, H2. apply send_ids_ok.
Qed.

(** A proposal without a backfill crashes it. *)
Lemma scale_backfill_nil received m send_err : m_Backfill m = None ->
  (exists e, BackfillScenario.Evaluate (Some m :: received) None send_err = ([], Err e) /\ e = EPanic).
Proof. intros Hm. exists EPanic. split; [|done]. unfold BackfillScenario.Evaluate. cbn. by rewrite Hm. Qed.

(** ** Examples *)
Section ScaleExamples.
#[local] Existing Instance demo_int32.
#[local] Existing Instance demo_int32_laws.
#[local] Existing Instance insertion_go_sort.

(** Qualities written as decimals. *)
#[local] Instance demo_double : TeamShooter.DoubleAny := {|
  TeamShooter.MarshalDouble _ := None;
  TeamShooter.UnmarshalDouble a := f_int <$> atoi (any_value a);
|}.

Definition rated (id q : string) (tids : list string) : Match :=
  mkMatch id "p" "skillmatcher" (player <$> tids) {["quality" := mkAny "DoubleValue" q]} None false.

Lemma team_evaluate_best_witness :
  let ms := [rated "a" "-9" ["t1"; "t2"]; rated "b" "-1" ["t2"; "t3"]; rated "c" "-4" ["t4"]] in
  exists sel, TeamShooter.Evaluate (Some <$> ms) None (fun _ => None) = (TeamShooter.me_id <$> sel, Ok tt) /\
    TeamShooter.Evaluate (Some <$> ms) None (fun _ => None) = (["b"; "c"], Ok tt).
Proof.
  intros ms. destruct (team_evaluate_best ms
    [TeamShooter.mkMatchExt "a" (player <$> ["t1"; "t2"]) (f_int (-9)) "p" "skillmatcher";
     TeamShooter.mkMatchExt "b" (player <$> ["t2"; "t3"]) (f_int (-1)) "p" "skillmatcher";
     TeamShooter.mkMatchExt "c" (player <$> ["t4"]) (f_int (-4)) "p" "skillmatcher"]) as (sel & He & _).
  - repeat constructor.
  - intros p Hp. repeat (apply elem_of_cons in Hp as [->|Hp]; [reflexivity|]). destruct (proj1 (elem_of_nil _) Hp).
  - exists sel. split; [exact He|]. vm_compute. reflexivity.
Defined.

(** Five tickets: one takes the last slot of a backfill, and there are matches
    of three and of one with new backfills. *)
Lemma statefull_matches_witness :
  let tickets := player <$> ["a"; "b"; "c"; "d"; "e"] in
  exists ms, BackfillScenario.statefullMMF noon 6 "p" {[all_poolName := [one_slot]]} {[all_poolName := tickets]} 4 3 = Some (Ok ms) /\
    concat (m_Tickets <$> ms) = tickets.
Proof.
  intros tickets.
  destruct (statefull_matches noon "p" {[all_poolName := [one_slot]]} {[all_poolName := tickets]} 4 3 6)
    as (ms & He & Hc & _); [lia|lia|lia| | |].
  - intros pool bs [_ <-]%lookup_singleton_Some. constructor; [|constructor]. exists 1. split; [vm_compute; reflexivity|lia].
  - intros pool ts [_ <-]%lookup_singleton_Some. cbn. lia.
  - exists ms. split; [exact He|]. rewrite Hc. vm_compute. reflexivity.
Defined.
End ScaleExamples.
