(* ===== verification/Demo.v ===== *)
(** * The demo ([examples/demo])

    The latest value that many browsers watch ([bytesub]) and the JSON object
    its parts update ([updater]). *)
From S2P Require Export Prelude.

(** ** [bytesub]

    Channels are numbered as they are made: a channel of an earlier number
    than the current [nextReady] is closed. *)
Module ByteSub.
Section ByteSub.
Context {A : Type}.

Definition partialWriteError : error := EPlain "ByteSub subscriber didn't consume the whole message.".

(** What [Subscribe] is doing: in its select on a channel ([None] is the closed
    channel it starts with), in [w.Write] with the channel for the next turn,
    or returned. [w] is everything its writer consumed. *)
Inductive sub_phase :=
| Selecting (nextReady : option nat)
| Writing (b : A) (nextReady : nat)
| Returned (err : error).

Record subscriber := mkSub { s_phase : sub_phase; w : list A }.

(** History: everything announced, nil values left out; they are not written. *)
Record ByteSub := mkByteSub {
  nextReady : nat;
  b : option A;
  subs : gmap nat subscriber;
  announced : list (option A);
}.

Definition New : ByteSub := mkByteSub 0 None ∅ [].

Definition AnnounceLatest (v : option A) (s : ByteSub) : ByteSub :=
  mkByteSub (S (nextReady s)) v (subs s) (announced s ++ [v]).

Definition Subscribe_start (k : nat) (s : ByteSub) : ByteSub :=
  mkByteSub (nextReady s) (b s) (<[k := mkSub (Selecting None) []]> (subs s)) (announced s).

Definition set_sub (k : nat) (u : subscriber) (s : ByteSub) : ByteSub :=
  mkByteSub (nextReady s) (b s) (<[k := u]> (subs s)) (announced s).

Definition closed (c : option nat) (s : ByteSub) : bool :=
  match c with None => true | Some n => (n <? nextReady s)%nat end.

(** [case <-nextReady]: the value and the channel are read under one lock. *)
Definition Subscribe_wake (u : subscriber) (s : ByteSub) : subscriber :=
  match b s with
  | Some v => mkSub (Writing v (nextReady s)) (w u)
  | None => mkSub (Selecting (Some (nextReady s))) (w u)
  end.

(** How a write ends. *)
Inductive write_outcome := Consumed | Partial | WriteError (err : error).

Definition Subscribe_wrote (v : A) (n : nat) (o : write_outcome) (u : subscriber) : subscriber :=
  match o with
  | Consumed => mkSub (Selecting (Some n)) (w u ++ [v])
  | Partial => mkSub (Returned partialWriteError) (w u)
  | WriteError err => mkSub (Returned err) (w u)
  end.

Inductive step (s : ByteSub) : ByteSub -> Prop :=
| step_announce v : step s (AnnounceLatest v s)
| step_subscribe k : subs s !! k = None -> step s (Subscribe_start k s)
| step_done k u c err : subs s !! k = Some u -> s_phase u = Selecting c ->
    step s (set_sub k (mkSub (Returned err) (w u)) s)
| step_wake k u c : subs s !! k = Some u -> s_phase u = Selecting c -> closed c s = true ->
    step s (set_sub k (Subscribe_wake u s) s)
| step_write k u v n o : subs s !! k = Some u -> s_phase u = Writing v n ->
    step s (set_sub k (Subscribe_wrote v n o u) s).

Definition reachable (s : ByteSub) : Prop := rtc step New s.

(** What a subscriber has taken so far: the values announced before the
    channel it holds was made. *)
Definition values (l : list (option A)) : list A := omap id l.

Record sub_inv (s : ByteSub) (u : subscriber) : Prop := {
  (* what was written was announced, in that order, each at most once *)
  si_sublist : match s_phase u with
    | Selecting None => w u = []
    | Selecting (Some n) => (n <= nextReady s)%nat /\ w u `sublist_of` values (take n (announced s)) /\
        (forall v, last (take n (announced s)) = Some (Some v) -> last (w u) = Some v)
    | Writing v n => (n <= nextReady s)%nat /\ (w u ++ [v]) `sublist_of` values (take n (announced s)) /\
        last (take n (announced s)) = Some (Some v)
    | Returned _ => w u `sublist_of` values (announced s)
    end;
}.

Definition inv (s : ByteSub) : Prop :=
  length (announced s) = nextReady s /\ b s = last (announced s) ≫= id /\
  forall k u, subs s !! k = Some u -> sub_inv s u.

Lemma values_take_snoc n l v : values (take n l) `sublist_of` values (take n (l ++ [v])).
Proof.
  destruct (decide (n <= length l)%nat); [by rewrite take_app_le|].
  rewrite !take_ge by (rewrite ?length_app; cbn; lia). unfold values. rewrite omap_app. by apply sublist_inserts_r.
Qed.

Lemma values_take_sublist n l : values (take n l) `sublist_of` values l.
Proof. rewrite <- (take_drop n l) at 2. unfold values. rewrite omap_app. by apply sublist_inserts_r. Qed.

Lemma inv_announce v s : inv s -> inv (AnnounceLatest v s).
Proof.
  intros (Hl & Hb & Hs). split; [|split].
  - cbn. rewrite length_app, Hl. cbn. lia.
  - cbn. by rewrite last_snoc.
  - cbn. intros k u Hu. destruct (Hs k u Hu) as [Hi]. split. destruct (s_phase u) as [[n|]|x n|err]; cbn; [|done|..].
    + destruct Hi as (Hn & Hsub & Hlast). rewrite take_app_le by lia. split_and!; [lia|done|done].
    + destruct Hi as (Hn & Hsub & Hlast). rewrite take_app_le by lia. split_and!; [lia|done|done].
    + etrans; [exact Hi|]. unfold values. rewrite omap_app. by apply sublist_inserts_r.
Qed.

Lemma inv_set k u s : inv s -> (forall s', nextReady s' = nextReady s -> announced s' = announced s -> sub_inv s' u) ->
  inv (set_sub k u s).
Proof.
  intros (Hl & Hb & Hs) Hu. split; [done|]. split; [done|]. cbn.
  intros k' u' [[<- <-]|[_ Hk]]%lookup_insert_Some; [by apply Hu|]. destruct (Hs k' u' Hk) as [Hi]. by split.
Qed.

Lemma inv_step s s' : inv s -> step s s' -> inv s'.
Proof.
  intros Hi Hstep. pose proof Hi as (Hl & Hb & Hs). destruct Hstep as [v|k Hk|k u c err Hu Hc|k u c Hu Hc Hcl|k u v n o Hu Hv].
  - by apply inv_announce.
  - apply (inv_set k _ s Hi). intros s' _ _. by split.
  - apply inv_set; [done|]. intros s' Hn Ha. split. cbn. destruct (Hs k u Hu) as [Hi']. rewrite Hc in Hi'. rewrite Ha.
    destruct c as [n|]; [|rewrite Hi'; apply sublist_nil_l]. destruct Hi' as (_ & Hsub & _).
    etrans; [exact Hsub|apply values_take_sublist].
  - apply inv_set; [done|]. intros s' Hn Ha. split. destruct (Hs k u Hu) as [Hi']. rewrite Hc in Hi'.
    assert (w u `sublist_of` values (take (nextReady s - 1) (announced s))) as Hold.
    { destruct c as [n|]; [|rewrite Hi'; apply sublist_nil_l]. destruct Hi' as (_ & Hsub & _). cbn in Hcl.
      apply Nat.ltb_lt in Hcl. etrans; [exact Hsub|].
      replace n with (n `min` (nextReady s - 1))%nat by lia. rewrite <- take_take. apply values_take_sublist. }
    unfold Subscribe_wake. destruct (b s) as [v|] eqn:Hbs; cbn; rewrite Hn, Ha.
    + symmetry in Hb. apply bind_Some in Hb as ([v'|] & Hlast & Heq); [|done]. cbn in Heq. injection Heq as ->.
      rewrite <- Hl, firstn_all. split_and!; [done| |done].
      apply last_Some in Hlast as [l Hlast]. rewrite Hlast in *. unfold values. rewrite omap_app. cbn.
      apply sublist_app; [|done]. rewrite length_app in Hl. cbn in Hl.
      rewrite take_app_le in Hold by lia. by rewrite take_ge in Hold by lia.
    + rewrite <- Hl, firstn_all. split_and!; [done| |].
      * etrans; [exact Hold|]. apply values_take_sublist.
      * intros v Hlast. by rewrite Hlast in Hb.
  - apply inv_set; [done|]. intros s' Hn Ha. split. destruct (Hs k u Hu) as [Hi']. rewrite Hv in Hi'.
    destruct Hi' as (Hle & Hsub & Hlast). unfold Subscribe_wrote.
    destruct o; cbn; rewrite ?Hn, ?Ha.
    + split_and!; [done|done|]. intros x Hx. rewrite last_snoc. congruence.
    + etrans; [|apply (values_take_sublist n)]. etrans; [|exact Hsub]. by apply sublist_inserts_r.
    + etrans; [|apply (values_take_sublist n)]. etrans; [|exact Hsub]. by apply sublist_inserts_r.
Qed.

Lemma inv_reachable s : reachable s -> inv s.
Proof.
  unfold reachable. assert (inv New) as H0 by (split; [done|]; split; [done|]; intros k u Hk; cbn in Hk; by rewrite lookup_empty in Hk).
  intros Hr. revert s Hr. refine (rtc_ind_r inv New H0 _). intros s s' _ Hstep Hi. by eapply inv_step.
Qed.

(** What a subscriber's writer gets, under every interleaving with the
    announcements and the other subscribers: values that were announced, in
    order and each at most once; and a subscriber that waits with nothing to
    do has written the latest value, unless that is nil. *)
Theorem subscriber_catches_up s k u : reachable s -> subs s !! k = Some u ->
  w u `sublist_of` values (announced s) /\
  (forall c v, s_phase u = Selecting c -> closed c s = false -> last (announced s) = Some (Some v) ->
     last (w u) = Some v).
Proof.
  intros (Hl & Hb & Hs)%inv_reachable Hu. destruct (Hs k u Hu) as [Hi]. split.
  - destruct (s_phase u) as [[n|]|x n|err].
    + destruct Hi as (_ & Hsub & _). etrans; [exact Hsub|apply values_take_sublist].
    + rewrite Hi. apply sublist_nil_l.
    + destruct Hi as (_ & Hsub & _). etrans; [|apply values_take_sublist]. etrans; [|exact Hsub].
      by apply sublist_inserts_r.
    + done.
  - intros c v Hc Hcl Hlast. rewrite Hc in Hi. destruct c as [n|]; [|done]. destruct Hi as (Hn & _ & Hw).
    cbn in Hcl. apply Nat.ltb_ge in Hcl. apply Hw. by rewrite take_ge by lia.
Qed.

(** It does not wait for ever: when nothing more is announced, two steps of a
    subscriber whose writer consumes what it is given bring it there. *)
Lemma subscriber_progress s k u c : subs s !! k = Some u -> s_phase u = Selecting c -> closed c s = true ->
  exists s1, step s s1 /\ exists s2, rtc step s1 s2 /\ nextReady s2 = nextReady s /\ announced s2 = announced s /\
    exists u2, subs s2 !! k = Some u2 /\ s_phase u2 = Selecting (Some (nextReady s)) /\ closed (Some (nextReady s)) s2 = false.
Proof.
  intros Hu Hc Hcl. eexists. split; [by eapply step_wake|]. unfold Subscribe_wake. destruct (b s) as [v|].
  - eexists. split.
    + eapply rtc_l; [|apply rtc_refl]. eapply (step_write _ k _ v (nextReady s) Consumed); [apply lookup_insert_eq|done].
    + cbn. split_and!; [done..|]. eexists. split; [apply lookup_insert_eq|]. split; [done|]. apply Nat.ltb_irrefl.
  - eexists. split; [apply rtc_refl|]. cbn. split_and!; [done..|]. eexists. split; [apply lookup_insert_eq|].
    split; [done|]. apply Nat.ltb_irrefl.
Qed.
End ByteSub.
End ByteSub.

(** ** [updater]

    The fields of a JSON object, set by different goroutines. The loop of
    [start] as steps on what its selects find: an update, the end of the
    context, or no update waiting. *)
Module Updater.
Section Updater.
Context {J : Type}.

(** [ctx] ends at most at the first select; the loop that applies what is
    waiting does not look at it. *)
Inductive phase := Waiting | Applying | Stopped.

Record update := mkUpdate { field : string; value : option J }.

(** History: every value [set] was called with; [None] is nil. *)
Record Updater := mkUpdater {
  children : gmap string J;
  u_phase : phase;
  set_calls : list (option (gmap string J));
}.

(** [create] and the first turn of [start]. *)
Definition create : Updater := mkUpdater ∅ Waiting [Some ∅].

Definition apply (up : update) (m : gmap string J) : gmap string J :=
  match value up with
  | None => delete (field up) m
  | Some v => <[field up := v]> m
  end.

Inductive event := Received (up : update) | NoneWaiting | CtxDone.

(** [None]: the select has no such case. *)
Definition start_step (u : Updater) (ev : event) : option Updater :=
  match u_phase u, ev with
  | Waiting, Received up => Some (mkUpdater (apply up (children u)) Applying (set_calls u))
  | Waiting, CtxDone => Some (mkUpdater (children u) Stopped (set_calls u ++ [None]))
  | Applying, Received up => Some (mkUpdater (apply up (children u)) Applying (set_calls u))
  | Applying, NoneWaiting => Some (mkUpdater (children u) Waiting (set_calls u ++ [Some (children u)]))
  | _, _ => None
  end.

Fixpoint run (u : Updater) (evs : list event) : option Updater :=
  match evs with [] => Some u | ev :: evs => u' ← start_step u ev; run u' evs end.

(** The updates among what was found. *)
Definition received (evs : list event) : list update :=
  omap (fun ev => match ev with Received up => Some up | _ => None end) evs.
Definition object (ups : list update) : gmap string J := foldl (fun m up => apply up m) ∅ ups.

Lemma object_snoc ups up : object (ups ++ [up]) = apply up (object ups).
Proof. unfold object. by rewrite foldl_app. Qed.

(** While an updater waits, the object set last is the one all updates received
    so far amount to: none is lost and none applied twice, however they are
    batched; when it stops, nil was set last. *)
Lemma updater_sets evs u : run create evs = Some u ->
  children u = object (received evs) /\
  match u_phase u with
  | Waiting => last (set_calls u) = Some (Some (children u))
  | Applying => exists evs', evs' `prefix_of` evs /\ last (set_calls u) = Some (Some (object (received evs')))
  | Stopped => last (set_calls u) = Some None
  end.
Proof.
  revert u. induction evs as [|ev evs IH] using rev_ind; intros u; [by intros [= <-]|].
  assert (forall u0 l, run u0 (l ++ [ev]) = (u' ← run u0 l; start_step u' ev)) as Happ.
  { intros u0 l. revert u0. induction l as [|e l IHl]; intros u0; cbn; [by destruct (start_step u0 ev)|].
    destruct (start_step u0 e); cbn; [apply IHl|done]. }
  rewrite Happ. intros (u' & Hu' & Hs)%bind_Some. destruct (IH u' Hu') as [Hc Hset]. clear IH.
  unfold received. rewrite omap_app. fold (received evs).
  unfold start_step in Hs. destruct (u_phase u') eqn:Hph, ev as [up| |]; try done; injection Hs as <-; cbn;
    rewrite ?app_nil_r, ?object_snoc, ?last_snoc, ?Hc; (split; [done|]); try done.
  - exists evs. split; [by apply prefix_app_r|]. by rewrite Hset, Hc.
  - destruct Hset as (evs' & Hp & ?). exists evs'. split; [by apply prefix_app_r|done].
Qed.
End Updater.

(** *** JSON that cannot fail

    [json.Marshal] of a value and of the error object, or the error's text. *)
Definition forceMarshalJson {V} (Marshal : V -> string + string) (Marshal_error : string -> option string) (v : V) : string :=
  match Marshal v with
  | inl b => b
  | inr err =>
      match Marshal_error err with
      | Some b => b
      | None =>
          "{" +:+ quoted "Error" +:+ ":" +:+
          quoted "There was an error encoding the json message, additional there was an error encoding that error message." +:+ "}"
      end
  end.
End Updater.

(** ** [uptime]

    The values set on a number of ticks and then the end of the context. *)
Definition uptime_Run (ticks : nat) : list (option nat) := (Some <$> seq 0 ticks) ++ [None].
