(* ===== verification/Director.v ===== *)
(** * Directors ([tutorials/matchmaker102/solution/director],
      [examples/demo/components/director])

    A director fetches the matches of a profile and assigns a game server to
    the tickets of each: the client side of the backend service. *)
From S2P Require Export BackendProps MatchFunction.

(** ** What it asks for *)
Definition modes : list string := ["mode.demo"; "mode.ctf"; "mode.battleroyale"].
Definition roles : list string := ["role.dps"; "role.support"; "role.tank"].

(** A profile per mode with a pool per role. *)
Definition role_pool (mode role : string) : Pool :=
  mkPool ("pool_" +:+ mode +:+ "_" +:+ role) [] [mkStringEqualsFilter "attributes.role" role] [mkTagPresentFilter mode] None None.
Definition generateProfiles : list MatchProfile :=
  (fun mode => mkMatchProfile ("profile_" +:+ mode) (role_pool mode <$> roles) ∅) <$> modes.

(** The frontend's tickets, for a mode and a role drawn from the same lists. *)
Definition makeTicket (gameMode role : string) : Ticket :=
  mkTicket "" None (Some (mkSearchFields ∅ {["attributes.role" := role]} [gameMode])) ∅ ∅ None.

(** ** Fetching *)

(** An item of the stream that is not EOF. *)
Inductive fetch_item := Fetched (m : Match) | FetchFailed (err : error).

Fixpoint fetch_loop (items : list fetch_item) (res : list Match) : result (list Match) :=
  match items with
  | [] => Ok res
  | FetchFailed err :: _ => Err err
  | Fetched m :: items => fetch_loop items (res ++ [m])
  end.

Definition fetch (call : result (list fetch_item)) : result (list Match) :=
  match call with
  | Err err => Err err
  | Ok items => fetch_loop items []
  end.

(** ** Assigning *)
Section Assign.
Context `{Sys} `{Proto} (store : Service).

Definition assignment_request (conn : string) (m : Match) : AssignTicketsRequest :=
  mkAssignTicketsRequest [mkAssignmentGroup (t_Id <$> m_Tickets m) (Some (mkAssignment conn ∅))].

(** [conns] are the random addresses, one for each match; the service is the
    handler itself. *)
Fixpoint assign (conns : list string) (matches : list Match) : prog (result unit) :=
  match matches, conns with
  | m :: matches, conn :: conns =>
      r ←! AssignTickets store (assignment_request conn m);
      match r with
      | Err err => Ret (Err (EWrapf ("AssignTickets failed for match " +:+ m_MatchId m +:+ ", got ") err))
      | Ok _ => assign conns matches
      end
  | _, _ => Ret (Ok tt)
  end.

(** One turn for a profile: what is fetched is assigned; errors are logged. *)
Definition director_turn (conns : list string) (call : result (list fetch_item)) : prog (result unit) :=
  match fetch call with
  | Err err => Ret (Err err)
  | Ok matches => assign conns matches
  end.

(** *** The demo's director

    The statuses it shows; a failure is a panic that its deferred function
    recovers and shows. *)
Definition encountered (err : error) : string := "Encountered error: " +:+ err_string err.

Fixpoint demo_assign (conns : list string) (matches : list Match) : prog (result unit) :=
  match matches, conns with
  | m :: matches, conn :: conns =>
      _ ←? AssignTickets store (assignment_request conn m);
      demo_assign conns matches
  | _, _ => ret_ok tt
  end.

Definition demo_profile : MatchProfile := mkMatchProfile "1v1" [mkPool "Everyone" [] [] [] None None] ∅.
Definition demo_request : FetchMatchesRequest :=
  mkFetchMatchesRequest (Some (mkFunctionConfig "om-function.open-match-demo.svc.cluster.local" 50502 FunctionConfig_GRPC))
    (Some demo_profile).

Definition demo_run (conns : list string) (dial : option error) (call : result (list fetch_item)) : prog (list string) :=
  match dial with
  | Some err => Ret ["Connecting to backend"; encountered err]
  | None =>
      match fetch call with
      | Err err => Ret ["Connecting to backend"; "Match Match: Sending Request"; encountered err]
      | Ok matches =>
          r ←! demo_assign conns matches;
          Ret (["Connecting to backend"; "Match Match: Sending Request"; "Matches Found"; "Assigning Players"] ++
               [match r with Err err => encountered err | Ok _ => "Sleeping" end])
      end
  end.
End Assign.

(** *** The demo's players

    [runScenario]: the error of opening the watch is not looked at, and the nil
    stream is dereferenced; [None]: still waiting. *)
Definition nil_dereference : error := EPlain "runtime error: invalid memory address or nil pointer dereference".

Fixpoint demo_watch (items : list (result (option Assignment))) : option (result Assignment) :=
  match items with
  | [] => None
  | Err err :: _ => Some (Err err)
  | Ok None :: items => demo_watch items
  | Ok (Some a) :: items => if bool_decide (a_Connection a = "") then demo_watch items else Some (Ok a)
  end.

Definition runScenario (dial : option error) (created : result string)
    (watch : result (list (result (option Assignment)))) (close : option error) : option (list string) :=
  match dial with
  | Some err => Some ["Main Menu"; "Connecting to Open Match frontend"; encountered err]
  | None =>
      let shown := ["Main Menu"; "Connecting to Open Match frontend"; "Creating Open Match Ticket"] in
      match created with
      | Err err => Some (shown ++ [encountered err])
      | Ok ticketId =>
          let shown := shown ++ ["Waiting match with ticket Id " +:+ ticketId] in
          match watch with
          | Err _ => Some (shown ++ [encountered nil_dereference])
          | Ok items =>
              r ← demo_watch items;
              Some (shown ++
                [match r, close with
                 | Err err, _ => encountered err
                 | Ok _, Some err => encountered err
                 | Ok _, None => "Sleeping (pretend this is playing a match...)"
                 end])
          end
      end
  end.

(** ** What a director achieves *)
Section AssignMatch.
Context `{Sys} `{ProtoLaws} (cfg : View) (store : Service) `{!ServiceSpec cfg store}.

Definition match_ids (m : Match) : list string := t_Id <$> m_Tickets m.

(** A match whose tickets are stored as they can be written back. *)
Definition assignable_match (d : db) (conn : string) (m : Match) : Prop :=
  match_ids m <> [] /\ Forall not_reserved (match_ids m) /\
  forall id, id ∈ match_ids m -> exists x, ticket_at d id = Some x /\ t_Id x = id /\
    is_Some (marshal_ticket (set_ticket_assignment (Some (mkAssignment conn ∅)) x)).

(** A match's tickets carry its address. *)
Definition assigned_to (d d' : db) (conn : string) (m : Match) : Prop :=
  forall id x, id ∈ match_ids m -> ticket_at d id = Some x ->
    ticket_at d' id = Some (set_ticket_assignment (Some (mkAssignment conn ∅)) x).

Lemma assign_match_wp conn m v (Hf : sys_faulty = false) (Ht : typed (v_db v)) (Hn : NoDup (match_ids m))
  (Hm : assignable_match (v_db v) conn m) :
  wp (AssignTickets store (assignment_request conn m)) v (fun r v' =>
    r = Ok (mkAssignTicketsResponse []) /\ assigned_to (v_db v) (v_db v') conn m /\
    index (v_db v') = index (v_db v) ∖ list_to_set (match_ids m) /\
    (forall k, k ∉ match_ids m -> not_reserved k -> v_db v' !! k = v_db v !! k) /\ typed (v_db v') /\
    (* and the synchronizer's marks *)
    (forall k, k ∉ match_ids m -> k <> allTickets -> k <> proposedTicketIDs -> v_db v' !! k = v_db v !! k) /\
    (forall k, pending (v_db v') !! k = if decide (k ∈ match_ids m) then None else pending (v_db v) !! k) /\
    v_now v <= v_now v' /\ v_xids v' = v_xids v).
Proof.
  destruct Hm as (Hne & Hres & Hst). set (req := assignment_request conn m).
  assert (group_ids (atr_Assignments req) = match_ids m) as Hg by (cbn; apply app_nil_r).
  assert (forall x, t_Id x ∈ match_ids m -> assigned_ticket (atr_Assignments req) x =
    set_ticket_assignment (Some (mkAssignment conn ∅)) x) as Has.
  { intros x Hx. unfold assigned_ticket. cbn. by rewrite decide_True. }
  eapply wp_mono; [apply (assign_tickets_wp cfg store req); [done..| | | |]|]; rewrite ?Hg.
  - split; [repeat constructor; by eexists|]. by rewrite Hg.
  - done.
  - intros id x Hid Hx. destruct (Hst id Hid) as (x' & Hx' & Hk & _). congruence.
  - intros id Hid _. destruct (Hst id Hid) as (x & Hx & <- & Hmar). exists x. by rewrite Has.
  - intros r v' (-> & Hat & Hi & Hp & Hk & Ht' & ? & ?). split_and!; try done.
    + do 2 f_equal. unfold missing_failures. replace (filter _ _) with (@nil string); [done|]. symmetry.
      apply elem_of_nil_inv. intros id [Hnone Hid]%list_elem_of_filter. destruct (Hst id Hid) as (x & Hx & _).
      unfold ticket_at in Hx. by rewrite Hnone in Hx.
    + intros id x Hid Hx. rewrite (Hat id x Hid Hx). f_equal. apply Has.
      destruct (Hst id Hid) as (x' & Hx' & Hk' & _). congruence.
    + intros k Hkn Hkr. apply Hk; [done|intros ->; apply Hkr; concrete..].
Qed.

Lemma Forall2_impl_r {A B} (P Q : A -> B -> Prop) l k :
  Forall2 P l k -> (forall x y, y ∈ k -> P x y -> Q x y) -> Forall2 Q l k.
Proof.
  induction 1 as [|x y l k Hxy Hlk IH]; intros HPQ; constructor; [apply HPQ; [by left|done]|].
  apply IH. intros a b Hb. apply HPQ. by right.
Qed.

(** The matches that are left stay assignable. *)
Lemma assignable_frame d d' (ids : list string) conn m : assignable_match d conn m ->
  (forall k, k ∉ ids -> not_reserved k -> d' !! k = d !! k) -> (forall id, id ∈ match_ids m -> id ∉ ids) ->
  assignable_match d' conn m.
Proof.
  intros (Hne & Hres & Hst) Hk Hdis. split; [done|]. split; [done|]. intros id Hid.
  rewrite Forall_forall in Hres. rewrite (ticket_at_ext d' d) by (apply Hk; auto). by apply Hst.
Qed.

(** The whole loop, when no ticket is in two matches. *)
Lemma assign_wp conns matches v (Hf : sys_faulty = false) (Ht : typed (v_db v)) (Hn : NoDup (concat (match_ids <$> matches)))
  (Hm : Forall2 (assignable_match (v_db v)) conns matches) :
  wp (assign store conns matches) v (fun r v' =>
    r = Ok tt /\ Forall2 (assigned_to (v_db v) (v_db v')) conns matches /\
    index (v_db v') = index (v_db v) ∖ list_to_set (concat (match_ids <$> matches)) /\
    (forall k, pending (v_db v') !! k = if decide (k ∈ concat (match_ids <$> matches)) then None else pending (v_db v) !! k) /\
    (forall k, k ∉ concat (match_ids <$> matches) -> not_reserved k -> v_db v' !! k = v_db v !! k)).
Proof.
  revert conns v Ht Hm. induction matches as [|m matches IH]; intros conns v Ht Hm.
  { apply Forall2_nil_inv_r in Hm as ->. cbn. split_and!; [done|constructor|set_solver|done..]. }
  apply Forall2_cons_inv_r in Hm as (conn & conns' & Hm & Hms & ->). cbn [assign].
  cbn [fmap list_fmap concat] in *. apply NoDup_app in Hn as (Hn1 & Hdis & Hn2).
  apply wp_bind. eapply wp_mono; [by apply assign_match_wp|]. intros r1 v1 (-> & Ha1 & Hi1 & Hk1 & Ht1 & _ & Hp1 & _). cbn beta iota.
  eapply wp_mono; [apply (IH Hn2 conns' v1 Ht1)|].
  { apply (Forall2_impl_r _ _ _ _ Hms). intros c m' Hm' Hc. apply (assignable_frame (v_db v) _ (match_ids m)); [done..|].
    intros id Hid Hin. apply (Hdis id Hin), elem_of_concat. eexists. split; [by apply list_elem_of_fmap_2|done]. }
  intros r2 v2 (-> & Ha2 & Hi2 & Hp2 & Hk2).
  assert (forall id, id ∈ match_ids m -> not_reserved id) as Hres by (apply Forall_forall, Hm).
  split_and!; [done| | | |].
  - constructor.
    + intros id x Hid Hx. rewrite (ticket_at_ext _ (v_db v1)); [by apply Ha1|apply Hk2; auto].
    + assert (forall m' id, m' ∈ matches -> id ∈ match_ids m' -> not_reserved id) as Hres'.
      { intros m' id [i Hi]%list_elem_of_lookup Hid. destruct (Forall2_lookup_r _ _ _ _ _ Hms Hi) as (c & _ & _ & Hr' & _).
        rewrite Forall_forall in Hr'. auto. }
      apply (Forall2_impl_r _ _ _ _ Ha2). intros c m' Hm' Ha' id x Hid Hx.
      apply Ha'; [done|]. rewrite (ticket_at_ext _ (v_db v)); [done|]. apply Hk1; [|by eapply Hres'].
      intros Hin. apply (Hdis id Hin), elem_of_concat. eexists. split; [by apply list_elem_of_fmap_2|done].
  - rewrite Hi2, Hi1. set_solver.
  - intros k. rewrite Hp2, Hp1. repeat case_decide; set_solver.
  - intros k Hk Hr. apply not_elem_of_app in Hk as [Hk Hk']. rewrite Hk2, Hk1; done.
Qed.

(** What a stream without a failure gives. *)
Lemma fetch_loop_ok l acc : fetch_loop (Fetched <$> l) acc = Ok (acc ++ l).
Proof. revert acc. induction l as [|m l IH]; intros acc; cbn; [by rewrite app_nil_r|]. by rewrite IH, <- app_assoc. Qed.
End AssignMatch.

Section DirectorProps.
Context `{EnvironmentLaws} `{ProtoLaws} (cfg : View) (store : Service) `{!ServiceSpec cfg store}.

(** Everybody fetched is assigned and out of matchmaking. When no ticket is in
    two of the matches and all their tickets are stored, one turn of a director
    succeeds: the tickets of each match carry its address, none of them is
    indexed, and nothing else but the marks of pending tickets changes. *)
Theorem director_assigns conns matches w r w' (Hf : sys_faulty = false) (Ht : typed (db_of w))
  (Hn : NoDup (concat (match_ids <$> matches)))
  (Hm : Forall2 (assignable_match (db_of w)) conns matches)
  (Hrun : run (director_turn store conns (Ok (Fetched <$> matches))) w = (r, w')) :
  r = Ok tt /\ Forall2 (assigned_to (db_of w) (db_of w')) conns matches /\
  index (db_of w') = index (db_of w) ∖ list_to_set (concat (match_ids <$> matches)) /\
  (forall k, k ∉ concat (match_ids <$> matches) -> not_reserved k -> db_of w' !! k = db_of w !! k).
Proof.
  unfold director_turn, fetch in Hrun. rewrite fetch_loop_ok in Hrun.
  destruct (run_wp _ _ _ _ _ (assign_wp cfg store conns matches (env_view w) Hf Ht Hn Hm) Hrun) as (? & ? & ? & _ & ?). done.
Qed.
End DirectorProps.

(** A ticket of the tutorial's frontend is in one pool of one profile. *)
Lemma ticket_one_pool `{Proto} i j gameMode role mp pool id create :
  generateProfiles !! i = Some mp -> mp_Pools mp !! j = Some pool ->
  in_pool pool (set_ticket_create_time create (set_ticket_id id (makeTicket gameMode role))) <->
    modes !! i = Some gameMode /\ roles !! j = Some role.
Proof.
  intros Hi Hj. unfold generateProfiles in Hi. rewrite list_lookup_fmap in Hi. apply fmap_Some in Hi as (mode & -> & ->).
  cbn [mp_Pools] in Hj. rewrite list_lookup_fmap in Hj. apply fmap_Some in Hj as (role' & -> & ->).
  unfold role_pool. rewrite in_pool_fields. change (fields _) with (mkSearchFields ∅ {["attributes.role" := role]} [gameMode]).
  unfold string_equals_match, tag_present_match.
  cbn [forallb existsb sf_StringArgs sf_Tags sef_StringArg sef_Value tpf_Tag]. rewrite lookup_singleton_eq.
  rewrite !andb_true_r, orb_false_r. cbn [andb]. rewrite andb_true_iff, !bool_decide_eq_true. naive_solver.
Qed.

(** *** Assigning the stored ticket of a match *)
Lemma director_assigns_witness :
  let m := mem_match "m1" None ["a"] in
  ans (director_turn mem_store ["10.0.0.1:2222"] (Ok (Fetched <$> [m]))) game_world = Ok tt /\
  index (db_of (after (director_turn mem_store ["10.0.0.1:2222"] (Ok (Fetched <$> [m]))) game_world)) =
    index (db_of game_world) ∖ {["a"]}.
Proof.
  intros m. set (turn := director_turn mem_store ["10.0.0.1:2222"] (Ok (Fetched <$> [m]))).
  destruct (director_assigns mem_cfg mem_store ["10.0.0.1:2222"] [m] game_world (ans turn game_world)
    (after turn game_world)) as (Hr & _ & Hi & _).
  - reflexivity.
  - exact game_world_typed.
  - apply NoDup_singleton.
  - constructor; [|constructor]. split; [discriminate|]. split; [repeat constructor; concrete|].
    intros id Hid. apply list_elem_of_singleton in Hid as ->. exists (mem_ticket "a").
    split; [vm_compute; reflexivity|]. split; [reflexivity|by eexists].
  - apply surjective_pairing.
  - split; [exact Hr|]. etrans; [exact Hi|]. vm_compute. reflexivity.
Defined.
