(* ===== verification/DirectorRace.v ===== *)
(** * Directors at the same time ([tutorials/*/director/main.go])

    A director starts a goroutine for each of its profiles, and every one of
    them assigns the matches it fetched. The goroutines' calls of the backend
    run at the same time; as long as no ticket is in two of the matches they
    do not get into each other's way. *)
From S2P Require Export Locality Director.

(** One effect of a program that keeps to its ids, by its rule. *)
Ltac within_side :=
  cbn; rewrite ?lookup_insert_eq;
  first [exact I | by eexists | by left | by eauto 7].

Ltac local_cbn := cbn [wp]; prog_cbn.

Section Local.
Context `{Sys} `{Proto} (cfg : View) (S : gset string).
Implicit Types (u : view).

Abbreviation anyhow := (fun _ _ => True).

Lemma lwp_with_conn {A} p mk (body : conn -> prog (result A)) u Q :
  (forall m, Q (Err (mk m)) u) ->
  (forall c, v_pend u !! c = None -> lwp S (sent_conn u c []) (body c)
     (fun r u' => lwp S u' (Vis (CloseConn c) (fun _ => Ret r)) Q)) ->
  lwp S u (with_conn p mk body) Q.
Proof.
  intros Hm Hc. apply lwp_vis; [exact I|]. apply wp_get_conn; [by intros _ m; cbn|]. intros c Hn. cbn.
  apply lwp_bind, Hc, Hn.
Qed.

(** Closing a connection: an open transaction or commands of its own ids. *)
Lemma lwp_close {A} (a : A) u c cs Q : v_pend u !! c = None -> is_multi cs = true \/ Forall (inside S) cs ->
  (forall d', close_step u cs d' -> Q a (set_db u d')) ->
  lwp S (sent_conn u c cs) (Vis (CloseConn c) (fun _ => Ret a)) Q.
Proof.
  intros Hc Hcs HQ. apply lwp_vis; [exists cs; cbn; by rewrite lookup_insert_eq|]. by apply wp_close.
Qed.

Lemma local_deindex i u : i ∈ S -> lwp S u (DeindexTicket i) anyhow.
Proof.
  intros Hi. apply lwp_with_conn; [done|]. intros c Hc. apply lwp_vis; [within_side|].
  assert (forall cs : list command, Forall (inside S) cs ->
    forall r : result unit, lwp S (sent_conn u c cs) (Vis (CloseConn c) (fun _ => Ret r)) anyhow) as Hcl.
  { intros cs Hcs r. by apply lwp_close; [|right|]. }
  apply wp_send; [intros _ m|]; local_cbn; apply Hcl; [constructor|]. by repeat constructor.
Qed.

Lemma local_unpend ids u : Forall (fun i => i ∈ S) ids -> lwp S u (DeleteTicketsFromPendingRelease ids) anyhow.
Proof.
  intros Hi. unfold DeleteTicketsFromPendingRelease. destruct ids as [|id ids]; [done|].
  apply lwp_with_conn; [done|]. intros c Hc. apply lwp_vis.
  { left. cbn. by rewrite lookup_insert_eq. }
  apply wp_do; [done|intros r d' _|intros m d' _]; local_cbn; (apply lwp_close; [done|by right|done]).
Qed.

Lemma local_record t u : lwp S u (recordTimeToAssignment t) anyhow.
Proof. unfold recordTimeToAssignment. repeat case_match; try done; (split; [exact I|]); intros; cbn; repeat case_match; done. Qed.

Lemma local_then {A B} (p : prog A) (f : A -> prog B) u Q : lwp S u p anyhow -> (forall a u', lwp S u' (f a) Q) ->
  lwp S u (prog_bind p f) Q.
Proof. intros Hp Hf. apply lwp_bind. eapply lwp_mono; [exact Hp|auto]. Qed.

Lemma local_record_all ts u : lwp S u (record_all ts) anyhow.
Proof. revert u. induction ts as [|t ts IH]; intros u; [done|]. apply local_then; [apply local_record|auto]. Qed.

(** Queueing the assignments writes nothing. *)
Lemma local_send_assignments c m px ts u cs : lwp S (sent_conn u c cs) (send_assignments c m px ts) anyhow.
Proof.
  revert cs. induction ts as [|t ts IH]; intros cs; cbn [send_assignments]; [done|].
  destruct (marshal_ticket _) as [b|]; [|done]. prog_cbn. apply lwp_vis; [within_side|].
  apply wp_send; [by intros _ msg; prog_cbn|]. local_cbn. apply lwp_bind. eapply lwp_mono; [apply IH|].
  by intros [ts'|e] u' _; cbn.
Qed.

Lemma queued_set_cmds px ts bs : Forall (fun t => t_Id t ∈ S) ts -> Forall (queued S) (set_cmds px ts bs).
Proof.
  intros Ht. revert bs. induction Ht as [|t ts Hi Ht IH]; intros [|b bs]; cbn; constructor; [done|apply IH].
Qed.

(** [UpdateAssignments] reads and writes the tickets of the request, when what
    is stored under their ids are these tickets. *)
Lemma local_UpdateAssignments req u : Forall (fun i => i ∈ S) (group_ids (atr_Assignments req)) ->
  well_keyed (group_ids (atr_Assignments req)) (v_db u) -> lwp S u (UpdateAssignments cfg req) anyhow.
Proof.
  intros Hin Hwk. unfold UpdateAssignments. destruct (atr_Assignments req) as [|g gs]; [done|]. set (groups := g :: gs) in *.
  apply lwp_with_conn; [done|]. intros c Hc.
  assert (forall (r : result (AssignTicketsResponse * list Ticket)) cs u', v_pend u' !! c = None ->
    is_multi cs = true \/ Forall (inside S) cs -> lwp S (sent_conn u' c cs) (Vis (CloseConn c) (fun _ => Ret r)) anyhow) as Hcl.
  { intros r cs u' Hu' Hcs. by apply lwp_close. }
  pose proof (collect_valid groups) as Hcol.
  destruct (collect_assignments groups ∅ []) as [[m ids]|e]; local_cbn; [|by apply Hcl; [|right]].
  destruct Hcol as (-> & _). destruct (group_ids groups) as [|id0 ids0] eqn:Hids; [by apply Hcl; [|right]|].
  prog_cbn. rewrite <- Hids in *. clear id0 ids0 Hids. apply lwp_vis; [left; cbn; by rewrite lookup_insert_eq|].
  apply wp_do; [done|intros r d' [-> ->]|intros msg d' _]; local_cbn; [|by apply Hcl; [|right]]. rewrite set_db_id.
  pose proof (read_assigned_spec (v_db u) (group_ids groups)) as Hread.
  destruct (read_assigned _ _) as [[fs found]|e]; local_cbn; [|by apply Hcl; [|right]]. destruct Hread as [-> ->].
  set (found := omap (ticket_at (v_db u)) (group_ids groups)).
  assert (Forall (fun t => t_Id t ∈ S) found) as Hfound.
  { apply Forall_forall. intros t (i & Hi & Ht)%list_elem_of_omap. rewrite (Hwk i t Hi Ht).
    rewrite Forall_forall in Hin. auto. }
  apply lwp_vis; [within_side|]. apply wp_send; [intros _ msg|]; local_cbn; [by apply Hcl; [|right]|]. cbn [app].
  apply lwp_bind. eapply lwp_mono; [apply lwp_wp; [apply local_send_assignments|]|].
  - apply (send_assignments_spec c m _ found u [MULTI] (fun r u' => exists cs, u' = sent_conn u c (MULTI :: cs) /\
      match r with Ok _ => Forall (queued S) cs | Err _ => True end)).
    + intros bs ts' _. eexists. split; [done|]. apply queued_set_cmds. subst ts'. by apply Forall_fmap, (Forall_impl _ _ _ Hfound).
    + intros e junk _. by eexists.
  - intros [ts|e] u' [_ (cs & -> & Hcs)]; local_cbn; [|by apply Hcl; [|left]].
    apply lwp_vis; [right; cbn; rewrite lookup_insert_eq; eauto|].
    apply wp_exec; [done|intros r d' _|intros msg d' _ _]; local_cbn; [|by apply Hcl; [|right]].
    case_decide; [by apply Hcl; [|right]|]. destruct (read_was_set ts r) as [[lost assigned]|e]; local_cbn; by apply Hcl; [|right].
Qed.
End Local.

(** ** The backend's AssignTickets *)
Section Assign.
Context `{Sys} `{ProtoLaws} (cfg : View) (S : gset string).
Implicit Types (u : view).

Lemma local_deindex_assigned ids u : Forall (fun i => i ∈ S) ids ->
  lwp S u (deindex_assigned (redisBackend cfg) ids) (fun _ _ => True).
Proof.
  intros Hi. revert u. induction Hi as [|i ids Hi Hids IH]; intros u; [done|]. apply local_then; [by apply local_deindex|].
  intros _ u'. apply IH.
Qed.

Lemma local_AssignTickets req u : Forall (fun i => i ∈ S) (group_ids (atr_Assignments req)) ->
  well_keyed (group_ids (atr_Assignments req)) (v_db u) ->
  lwp S u (AssignTickets (redisBackend cfg) req) (fun _ _ => True).
Proof.
  intros Hi Hwk. apply lwp_rbind. eapply lwp_mono with (Q := fun _ _ => True); [|by intros [] ? _; cbn].
  apply lwp_rbind. eapply lwp_mono; [by apply local_UpdateAssignments|].
  intros [[resp tickets]|e] u' _; [|done]. apply local_then; [apply local_record_all|]. intros _ u1.
  rewrite foldl_group_ids. cbn [app].
  apply local_then; [by apply local_deindex_assigned|]. intros _ u2.
  apply local_then; [by apply local_unpend|]. done.
Qed.

Lemma group_ids_request conn m : group_ids (atr_Assignments (assignment_request conn m)) = match_ids m.
Proof. cbn. apply app_nil_r. Qed.

(** A director's calls for matches whose tickets are its own. *)
Lemma local_assign conns matches u (Hf : sys_faulty = false) : typed (v_db u) -> NoDup (concat (match_ids <$> matches)) ->
  Forall (fun i => i ∈ S) (concat (match_ids <$> matches)) -> Forall2 (assignable_match (v_db u)) conns matches ->
  lwp S u (assign (redisBackend cfg) conns matches) (fun _ _ => True).
Proof.
  revert conns u. induction matches as [|m matches IH]; intros conns u Ht Hn Hi Hm.
  { apply Forall2_nil_inv_r in Hm as ->. done. }
  apply Forall2_cons_inv_r in Hm as (conn & conns' & Hm & Hms & ->). cbn [assign fmap list_fmap concat] in *.
  apply NoDup_app in Hn as (Hn1 & Hdis & Hn2). apply Forall_app in Hi as [Hi1 Hi2].
  apply lwp_bind. eapply lwp_mono; [apply lwp_wp; [|apply (assign_match_wp cfg (redisBackend cfg)); done]|].
  - apply local_AssignTickets; rewrite group_ids_request; [done|]. intros i t Hin Hat.
    destruct Hm as (_ & _ & Hst). destruct (Hst i Hin) as (x & Hx & Hk & _). congruence.
  - intros r u1 [_ (-> & _ & _ & Hk & Ht1 & _)]. cbn beta iota. apply IH; [done..|].
    apply (Forall2_impl_r _ _ _ _ Hms). intros c m' Hm' Hc. apply (assignable_frame (v_db u) _ (match_ids m)); [done..|].
    intros id Hid Hin. apply (Hdis id Hin), elem_of_concat. eexists. split; [by apply list_elem_of_fmap_2|done].
Qed.
End Assign.

(** ** One tick of a director *)

(** A goroutine: the addresses it draws and what it is answered. *)
Definition job : Type := list string * result (list fetch_item).

Definition job_matches (j : job) : list Match := match fetch j.2 with Ok ms => ms | Err _ => [] end.
Definition job_result (j : job) : result unit := match fetch j.2 with Ok _ => Ok tt | Err err => Err err end.
Definition job_ids (j : job) : list string := concat (match_ids <$> job_matches j).

(** All tickets that are assigned. *)
Definition tick_ids (jobs : list job) : list string := concat (job_ids <$> jobs).

Section Tick.
Context `{EnvironmentLaws} `{ProtoLaws} (cfg : View).

Definition job_turn (j : job) : prog (result unit) := director_turn (redisBackend cfg) j.1 j.2.

Lemma job_turn_eq j : job_turn j = match fetch j.2 with Ok ms => assign (redisBackend cfg) j.1 ms | Err err => Ret (Err err) end.
Proof. done. Qed.

Definition job_done (d : db) (j : job) (r : result unit) (d' : db) : Prop :=
  r = job_result j /\ Forall2 (assigned_to d d') j.1 (job_matches j) /\
  forall k, k ∈ job_ids j -> (k ∉ index d') /\ pending d' !! k = None.

Lemma tick_ids_lookup (jobs : list job) i j k : jobs !! i = Some j -> k ∈ job_ids j -> k ∈ tick_ids jobs.
Proof. intros Hj Hk. apply elem_of_concat. exists (job_ids j). split; [by apply list_elem_of_fmap_2, (list_elem_of_lookup_2 _ i)|done]. Qed.

Lemma NoDup_concat_lookup {A} (ls : list (list A)) i l : NoDup (concat ls) -> ls !! i = Some l -> NoDup l.
Proof.
  revert i. induction ls as [|x ls IH]; intros [|i] Hn Hl; try done; cbn in *; apply NoDup_app in Hn as (? & _ & ?).
  - by injection Hl as <-.
  - by eapply IH.
Qed.

Lemma NoDup_concat_disjoint {A} (ls : list (list A)) i j l k x : NoDup (concat ls) -> ls !! i = Some l -> ls !! j = Some k ->
  i <> j -> x ∈ l -> x ∉ k.
Proof.
  revert i j. induction ls as [|y ls IH]; intros [|i] [|j] Hn Hl Hk Hij Hx Hxk; try done; cbn in *;
    apply NoDup_app in Hn as (Hn1 & Hd & Hn2).
  - injection Hl as <-. apply (Hd x Hx), elem_of_concat. exists k. split; [by eapply list_elem_of_lookup_2|done].
  - injection Hk as <-. apply (Hd x Hxk), elem_of_concat. exists l. split; [by eapply list_elem_of_lookup_2|done].
  - eapply (IH i j); eauto.
Qed.

(** A goroutine alone. *)
Lemma job_lwp j u (Hf : sys_faulty = false) : typed (v_db u) -> NoDup (job_ids j) ->
  Forall2 (assignable_match (v_db u)) j.1 (job_matches j) ->
  lwp (list_to_set (job_ids j)) u (job_turn j) (fun r u' => job_done (v_db u) j r (v_db u')).
Proof.
  intros Ht Hn Hm. rewrite job_turn_eq. unfold job_done, job_ids, job_matches, job_result in *. destruct (fetch j.2) as [ms|err].
  - eapply lwp_mono; [apply lwp_wp; [apply local_assign|apply (assign_wp cfg (redisBackend cfg))]|].
    all: try done.
    + apply Forall_forall. intros x. by rewrite elem_of_list_to_set.
    + intros r u' [_ (-> & Ha & Hi & Hp & _)]. split; [done|]. split; [done|]. intros k Hk. rewrite Hi, Hp. split; [set_solver|].
      by rewrite decide_True.
  - apply Forall2_nil_inv_r in Hm as ->. cbn. split; [done|]. split; [constructor|]. intros k Hk. by apply not_elem_of_nil in Hk.
Qed.

(** What a goroutine sees of its tickets alone is what is stored. *)
Lemma job_done_slice d j r u d' : same_slice (list_to_set (job_ids j)) d' (v_db u) -> job_done d j r (v_db u) -> job_done d j r d'.
Proof.
  intros [K I P _ _] (-> & Ha & Hx). split; [done|]. split.
  - apply (Forall2_impl_r _ _ _ _ Ha). intros c m Hm Hc id x Hid Hx'. rewrite (ticket_at_ext _ (v_db u)); [by apply Hc|].
    apply K, elem_of_list_to_set, elem_of_concat. exists (match_ids m). split; [by apply list_elem_of_fmap_2|done].
  - intros k Hk. destruct (Hx k Hk). rewrite I, P by (by apply elem_of_list_to_set). done.
Qed.

Definition job_owns (jobs : list job) : list (gset string) := (fun j => list_to_set (job_ids j)) <$> jobs.

Lemma lookup_job_owns jobs i S : job_owns jobs !! i = Some S -> exists j, jobs !! i = Some j /\ S = list_to_set (job_ids j).
Proof. unfold job_owns. rewrite list_lookup_fmap. intros (j & Hj & ->)%fmap_Some. eauto. Qed.

Lemma owned_jobs jobs : owned (job_owns jobs) = list_to_set (tick_ids jobs).
Proof. unfold owned, job_owns, tick_ids. induction jobs as [|j jobs IH]; [done|]. cbn. rewrite IH. by rewrite list_to_set_app_L. Qed.

Lemma assignable_ids d conns matches k : Forall2 (assignable_match d) conns matches -> k ∈ concat (match_ids <$> matches) ->
  k ∉ reserved.
Proof.
  intros Hm (ids & (m & -> & [i Hi]%list_elem_of_lookup)%list_elem_of_fmap & Hk)%elem_of_concat.
  destruct (Forall2_lookup_r _ _ _ _ _ Hm Hi) as (c & _ & _ & Hr & _). rewrite Forall_forall in Hr. by apply Hr.
Qed.

(** The goroutines on any schedule. *)
Lemma jobs_run jobs sched w ps w' : sys_faulty = false -> typed (db_of w) -> NoDup (tick_ids jobs) ->
  Forall (fun j => Forall2 (assignable_match (db_of w)) j.1 (job_matches j)) jobs ->
  prun sched (job_turn <$> jobs) w = (ps, w') ->
  untouched (list_to_set (tick_ids jobs)) (db_of w) (db_of w') /\
  forall i j r, jobs !! i = Some j -> ps !! i = Some (Ret r) -> job_done (db_of w) j r (db_of w').
Proof.
  intros Hf Ht Hn Hm Hrun. rewrite Forall_forall in Hm.
  destruct (owned_parallel (job_owns jobs) (fun i r u => exists j, jobs !! i = Some j /\ job_done (db_of w) j r (v_db u)))
    with (ps := job_turn <$> jobs) (sched := sched) (w := w) (ps' := ps) (w' := w') as [Hun Hdone].
  - intros i S k (j & Hj & ->)%lookup_job_owns Hk%elem_of_list_to_set.
    eapply assignable_ids; [apply Hm; by eapply list_elem_of_lookup_2|exact Hk].
  - intros i1 i2 S T (j1 & Hj1 & ->)%lookup_job_owns (j2 & Hj2 & ->)%lookup_job_owns Hne k Hk1%elem_of_list_to_set.
    rewrite elem_of_list_to_set. refine (NoDup_concat_disjoint _ i1 i2 _ _ k Hn _ _ Hne Hk1); by rewrite list_lookup_fmap, ?Hj1, ?Hj2.
  - unfold job_owns. by rewrite !length_fmap.
  - exact Ht.
  - intros i S p (j & Hj & ->)%lookup_job_owns Hp. rewrite list_lookup_fmap, Hj in Hp. injection Hp as <-.
    eapply lwp_mono; [apply job_lwp; [done|done|..]|by eauto].
    + eapply NoDup_concat_lookup; [exact Hn|]. by rewrite list_lookup_fmap, Hj.
    + apply Hm. by eapply list_elem_of_lookup_2.
  - exact Hrun.
  - rewrite owned_jobs in Hun. split; [done|]. intros i j r Hj Hr.
    destruct (Hdone i (list_to_set (job_ids j)) r) as (u & (j' & Hj' & Hd) & Hs); [|done|].
    { unfold job_owns. by rewrite list_lookup_fmap, Hj. }
    rewrite Hj in Hj'. injection Hj' as <-. by eapply job_done_slice.
Qed.

(** C15. The goroutines of a tick assign their matches at the same time, one
    Redis command of one of them at a time in any order, without losing or
    mixing up anything: if no ticket is in two of the matches fetched, every
    goroutine that is over returned what it returns alone and every ticket of
    its matches is stored with the address of its match and neither indexed
    nor pending; when all are over exactly these tickets have left
    matchmaking, and at no time anything else has changed. *)
Theorem directors_assign_together jobs sched w ps w' (Hf : sys_faulty = false) (Ht : typed (db_of w))
  (Hn : NoDup (tick_ids jobs)) (Hm : Forall (fun j => Forall2 (assignable_match (db_of w)) j.1 (job_matches j)) jobs)
  (Hrun : prun sched (job_turn <$> jobs) w = (ps, w')) :
  (forall i j r, jobs !! i = Some j -> ps !! i = Some (Ret r) -> job_done (db_of w) j r (db_of w')) /\
  (forall k, k ∉ tick_ids jobs -> (k <> allTickets -> k <> proposedTicketIDs -> db_of w' !! k = db_of w !! k) /\
     (k ∈ index (db_of w') <-> k ∈ index (db_of w)) /\ pending (db_of w') !! k = pending (db_of w) !! k) /\
  (Forall ended ps -> index (db_of w') = index (db_of w) ∖ list_to_set (tick_ids jobs)).
Proof.
  destruct (jobs_run jobs sched w ps w' Hf Ht Hn Hm Hrun) as [[Uk Ui Up _] Hjobs]. split; [done|]. split.
  - intros k Hk. rewrite <- (elem_of_list_to_set (C := gset string)) in Hk. split; [|split; [by apply Ui|by apply Up]].
    intros Hka Hkp. apply Uk; [done|]. unfold common. set_solver.
  - intros Hend. apply set_eq. intros k. rewrite elem_of_difference, elem_of_list_to_set.
    destruct (decide (k ∈ tick_ids jobs)) as [Hin|Hout]; [|rewrite Ui by (by rewrite elem_of_list_to_set); tauto].
    split; [|tauto]. intros Hk. exfalso.
    apply elem_of_concat in Hin as (ids & (j & -> & [i Hi]%list_elem_of_lookup)%list_elem_of_fmap & Hid).
    destruct (lookup_lt_is_Some_2 ps i) as [p Hp].
    { rewrite <- (prun_length _ _ _ _ _ Hrun), length_fmap. by eapply lookup_lt_Some. }
    pose proof (Forall_lookup_1 _ _ _ _ Hend Hp) as He. destruct p as [r|]; [|done].
    destruct (Hjobs i j r Hi Hp) as (_ & _ & Hx). by destruct (Hx k Hid).
Qed.
End Tick.

(** *** Two goroutines in turns *)

Definition pair_world : env_state :=
  after (IndexTicket (mem_ticket "b")) (after (StoreTicket.CreateTicket (mem_ticket "b")) game_world).

Definition pair_jobs : list job :=
  [(["10.0.0.1:2222"], Ok [Fetched (mem_match "m1" None ["a"])]); (["10.0.0.2:2222"], Ok [Fetched (mem_match "m2" None ["b"])])].

Definition turns : list nat := concat (replicate 20 [0; 1]%nat).

Definition pair_end : list (prog (result unit)) * env_state := prun turns (job_turn mem_cfg <$> pair_jobs) pair_world.

Lemma pair_world_typed : typed (db_of pair_world).
Proof. concrete. Qed.

Lemma pair_assignable d : ticket_at d "a" = Some (mem_ticket "a") -> ticket_at d "b" = Some (mem_ticket "b") ->
  Forall (fun j => Forall2 (assignable_match d) j.1 (job_matches j)) pair_jobs.
Proof.
  intros Ha Hb.
  assert (forall conn m id, not_reserved id -> ticket_at d id = Some (mem_ticket id) ->
    assignable_match d conn (mem_match m None [id])) as Hm.
  { intros conn m id Hr Hat. split; [done|]. split; [by repeat constructor|]. intros x ->%list_elem_of_singleton.
    exists (mem_ticket id). split; [exact Hat|]. split; [done|by eexists]. }
  assert (forall conn m id, not_reserved id -> ticket_at d id = Some (mem_ticket id) ->
    Forall2 (assignable_match d) [conn] [mem_match m None [id]]) as Hl.
  { intros conn m id Hr Hat. apply Forall2_cons. split; [by apply Hm|by apply Forall2_nil]. }
  apply Forall_cons. split; [by apply Hl; [concrete|]|]. apply Forall_singleton. by apply Hl; [concrete|].
Qed.

Lemma directors_assign_together_witness :
  Forall ended pair_end.1 /\ index (db_of pair_end.2) = index (db_of pair_world) ∖ list_to_set ["a"; "b"].
Proof.
  assert (Forall ended pair_end.1) as He by (vm_compute; repeat constructor). split; [exact He|].
  apply (directors_assign_together mem_cfg pair_jobs turns pair_world pair_end.1 pair_end.2 eq_refl pair_world_typed
    ltac:(concrete)
    (pair_assignable (db_of pair_world) ltac:(concrete) ltac:(concrete)) (surjective_pairing _)). exact He.
Defined.
