(* ===== verification/Players.v ===== *)
(** * Players of the tutorials ([tutorials/*/frontend])

    The clients that create tickets and delete them once they are assigned,
    and the tickets and profiles of the evaluator tutorials. Random draws are
    arguments. *)
From S2P Require Export Journey Director.

(** ** [frontend/main.go] *)

Definition ticketsPerIter : nat := 20.

(** [log.Fatalf] ends the process. *)
Inductive player_end := Polling | Deleted | Fatal (message : string).

Section Players.
Context `{Sys} `{Proto} (store : Service).

(** One tick of the clock: the loop runs for [i <= ticketsPerIter]. [draw]
    are the tickets as they are made. The program of one tutorial
    (the solution of [matchmaker102]) ends when a ticket cannot be created
    ([stop]), the others go on. *)
Fixpoint createTickets (stop : bool) (tickets : list (option Ticket)) : prog (list Ticket * bool) :=
  match tickets with
  | [] => Ret ([], false)
  | t :: tickets =>
      r ←! Frontend.CreateTicket store t;
      match r with
      | Err _ => if stop then Ret ([], true) else createTickets stop tickets
      | Ok resp =>
          x ←! createTickets stop tickets;
          Ret (resp :: x.1, x.2)
      end
  end.

Definition iteration (stop : bool) (draw : nat -> option Ticket) : prog (list Ticket * bool) :=
  createTickets stop (draw <$> seq 0 (S ticketsPerIter)).

(** [polls] bounds the loop; [Polling] is a player that sleeps. *)
Fixpoint deleteOnAssign (polls : nat) (id : string) : prog player_end :=
  match polls with
  | O => Ret Polling
  | S polls =>
      got ←! Frontend.GetTicket store id;
      match got with
      | Err _ => Ret (Fatal ("Failed to Get Ticket " +:+ id))
      | Ok t =>
          match t_Assignment t with
          | None => deleteOnAssign polls id
          | Some _ =>
              r ←! Frontend.DeleteTicket store id;
              Ret (match r with Ok _ => Deleted | Err _ => Fatal ("Failed to Delete Ticket " +:+ id) end)
          end
      end
  end.
End Players.

(** ** [frontend/ticket.go] of the evaluator tutorials *)

Definition queue_modes : list string := ["mode.demo"; "mode.ctf"; "mode.battleroyale"; "mode.2v2"].

Section Tickets.
Context `{MapOrder}.

(** [draws] are the indices drawn, one or two of them. *)
Definition gameModes (draws : list nat) : list string :=
  set_iter (list_to_set (omap (fun n => queue_modes !! n) draws)).

Definition enterQueueTime (now r : Z) : float64 := f_int (now + - r * time_Second).

Definition queue_makeTicket (draws : list nat) (now r : Z) : Ticket :=
  mkTicket "" None (Some (mkSearchFields {["time.enterqueue" := enterQueueTime now r]} ∅ (gameModes draws))) ∅ ∅ None.
End Tickets.

(** ** [director/profile.go] of the evaluator tutorials: a profile per mode *)

Definition mode_pool (mode : string) : Pool := mkPool ("pool_mode_" +:+ mode) [] [] [mkTagPresentFilter mode] None None.
Definition mode_profiles : list MatchProfile :=
  (fun mode => mkMatchProfile "mode_based_profile" [mode_pool mode] ∅) <$> modes.

(** ** What players see *)
Section PlayerSpec.
Context `{EnvironmentLaws} `{ProtoLaws} (cfg : View) (store : Service) `{!ServiceSpec cfg store} (Hf : sys_faulty = false).

Lemma deleteOnAssign_waits polls id v t : ticket_at (v_db v) id = Some t -> t_Assignment t = None ->
  wp (deleteOnAssign store polls id) v (fun r v' => r = Polling /\ v' = v).
Proof.
  intros Ht Ha. induction polls as [|polls IH]; cbn [deleteOnAssign]; [done|].
  apply wp_bind. unfold Frontend.GetTicket. call (call_GetTicket cfg); [|congruence].
  intros x Hx. rewrite Ht in Hx. injection Hx as <-. by rewrite Ha.
Qed.

(** A player whose ticket is assigned deletes it: the ticket leaves the index
    and nothing else changes; one whose ticket is not, polls on; one whose
    ticket is gone, ends with an error. *)
Theorem player_deletes polls id w r w' (Ht : typed (db_of w))
  (Hrun : run (deleteOnAssign store (S polls) id) w = (r, w')) :
  match ticket_at (db_of w) id with
  | Some t =>
      match t_Assignment t with
      | Some _ => r = Deleted /\ env_view w' = set_db (env_view w) (put_index (db_of w) (index (db_of w) ∖ {[id]}))
      | None => r = Polling /\ env_view w' = env_view w
      end
  | None => r = Fatal ("Failed to Get Ticket " +:+ id) /\ env_view w' = env_view w
  end.
Proof.
  run_start Hrun. destruct (ticket_at (db_of w) id) as [t|] eqn:Hat; [destruct (t_Assignment t) as [a|] eqn:Ha|].
  - cbn [deleteOnAssign]. apply wp_bind. unfold Frontend.GetTicket. call (call_GetTicket cfg); [|congruence].
    intros x Hx. rewrite Hat in Hx. injection Hx as <-. rewrite Ha. apply wp_bind.
    unfold Frontend.DeleteTicket, doDeleteTicket. do 2 apply wp_rbind. by call (call_DeindexTicket cfg).
  - by apply (deleteOnAssign_waits _ _ _ t).
  - cbn [deleteOnAssign]. apply wp_bind. unfold Frontend.GetTicket. call (call_GetTicket cfg); [congruence|done].
Qed.
End PlayerSpec.

(** Every tick makes 21 tickets. *)
Lemma iteration_count (draw : nat -> option Ticket) : length (draw <$> seq 0 (S ticketsPerIter)) = 21%nat.
Proof. by rewrite length_fmap, length_seq. Qed.

Section Pools.
Context `{MapOrder} `{Proto}.

Lemma elem_of_gameModes draws mode : mode ∈ gameModes draws <-> exists n, n ∈ draws /\ queue_modes !! n = Some mode.
Proof. unfold gameModes. by rewrite elem_of_set_iter, elem_of_list_to_set, list_elem_of_omap. Qed.

Lemma gameModes_distinct draws : NoDup (gameModes draws) /\ (length (gameModes draws) <= length draws)%nat.
Proof.
  unfold gameModes. rewrite set_iter_perm. split; [apply NoDup_elements|].
  assert (length (omap (fun n => queue_modes !! n) draws) <= length draws)%nat as Hl
    by (induction draws as [|n ns IH]; cbn; [lia|]; destruct (queue_modes !! n); cbn; lia).
  etrans; [|exact Hl]. apply submseteq_length, NoDup_submseteq; [apply NoDup_elements|]. intros x.
  by rewrite elem_of_elements, elem_of_list_to_set.
Qed.

(** A ticket is in the pools of the modes it was given. *)
Lemma ticket_mode_pools i pool mp draws now r id create :
  mode_profiles !! i = Some mp -> pool ∈ mp_Pools mp ->
  in_pool pool (set_ticket_create_time create (set_ticket_id id (queue_makeTicket draws now r))) <->
    exists n mode, n ∈ draws /\ queue_modes !! n = Some mode /\ modes !! i = Some mode.
Proof.
  intros Hi Hp. unfold mode_profiles in Hi. rewrite list_lookup_fmap in Hi. apply fmap_Some in Hi as (mode & -> & ->).
  cbn [mp_Pools] in Hp. apply list_elem_of_singleton in Hp as ->. unfold mode_pool. rewrite in_pool_fields.
  change (fields _) with (mkSearchFields {["time.enterqueue" := enterQueueTime now r]} ∅ (gameModes draws)).
  cbn [forallb andb]. rewrite andb_true_r. unfold tag_present_match. cbn [sf_Tags tpf_Tag].
  rewrite existsb_exists. setoid_rewrite bool_decide_eq_true. setoid_rewrite <- list_elem_of_In. setoid_rewrite elem_of_gameModes.
  naive_solver.
Qed.

(** The mode that has no profile: a ticket with that mode alone is in no pool
    of the director, whatever is drawn. *)
Lemma mode_without_profile draws now r id create mp pool :
  Forall (fun n => n = 3%nat) draws -> mp ∈ mode_profiles -> pool ∈ mp_Pools mp ->
  ~ in_pool pool (set_ticket_create_time create (set_ticket_id id (queue_makeTicket draws now r))).
Proof.
  intros Hd [i Hi]%list_elem_of_lookup Hp. rewrite (ticket_mode_pools i) by done. intros (n & mode & Hn & Hq & Hm).
  rewrite Forall_forall in Hd. apply Hd in Hn as ->. injection Hq as <-.
  apply list_elem_of_lookup_2 in Hm. revert Hm. by apply (bool_decide_unpack _).
Qed.
End Pools.
