(* ===== verification/Booking.v ===== *)
(** * No double booking

    The services at work on many tickets at once: tickets are created and
    deleted, replicas of the query service answer the match functions of a
    cycle, cycles evaluate proposals and hide the tickets of the matches they
    accept, directors assign matches or give them up. The calls come in any
    order and number; each is the handler itself, run between two worlds. *)
From stdpp Require Import functions.
From S2P Require Export Journey Director DefaultEval Cycle.

(** A match a cycle accepted, and when the cycle began to hide its tickets. *)
Record booking := mkBooking { bk_match : Match; bk_since : Z }.
Definition booked_ids (b : booking) : list string := match_ids (bk_match b).

(** The proposals of a cycle by match id, as [cacheMatchIDToTicketIDs] leaves them. *)
Definition ticket_map (ps : list Match) : gmap string (list string) :=
  foldl (fun m p => <[m_MatchId p := getTicketIds (m_Tickets p)]> m) ∅ ps.

Lemma ticket_map_snoc ps p : ticket_map (ps ++ [p]) = <[m_MatchId p := match_ids p]> (ticket_map ps).
Proof. unfold ticket_map. rewrite foldl_app. cbn. by rewrite getTicketIds_fmap. Qed.

Lemma ticket_map_Some ps id tids : ticket_map ps !! id = Some tids ->
  exists p, p ∈ ps /\ m_MatchId p = id /\ tids = match_ids p.
Proof.
  induction ps as [|p ps IH] using rev_ind; [cbn; by rewrite lookup_empty|].
  rewrite ticket_map_snoc. intros [[<- <-]|[_ (q & ? & ? & ?)%IH]]%lookup_insert_Some; [exists p|exists q]; set_solver.
Qed.

Lemma ticket_map_lookup ps p : NoDup (m_MatchId <$> ps) -> p ∈ ps -> ticket_map ps !! m_MatchId p = Some (match_ids p).
Proof.
  induction ps as [|q ps IH] using rev_ind; [by intros _ ?%not_elem_of_nil|].
  rewrite fmap_app, NoDup_app. intros (Hn & Hd & _) Hp. rewrite ticket_map_snoc.
  apply elem_of_app in Hp as [Hp|Hp%list_elem_of_singleton]; [|subst; apply lookup_insert_eq].
  rewrite lookup_insert_ne; [by apply IH|]. intros Heq. apply (Hd (m_MatchId p)); [by apply list_elem_of_fmap_2|].
  rewrite <- Heq. by left.
Qed.

(** The tickets of the slices are those of the accepted matches. *)
Lemma elem_of_slice_tickets ps slices t : NoDup (m_MatchId <$> ps) ->
  t ∈ slice_tickets (pair (ticket_map ps) <$> slices) <->
  exists p, p ∈ ps /\ m_MatchId p ∈ concat slices /\ t ∈ match_ids p.
Proof.
  intros Hn. unfold slice_tickets. rewrite <- list_fmap_compose, elem_of_concat. split.
  - intros (? & (l & -> & Hl)%list_elem_of_fmap & Ht). cbn in Ht. rewrite release_ids_concat in Ht.
    apply elem_of_concat in Ht as (tids & (id & Hid & (p & Hp & <- & ->)%ticket_map_Some)%list_elem_of_omap & Ht).
    exists p. split; [done|]. split; [|done]. apply elem_of_concat. eauto.
  - intros (p & Hp & (l & Hl & Hid)%elem_of_concat & Ht). exists (release_ids (ticket_map ps) l).
    split; [apply list_elem_of_fmap; by exists l|]. eapply elem_of_release_ids; [done|by apply ticket_map_lookup|done].
Qed.

(** The accepted ones. *)
Definition accepted_matches (ps : list Match) (ids : list string) : list Match :=
  filter (fun p => m_MatchId p ∈ ids) ps.

Section Market.
Context `{EnvironmentLaws} `{ProtoLaws} `{MapOrder} `{GoSort} (cfg : View) (store : Service)
  (UnmarshalAny : Any -> option DefaultEvaluationCriteria).

Record market := mkMarket {
  world : env_state;
  caches : nat -> gmap string Ticket;   (* of the replicas of the query service *)
  seen : gset string;                   (* by the match functions of the running cycle *)
  deleting : gset string;               (* goroutines that [DeleteTicket] started *)
  booked : list booking;                (* accepted, and not given up *)
}.

Definition open_market (w : env_state) : market := mkMarket w (fun _ => ∅) ∅ ∅ [].

Implicit Types (s : market) (w : env_state) (b : booking).

(** The release timeout of the bookings whose tickets are still in the index
    has not passed. *)
Definition in_time (d : db) (now : Z) (bs : list booking) : Prop :=
  forall b id, b ∈ bs -> id ∈ booked_ids b -> id ∈ index d ->
    now - bk_since b <= GetDuration cfg "pendingReleaseTimeout".

(** Given up when a ticket that is not assigned yet is released. *)
Definition holds (d : db) (released : list string) (b : booking) : Prop :=
  Forall (fun id => id ∈ index d -> id ∉ released) (booked_ids b).
#[global] Instance holds_dec d released b : Decision (holds d released b) := _.

Inductive activity s : market -> Prop :=
  (* time passes *)
| act_wait w' : db_of w' = db_of (world s) -> v_xids (env_view w') = v_xids (env_view (world s)) ->
    clock (world s) <= clock w' ->
    activity s (mkMarket w' (caches s) (seen s) (deleting s) (booked s))
  (* a client of the frontend *)
| act_create t r w' : t_Assignment t = None /\ t_CreateTime t = None ->
    (forall id c, is_Some (marshal_ticket (set_ticket_create_time c (set_ticket_id id t)))) ->
    run (Frontend.CreateTicket store (Some t)) (world s) = (Ok r, w') ->
    activity s (mkMarket w' (caches s) (seen s) (deleting s) (booked s))
| act_delete id lazily w' : id ∉ reserved -> (is_xid id = true -> id ∈ v_xids (env_view (world s))) ->
    run (Frontend.DeleteTicket store id) (world s) = (Ok lazily, w') ->
    activity s (mkMarket w' (caches s) (seen s) ({[id]} ∪ deleting s) (booked s))
| act_deleted id u w' : id ∈ deleting s -> run (lazy_delete store id) (world s) = (u, w') ->
    activity s (mkMarket w' (caches s) (seen s) (deleting s) (booked s))
  (* a replica of the query service comes up; one answers a match function *)
| act_replica n : activity s (mkMarket (world s) (<[n := ∅]> (caches s)) (seen s) (deleting s) (booked s))
| act_query n pool pf send out w' : NewPoolFilter pool = Ok pf -> (forall i page, send i page = None) ->
    run (QueryTickets store cfg send (Some pool) (caches s n)) (world s) = (out, w') ->
    in_time (db_of (world s)) (clock w') (booked s) ->
    activity s (mkMarket w' (<[n := out.1]> (caches s)) (list_to_set (t_Id <$> concat out.2.1) ∪ seen s)
                  (deleting s) (booked s))
  (* the cycle evaluates what its match functions made of the tickets they
     have seen, in slices; the next one starts with none seen *)
| act_cycle ps slices x w' : NoDup (m_MatchId <$> ps) -> (forall p id, p ∈ ps -> id ∈ match_ids p -> id ∈ seen s) ->
    concat slices = evaluate UnmarshalAny ps ->
    run (addMatchesToPendingRelease store (pair (ticket_map ps) <$> slices)) (world s) = (x, w') ->
    activity s (mkMarket w' (caches s) ∅ (deleting s)
                  (booked s ++ ((fun p => mkBooking p (clock (world s))) <$> accepted_matches ps x.1)))
  (* a director *)
| act_assign conn m r w' : NoDup (match_ids m) -> assignable_match (db_of (world s)) conn m ->
    run (AssignTickets store (assignment_request conn m)) (world s) = (r, w') ->
    activity s (mkMarket w' (caches s) (seen s) (deleting s) (booked s))
| act_release ids r w' : run (ReleaseTickets store ids) (world s) = (r, w') ->
    activity s (mkMarket w' (caches s) (seen s) (deleting s) (filter (holds (db_of (world s)) ids) (booked s)))
| act_release_all r w' : run (ReleaseAllTickets store) (world s) = (r, w') ->
    activity s (mkMarket w' (caches s) (seen s) (deleting s)
                  (filter (fun b => Forall (fun id => id ∉ index (db_of (world s))) (booked_ids b)) (booked s))).

(** ** The invariant *)

(** An id that something refers to. *)
Definition known s (id : string) : Prop :=
  is_Some (db_of (world s) !! id) \/ is_Some (pending (db_of (world s)) !! id) \/
  (exists n, is_Some (caches s n !! id)) \/ id ∈ seen s \/ id ∈ deleting s \/
  (exists b, b ∈ booked s /\ id ∈ booked_ids b).

Definition apart b b' : Prop := forall id, id ∈ booked_ids b -> id ∉ booked_ids b'.

Record sound s : Prop := {
  so_typed : typed (db_of (world s));
  so_index : index_ok (db_of (world s));
  so_caches n : coherent (caches s n) (db_of (world s));
  so_known id : known s id -> is_xid id = true -> id ∈ v_xids (env_view (world s));
  so_deleting id : id ∈ deleting s -> (id ∉ reserved) /\ (id ∉ index (db_of (world s)));
  so_held b id : b ∈ booked s -> id ∈ booked_ids b -> id ∈ index (db_of (world s)) ->
    hidden (bk_since b) (clock (world s)) (db_of (world s)) id;
  so_unseen b id : b ∈ booked s -> id ∈ booked_ids b -> id ∉ seen s;
  so_apart : StronglySorted apart (booked s);
}.

Lemma open_market_sound w : typed (db_of w) -> index_ok (db_of w) ->
  (forall i, is_xid i = true -> is_Some (db_of w !! i) \/ is_Some (pending (db_of w) !! i) -> i ∈ v_xids (env_view w)) ->
  sound (open_market w).
Proof.
  intros Ht Hi Hf. split; cbn; [done|done| | |set_solver| | |constructor].
  - intros n. apply coherent_empty.
  - intros id Hk Hx. apply Hf; [done|]. unfold known in Hk. cbn in Hk.
    destruct Hk as [?|[?|[[n [y Hn]]|[?|[?|(b & ?%not_elem_of_nil & _)]]]]]; auto; [|set_solver..].
    by rewrite lookup_empty in Hn.
  - by intros b id ?%not_elem_of_nil.
  - by intros b id ?%not_elem_of_nil.
Qed.

Lemma xid_neq id : is_xid id = true -> id <> allTickets /\ id <> proposedTicketIDs.
Proof. intros Hx%xid_not_reserved. split; intros ->; apply Hx; concrete. Qed.

(** A call that adds nothing to the index, and changes no ticket that stays
    there nor the mark of one that is booked. *)
Lemma sound_frame s ids w' del bs (Hs : sound s) (Ht : typed (db_of w')) (Hc : clock (world s) <= clock w')
  (Hx : v_xids (env_view w') = v_xids (env_view (world s)))
  (Hi : index (db_of w') ⊆ index (db_of (world s))) (Hk : keeps ids (db_of (world s)) (db_of w'))
  (Hids : forall id, id ∈ ids -> (id ∉ index (db_of w')) /\ (is_Some (db_of w' !! id) -> is_Some (db_of (world s) !! id)))
  (Hp : forall id, is_Some (pending (db_of w') !! id) -> is_Some (pending (db_of (world s)) !! id))
  (Hbs : sublist bs (booked s))
  (Hm : forall b id, b ∈ bs -> id ∈ booked_ids b -> id ∈ index (db_of w') ->
     pending (db_of w') !! id = pending (db_of (world s)) !! id)
  (Hdel : forall id, id ∈ del -> (id ∈ deleting s) \/
     ((id ∉ reserved) /\ (id ∉ index (db_of w')) /\ (is_xid id = true -> id ∈ v_xids (env_view (world s))))) :
  sound (mkMarket w' (caches s) (seen s) del bs).
Proof.
  pose proof (so_typed s Hs) as Ht0.
  assert (forall b, b ∈ bs -> b ∈ booked s) as Hb by (intros b Hbb; by eapply elem_of_sublist).
  split; cbn.
  - done.
  - apply (keeps_index_ok ids (db_of (world s))); [done..|apply Hs|auto|]. intros id Hid Hin. by apply Hids in Hin as [? _].
  - intros n. apply (keeps_coherent ids (db_of (world s))); [done..|apply Hs|auto|].
    intros id Hid Hin. by apply Hids in Hin as [? _].
  - intros id Hn Hxid. rewrite Hx. destruct (xid_neq id Hxid) as [Ha Hpr]. unfold known in Hn. cbn in Hn.
    assert (known s id \/ id ∈ del) as [Hkn|Hd]; [|by apply (so_known s Hs)|].
    + unfold known. destruct Hn as [Hn|[Hn|[Hn|[Hn|[Hn|(b & Hbb & Hn)]]]]]; [|naive_solver..].
      destruct (decide (id ∈ ids)) as [Hin|Hin]; [left; left; by apply Hids|]. rewrite Hk in Hn by done. auto.
    + destruct (Hdel id Hd) as [?|(_ & _ & Hxs)]; [|auto]. apply (so_known s Hs); [|done]. unfold known. tauto.
  - intros id Hd. destruct (Hdel id Hd) as [Hd'|(? & ? & _)]; [|done]. apply (so_deleting s Hs) in Hd' as [? Hni]. split; [done|].
    intros ?. by apply Hni, Hi.
  - intros b id Hbb Hid Hin. destruct (so_held s Hs b id (Hb b Hbb) Hid (Hi id Hin)) as (tau & Htau & ? & ?).
    exists tau. rewrite (Hm b id Hbb Hid Hin). split; [done|lia].
  - intros b id Hbb. apply (so_unseen s Hs), Hb, Hbb.
  - eapply StronglySorted_sublist; [exact Hbs|apply Hs].
Qed.

(** ** The calls *)
Context `{!ServiceSpec cfg store} (Hf : sys_faulty = false).

Lemma wait_sound s w' : sound s -> db_of w' = db_of (world s) -> v_xids (env_view w') = v_xids (env_view (world s)) ->
  clock (world s) <= clock w' -> sound (mkMarket w' (caches s) (seen s) (deleting s) (booked s)).
Proof.
  intros Hs Hd Hx Hc. apply (sound_frame s ∅); rewrite ?Hd; [done|apply Hs|done..| |done|done| |auto].
  - set_solver.
  - done.
Qed.

Lemma assign_sound s conn m r w' : sound s -> NoDup (match_ids m) -> assignable_match (db_of (world s)) conn m ->
  run (AssignTickets store (assignment_request conn m)) (world s) = (r, w') ->
  sound (mkMarket w' (caches s) (seen s) (deleting s) (booked s)).
Proof.
  intros Hs Hn Hm Hrun.
  pose proof (run_wp _ _ _ _ _ (assign_match_wp cfg store conn m _ Hf (so_typed s Hs) Hn Hm) Hrun)
    as (_ & _ & Hi & _ & Ht & Hk & Hp & Hc & Hx).
  assert (forall id, id ∈ index (db_of w') -> id ∈ index (db_of (world s)) /\ (id ∉ match_ids m)) as Hi'.
  { intros id. rewrite Hi. set_solver. }
  apply (sound_frame s (list_to_set (match_ids m))); [done..| | | | |done| |auto].
  - intros id Hid. by apply Hi'.
  - intros k Hkn ??. apply Hk; [set_solver|done..].
  - intros id Hid%elem_of_list_to_set. split; [by intros [_ ?]%Hi'|]. intros _.
    destruct Hm as (_ & _ & Hst). destruct (Hst id Hid) as (y & Hy & _).
    unfold ticket_at, get_str in Hy. destruct (_ !! id) eqn:Hd; [by eexists|done].
  - intros id. rewrite Hp. case_decide; [by intros []|done].
  - intros b id _ _ [_ Hid]%Hi'. by rewrite Hp, decide_False.
Qed.

Lemma release_sound s ids r w' : sound s -> run (ReleaseTickets store ids) (world s) = (r, w') ->
  sound (mkMarket w' (caches s) (seen s) (deleting s) (filter (holds (db_of (world s)) ids) (booked s))).
Proof.
  intros Hs Hrun. pose proof (so_typed s Hs) as Ht.
  assert (env_view w' = set_db (env_view (world s)) (remove_pending (db_of (world s)) ids)) as Hw.
  { run_start Hrun. unfold ReleaseTickets, doReleaseTickets. apply wp_rbind, wp_bind. by call (call_RemovePending cfg). }
  assert (forall id, pending (remove_pending (db_of (world s)) ids) !! id =
    if decide (id ∈ ids) then None else pending (db_of (world s)) !! id) as Hp
    by (intros id; rewrite pending_remove_pending; apply lookup_zrem_all).
  apply (sound_frame s ∅); rewrite ?Hw; cbn [set_db v_db v_now v_xids];
    [done|by apply typed_remove_pending|done|done|by rewrite index_remove_pending| |set_solver| |apply sublist_filter| |auto].
  - intros k _ _ Hk. unfold remove_pending. destruct ids; [done|]. by apply put_zset_ne.
  - intros id. rewrite Hp. case_decide; [by intros []|done].
  - intros b id [Hh _]%list_elem_of_filter Hid Hin. rewrite index_remove_pending in Hin.
    rewrite Hp, decide_False; [done|]. unfold holds in Hh. rewrite Forall_forall in Hh. auto.
Qed.

Lemma typed_release_all d : typed d -> typed (delete proposedTicketIDs d).
Proof.
  unfold typed, get_set, get_zset, get_hash. rewrite lookup_delete_eq, !lookup_delete_ne by discriminate. naive_solver.
Qed.

Lemma release_all_sound s r w' : sound s -> run (ReleaseAllTickets store) (world s) = (r, w') ->
  sound (mkMarket w' (caches s) (seen s) (deleting s)
           (filter (fun b => Forall (fun id => id ∉ index (db_of (world s))) (booked_ids b)) (booked s))).
Proof.
  intros Hs Hrun. pose proof (so_typed s Hs) as Ht.
  assert (env_view w' = set_db (env_view (world s)) (delete proposedTicketIDs (db_of (world s)))) as Hw.
  { run_start Hrun. unfold ReleaseAllTickets. apply wp_rbind. by call (call_ReleaseAll cfg). }
  assert (forall k, k <> proposedTicketIDs -> delete proposedTicketIDs (db_of (world s)) !! k = db_of (world s) !! k)
    as Hk by (intros k Hk; by apply lookup_delete_ne).
  assert (index (delete proposedTicketIDs (db_of (world s))) = index (db_of (world s))) as Hi
    by (unfold index, get_set; by rewrite Hk).
  assert (pending (delete proposedTicketIDs (db_of (world s))) = ∅) as Hp
    by (unfold pending, get_zset; by rewrite lookup_delete_eq).
  apply (sound_frame s ∅); rewrite ?Hw; cbn [set_db v_db v_now v_xids];
    [done|by apply typed_release_all|done|done|by rewrite Hi|intros k _ _ Hkp; by apply Hk|set_solver| |apply sublist_filter| |auto].
  - intros id [y Hy]. rewrite Hp in Hy. by rewrite lookup_empty in Hy.
  - intros b id [Hh _]%list_elem_of_filter Hid Hin. rewrite Hi in Hin. rewrite Forall_forall in Hh. by apply Hh in Hin.
Qed.

Lemma delete_sound s id lazily w' : sound s -> id ∉ reserved -> (is_xid id = true -> id ∈ v_xids (env_view (world s))) ->
  run (Frontend.DeleteTicket store id) (world s) = (Ok lazily, w') ->
  sound (mkMarket w' (caches s) (seen s) ({[id]} ∪ deleting s) (booked s)).
Proof.
  intros Hs Hres Hiss Hrun. pose proof (so_typed s Hs) as Ht.
  assert (env_view w' = set_db (env_view (world s)) (put_index (db_of (world s)) (index (db_of (world s)) ∖ {[id]}))) as Hw.
  { run_start Hrun. unfold Frontend.DeleteTicket, doDeleteTicket. do 2 apply wp_rbind. by call (call_DeindexTicket cfg). }
  apply (sound_frame s ∅); rewrite ?Hw; cbn [set_db v_db v_now v_xids]; rewrite ?index_put_index, ?pending_put_index;
    [done|auto with om|done|done|set_solver| |set_solver|done|done|by rewrite ?pending_put_index|].
  - intros k _ Hk _. by apply put_set_ne.
  - intros k [->%elem_of_singleton|Hk]%elem_of_union; [|by left]. right. split; [done|]. split; [set_solver|done].
Qed.

Lemma deleted_sound s id u w' : sound s -> id ∈ deleting s -> run (lazy_delete store id) (world s) = (u, w') ->
  sound (mkMarket w' (caches s) (seen s) (deleting s) (booked s)).
Proof.
  intros Hs Hd Hrun. pose proof (so_typed s Hs) as Ht. destruct (so_deleting s Hs id Hd) as [Hres Hni].
  assert (exists d, env_view w' = set_db (env_view (world s)) (remove_pending d [id]) /\
    (d = db_of (world s) \/ d = delete id (db_of (world s)))) as (d & Hw & Hdd).
  { run_start Hrun. unfold lazy_delete. call (call_DeleteTicket cfg); [intros _|intros e Hn _];
      (call (call_RemovePending cfg); [cbn; auto with om|]); cbn [wp]; eexists; (split; [reflexivity|cbn; auto]). }
  assert (typed d /\ index d = index (db_of (world s)) /\ pending d = pending (db_of (world s)) /\
    keeps {[id]} (db_of (world s)) d /\ (is_Some (d !! id) -> is_Some (db_of (world s) !! id))) as (Htd & Hi & Hp & Hk & Hst).
  { destruct Hdd as [->| ->]; [done|]. rewrite index_delete, pending_delete by done. split_and!; [auto with om|done..| |].
    - intros k Hk _ _. rewrite lookup_delete_ne; [done|]. set_solver.
    - rewrite lookup_delete_eq. by intros []. }
  assert (forall k, pending (remove_pending d [id]) !! k = if decide (k ∈ [id]) then None else pending (db_of (world s)) !! k) as Hp'
    by (intros k; rewrite pending_remove_pending, Hp; apply lookup_zrem_all).
  assert (forall k, k <> proposedTicketIDs -> remove_pending d [id] !! k = d !! k) as Hrp
    by (intros k Hkp; by apply put_zset_ne).
  apply (sound_frame s {[id]}); rewrite ?Hw; cbn [set_db v_db v_now v_xids];
    [done|auto with om|done|done|by rewrite index_remove_pending, Hi| | | |done| |auto].
  - intros k Hkn Hka Hkp. rewrite Hrp by done. by apply Hk.
  - intros k ->%elem_of_singleton. rewrite index_remove_pending, Hi. split; [done|].
    rewrite Hrp by (intros ->; apply Hres; concrete). done.
  - intros k. rewrite Hp'. case_decide; [by intros []|done].
  - intros b k _ _ Hin. rewrite index_remove_pending, Hi in Hin. rewrite Hp', decide_False; [done|].
    by intros ->%list_elem_of_singleton.
Qed.

Lemma create_sound s t r w' : sound s -> t_Assignment t = None /\ t_CreateTime t = None ->
  (forall id c, is_Some (marshal_ticket (set_ticket_create_time c (set_ticket_id id t)))) ->
  run (Frontend.CreateTicket store (Some t)) (world s) = (Ok r, w') ->
  sound (mkMarket w' (caches s) (seen s) (deleting s) (booked s)).
Proof.
  intros Hs Hnew Hm Hrun.
  destruct (create_step cfg store t (world s) r w' Hf (so_typed s Hs) (so_index s Hs)
    ltac:(intros i Hx Hk; apply (so_known s Hs); [unfold known; tauto|done]) Hnew Hm Hrun)
    as ((now & Hnow & _) & Ht & Hok & Hres & Hco & _ & _ & [Hx Hnx] & Hxs & Hk & Hi & Hp).
  assert (~ known s (t_Id r)) as Hfresh by (intros Hkn; by apply Hnx, (so_known s Hs)).
  unfold known in Hfresh. split; cbn.
  - done.
  - done.
  - intros n. apply Hco; [apply Hs|]. apply eq_None_not_Some. intros ?. apply Hfresh. eauto.
  - intros id Hkn Hxid. destruct (xid_neq id Hxid) as [? ?]. rewrite Hxs.
    destruct (decide (id = t_Id r)) as [->|Hne]; [set_solver|]. apply elem_of_union_r, (so_known s Hs); [|done].
    unfold known in *. cbn in Hkn. rewrite Hp, Hk in Hkn by set_solver. done.
  - intros id Hd. destruct (so_deleting s Hs id Hd). split; [done|]. rewrite Hi.
    intros [->%elem_of_singleton|?]%elem_of_union; [|done]. apply Hfresh. tauto.
  - intros b id Hb Hid. rewrite Hi. intros [->%elem_of_singleton|Hin]%elem_of_union; [destruct Hfresh; eauto 10|].
    destruct (so_held s Hs b id Hb Hid Hin) as (tau & Htau & ? & ?). exists tau. rewrite Hp. split; [done|lia].
  - apply Hs.
  - apply Hs.
Qed.

Lemma replica_sound s n : sound s ->
  sound (mkMarket (world s) (<[n := ∅]> (caches s)) (seen s) (deleting s) (booked s)).
Proof.
  intros Hs. assert (forall k id, (<[n := ∅]> (caches s)) k !! id = caches s k !! id \/ (<[n := ∅]> (caches s)) k !! id = None) as Hc.
  { intros k id. destruct (decide (n = k)) as [<-|Hne].
    - rewrite fn_lookup_insert, lookup_empty. by right.
    - rewrite fn_lookup_insert_ne by done. by left. }
  split; cbn; try apply Hs.
  - intros k id y Hy. destruct (Hc k id) as [He|He]; rewrite He in Hy; [by eapply (so_caches s Hs)|done].
  - intros id Hkn. apply (so_known s Hs). unfold known in *. cbn in *.
    destruct Hkn as [?|[?|[[k Hkn]|?]]]; [auto..| |auto]. destruct (Hc k id) as [He|He]; rewrite He in Hkn; [eauto|by destruct Hkn].
Qed.

Lemma query_sound s n pool pf send out w' : sound s -> NewPoolFilter pool = Ok pf -> (forall i page, send i page = None) ->
  run (QueryTickets store cfg send (Some pool) (caches s n)) (world s) = (out, w') ->
  in_time (db_of (world s)) (clock w') (booked s) ->
  sound (mkMarket w' (<[n := out.1]> (caches s)) (list_to_set (t_Id <$> concat out.2.1) ∪ seen s) (deleting s) (booked s)).
Proof.
  intros Hs Hpf Hsend Hrun Htime.
  destruct (query_step cfg store _ _ _ _ _ _ _ Hf (so_typed s Hs) (so_index s Hs) (so_caches s Hs n) Hpf Hsend Hrun)
    as (Hd & Hc & Hx & now & Hnow & Hnot & Hco & Hp & Hin).
  assert (forall id x, ticket_at (db_of (world s)) id = Some x -> known s id) as Hst.
  { intros id x Hx0. left. unfold ticket_at, get_str in Hx0. destruct (_ !! id); [by eexists|done]. }
  split; cbn; rewrite ?Hd.
  - apply Hs.
  - apply Hs.
  - intros k. destruct (decide (n = k)) as [<-|Hne]; [by rewrite fn_lookup_insert|].
    rewrite fn_lookup_insert_ne by done. apply Hs.
  - intros id Hkn Hxid. rewrite Hx. apply (so_known s Hs); [|done]. unfold known in Hkn. cbn in Hkn. rewrite Hd in Hkn.
    destruct Hkn as [?|[?|[[k Hkn]|[[Hkn|?]%elem_of_union|?]]]]; try (unfold known; by eauto 10).
    + destruct (decide (n = k)) as [<-|Hne]; [rewrite fn_lookup_insert in Hkn|rewrite fn_lookup_insert_ne in Hkn by done].
      * destruct Hkn as [x Hkn]. by eapply Hst, Hin.
      * unfold known. eauto.
    + apply elem_of_list_to_set, list_elem_of_fmap in Hkn as (x & -> & (id & Hv & Hat & _)%Hp).
      destruct (so_index s Hs id (proj1 Hv)) as (x' & Hx' & Hid).
      { intros Hnone. unfold ticket_at in Hat. by rewrite Hnone in Hat. }
      assert (x' = x) as -> by congruence. rewrite Hid. by eapply Hst.
  - apply Hs.
  - intros b id Hb Hid Hi. destruct (so_held s Hs b id Hb Hid Hi) as (tau & ? & ? & ?). exists tau. split; [done|lia].
  - intros b id Hb Hid [Hpage%elem_of_list_to_set|Hseen]%elem_of_union; [|by apply (so_unseen s Hs b id)].
    revert Hpage. apply Hnot. intros [Hi Hv]. apply Hv.
    apply (hidden_in_window cfg store (bk_since b) (clock (world s))); [by apply (so_held s Hs b id)|lia|].
    specialize (Htime b id Hb Hid Hi). lia.
  - apply Hs.
Qed.
(** Two matches of a selection share no ticket. *)
Lemma accepted_disjoint ps p q : NoDup (m_MatchId <$> ps) ->
  p ∈ accepted_matches ps (evaluate UnmarshalAny ps) -> q ∈ accepted_matches ps (evaluate UnmarshalAny ps) ->
  m_MatchId p <> m_MatchId q -> forall id, id ∈ match_ids p -> id ∉ match_ids q.
Proof.
  intros Hn. unfold accepted_matches. rewrite evaluate_greedy. set (acc := greedy _ _).
  assert (forall p, p ∈ filter (fun p => m_MatchId p ∈ result_id <$> acc) ps -> exists i a, acc !! i = Some a /\ match_ a = p) as Hof.
  { clear p q. intros p [(a & Heq & Ha)%list_elem_of_fmap Hp]%list_elem_of_filter.
    assert (a ∈ collect UnmarshalAny ps) as [Hap _]%elem_of_collect.
    { rewrite <- (sort_perm Less). eapply elem_of_sublist; [exact Ha|apply greedy_sublist]. }
    apply list_elem_of_lookup in Ha as [i Hi]. exists i, a. split; [done|]. by apply (NoDup_fmap_inj m_MatchId ps). }
  intros (i & a & Hi & <-)%Hof (j & a' & Hj & <-)%Hof Hne id Hid Hid'.
  assert (i <> j) by congruence. destruct (decide (i < j)%nat) as [Hlt|Hlt].
  - eapply (greedy_disjoint collides_inp); [exact Hi|exact Hj|done|]. left. apply Exists_exists. eauto.
  - eapply (greedy_disjoint collides_inp); [exact Hj|exact Hi|lia|]. left. apply Exists_exists. eauto.
Qed.

Lemma cycle_sound s ps slices x w' : sound s -> NoDup (m_MatchId <$> ps) ->
  (forall p id, p ∈ ps -> id ∈ match_ids p -> id ∈ seen s) -> concat slices = evaluate UnmarshalAny ps ->
  run (addMatchesToPendingRelease store (pair (ticket_map ps) <$> slices)) (world s) = (x, w') ->
  sound (mkMarket w' (caches s) ∅ (deleting s)
           (booked s ++ ((fun p => mkBooking p (clock (world s))) <$> accepted_matches ps x.1))).
Proof.
  intros Hs Hn Hps Hsl Hrun.
  pose proof (run_wp _ _ _ _ _ (add_matches_forwards store _ _) Hrun) as Hids. cbn in Hids.
  rewrite <- list_fmap_compose in Hids. change (snd ∘ pair (ticket_map ps)) with (fun l : list string => l) in Hids.
  rewrite list_fmap_id, Hsl in Hids.
  pose proof (run_wp _ _ _ _ _ (add_matches_wp cfg store _ _ Hf (so_typed s Hs)) Hrun)
    as (_ & Ht & Hc & Hi & Hin & Hout & Hk & Hx). clear Hrun.
  set (tks := slice_tickets _) in *. assert (forall t, t ∈ tks <->
    exists p, p ∈ ps /\ m_MatchId p ∈ evaluate UnmarshalAny ps /\ t ∈ match_ids p) as Htks
    by (intros t; rewrite <- Hsl; by apply elem_of_slice_tickets).
  rewrite Hids. clear Hids x Hsl.
  set (new := _ <$> _). assert (forall b, b ∈ new -> bk_since b = clock (world s) /\
    bk_match b ∈ ps /\ m_MatchId (bk_match b) ∈ evaluate UnmarshalAny ps) as Hnew.
  { intros b (p & -> & [? ?]%list_elem_of_filter)%list_elem_of_fmap. done. }
  assert (forall id, id ∈ tks -> id ∈ seen s) as Hts by (intros id (p & ? & _ & ?)%Htks; eauto).
  assert (forall b id, b ∈ new -> id ∈ booked_ids b -> id ∈ seen s) as Hnb
    by (intros b id (_ & ? & _)%Hnew Hid; eauto).
  split; cbn.
  - done.
  - apply (keeps_index_ok ∅ (db_of (world s))); [apply Hs|done|intros k _ _ ?; by apply Hk|apply Hs|by rewrite Hi|set_solver].
  - intros n. apply (keeps_coherent ∅ (db_of (world s))); [apply Hs|done|intros k _ _ ?; by apply Hk|apply Hs|by rewrite Hi|set_solver].
  - intros id Hkn Hxid. rewrite Hx. destruct (xid_neq id Hxid) as [_ Hne]. apply (so_known s Hs); [|done].
    unfold known in *. cbn in Hkn. rewrite Hk in Hkn by done. destruct (decide (id ∈ tks)) as [Hid|Hid]; [auto 10|].
    rewrite Hout in Hkn by done. destruct Hkn as [?|[?|[?|[?|[?|(b & [Hb|Hb]%elem_of_app & Hbid)]]]]];
      [by auto 10..|set_solver|by auto 10|by eauto 10|]. by eauto 10.
  - rewrite Hi. apply Hs.
  - intros b id [Hb|Hb]%elem_of_app Hid Hidx.
    + rewrite Hi in Hidx. destruct (so_held s Hs b id Hb Hid Hidx) as (tau & Htau & ? & ?). exists tau.
      rewrite Hout by (intros Ht'%Hts; by apply (so_unseen s Hs b id)). split; [done|lia].
    + destruct (Hnew b Hb) as (-> & Hp & Hev). apply Hin, Htks. eauto.
  - set_solver.
  - apply StronglySorted_app_2; [|apply Hs|].
    + intros b b' Hb Hb' id Hid Hid'. apply (so_unseen s Hs b id Hb Hid). eauto.
    + apply (StronglySorted_NoDup _ (fun b => m_MatchId (bk_match b))).
      * unfold new. rewrite <- list_fmap_compose. eapply sublist_NoDup; [exact Hn|]. apply fmap_sublist, sublist_filter.
      * intros b b' (p & -> & Hp)%list_elem_of_fmap (q & -> & Hq)%list_elem_of_fmap Hne id.
        by apply (accepted_disjoint ps p q).
Qed.
Lemma activity_sound s s' : sound s -> activity s s' -> sound s'.
Proof.
  intros Hs [w' Hd Hx Hc|t r w' Hnew Hm Hrun|id lazily w' Hres Hiss Hrun|id u w' Hd Hrun|n|n pool pf send out w' Hpf Hsend Hrun Ht
    |ps slices x w' Hn Hps Hsl Hrun|conn m r w' Hn Hm Hrun|ids r w' Hrun|r w' Hrun].
  - by apply wait_sound.
  - by eapply create_sound.
  - by eapply delete_sound.
  - by eapply deleted_sound.
  - by apply replica_sound.
  - by eapply query_sound.
  - by eapply cycle_sound.
  - by eapply assign_sound.
  - by eapply release_sound.
  - by eapply release_all_sound.
Qed.

Lemma activities_sound s s' : rtc activity s s' -> sound s -> sound s'.
Proof. induction 1; eauto using activity_sound. Qed.

(** C1. No double booking. From an empty store, or one whose index can be read, let
    the services work in any order on any number of tickets: as long as no
    query ends after the release timeout of a booking whose tickets are still
    in the index, no ticket is in two accepted matches that were not given up;
    a ticket of an accepted match is not among those that the match functions
    of the next cycle see, and no query made within the timeout finds it. *)
Theorem no_double_booking w s
  (Ht : typed (db_of w)) (Hok : index_ok (db_of w))
  (Hids : forall i, is_xid i = true -> is_Some (db_of w !! i) \/ is_Some (pending (db_of w) !! i) -> i ∈ v_xids (env_view w))
  (Hrun : rtc activity (open_market w) s) :
  (forall i j b b' id, booked s !! i = Some b -> booked s !! j = Some b' -> id ∈ booked_ids b -> id ∈ booked_ids b' -> i = j) /\
  (forall b id, b ∈ booked s -> id ∈ booked_ids b ->
     (id ∉ seen s) /\
     forall now, clock (world s) <= now -> now - bk_since b <= GetDuration cfg "pendingReleaseTimeout" ->
       ~ visible cfg (db_of (world s)) now id).
Proof.
  pose proof (activities_sound _ _ Hrun (open_market_sound w Ht Hok Hids)) as Hs.
  split.
  - intros i j b b' id Hi Hj Hid Hid'.
    destruct (Nat.lt_trichotomy i j) as [Hlt|[?|Hlt]]; [exfalso|done|exfalso].
    + by apply (StronglySorted_lookup_lt _ _ _ _ _ _ (so_apart s Hs) Hi Hj Hlt id).
    + by apply (StronglySorted_lookup_lt _ _ _ _ _ _ (so_apart s Hs) Hj Hi Hlt id).
  - intros b id Hb Hid. split; [by apply (so_unseen s Hs b)|]. intros now Hlo Hhi [Hi Hv]. apply Hv.
    by apply (hidden_in_window cfg store (bk_since b) (clock (world s))); [apply (so_held s Hs b id)|..].
Qed.
End Market.

(** ** Two cycles in memory

    Three tickets; the first cycle accepts the better of two proposals that
    share one, the second cycle makes a match of the ticket that is left. *)
#[local] Existing Instance insertion_go_sort.

Definition market_create := Frontend.CreateTicket mem_store (Some journey_ticket).
Definition market_query tc := QueryTickets mem_store mem_cfg (fun _ _ => None) (Some journey_pool) tc.
Definition created (r : result Ticket) : Ticket := match r with Ok t => t | Err _ => journey_ticket end.

Definition after_create s : market :=
  mkMarket (after market_create (world s)) (caches s) (seen s) (deleting s) (booked s).
Definition after_query s : market :=
  let q := market_query (caches s 0%nat) in
  mkMarket (after q (world s)) (<[0%nat := (ans q (world s)).1]> (caches s))
    (list_to_set (t_Id <$> concat (ans q (world s)).2.1) ∪ seen s) (deleting s) (booked s).
Definition cycle_of ps := addMatchesToPendingRelease mem_store (pair (ticket_map ps) <$> [evaluate demo_criteria ps]).
Definition after_cycle ps s : market :=
  mkMarket (after (cycle_of ps) (world s)) (caches s) ∅ (deleting s)
    (booked s ++ ((fun p => mkBooking p (clock (world s))) <$> accepted_matches ps (ans (cycle_of ps) (world s)).1)).

Definition market_three : market := after_create (after_create (after_create (open_market mem_init))).
Definition market_ps1 : list Match :=
  [demo_match "m1" (Some "3") [mem_id 0; mem_id 1]; demo_match "m2" (Some "5") [mem_id 1; mem_id 2]].
Definition market_ps2 : list Match := [demo_match "m3" None [mem_id 0]].
Definition market_end : market :=
  after_cycle market_ps2 (after_query (after_cycle market_ps1 (after_query market_three))).

#[local] Abbreviation mem_activity := (activity mem_cfg mem_store demo_criteria).

Lemma market_creates s : is_ok (ans market_create (world s)) = true -> mem_activity s (after_create s).
Proof.
  intros Hok. apply (act_create _ _ _ s journey_ticket (created (ans market_create (world s)))).
  - split; reflexivity.
  - intros id c. by eexists.
  - etrans; [apply surjective_pairing|]. fold market_create. unfold ans, after in *.
    destruct (run market_create (world s)) as [[t|e] w']; [reflexivity|discriminate Hok].
Qed.

Lemma market_queries s :
  Forall (fun b => clock (world (after_query s)) - bk_since b <= GetDuration mem_cfg "pendingReleaseTimeout") (booked s) ->
  mem_activity s (after_query s).
Proof.
  intros Ht. rewrite Forall_forall in Ht. eapply (act_query _ _ _ s 0%nat journey_pool journey_filter (fun _ _ => None)); [reflexivity|done|..].
  - apply surjective_pairing.
  - intros b id Hb _ _. by apply Ht.
Qed.

Lemma market_cycles ps s : NoDup (m_MatchId <$> ps) -> Forall (fun p => Forall (fun id => id ∈ seen s) (match_ids p)) ps ->
  mem_activity s (after_cycle ps s).
Proof.
  intros Hn Hs. eapply (act_cycle _ _ _ s ps [evaluate demo_criteria ps]); [done|..].
  - intros p id Hp. revert id. apply Forall_forall. revert p Hp. by apply Forall_forall.
  - apply app_nil_r.
  - apply surjective_pairing.
Qed.

Lemma no_double_booking_witness :
  rtc mem_activity (open_market mem_init) market_end /\
  (m_MatchId ∘ bk_match <$> booked market_end) = ["m2"; "m3"] /\
  forall b b' id, booked market_end !! 0%nat = Some b -> booked market_end !! 1%nat = Some b' ->
    id ∈ booked_ids b -> id ∉ booked_ids b'.
Proof.
  assert (rtc mem_activity (open_market mem_init) market_end) as Hrun.
  { do 3 (eapply rtc_l; [apply market_creates; vm_compute; reflexivity|]).
    eapply rtc_l; [apply market_queries; constructor|].
    eapply rtc_l; [apply (market_cycles market_ps1); concrete|].
    eapply rtc_l; [apply market_queries; concrete|].
    eapply rtc_l; [apply (market_cycles market_ps2); concrete|]. apply rtc_refl. }
  split; [exact Hrun|]. split; [vm_compute; reflexivity|]. intros b b' id Hb Hb' Hid Hid'.
  destruct (no_double_booking mem_cfg mem_store demo_criteria (eq_refl : @sys_faulty mem_sys = false) mem_init market_end) as [Hone _].
  - concrete.
  - intros i Hi. change (i ∈ (∅ : gset string)) in Hi. apply elem_of_empty in Hi as [].
  - intros i _ [[x Hx]|[x Hx]].
    + change (db_of mem_init) with (∅ : db) in Hx. rewrite lookup_empty in Hx. discriminate Hx.
    + change (pending (db_of mem_init)) with (∅ : gmap string Z) in Hx. rewrite lookup_empty in Hx. discriminate Hx.
  - exact Hrun.
  - discriminate (Hone 0%nat 1%nat b b' id Hb Hb' Hid Hid').
Defined.
