(* ===== verification/MatchFlow.v ===== *)
(** * From proposal to director

    The calls of FetchMatches together with the cycle of the synchronizer
    that serves them: each call has a Synchronize call of the cycle at the
    other end of its stream, and the cycle's evaluator is the default one. *)
From S2P Require Export BackendProps Booking CycleRun.

(** ** The default evaluator as the evaluator of a cycle

    It returns nothing before the end of its input, and then the ids it
    selects, one after the other. *)
Section DefaultCycle.
Context `{GoSort} (UnmarshalAny : Any -> option DefaultEvaluationCriteria).

Definition default_emits (seen : list Match) (cl : bool) (out : list string) (id : string) : Prop :=
  cl = true /\ (out ++ [id]) `prefix_of` evaluate UnmarshalAny seen.

Lemma evaluate_given ps id : id ∈ evaluate UnmarshalAny ps -> exists m, m ∈ ps /\ m_MatchId m = id.
Proof.
  rewrite evaluate_greedy. intros (a & -> & Ha)%list_elem_of_fmap.
  assert (a ∈ collect UnmarshalAny ps) as [Hm _]%elem_of_collect.
  { rewrite <- (sort_perm Less). eapply elem_of_sublist; [exact Ha|apply greedy_sublist]. }
  by exists (match_ a).
Qed.

Lemma default_emits_given seen cl out id : default_emits seen cl out id -> exists m, m ∈ seen /\ m_MatchId m = id.
Proof.
  intros [_ Hp]. apply evaluate_given. eapply elem_of_prefix; [|exact Hp]. apply elem_of_app. right. by left.
Qed.

(** What was returned is what is selected from all proposals, so far. *)
Definition selecting (s : cycle) : Prop :=
  ev_out (cy_eval s) = [] \/
  (ev_in_closed (cy_eval s) = true /\ ev_out (cy_eval s) `prefix_of` evaluate UnmarshalAny (ev_seen (cy_eval s))).

Lemma selecting_internal s s' : internal_step s s' -> selecting s -> selecting s'.
Proof. by destruct 1. Qed.

Lemma selecting_env s s' : wiring s -> env_step default_emits s s' -> selecting s -> selecting s'.
Proof.
  intros W Hs Hsel. destruct Hs; try exact Hsel; unfold selecting in *; cbn in *.
  - destruct Hsel as [->|[Hc _]]; [by left|]. apply (wr_eval _ W) in Hc. by apply buf_send_past in H1 as [_ ?]; congruence.
  - destruct Hsel as [->|[_ ?]]; auto.
  - destruct H1 as [-> Hp]. auto.
Qed.

Lemma cycle_selecting s : cycle_reachable default_emits s -> selecting s.
Proof.
  induction 1 as [|s s' Hr IH [Hs|Hs]]; [by left|by eapply selecting_internal|].
  apply (selecting_env s); [by eapply cycle_wiring|done..].
Qed.

(** Every id returned is one the evaluator selects from all proposals of the
    cycle. *)
Lemma selected s id : cycle_reachable default_emits s -> id ∈ ev_out (cy_eval s) ->
  id ∈ evaluate UnmarshalAny (mm_m <$> sent s).
Proof.
  intros Hr Hid. destruct (cycle_selecting s Hr) as [He|[Hc Hp]]; [rewrite He in Hid; by apply not_elem_of_nil in Hid|].
  rewrite <- (pipeline_drained s) by (done || by eapply cycle_wiring || by eapply cycle_fifo). by eapply elem_of_prefix.
Qed.
End DefaultCycle.

(** ** Calls of FetchMatches on a cycle *)
Section Served.
Context `{EnvironmentLaws} `{ProtoLaws} (store : Service).

(** The call [k] of the cycle is the Synchronize call of a FetchMatches call
    that went through the events [evs] and is now in the state [s]: what the
    cycle took from it was sent by the backend, and the ids the backend
    received were streamed by it; a response that carries no id starts or
    cancels the match functions. *)
Record served (cy : cycle) (k : callid) (evs : list fetch_event) (s : fetch_state) : Prop := {
  sv_run : exists w w', run (fetch_run store fetch_init evs) w = (s, w');
  sv_proposals p : mkMAndM7c p k ∈ sent cy -> p ∈ f_synced s;
  sv_responses resp e : FromSynchronizer (Response resp e) ∈ evs ->
    sr_MatchId resp = "" \/ exists c, calls cy !! k = Some c /\ sr_MatchId resp ∈ cl_out c;
}.

Context (emits : list Match -> bool -> list string -> string -> Prop)
  (Hhonest : forall seen cl out id, emits seen cl out id -> exists m, m ∈ seen /\ m_MatchId m = id).

(** A match that a call streams is a proposal the call sent in the cycle, with
    its backfill completed at most. *)
Lemma streamed_sent cy k evs s m : cycle_reachable emits cy -> served cy k evs s ->
  m ∈ f_streamed s -> m_MatchId m <> "" ->
  exists p, mkMAndM7c p k ∈ sent cy /\ same_match p m /\ accepted cy (m_MatchId m).
Proof.
  intros Hcy [(w & w' & Hrun) Hp Hr] Hm Hne. pose proof (fetched_all store evs w s w' Hrun) as F.
  destruct (fetched_streamed _ _ F m Hm) as ((q & e & Hq & Hqm) & (x & Hx & Hxm) & (resp & e' & Hresp & Hid)).
  destruct (Hr resp e' Hresp) as [?|(c & Hc & Hout)]; [congruence|]. rewrite Hid in Hout.
  destruct (rt_out _ (cycle_routing emits cy Hhonest Hcy) _ _ _ Hc (or_intror Hout)) as [(p & Hsent & Hpid) Hacc].
  exists p. split; [done|].
  destruct (fetched_synced _ _ F p (Hp p Hsent)) as (x' & Hx' & Hpx). rewrite Hpid, Hx in Hx'. injection Hx' as <-.
  assert (same_match p m) as Hpm by (destruct Hpx as [b ->], Hxm as [b' ->]; by exists b').
  done.
Qed.

(** With distinct proposal ids, it is the only one, and its tickets are hidden. *)
Lemma streamed_hidden cy k evs s m : cycle_reachable emits cy -> served cy k evs s ->
  NoDup ((fun mm => m_MatchId (mm_m mm)) <$> sent cy) -> m ∈ f_streamed s -> m_MatchId m <> "" ->
  (forall t, t ∈ match_ids m -> t ∈ released cy) /\
  (forall p k', mkMAndM7c p k' ∈ sent cy -> m_MatchId p = m_MatchId m -> k' = k /\ match_ids p = match_ids m).
Proof.
  intros Hcy Hsv Hn Hm Hne.
  destruct (streamed_sent cy k evs s m Hcy Hsv Hm Hne) as (p & Hp & Hpm & _ & _ & mm & Hmm & Hid & Hrel).
  pose proof (fun x y => NoDup_fmap_inj _ _ x y Hn) as Hinj. pose proof (same_match_id _ _ Hpm) as Hpid.
  assert (match_ids p = match_ids m) as Ht by (unfold match_ids; by rewrite (same_match_tickets _ _ Hpm)).
  assert (mm = mkMAndM7c p k) as -> by (apply Hinj; [done..|by rewrite Hid]). cbn in Hrel. split.
  - intros t Hin. apply Hrel. by rewrite <- Ht in Hin.
  - intros p' k' Hp' Hid'. assert (mkMAndM7c p' k' = mkMAndM7c p k) as [= -> ->] by (apply Hinj; [done..|cbn; congruence]).
    done.
Qed.
End Served.

(** C3. Directors that call FetchMatches at the same time, served by one cycle
    with the default evaluator: however the goroutines of the cycle and the two
    loops of each call interleave and whatever fails in between, every match a
    director is given is a proposal of its own match function that the
    evaluator selected among the proposals of all directors, its tickets were
    given to the pending-release set before, and no ticket is in two of the
    matches given, to the same director or to different ones. Proposals have
    ids of their own, none of them empty. *)
Theorem directors_disjoint `{EnvironmentLaws} `{ProtoLaws} `{GoSort} store UnmarshalAny cy k evs s k' evs' s' m m'
  (Hcy : cycle_reachable (default_emits UnmarshalAny) cy)
  (Hids : NoDup ((fun mm => m_MatchId (mm_m mm)) <$> sent cy))
  (Hserved : served store cy k evs s) (Hserved' : served store cy k' evs' s')
  (Hm : m ∈ f_streamed s) (Hm' : m' ∈ f_streamed s') (Hne : m_MatchId m <> "") (Hne' : m_MatchId m' <> "") :
  (exists p e, FromMmf (Proposal p e) ∈ evs /\ same_match p m) /\
  m_MatchId m ∈ evaluate UnmarshalAny (mm_m <$> sent cy) /\
  (forall t, t ∈ match_ids m -> t ∈ released cy) /\
  (forall t, t ∈ match_ids m -> t ∈ match_ids m' -> k = k' /\ m_MatchId m = m_MatchId m').
Proof.
  pose proof (default_emits_given UnmarshalAny) as Hgiven.
  destruct (streamed_sent store _ Hgiven cy k evs s m Hcy Hserved Hm Hne) as (p & Hp & Hpm & Ho & _).
  destruct (streamed_sent store _ Hgiven cy k' evs' s' m' Hcy Hserved' Hm' Hne') as (p' & Hp' & Hpm' & Ho' & _).
  destruct (streamed_hidden store _ Hgiven cy k evs s m) as [Hhid Hone]; [done..|].
  apply (selected UnmarshalAny cy) in Ho, Ho'; [|done..]. split_and!; [|done|done|].
  - destruct Hserved as [(w & w' & Hrun) _ _]. by destruct (fetched_streamed _ _ (fetched_all store evs w s w' Hrun) m Hm) as [? _].
  - intros t Ht Ht'. destruct (decide (m_MatchId m = m_MatchId m')) as [Heq|Hdiff].
    { destruct (Hone p' k' Hp') as [-> _]; [|done]. by rewrite <- (same_match_id _ _ Hpm'). }
    exfalso. rewrite (same_match_id _ _ Hpm), (same_match_id _ _ Hpm') in *.
    unfold match_ids in Ht, Ht'. rewrite (same_match_tickets _ _ Hpm) in Ht. rewrite (same_match_tickets _ _ Hpm') in Ht'.
    change (NoDup ((m_MatchId ∘ mm_m) <$> sent cy)) in Hids. rewrite list_fmap_compose in Hids.
    refine (accepted_disjoint UnmarshalAny (mm_m <$> sent cy) p p' Hids _ _ Hdiff t Ht Ht').
    + apply list_elem_of_filter. split; [done|]. by apply (list_elem_of_fmap_2 mm_m) in Hp.
    + apply list_elem_of_filter. split; [done|]. by apply (list_elem_of_fmap_2 mm_m) in Hp'.
Qed.

(** ** Two directors

    The first proposes "a", the second "b" and "c"; "c" needs the ticket of
    "a" and has the lower score. *)
#[local] Existing Instance insertion_go_sort.

Definition flow_a : Match := demo_match "a" (Some "5") ["t1"].
Definition flow_b : Match := demo_match "b" (Some "3") ["t2"; "t3"].
Definition flow_c : Match := demo_match "c" (Some "1") ["t1"; "t4"].

Definition flow_labels : list label :=
  [LRegister 0; LRegister 1; LSend 0 flow_a; L2; LRegistered; L3; LSend 1 flow_b; L4; L2; LRead; L3; L4;
   LSend 1 flow_c; L2; L3; L4; LDone 0; LDone 1; LRead; LAllSent; LCutStop; L2Closed; L3Closed; L4Closed; LReadClosed;
   LEmit "a"; LEmit "b"; LReturn (Ok tt); L5Closed; LSlice; LAdd (Ok tt); L6; L7; L6; L7; LTake 0; LTake 1; LAddNext; LAddReturn;
   L6Closed; L2Closed; L7Close 0; L7Close 1; L7Closed 0; L7Closed 1].
Definition flow_cycle : cycle := after_run flow_labels.

(** The events of a director that sends [ps] and is answered [ids]. *)
Definition flow_events (ps : list Match) (ids : list string) : list fetch_event :=
  [FromSynchronizer (Response (mkSynchronizeResponse true false "") None)] ++
  ((fun p => FromMmf (Proposal p None)) <$> ps) ++ [FromMmf (SendEnd None)] ++
  ((fun id => FromSynchronizer (Response (mkSynchronizeResponse false false id) None)) <$> ids) ++ [FromSynchronizer RecvEOF].

#[local] Instance may_emit_dec emits l s : (forall seen cl out id, Decision (emits seen cl out id)) -> Decision (may_emit emits l s).
Proof. intros He. destruct l; cbn; apply _. Defined.
#[local] Instance emits_along_dec emits ls s : (forall seen cl out id, Decision (emits seen cl out id)) ->
  Decision (emits_along emits ls s).
Proof.
  intros He. revert s. induction ls as [|l ls IH]; intros s; cbn; [apply _|]. destruct (exec l s); apply _.
Defined.
#[local] Instance default_emits_dec seen cl out id : Decision (default_emits demo_criteria seen cl out id).
Proof. unfold default_emits. apply _. Defined.

Lemma flow_reachable : cycle_reachable (default_emits demo_criteria) flow_cycle.
Proof. apply after_run_emits. concrete. Qed.

(** A director that is answered what its call streamed. *)
Lemma flow_served cy k c ps w : calls cy !! k = Some c ->
  let s := ans (fetch_run mem_store fetch_init (flow_events ps (cl_out c))) w in
  Forall (fun mm => mm_m7c mm = k -> mm_m mm ∈ f_synced s) (sent cy) ->
  served mem_store cy k (flow_events ps (cl_out c)) s.
Proof.
  intros Hc s Hp. rewrite Forall_forall in Hp. split; [by eexists _, _; apply surjective_pairing|intros p Hin; by apply (Hp _ Hin)|].
  intros resp e Hin. unfold flow_events in Hin. rewrite !elem_of_app, !list_elem_of_singleton, !list_elem_of_fmap in Hin.
  destruct Hin as [Hin|[(p & Hin & _)|[Hin|[(id & Hin & Hid)|Hin]]]]; try discriminate Hin; injection Hin as -> _; [by left|].
  right. by exists c.
Qed.

Definition flow_call (k : callid) : call := default new_call (calls flow_cycle !! k).
Definition flow_fetch (k : callid) (ps : list Match) : fetch_state :=
  ans (fetch_run mem_store fetch_init (flow_events ps (cl_out (flow_call k)))) mem_init.

Lemma directors_disjoint_witness :
  f_streamed (flow_fetch 0 [flow_a]) = [flow_a] /\ f_streamed (flow_fetch 1 [flow_b; flow_c]) = [flow_b] /\
  "t1" ∈ released flow_cycle /\ forall t, t ∈ match_ids flow_a -> t ∈ match_ids flow_b -> 0%nat = 1%nat.
Proof.
  split; [vm_compute; reflexivity|]. split; [vm_compute; reflexivity|].
  destruct (directors_disjoint mem_store demo_criteria flow_cycle
    0%nat (flow_events [flow_a] (cl_out (flow_call 0))) (flow_fetch 0 [flow_a])
    1%nat (flow_events [flow_b; flow_c] (cl_out (flow_call 1))) (flow_fetch 1 [flow_b; flow_c])
    flow_a flow_b flow_reachable) as (_ & _ & Hhid & Hdis).
  - concrete.
  - apply flow_served; [vm_compute; reflexivity|concrete].
  - apply flow_served; [vm_compute; reflexivity|concrete].
  - concrete.
  - concrete.
  - discriminate.
  - discriminate.
  - split; [apply Hhid; concrete|]. intros t Ht Ht'. apply (Hdis t Ht Ht').
Defined.
