(* ===== verification/Lessons.v ===== *)
(** * The lessons ([tutorials/])

    Four lessons, each with the code to start from and its solution: a
    frontend that creates tickets, a director, a match function and, in the
    last one, an evaluator. The programs are copies of each other with other
    names, profiles, tickets and matches; here each is put together from the
    parts they share. *)
From S2P Require Export Players Tutorials Evaluators DirectorRace.

(** ** What the lessons share *)
Section Common.
Context `{Environment} `{Proto} (store : Service).

(** *** [director/main.go] *)

Definition functionPort : Z := 50502.

Definition fetch_request (functionHostName : string) (p : MatchProfile) : FetchMatchesRequest :=
  mkFetchMatchesRequest (Some (mkFunctionConfig functionHostName functionPort FunctionConfig_GRPC)) (Some p).

(** What is not the director's in one tick of its clock: what the backend
    answers, the addresses drawn and the order in which the goroutines reach
    the backend. *)
Record tick := mkTick {
  tk_fetch : FetchMatchesRequest -> result (list fetch_item);
  tk_conns : MatchProfile -> list string;
  tk_sched : list nat;
}.

(** A goroutine per profile. *)
Definition director_turns (functionHostName : string) (profiles : list MatchProfile) (t : tick) : list (prog (result unit)) :=
  (fun p => director_turn store (tk_conns t p) (tk_fetch t (fetch_request functionHostName p))) <$> profiles.

(** [wg.Wait]: the next tick is taken when all goroutines are over; [None]:
    still waiting. *)
Fixpoint director_ticks (functionHostName : string) (profiles : list MatchProfile) (ticks : list tick) (w : env_state) :
    option env_state :=
  match ticks with
  | [] => Some w
  | t :: ticks =>
      let '(ps, w) := prun (tk_sched t) (director_turns functionHostName profiles t) w in
      if forallb ended ps then director_ticks functionHostName profiles ticks w else None
  end.

(** [main], given the outcome of connecting: the message it ends with, or the
    world after some ticks. *)
Definition director_main (functionHostName : string) (profiles : list MatchProfile) (dial : option error)
    (ticks : list tick) (w : env_state) : string + option env_state :=
  match dial with
  | Some err => inl ("Failed to connect to Open Match Backend, got " +:+ err_string err)
  | None => inr (director_ticks functionHostName profiles ticks w)
  end.

(** *** [frontend/main.go] *)

(** The tickets created in some ticks, and whether a failure ended the
    process. *)
Fixpoint frontend_ticks (stop : bool) (ticks : list (nat -> option Ticket)) : prog (list Ticket * bool) :=
  match ticks with
  | [] => Ret ([], false)
  | draw :: ticks =>
      x ←! iteration store stop draw;
      if x.2 : bool then Ret x
      else
        y ←! frontend_ticks stop ticks;
        Ret (x.1 ++ y.1, y.2)
  end.

Definition frontend_main (stop : bool) (dial : option error) (ticks : list (nat -> option Ticket)) :
    prog (string + list Ticket * bool) :=
  match dial with
  | Some err => Ret (inl ("Failed to connect to Open Match, got " +:+ err_string err))
  | None => x ←! frontend_ticks stop ticks; Ret (inr x)
  end.

(** The two kinds of goroutines of a frontend: main, and one for each ticket
    created. *)
Record frontend_program := mkFrontend {
  fe_main : option error -> list (nat -> option Ticket) -> prog (string + list Ticket * bool);
  fe_deleteOnAssign : nat -> string -> prog player_end;
}.

Definition lesson_frontend (stop : bool) : frontend_program := mkFrontend (frontend_main stop) (deleteOnAssign store).
End Common.

(** *** [matchfunction/mmf]: [server.go] and [Run] *)

(** The message the process ends with; [None] while it serves. *)
Definition mmf_Start (queryServiceAddr : string) (serverPort : Z) (dial : string -> option error)
    (listen : Z -> option error) (serve : option error) : option string :=
  match dial queryServiceAddr with
  | Some err => Some ("Failed to connect to Open Match, got " +:+ err_string err)
  | None =>
      match listen serverPort with
      | Some err =>
          Some ("TCP net listener initialization failed for port " +:+ itoa serverPort +:+ ", got " +:+ err_string err)
      | None => (fun err => "gRPC serve failed, got " +:+ err_string err) <$> serve
      end
  end.

Definition queryServiceAddress : string := "open-match-query.open-match.svc.cluster.local:50503".
Definition serverPort : Z := 50502.

Definition mmf_main : (string -> option error) -> (Z -> option error) -> option error -> option string :=
  mmf_Start queryServiceAddress serverPort.

(** [Run], with the match function's [makeMatches]. *)
Definition mmf_Run (makeMatches : gmap string (list Ticket) -> option (result (list Match)))
    (poolTickets : result (gmap string (list Ticket))) (send : nat -> option error) : option (list Match * result unit) :=
  match poolTickets with
  | Err err => Some ([], Err err)
  | Ok poolTickets => stream_result send <$> makeMatches poolTickets
  end.

(** *** [evaluator/evaluate/server.go] *)

Definition evaluator_Start (port : Z) (listen : Z -> option error) (serve : option error) : result unit :=
  match listen port with
  | Some err => Err err
  | None => match serve with Some err => Err err | None => Ok tt end
  end.

Definition evaluatorPort : Z := 50508.

(** ** The lessons

    Each with the host of its match function, the profiles of its director,
    the tickets of its frontend (the random draws are arguments), what its
    match function makes of the pools, and the programs. *)

(** A profile per mode, with names of their own. *)
Definition named_mode_profiles : list MatchProfile :=
  (fun mode => mkMatchProfile ("mode_based_profile_" +:+ mode) [mode_pool mode] ∅) <$> modes.

(** [gameMode] draws one of the modes. *)
Definition gameMode (draw : nat) : option string := modes !! (draw `mod` length modes)%nat.

(** A ticket with one mode. *)
Definition mode_ticket (draw : nat) : Ticket :=
  mkTicket "" None (Some (mkSearchFields ∅ ∅ (option_list (gameMode draw)))) ∅ ∅ None.

(** *** [matchmaker101]: what there is to start from makes nothing *)
Module Matchmaker101Start.
Definition functionHostName : string := "mm101-tutorial-matchfunction.mm101-tutorial.svc.cluster.local".
Definition generateProfiles : list MatchProfile := [].
Definition makeTicket : option Ticket := None.
Definition makeMatches (profile : string) (poolTickets : gmap string (list Ticket)) : option (result (list Match)) :=
  Some (Ok []).
Definition Run (profile : string) := mmf_Run (makeMatches profile).
Definition Start := mmf_Start.
Definition matchfunction := mmf_main.

Section Programs.
Context `{Environment} `{Proto} (store : Service).
Definition director := director_main store functionHostName generateProfiles.
Definition frontend := lesson_frontend store false.
End Programs.
End Matchmaker101Start.

(** *** [matchmaker101/solution] *)
Module Matchmaker101.
Definition functionHostName : string := "mm101-tutorial-matchfunction.mm101-tutorial.svc.cluster.local".
Definition generateProfiles : list MatchProfile := named_mode_profiles.
Definition makeTicket (draw : nat) : option Ticket := Some (mode_ticket draw).
Definition Run `{MapOrder} (xids : nat -> string) (fuel : nat) (profile : string) :=
  mmf_Run (fun poolTickets => Ok <$> matchmaker101_makeMatches xids fuel profile poolTickets).
Definition Start := mmf_Start.
Definition matchfunction := mmf_main.

Section Programs.
Context `{Environment} `{Proto} (store : Service).
Definition director := director_main store functionHostName generateProfiles.
Definition frontend := lesson_frontend store false.
End Programs.
End Matchmaker101.

(** *** [matchmaker102]: the profiles share a name *)
Module Matchmaker102Start.
Definition functionHostName : string := "mm102-tutorial-matchfunction.mm102-tutorial.svc.cluster.local".
Definition generateProfiles : list MatchProfile := mode_profiles.
Definition makeTicket (draw : nat) : option Ticket := Some (mode_ticket draw).
Definition makeMatches `{MapOrder} := custom_makeMatches.
Definition Run `{MapOrder} (now : nat -> string) (fuel : nat) (profile : string) :=
  mmf_Run (fun poolTickets => Ok <$> makeMatches now fuel profile poolTickets).
Definition Start := mmf_Start.
Definition matchfunction := mmf_main.

Section Programs.
Context `{Environment} `{Proto} (store : Service).
Definition director := director_main store functionHostName generateProfiles.
Definition frontend := lesson_frontend store false.
End Programs.
End Matchmaker102Start.

(** *** [matchmaker102/solution]: roles; the only frontend that ends when a
    ticket is refused *)
Module Matchmaker102.
Definition functionHostName : string := "mm102-tutorial-matchfunction.mm102-tutorial.svc.cluster.local".
Definition makeTicket (gameMode role : string) : option Ticket := Some (Director.makeTicket gameMode role).
Definition Run `{MapOrder} (now : nat -> string) (fuel : nat) (profile : string) :=
  mmf_Run (fun poolTickets => Ok <$> matchmaker102_makeMatches now fuel profile poolTickets).
Definition Start := mmf_Start.
Definition matchfunction := mmf_main.

Section Programs.
Context `{Environment} `{Proto} (store : Service).
Definition director := director_main store functionHostName generateProfiles.
Definition frontend := lesson_frontend store true.
End Programs.
End Matchmaker102.

(** *** [default_evaluator]: tickets without a mode, matches without a score *)
Module DefaultStart.
Definition functionHostName : string := "default-eval-tutorial-matchfunction.default-eval-tutorial.svc.cluster.local".
Definition generateProfiles : list MatchProfile := mode_profiles.
Definition gameModes : list string := [].
Definition enterQueueTime : float64 := S754_zero false.
Definition makeTicket : option Ticket := Some (mkTicket "" None (Some (mkSearchFields ∅ ∅ gameModes)) ∅ ∅ None).
Definition scoreCalculator (tickets : list Ticket) : float64 := S754_zero false.
Definition makeMatches `{MapOrder} := custom_makeMatches.
Definition Run `{MapOrder} (now : nat -> string) (fuel : nat) (profile : string) :=
  mmf_Run (fun poolTickets => Ok <$> makeMatches now fuel profile poolTickets).
Definition Start := mmf_Start.
Definition matchfunction := mmf_main.

Section Programs.
Context `{Environment} `{Proto} (store : Service).
Definition director := director_main store functionHostName generateProfiles.
Definition frontend := lesson_frontend store false.
End Programs.
End DefaultStart.

(** *** [default_evaluator/solution]: up to two modes, the waiting time as the
    score; [Run] is [tutorial_Run] *)
Module Default.
Definition functionHostName : string := "default-eval-tutorial-matchfunction.default-eval-tutorial.svc.cluster.local".
Definition generateProfiles : list MatchProfile := mode_profiles.
Definition Start := mmf_Start.
Definition matchfunction := mmf_main.

Section Programs.
Context `{Environment} `{Proto} (store : Service).
Definition director := director_main store functionHostName generateProfiles.
Definition frontend := lesson_frontend store false.
End Programs.
End Default.

(** *** [custom_evaluator]: an evaluator that accepts nothing *)
Module CustomStart.
Definition functionHostName : string := "custom-eval-tutorial-matchfunction.custom-eval-tutorial.svc.cluster.local".
Definition generateProfiles : list MatchProfile := mode_profiles.
Definition makeMatches `{MapOrder} := custom_makeMatches.
Definition Run `{MapOrder} (now : nat -> string) (fuel : nat) (profile : string) :=
  mmf_Run (fun poolTickets => Ok <$> makeMatches now fuel profile poolTickets).
Definition Start := mmf_Start.
Definition matchfunction := mmf_main.

Definition gameModes `{MapOrder} := Players.gameModes.
Definition enterQueueTime := Players.enterQueueTime.
Definition makeTicket `{MapOrder} (draws : list nat) (now r : Z) : option Ticket := Some (queue_makeTicket draws now r).

Definition evaluate (proposals : list Match) : result (list string) := Ok [].

Definition Evaluate (received : list (option Match)) (recv_err : option error) (send_err : nat -> option error) :
    list string * result unit :=
  match recv_err with
  | Some err => ([], Err err)
  | None =>
      match evaluate (default CustomEvaluator.no_match <$> received) with
      | Err err => ([], Err (EStatus Aborted (err_string err)))
      | Ok results =>
          let '(sent, e) := harness_sent results send_err in
          (sent, match e with Some err => Err err | None => Ok tt end)
      end
  end.

Definition evaluate_Start := evaluator_Start.
Definition evaluator : (Z -> option error) -> option error -> result unit := evaluate_Start evaluatorPort.

Section Programs.
Context `{Environment} `{Proto} (store : Service).
Definition director := director_main store functionHostName generateProfiles.
Definition frontend := lesson_frontend store false.
End Programs.
End CustomStart.

(** *** [custom_evaluator/solution]: the evaluator is [CustomEvaluator] *)
Module Custom.
Definition functionHostName : string := "custom-eval-tutorial-matchfunction.custom-eval-tutorial.svc.cluster.local".
Definition generateProfiles : list MatchProfile := mode_profiles.
Definition Run `{MapOrder} (now : nat -> string) (fuel : nat) (profile : string) :=
  mmf_Run (fun poolTickets => Ok <$> custom_makeMatches now fuel profile poolTickets).
Definition Start := mmf_Start.
Definition matchfunction := mmf_main.
Definition gameModes `{MapOrder} := Players.gameModes.
Definition enterQueueTime := Players.enterQueueTime.
Definition makeTicket `{MapOrder} (draws : list nat) (now r : Z) : option Ticket := Some (queue_makeTicket draws now r).
Definition evaluate_Start := evaluator_Start.
Definition evaluator : (Z -> option error) -> option error -> result unit := evaluate_Start evaluatorPort.

Section Programs.
Context `{Environment} `{Proto} (store : Service).
Definition director := director_main store functionHostName generateProfiles.
Definition frontend := lesson_frontend store false.
End Programs.
End Custom.

(** ** What there is to start from does *)

(** The frontend of [matchmaker101] asks for a nil ticket, which is refused
    without a word to the store: nothing is created, and it goes on. *)
Lemma start101_creates_nothing `{Environment} `{Proto} store n :
  fe_main (Matchmaker101Start.frontend store) None (replicate n (fun _ => Matchmaker101Start.makeTicket)) = Ret (inr ([], false)).
Proof.
  cbn [fe_main Matchmaker101Start.frontend lesson_frontend frontend_main].
  assert (frontend_ticks store false (replicate n (fun _ => Matchmaker101Start.makeTicket)) = Ret ([], false)) as ->; [|done].
  induction n as [|n IH]; [done|]. cbn. by rewrite IH.
Qed.

(** Its director has no profile and leaves the world alone on any schedule,
    its match function makes no match. *)
Lemma start101_director_idle `{Environment} `{Proto} store ticks w :
  Matchmaker101Start.director store None ticks w = inr (Some w).
Proof.
  unfold Matchmaker101Start.director, director_main. f_equal. induction ticks as [|t ticks IH]; [done|]. cbn.
  assert (forall sched, prun sched ([] : list (prog (result unit))) w = ([], w)) as -> by (by induction sched).
  apply IH.
Qed.

Lemma start101_no_match profile poolTickets send : Matchmaker101Start.Run profile (Ok poolTickets) send = Some ([], Ok tt).
Proof. done. Qed.

(** The evaluator of [custom_evaluator] rejects every proposal. *)
Lemma custom_start_rejects received send_err : CustomStart.Evaluate received None send_err = ([], Ok tt).
Proof. done. Qed.

(** The tickets of [default_evaluator] have no mode and are in no pool. *)
Lemma default_start_unmatched `{Proto} t mp pool id create : DefaultStart.makeTicket = Some t ->
  mp ∈ DefaultStart.generateProfiles -> pool ∈ mp_Pools mp ->
  ~ in_pool pool (set_ticket_create_time create (set_ticket_id id t)).
Proof.
  intros [= <-] (mode & -> & _)%list_elem_of_fmap ->%list_elem_of_singleton. unfold mode_pool. by rewrite in_pool_fields.
Qed.

(** ** Matches from one pool *)
Section SinglePool.
Context `{MapOrder} (k : nat) (Hk : (0 < k)%nat) (name : string) (match_id : nat -> string) (profile pool : string).

Lemma take_round_single ts : take_round k (map_iter {[pool := ts]}).*1 {[pool := ts]} [] =
  if (length ts <? k)%nat then (true, [], {[pool := ts]}) else (false, take k ts, {[pool := drop k ts]}).
Proof.
  assert (map_iter ({[pool := ts]} : gmap string (list Ticket)) = [(pool, ts)]) as ->.
  { apply Permutation_singleton_r. by rewrite map_iter_perm, map_to_list_singleton. }
  cbn -[Nat.ltb]. rewrite lookup_singleton_eq. cbn -[Nat.ltb]. destruct (length ts <? k)%nat; [done|]. by rewrite insert_singleton_eq.
Qed.

(** What the loop makes of a pool: groups of [k] in order, up to fewer than
    [k] that are left. *)
Record grouped (ts : list Ticket) (n : nat) (ms : list Match) : Prop := mkGrouped {
  gr_tickets : exists rest, ts = concat (m_Tickets <$> ms) ++ rest /\ (length rest < k)%nat;
  gr_size : Forall (fun m => length (m_Tickets m) = k) ms;
  gr_id j m : ms !! j = Some m -> m_MatchId m = match_id (n + j)%nat;
}.

Lemma simple_loop_single fuel : forall ts matches, (length ts < fuel)%nat ->
  exists ms, simple_loop k name match_id fuel profile {[pool := ts]} matches = Some (matches ++ ms) /\
    grouped ts (length matches) ms.
Proof using Hk.
  induction fuel as [|fuel IH]; intros ts matches Hf; [lia|]. cbn [simple_loop]. rewrite take_round_single.
  destruct (Nat.ltb_spec (length ts) k) as [Hlt|Hge].
  - exists []. rewrite app_nil_r. split; [done|]. split; [by exists ts|constructor|done].
  - destruct (IH (drop k ts) (matches ++ [mkMatch (match_id (length matches)) profile name (take k ts) ∅ None false]))
      as (ms & -> & [(rest & Hts & Hr) Hs Hi]); [rewrite length_drop; lia|].
    eexists. rewrite <- app_assoc. split; [done|]. split.
    + exists rest. split; [|done]. cbn. by rewrite <- app_assoc, <- Hts, take_drop.
    + constructor; [|done]. cbn. rewrite length_take. lia.
    + intros [|j] m; cbn; [intros [= <-]; cbn; by rewrite Nat.add_0_r|]. intros Hm. rewrite (Hi j m Hm), length_app. cbn.
      f_equal. lia.
Qed.

(** A pool of [k] gives one match. *)
Lemma simple_loop_exact fuel ts : length ts = k -> (k < fuel)%nat -> exists m,
  simple_loop k name match_id fuel profile {[pool := ts]} [] = Some [m] /\ m_MatchId m = match_id 0%nat /\ m_Tickets m = ts.
Proof using Hk.
  intros Hl Hf. destruct (simple_loop_single fuel ts [] ltac:(lia)) as (ms & -> & [(rest & Hts & Hr) Hs Hi]).
  destruct ms as [|m [|m' ms]]; cbn in Hts.
  - subst ts. lia.
  - exists m. split; [done|]. split; [by apply (Hi 0%nat)|]. rewrite app_nil_r in Hts. apply Forall_cons in Hs as [Hs _].
    apply (f_equal length) in Hts as Hl'. rewrite length_app in Hl'. destruct rest; [by rewrite app_nil_r in Hts|cbn in Hl'; lia].
  - apply Forall_cons in Hs as [Hs1 Hs]. apply Forall_cons in Hs as [Hs2 _]. cbn beta in *. apply (f_equal length) in Hts.
    rewrite !length_app in Hts. lia.
Qed.
End SinglePool.

(** ** Match ids *)

(** In all lessons but the solutions of the first two the profiles have one
    name: two of them handled within the resolution of the clock get a match
    of the same id with other tickets each, and the client of the evaluator
    ends the cycle's evaluation with an error. *)
Lemma shared_name_shares_ids `{MapOrder} now fuel mp1 mp2 pool1 pool2 ts1 ts2 :
  mp1 ∈ mode_profiles -> mp2 ∈ mode_profiles -> length ts1 = 4%nat -> length ts2 = 4%nat -> (4 < fuel)%nat ->
  exists m1 m2,
    custom_makeMatches now fuel (mp_Name mp1) {[pool1 := ts1]} = Some [m1] /\
    custom_makeMatches now fuel (mp_Name mp2) {[pool2 := ts2]} = Some [m2] /\
    m_MatchId m1 = m_MatchId m2 /\ m_Tickets m1 = ts1 /\ m_Tickets m2 = ts2 /\
    g_err (grpc_run grpc_init [ClProposal m1 None; ClProposal m2 None]) =
      Some (EPlain ("multiple match functions used same match_id: " +:+ quoted (m_MatchId m2))).
Proof.
  intros (mode1 & -> & _)%list_elem_of_fmap (mode2 & -> & _)%list_elem_of_fmap H1 H2 Hf. cbn [mp_Name]. unfold custom_makeMatches.
  destruct (simple_loop_exact 4 ltac:(lia) "basic-matchfunction" (fun n => "profile-" +:+ "mode_based_profile" +:+ "-time-" +:+ now n +:+ "-" +:+ num n)
    "mode_based_profile" pool1 fuel ts1 H1 Hf) as (m1 & -> & Hi1 & Ht1).
  destruct (simple_loop_exact 4 ltac:(lia) "basic-matchfunction" (fun n => "profile-" +:+ "mode_based_profile" +:+ "-time-" +:+ now n +:+ "-" +:+ num n)
    "mode_based_profile" pool2 fuel ts2 H2 Hf) as (m2 & -> & Hi2 & Ht2).
  exists m1, m2. split_and!; [done|done|congruence|done|done|].
  assert (m_MatchId m1 = m_MatchId m2) as Heq by congruence.
  cbn. unfold grpc_send. cbn. rewrite lookup_empty. cbn. by rewrite Heq, lookup_insert_eq.
Qed.

(** The solutions give every profile a name of its own, and no two of them
    ever share an id, whatever the clock and the generated ids are. *)
Lemma named_profiles_differ i j mp mp' x x' : named_mode_profiles !! i = Some mp -> named_mode_profiles !! j = Some mp' -> i <> j ->
  "profile-" +:+ mp_Name mp +:+ "-" +:+ x <> "profile-" +:+ mp_Name mp' +:+ "-" +:+ x'.
Proof. destruct i as [|[|[|[]]]], j as [|[|[|[]]]]; intros [= <-] [= <-] Hij He; by apply Hij || discriminate He. Qed.

Lemma role_profiles_differ i j mp mp' x x' : generateProfiles !! i = Some mp -> generateProfiles !! j = Some mp' -> i <> j ->
  "profile-" +:+ mp_Name mp +:+ "-time-" +:+ x <> "profile-" +:+ mp_Name mp' +:+ "-time-" +:+ x'.
Proof. destruct i as [|[|[|[]]]], j as [|[|[|[]]]]; intros [= <-] [= <-] Hij He; by apply Hij || discriminate He. Qed.

(** ** A tick of the first lesson's solution, from pools to assignments *)

(** The tickets of a pool, and the pools of a profile as the query service
    gives them. *)
Definition members `{Proto} (pool : Pool) (ts : list Ticket) : list Ticket :=
  filter (fun x => match NewPoolFilter pool with Ok pf => Filter.In pf x | Err _ => false end = true) ts.

Definition profile_pools `{Proto} (mp : MatchProfile) (ts : list Ticket) : gmap string (list Ticket) :=
  list_to_map ((fun pool => (p_Name pool, members pool ts)) <$> mp_Pools mp).

(** A ticket the frontend made and the store completed. *)
Definition lesson_ticket (x : Ticket) : Prop :=
  exists draw create id, x = set_ticket_create_time create (set_ticket_id id (mode_ticket draw)).

Definition plays (mode : string) (x : Ticket) : Prop := mode ∈ sf_Tags (fields x).
#[global] Instance plays_dec mode x : Decision (plays mode x).
Proof. unfold plays. apply _. Defined.

Lemma members_mode `{Proto} mode ts : members (mode_pool mode) ts = filter (plays mode) ts.
Proof.
  apply list_filter_iff. intros x. change (NewPoolFilter (mode_pool mode)) with (Ok (mkPoolFilter [] [] [mkTagPresentFilter mode] time_zero time_zero)).
  cbn iota. pose proof (in_pool_fields ("pool_mode_" +:+ mode) [] [] [mkTagPresentFilter mode] x) as Hp.
  cbn [forallb andb] in Hp. rewrite andb_true_r in Hp. unfold in_pool, tag_present_match in Hp. unfold plays.
  rewrite existsb_exists in Hp. setoid_rewrite bool_decide_eq_true in Hp. setoid_rewrite <- list_elem_of_In in Hp.
  cbn [tpf_Tag] in Hp. split.
  - intros Hi. destruct (proj1 Hp) as (m & Hm & ->); [|done]. by exists (mkPoolFilter [] [] [mkTagPresentFilter mode] time_zero time_zero).
  - intros Hi. destruct (proj2 Hp) as (pf & [= <-] & ?); [by exists mode|done].
Qed.

(** A ticket plays one mode. *)
Lemma lesson_ticket_mode x mode mode' : lesson_ticket x -> plays mode x -> plays mode' x -> mode = mode'.
Proof.
  intros (draw & create & id & ->). unfold plays. cbn. destruct (gameMode draw) as [m|]; cbn; [|by intros ?%not_elem_of_nil].
  by intros ->%list_elem_of_singleton ->%list_elem_of_singleton.
Qed.

Lemma lesson_ticket_plays x : lesson_ticket x -> exists mode, mode ∈ modes /\ plays mode x.
Proof.
  intros (draw & create & id & ->). unfold plays, gameMode.
  destruct (lookup_lt_is_Some_2 modes (draw `mod` length modes)%nat) as [mode Hm]; [by apply Nat.mod_upper_bound|].
  exists mode. split; [by eapply list_elem_of_lookup_2|]. cbn -[modes Nat.modulo]. unfold gameMode. rewrite Hm. by left.
Qed.

Lemma NoDup_concat_intro {A} (ls : list (list A)) : (forall i l, ls !! i = Some l -> NoDup l) ->
  (forall i j l k x, ls !! i = Some l -> ls !! j = Some k -> x ∈ l -> x ∈ k -> i = j) -> NoDup (concat ls).
Proof.
  induction ls as [|l ls IH]; intros Hn Hd; cbn; [constructor|]. apply NoDup_app. split; [by apply (Hn 0%nat)|]. split.
  - intros x Hx (k & [j Hj]%list_elem_of_lookup & Hk)%elem_of_concat. by specialize (Hd 0%nat (S j) l k x eq_refl Hj Hx Hk).
  - apply IH; [intros i; apply (Hn (S i))|]. intros i j l1 l2 x Hi Hj H1 H2.
    by injection (Hd (S i) (S j) l1 l2 x Hi Hj H1 H2).
Qed.

Section Tick101.
Context `{EnvironmentLaws} `{ProtoLaws} `{MapOrder} (cfg : View) (xids : string -> nat -> string) (fuel : nat).
Context (ts : list Ticket) (t : tick).

(** What the match function proposes for a profile; [xids] are the ids
    generated in its run. *)
Definition proposed (mp : MatchProfile) : option (list Match * result unit) :=
  Matchmaker101.Run (xids (mp_Name mp)) fuel (mp_Name mp) (Ok (profile_pools mp ts)) (fun _ => None).

(** The tickets are distinct, stored and can be written back. *)
Record queue_ok (d : db) : Prop := mkQueueOk {
  qo_distinct : NoDup (t_Id <$> ts);
  qo_made : Forall lesson_ticket ts;
  qo_stored : Forall (fun x => ticket_at d (t_Id x) = Some x /\ not_reserved (t_Id x) /\
    forall conn, is_Some (marshal_ticket (set_ticket_assignment (Some (mkAssignment conn ∅)) x))) ts;
}.

(** The backend answers the director with all that is proposed, which is what
    the evaluator selects of proposals that share no ticket. *)
Definition all_accepted : Prop := forall mp, mp ∈ Matchmaker101.generateProfiles ->
  exists ms, proposed mp = Some (ms, Ok tt) /\
    tk_fetch t (fetch_request Matchmaker101.functionHostName mp) = Ok (Fetched <$> ms) /\
    length (tk_conns t mp) = length ms.

Definition profile_job (mp : MatchProfile) : job := (tk_conns t mp, tk_fetch t (fetch_request Matchmaker101.functionHostName mp)).

Lemma proposed_grouped mode : (length ts < fuel)%nat -> exists ms,
  proposed (mkMatchProfile ("mode_based_profile_" +:+ mode) [mode_pool mode] ∅) = Some (ms, Ok tt) /\
  exists rest, filter (plays mode) ts = concat (m_Tickets <$> ms) ++ rest /\ (length rest < 4)%nat /\
    Forall (fun m => length (m_Tickets m) = 4%nat) ms.
Proof.
  intros Hf. unfold proposed, Matchmaker101.Run, mmf_Run, matchmaker101_makeMatches, profile_pools. cbn [mp_Pools mp_Name fmap list_fmap].
  change (list_to_map [(p_Name (mode_pool mode), members (mode_pool mode) ts)]) with
    ({[p_Name (mode_pool mode) := members (mode_pool mode) ts]} : gmap string (list Ticket)).
  rewrite members_mode.
  destruct (simple_loop_single 4 ltac:(lia) "basic-matchfunction"
    (fun n => "profile-" +:+ ("mode_based_profile_" +:+ mode) +:+ "-" +:+ xids ("mode_based_profile_" +:+ mode) n)
    ("mode_based_profile_" +:+ mode) (p_Name (mode_pool mode)) fuel (filter (plays mode) ts) [])
    as (ms & -> & [(rest & Hts & Hr) Hs _]); [pose proof (length_filter (plays mode) ts); lia|].
  exists ms. cbn. rewrite stream_proposals_ok by done. split; [done|]. by exists rest.
Qed.

(** The matches of a mode: groups of four of its tickets, in order. *)
Lemma accepted_job mode : all_accepted -> (length ts < fuel)%nat -> mode ∈ modes ->
  let j := profile_job (mkMatchProfile ("mode_based_profile_" +:+ mode) [mode_pool mode] ∅) in
  proposed (mkMatchProfile ("mode_based_profile_" +:+ mode) [mode_pool mode] ∅) = Some (job_matches j, Ok tt) /\
  length j.1 = length (job_matches j) /\ Forall (fun m => length (m_Tickets m) = 4%nat) (job_matches j) /\
  exists rest, filter (plays mode) ts = concat (m_Tickets <$> job_matches j) ++ rest /\ (length rest < 4)%nat.
Proof.
  intros Hacc Hf Hmode j. destruct (proposed_grouped mode Hf) as (ms & Hp & rest & Hts & Hr & Hs).
  destruct (Hacc (mkMatchProfile ("mode_based_profile_" +:+ mode) [mode_pool mode] ∅)) as (ms' & Hp' & Hfe & Hl).
  { unfold Matchmaker101.generateProfiles, named_mode_profiles. apply list_elem_of_fmap. by exists mode. }
  rewrite Hp in Hp'. injection Hp' as <-. assert (job_matches j = ms) as ->.
  { unfold job_matches, j, profile_job. cbn [snd]. rewrite Hfe. cbn [fetch]. by rewrite fetch_loop_ok. }
  split; [done|]. split; [done|]. split; [done|]. by exists rest.
Qed.

Definition mode_job (mode : string) : job :=
  profile_job (mkMatchProfile ("mode_based_profile_" +:+ mode) [mode_pool mode] ∅).

Lemma director_turns_jobs :
  director_turns (redisBackend cfg) Matchmaker101.functionHostName Matchmaker101.generateProfiles t = job_turn cfg <$> (mode_job <$> modes).
Proof. done. Qed.

Lemma job_ids_tickets j : job_ids j = t_Id <$> concat (m_Tickets <$> job_matches j).
Proof. unfold job_ids. induction (job_matches j) as [|m ms IH]; [done|]. cbn. by rewrite fmap_app, <- IH. Qed.

Context (d : db) (Hq : queue_ok d) (Hacc : all_accepted) (Hfuel : (length ts < fuel)%nat).

(** Whom a mode's goroutine assigns. *)
Lemma mode_job_ids mode id : mode ∈ modes -> id ∈ job_ids (mode_job mode) ->
  exists x, x ∈ ts /\ plays mode x /\ t_Id x = id /\ x ∈ concat (m_Tickets <$> job_matches (mode_job mode)).
Proof using Hq Hacc Hfuel.
  intros Hmode. rewrite job_ids_tickets. intros (x & -> & Hx)%list_elem_of_fmap.
  destruct (accepted_job mode Hacc Hfuel Hmode) as (_ & _ & _ & rest & Hts & _). fold (mode_job mode) in Hts.
  assert (x ∈ filter (plays mode) ts) as [Hp Hin]%list_elem_of_filter by (rewrite Hts; apply elem_of_app; by left).
  by exists x.
Qed.

Lemma queue_inj x y : x ∈ ts -> y ∈ ts -> t_Id x = t_Id y -> x = y.
Proof using Hq. intros Hx Hy He. by eapply (NoDup_fmap_inj t_Id ts x y (qo_distinct d Hq)). Qed.

Lemma jobs_distinct : NoDup (tick_ids (mode_job <$> modes)).
Proof using Hq Hacc Hfuel.
  apply NoDup_concat_intro.
  - intros i l. rewrite !list_lookup_fmap. intros (j & (mode & Hi & ->)%fmap_Some & ->)%fmap_Some. rewrite job_ids_tickets.
    destruct (accepted_job mode Hacc Hfuel) as (_ & _ & _ & rest & Hts & _); [by eapply list_elem_of_lookup_2|].
    fold (mode_job mode) in Hts. pose proof (qo_distinct d Hq) as Hn.
    assert (NoDup (t_Id <$> filter (plays mode) ts)) as Hn'.
    { eapply sublist_NoDup; [exact Hn|]. apply (fmap_sublist t_Id), sublist_filter. }
    rewrite Hts, fmap_app in Hn'. by apply NoDup_app in Hn' as [? _].
  - intros i1 i2 l1 l2 id. rewrite !list_lookup_fmap.
    intros (j1 & (m1 & H1' & ->)%fmap_Some & ->)%fmap_Some (j2 & (m2 & H2' & ->)%fmap_Some & ->)%fmap_Some Hx1 Hx2.
    apply mode_job_ids in Hx1 as (x & Hx & Hp1 & <- & _); [|by eapply list_elem_of_lookup_2].
    apply mode_job_ids in Hx2 as (y & Hy & Hp2 & He & _); [|by eapply list_elem_of_lookup_2].
    assert (y = x) as -> by (by apply queue_inj). pose proof (qo_made d Hq) as Hmade. rewrite Forall_forall in Hmade.
    assert (m1 = m2) as -> by (eapply lesson_ticket_mode; [by apply Hmade|done|done]).
    refine (NoDup_lookup modes i1 i2 m2 _ H1' H2'). by apply (bool_decide_unpack _).
Qed.

Lemma jobs_assignable : Forall (fun j => Forall2 (assignable_match d) j.1 (job_matches j)) (mode_job <$> modes).
Proof using Hq Hacc Hfuel.
  apply Forall_fmap, Forall_forall. intros mode Hmode. cbn -[mode_job].
  destruct (accepted_job mode Hacc Hfuel Hmode) as (_ & Hl & Hs & rest & Hts & _). fold (mode_job mode) in Hl, Hs, Hts.
  pose proof (qo_stored d Hq) as Hst. rewrite Forall_forall in Hst. pose proof (proj1 (Forall_forall _ _) Hs) as Hsize. apply Forall2_same_length_lookup. split; [done|].
  intros i conn m Hc Hm. apply list_elem_of_lookup_2 in Hm.
  assert (forall x, x ∈ m_Tickets m -> x ∈ ts) as Hin.
  { intros x Hx. assert (x ∈ filter (plays mode) ts) as [_ ?]%list_elem_of_filter; [|done]. rewrite Hts.
    apply elem_of_app. left. apply elem_of_concat. exists (m_Tickets m). split; [by apply list_elem_of_fmap_2|done]. }
  unfold match_ids. split; [|split].
  - pose proof (Hsize m Hm) as Hlen. cbn beta in Hlen. intros He%fmap_nil_inv. by rewrite He in Hlen.
  - apply Forall_fmap, Forall_forall. intros x Hx. apply (Hst x), Hin, Hx.
  - intros id (x & -> & Hx)%list_elem_of_fmap. exists x. destruct (Hst x (Hin x Hx)) as (? & _ & ?). done.
Qed.

(** What is left of a mode when its goroutine is done. *)
Lemma mode_job_leaves mode r d' : mode ∈ modes -> job_done d (mode_job mode) r d' ->
  (length (filter (fun x => plays mode x /\ t_Id x ∈ index d') ts) < 4)%nat.
Proof using Hq Hacc Hfuel.
  intros Hmode (_ & _ & Hx). destruct (accepted_job mode Hacc Hfuel Hmode) as (_ & _ & _ & rest & Hts & Hr).
  fold (mode_job mode) in Hts. set (done := concat (m_Tickets <$> job_matches (mode_job mode))) in *.
  assert (filter (fun x => plays mode x /\ t_Id x ∈ index d') ts = filter (fun x => t_Id x ∈ index d') (filter (plays mode) ts)) as ->.
  { rewrite list_filter_filter. by apply list_filter_iff; intros x; rewrite (comm and). }
  rewrite Hts, filter_app. assert (filter (fun x => t_Id x ∈ index d') done = []) as ->.
  { apply elem_of_nil_inv. intros x [Hi Hin]%list_elem_of_filter. apply (Hx (t_Id x)); [|done]. rewrite job_ids_tickets.
    by apply list_elem_of_fmap_2. }
  cbn. pose proof (length_filter (fun x => t_Id x ∈ index d') rest). lia.
Qed.
End Tick101.

(** The goroutines of a tick that is over. *)
Lemma tick_jobs `{EnvironmentLaws} `{ProtoLaws} `{MapOrder} cfg xids fuel ts t w w' : sys_faulty = false -> typed (db_of w) ->
  queue_ok ts (db_of w) -> all_accepted xids fuel ts t -> (length ts < fuel)%nat ->
  Matchmaker101.director (redisBackend cfg) None [t] w = inr (Some w') ->
  untouched (list_to_set (tick_ids (mode_job t <$> modes))) (db_of w) (db_of w') /\
  forall mode, mode ∈ modes -> exists r, job_done (db_of w) (mode_job t mode) r (db_of w').
Proof.
  intros Hf Ht Hq Hacc Hfuel Hrun.
  unfold Matchmaker101.director, director_main, director_ticks in Hrun. rewrite (director_turns_jobs cfg t) in Hrun.
  destruct (prun _ _ w) as [ps w1] eqn:Hp. destruct (forallb ended ps) eqn:Hend; [|done]. injection Hrun as ->.
  pose proof (jobs_distinct xids fuel ts t (db_of w) Hq Hacc Hfuel) as Hn.
  pose proof (jobs_assignable xids fuel ts t (db_of w) Hq Hacc Hfuel) as Hm.
  destruct (jobs_run cfg _ _ w ps w' Hf Ht Hn Hm Hp) as [Hun Hjobs]. split; [done|].
  intros mode [i Hi]%list_elem_of_lookup.
  assert ((mode_job t <$> modes) !! i = Some (mode_job t mode)) as Hj by by rewrite list_lookup_fmap, Hi.
  destruct (lookup_lt_is_Some_2 ps i) as [p Hpi].
  { rewrite <- (prun_length _ _ _ _ _ Hp), length_fmap. by eapply lookup_lt_Some. }
  assert (ended p = true) as He.
  { rewrite forallb_forall in Hend. apply Hend, list_elem_of_In. by eapply list_elem_of_lookup_2. }
  destruct p as [r|]; [|done]. exists r. by apply (Hjobs i).
Qed.

(** C13. The solution of the first lesson plays: let the players' tickets, made
    by its frontend, be stored, the match function propose from the pools of
    the director's three profiles and the backend hand out the proposals. When
    the director's tick is over, however its goroutines interleaved, fewer
    than four tickets of each mode are left in the index; every proposal has
    four tickets of the profile's mode, which carry its address; and the other
    tickets are as they were. *)
Theorem matchmaker101_tick `{EnvironmentLaws} `{ProtoLaws} `{MapOrder} cfg xids fuel ts t w w' (Hf : sys_faulty = false)
  (Ht : typed (db_of w)) (Hq : queue_ok ts (db_of w)) (Hacc : all_accepted xids fuel ts t) (Hfuel : (length ts < fuel)%nat)
  (Hrun : Matchmaker101.director (redisBackend cfg) None [t] w = inr (Some w')) :
  (forall mode, mode ∈ modes -> (length (filter (fun x => plays mode x /\ t_Id x ∈ index (db_of w')) ts) < 4)%nat) /\
  (forall mp, mp ∈ Matchmaker101.generateProfiles -> exists ms, proposed xids fuel ts mp = Some (ms, Ok tt) /\
     Forall2 (assigned_to (db_of w) (db_of w')) (tk_conns t mp) ms /\
     Forall (fun m => length (m_Tickets m) = 4%nat /\ exists mode, mp_Name mp = "mode_based_profile_" +:+ mode /\
       Forall (plays mode) (m_Tickets m)) ms) /\
  (forall x, x ∈ ts -> ticket_at (db_of w') (t_Id x) = Some x \/
     exists conn, ticket_at (db_of w') (t_Id x) = Some (set_ticket_assignment (Some (mkAssignment conn ∅)) x)).
Proof.
  destruct (tick_jobs cfg xids fuel ts t w w' Hf Ht Hq Hacc Hfuel Hrun) as [[Uk _ _ _] Hdone]. split_and!.
  - intros mode Hmode. destruct (Hdone mode Hmode) as [r Hr]. eapply (mode_job_leaves xids fuel ts t); eauto.
  - intros mp (mode & -> & Hmode)%list_elem_of_fmap. destruct (Hdone mode Hmode) as (r & _ & Ha & _).
    destruct (accepted_job xids fuel ts t mode Hacc Hfuel Hmode) as (Hpr & _ & Hs & rest & Hts & _). fold (mode_job t mode) in *.
    exists (job_matches (mode_job t mode)). split; [done|]. split; [done|]. apply Forall_forall. intros m Hin.
    split; [exact (proj1 (Forall_forall _ _) Hs m Hin)|]. exists mode. split; [done|]. apply Forall_forall. intros x Hx.
    assert (x ∈ filter (plays mode) ts) as [? _]%list_elem_of_filter; [|done]. rewrite Hts. apply elem_of_app. left.
    apply elem_of_concat. exists (m_Tickets m). split; [apply list_elem_of_fmap; by exists m|done].
  - intros x Hx. pose proof (proj1 (Forall_forall _ _) (qo_stored _ _ Hq) x Hx) as (Hat & Hres & _).
    destruct (decide (t_Id x ∈ tick_ids (mode_job t <$> modes))) as [Hin|Hout].
    + right. apply elem_of_concat in Hin as (ids & (j & -> & (mode & -> & Hmode)%list_elem_of_fmap)%list_elem_of_fmap & Hid).
      destruct (Hdone mode Hmode) as (r & _ & Ha & _).
      apply elem_of_concat in Hid as (ids & (m & -> & [i Hi]%list_elem_of_lookup)%list_elem_of_fmap & Hid).
      destruct (Forall2_lookup_r _ _ _ _ _ Ha Hi) as (conn & _ & Hc). exists conn. by apply Hc.
    + left. rewrite (ticket_at_ext _ (db_of w)); [done|]. apply Uk; [by rewrite elem_of_list_to_set|].
      intros Hc. apply Hres. revert Hc. unfold common, reserved. set_solver.
Qed.

(** *** Five players, four of them of one mode *)
Section Example101.

Definition lesson_player (draw : nat) (id : string) : Ticket :=
  set_ticket_create_time (Some (mkTimestamp 0 0)) (set_ticket_id id (mode_ticket draw)).
Definition five_players : list Ticket :=
  [lesson_player 0 "p1"; lesson_player 1 "p2"; lesson_player 0 "p3"; lesson_player 0 "p4"; lesson_player 0 "p5"].

Definition five_world : env_state :=
  foldl (fun w x => after (IndexTicket x) (after (StoreTicket.CreateTicket x) w)) expiry_world five_players.

Definition lesson_xids (_ : string) (n : nat) : string := num n.
Definition five_proposals (mp : MatchProfile) : list Match :=
  match proposed lesson_xids 6 five_players mp with Some (ms, _) => ms | None => [] end.

Definition five_tick : tick :=
  mkTick (fun req => Ok (match fm_Profile req with Some mp => Fetched <$> five_proposals mp | None => [] end))
    (fun mp => (fun _ => "10.0.0.1:2222") <$> five_proposals mp) (concat (replicate 30 [2; 0; 1]%nat)).

Lemma fmap_Some_each {A} (f : A -> option A) (l : list A) : f <$> l = Some <$> l -> forall x, x ∈ l -> f x = Some x.
Proof.
  intros He x [i Hi]%list_elem_of_lookup. apply (f_equal (lookup i)) in He. rewrite !list_lookup_fmap, Hi in He.
  by injection He.
Qed.

Lemma five_queue_ok : queue_ok five_players (db_of five_world).
Proof.
  split.
  - by apply (bool_decide_unpack _).
  - repeat constructor; by eexists _, _, _.
  - assert (forall x, x ∈ five_players -> ticket_at (db_of five_world) (t_Id x) = Some x) as Hat.
    { apply (fmap_Some_each (fun x => ticket_at (db_of five_world) (t_Id x))). vm_compute. reflexivity. }
    apply Forall_forall. intros x Hx. split; [by apply Hat|]. split; [|by eexists].
    assert (Forall (fun x => not_reserved (t_Id x)) five_players) as Hr by (repeat constructor; concrete).
    by apply (proj1 (Forall_forall _ _) Hr).
Qed.

Lemma five_accepted : all_accepted lesson_xids 6 five_players five_tick.
Proof.
  intros mp Hmp. exists (five_proposals mp).
  assert (Forall (fun mp => proposed lesson_xids 6 five_players mp = Some (five_proposals mp, Ok tt)) named_mode_profiles) as Hall.
  { repeat constructor; vm_compute; reflexivity. }
  split; [by apply (proj1 (Forall_forall _ _) Hall)|]. split; [done|]. cbn. by rewrite length_fmap.
Qed.

Lemma matchmaker101_tick_witness : exists w',
  Matchmaker101.director (redisBackend mem_cfg) None [five_tick] five_world = inr (Some w') /\
  index (db_of w') = list_to_set ["p2"] ∪ index (db_of expiry_world) /\
  (length (filter (fun x => plays "mode.demo" x /\ t_Id x ∈ index (db_of w')) five_players) < 4)%nat.
Proof.
  exists (prun (tk_sched five_tick) (job_turn mem_cfg <$> (mode_job five_tick <$> modes)) five_world).2.
  assert (Matchmaker101.director (redisBackend mem_cfg) None [five_tick] five_world =
    inr (Some (prun (tk_sched five_tick) (job_turn mem_cfg <$> (mode_job five_tick <$> modes)) five_world).2)) as Hrun.
  { vm_compute. reflexivity. }
  split; [exact Hrun|]. split; [vm_compute; reflexivity|].
  apply (matchmaker101_tick mem_cfg lesson_xids 6 five_players five_tick five_world _ eq_refl ltac:(concrete)
    five_queue_ok five_accepted ltac:(cbn; lia) Hrun). by left.
Defined.
End Example101.
