(* ===== verification/ScaleDriver.v ===== *)
(** * The load generators ([examples/scale/backend], [examples/scale/frontend])

    The director that fetches matches and assigns, acknowledges and deletes,
    and the clients that create, watch and delete tickets. They call the
    handlers of the services; what they measure is kept as a list. *)
From S2P Require Export ScaleProps Director FrontendProps.

(** ** The director *)

Inductive scale_measure :=
| mFetchMatchCalls | mFetchMatchSuccesses | mFetchMatchErrors | mMatchesReturned | mSumTicketsReturned
| mMatchesAssigned | mMatchAssignsFailed | mBackfillsDeleted | mBackfillDeletesFailed.

(** What one call of [runFetchMatches] sends to the two channels. *)
Record fetch_out := mkFetchOut {
  matchesToAssign : list Match;
  matchesToAcknowledge : list Match;
  measured : list (scale_measure * Z);
}.

Section RunFetch.
(** [BackendAssignsTickets] and [BackendAcknowledgesBackfills]. *)
Variable (assigns acknowledges : bool).

(** An item of the stream: a response with its match (reading the tickets of
    none is a nil dereference) or an error; the end of the list is EOF. *)
Inductive fetch_resp := Resp (m : option Match) | RespError (err : error).

Fixpoint fetch_responses (items : list fetch_resp) (o : fetch_out) : result fetch_out :=
  match items with
  | [] => Ok (mkFetchOut (matchesToAssign o) (matchesToAcknowledge o) (measured o ++ [(mFetchMatchSuccesses, 1)]))
  | RespError _ :: _ => Ok (mkFetchOut (matchesToAssign o) (matchesToAcknowledge o) (measured o ++ [(mFetchMatchErrors, 1)]))
  | Resp None :: _ => Err EPanic
  | Resp (Some m) :: items =>
      fetch_responses items
        (mkFetchOut (if assigns then matchesToAssign o ++ [m] else matchesToAssign o)
           (if acknowledges then matchesToAcknowledge o ++ [m] else matchesToAcknowledge o)
           (measured o ++ [(mSumTicketsReturned, Z.of_nat (length (m_Tickets m))); (mMatchesReturned, 1)]))
  end.

Definition runFetchMatches (call : result (list fetch_resp)) : result fetch_out :=
  match call with
  | Err _ => Ok (mkFetchOut [] [] [(mFetchMatchCalls, 1); (mFetchMatchErrors, 1)])
  | Ok items => fetch_responses items (mkFetchOut [] [] [(mFetchMatchCalls, 1)])
  end.
End RunFetch.

Section ScaleBackend.
Context `{Sys} `{Proto} `{MapOrder} `{Int32Any} (store : Service).

(** What a worker does with the matches it takes from the channel; [conns] are
    the random addresses. *)
Fixpoint runAssignments (conns : list string) (matches : list Match) : prog (list scale_measure) :=
  match matches, conns with
  | m :: matches, conn :: conns =>
      r ←! AssignTickets store (assignment_request conn m);
      rest ←! runAssignments conns matches;
      Ret ((match r with Err _ => mMatchAssignsFailed | Ok _ => mMatchesAssigned end) :: rest)
  | _, _ => Ret []
  end.

Definition acknowledgeBackfill (conn : string) (backfillId : string) : prog (result unit) :=
  _ ←? AcknowledgeBackfill store backfillId (Some (mkAssignment conn ∅));
  ret_ok tt.

(** The backfills sent on to be deleted. [GetId] of no backfill is empty. *)
Fixpoint runAcknowledgeBackfills (deletes : bool) (conns : list string) (matches : list Match) : prog (list Backfill) :=
  match matches, conns with
  | m :: matches, conn :: conns =>
      match m_Backfill m with
      | None => runAcknowledgeBackfills deletes conns matches
      | Some b =>
          if bool_decide (b_Id b = "") then runAcknowledgeBackfills deletes conns matches
          else
            r ←! acknowledgeBackfill conn (b_Id b);
            rest ←! runAcknowledgeBackfills deletes conns matches;
            Ret (match r with
                 | Err _ => rest
                 | Ok _ => if deletes then b :: rest else rest
                 end)
      end
  | _, _ => Ret []
  end.

(** [BackfillDeleteCond] panics on open slots that cannot be read. *)
Fixpoint runDeleteBackfills (backfills : list Backfill) : prog (result (list scale_measure)) :=
  match backfills with
  | [] => ret_ok []
  | b :: backfills =>
      match BackfillScenario.BackfillDeleteCond b with
      | Err err => ret_err err
      | Ok false => runDeleteBackfills backfills
      | Ok true =>
          r ←! DeleteBackfill store (b_Id b);
          rest ←? runDeleteBackfills backfills;
          ret_ok ((match r with Err _ => mBackfillDeletesFailed | Ok _ => mBackfillsDeleted end) :: rest)
      end
  end.
End ScaleBackend.

(** ** The clients *)

(** *** Gauges

    A gauge is a number changed by deltas; [stateGauge] remembers the one it
    has incremented. *)
Inductive gauge := mRunnersWaiting | mRunnersCreating.

#[global] Instance gauge_eq_dec : EqDecision gauge.
Proof. solve_decision. Defined.

Definition gauges := gauge -> Z.
Definition concurrentGauge (g : gauge) (delta : Z) (s : gauges) : gauges :=
  fun g' => if decide (g' = g) then s g' + delta else s g'.

Definition stateGauge := option gauge.

Definition stop (g : stateGauge) (s : gauges) : stateGauge * gauges :=
  match g with
  | Some f => (None, concurrentGauge f (-1) s)
  | None => (None, s)
  end.
Definition start (f : gauge) (g : stateGauge) (s : gauges) : stateGauge * gauges :=
  let '(_, s) := stop g s in (Some f, concurrentGauge f 1 s).

(** *** A runner *)

(** [for a.GetConnection() == ""]: a response without an assignment reads as
    one without a connection. *)
Inductive watch_item := Assigned (a : option Assignment) | WatchError (err : error).

Fixpoint watch_loop (items : list watch_item) : option (result unit) :=
  match items with
  | [] => None
  | WatchError err :: _ => Some (Err err)
  | Assigned a :: items =>
      if bool_decide (match a with Some a => a_Connection a | None => "" end = "") then watch_loop items else Some (Ok tt)
  end.

(** Opening the stream, then the loop; [None]: still waiting. *)
Definition watchAssignments (call : result (list watch_item)) : option (result unit) :=
  match call with
  | Err err => Some (Err err)
  | Ok items => watch_loop items
  end.

Inductive scale_call := DoCreate | DoWatch (id : string) | RecordTime | DoDelete (id : string).

(** The calls a runner makes, in order, and what its gauges are in the end,
    given the outcomes of creating and watching; [None]: still watching. *)
Definition runner (deletesTickets : bool) (created : result string) (watched : option (result unit)) (s : gauges) :
    option (list scale_call * gauges) :=
  let '(g, s) := start mRunnersWaiting None s in
  let '(g, s) := start mRunnersCreating g s in
  match created with
  | Err _ => let '(_, s) := stop g s in Some ([DoCreate], s)
  | Ok id =>
      match watched with
      | None => None
      | Some r =>
          let '(_, s) := stop g s in
          Some ([DoCreate; DoWatch id] ++ (match r with Ok _ => [RecordTime] | Err _ => [] end) ++
                (if deletesTickets then [DoDelete id] else []), s)
      end
  end.

(** *** The calls

    What they count; [ticket] and [backfill] are the scenario's. *)
Inductive client_measure :=
| mTicketsCreated | mTicketCreationsFailed | mTicketsDeleted | mTicketDeletesFailed
| mBackfillsCreated | mBackfillCreationsFailed.

Section ScaleFrontend.
Context `{Sys} `{Proto} (store : Service).

Definition createTicket (ticket : Ticket) : prog (client_measure * result string) :=
  resp ←! Frontend.CreateTicket store (Some ticket);
  Ret (match resp with
       | Err err => (mTicketCreationsFailed, Err err)
       | Ok resp => (mTicketsCreated, Ok (t_Id resp))
       end).

(** The handler's goroutine goes on by itself: it is not the caller's. *)
Definition deleteTicket (ticketId : string) : prog (client_measure * option error) :=
  r ←! Frontend.DeleteTicket store ticketId;
  Ret (match r with
       | Err err => (mTicketDeletesFailed, Some err)
       | Ok _ => (mTicketsDeleted, None)
       end).

Definition createBackfill (backfill : Backfill) : prog (client_measure * option error) :=
  r ←! CreateBackfill store (Some (Some backfill));
  Ret (match r with
       | Err err => (mBackfillCreationsFailed, Some err)
       | Ok _ => (mBackfillsCreated, None)
       end).

(** Up to the first that fails. *)
Fixpoint createBackfills (backfill : nat -> Backfill) (numBackfillsToCreate : nat) : prog (list client_measure * option error) :=
  match numBackfillsToCreate with
  | O => Ret ([], None)
  | S n =>
      r ←! createBackfill (backfill n);
      match r.2 with
      | Some err => Ret ([r.1], Some err)
      | None =>
          rest ←! createBackfills backfill n;
          Ret (r.1 :: rest.1, rest.2)
      end
  end.

(** The calls of a runner that change the store. In between it watches the
    ticket ([runner]), and goes on however that ends. *)
Definition runner_run (deletesTickets : bool) (ticket : Ticket) : prog (list client_measure) :=
  created ←! createTicket ticket;
  match created.2 with
  | Err _ => Ret [created.1]
  | Ok id =>
      if deletesTickets then
        deleted ←! deleteTicket id;
        Ret [created.1; deleted.1]
      else Ret [created.1]
  end.
End ScaleFrontend.

(** The runners started by a number of ticks. [totalCreated] is tested but
    never written. *)
Fixpoint runners_started (ticketQPS : nat) (ticketTotal totalCreated : Z) (ticks : nat) : nat :=
  match ticks with
  | O => O
  | S ticks =>
      ((if ((ticketTotal =? -1) || (totalCreated <? ticketTotal))%Z then ticketQPS else O) +
       runners_started ticketQPS ticketTotal totalCreated ticks)%nat
  end.

(** ** What they do *)

(** Every match fetched before the stream ended or failed is passed on, in
    order. *)
Lemma fetch_responses_passes assigns acknowledges ms rest o :
  rest = [] \/ (exists err l, rest = RespError err :: l) ->
  exists o', fetch_responses assigns acknowledges ((Resp ∘ Some <$> ms) ++ rest) o = Ok o' /\
    matchesToAssign o' = matchesToAssign o ++ (if assigns then ms else []) /\
    matchesToAcknowledge o' = matchesToAcknowledge o ++ (if acknowledges then ms else []).
Proof.
  intros Hrest. revert o. induction ms as [|m ms IH]; intros o; cbn.
  - destruct Hrest as [->|(err & l & ->)]; cbn; eexists; (split; [done|]); cbn; destruct assigns, acknowledges; by rewrite !app_nil_r.
  - destruct (IH (mkFetchOut (if assigns then matchesToAssign o ++ [m] else matchesToAssign o)
      (if acknowledges then matchesToAcknowledge o ++ [m] else matchesToAcknowledge o)
      (measured o ++ [(mSumTicketsReturned, Z.of_nat (length (m_Tickets m))); (mMatchesReturned, 1)]))) as (o' & He & Ha & Hk).
    exists o'. split; [exact He|]. rewrite Ha, Hk. cbn. destruct assigns, acknowledges; by rewrite <- ?app_assoc.
Qed.

(** A runner leaves the gauges as they were, however it ends. *)
Lemma runner_gauges deletes created watched s calls s' :
  runner deletes created watched s = Some (calls, s') -> forall g, s' g = s g.
Proof.
  unfold runner. cbn. intros Hr g. destruct created as [id|e]; [destruct watched as [r|]; [|done]|];
    injection Hr as _ <-; unfold concurrentGauge; repeat case_decide; lia.
Qed.

(** A ticket is deleted only after its watch is over, and once. *)
Lemma runner_deletes created watched s calls s' :
  runner true created watched s = Some (calls, s') ->
  match created with
  | Ok id => exists mid, calls = [DoCreate; DoWatch id] ++ mid ++ [DoDelete id] /\ (mid = [RecordTime] <-> watched = Some (Ok tt))
  | Err _ => calls = [DoCreate]
  end.
Proof.
  unfold runner. cbn. destruct created as [id|e]; [|by intros [= <- _]]. destruct watched as [[[]|e]|]; [..|done];
    intros [= <- _]; [exists [RecordTime]|exists []]; by split.
Qed.

(** The total is no limit: runners are started at every tick. *)
Lemma runners_not_limited ticketQPS ticketTotal ticks : 0 < ticketTotal ->
  runners_started ticketQPS ticketTotal 0 ticks = (ticks * ticketQPS)%nat.
Proof.
  intros Ht. induction ticks as [|ticks IH]; cbn; [done|]. rewrite (proj2 (Z.ltb_lt _ _)), orb_true_r, IH by done. done.
Qed.

Section ScaleSpec.
Context `{EnvironmentLaws} `{ProtoLaws} (cfg : View) (store : Service) `{!ServiceSpec cfg store}.

(** Whatever fails, what is counted tells how far the loop went: every backfill
    was created, or all but the last of those tried. *)
Lemma createBackfills_measured backfill n w ms e w' :
  run (createBackfills store backfill n) w = ((ms, e), w') ->
  match e with
  | None => ms = replicate n mBackfillsCreated
  | Some _ => exists k, (k < n)%nat /\ ms = replicate k mBackfillsCreated ++ [mBackfillCreationsFailed]
  end.
Proof.
  intros Hrun. pattern ms, e. change ((fun r (_ : view) => (fun ms e => match e with
    | None => ms = replicate n mBackfillsCreated
    | Some _ => exists k, (k < n)%nat /\ ms = replicate k mBackfillsCreated ++ [mBackfillCreationsFailed] end) r.1 r.2)
    (ms, e) (env_view w')).
  revert Hrun. apply run_wp. clear ms e w'. generalize (env_view w). induction n as [|n IH]; intros v; cbn [createBackfills]; [done|].
  apply wp_bind. unfold createBackfill. apply wp_bind. eapply wp_mono; [apply wp_true|]. intros [b|err] v1 _; cbn.
  - apply wp_bind. eapply wp_mono; [apply IH|]. intros [ms [err|]] v2; cbn; [|by intros ->].
    intros (k & Hk & ->). exists (S k). split; [lia|done].
  - exists O. split; [lia|done].
Qed.

(** A runner of a scenario that deletes leaves the index as it was, and of its
    ticket only the record, for the goroutine of the handler to delete. *)
Theorem runner_leaves_index ticket w ms w' :
  sys_faulty = false -> typed (db_of w) -> t_Assignment ticket = None -> t_CreateTime ticket = None ->
  (forall id c, is_Some (marshal_ticket (set_ticket_create_time c (set_ticket_id id ticket)))) ->
  (forall id, id ∈ index (db_of w) -> id ∈ v_xids (env_view w)) ->
  run (runner_run store true ticket) w = (ms, w') ->
  ms = [mTicketsCreated; mTicketsDeleted] /\ index (db_of w') = index (db_of w) /\
  exists id, (id ∉ v_xids (env_view w)) /\ forall k, k <> id -> k <> allTickets -> db_of w' !! k = db_of w !! k.
Proof using All.
  intros Hf Ht Ha Hc Hm Hx Hrun. revert Hrun.
  apply (run_wp _ _ (fun ms v' => ms = [mTicketsCreated; mTicketsDeleted] /\ index (v_db v') = index (db_of w) /\
    exists id, (id ∉ v_xids (env_view w)) /\ forall k, k <> id -> k <> allTickets -> v_db v' !! k = db_of w !! k)).
  unfold runner_run, createTicket. do 2 apply wp_bind. eapply wp_mono; [by apply (create_ticket_wp cfg store)|].
  intros r v (id & now & -> & Hid & _ & _ & _ & Hi & Hk & Hty & _). cbn [wp fst snd t_Id set_ticket_id set_ticket_create_time].
  unfold deleteTicket, Frontend.DeleteTicket, doDeleteTicket. do 2 apply wp_bind. do 2 apply wp_rbind. call (call_DeindexTicket cfg); [exact Hty|].
  cbn -[put_index]. split; [done|]. rewrite index_put_index, Hi. split.
  - assert (id ∉ index (db_of w)) by (intros ?; by apply Hid, Hx). set_solver.
  - exists id. split; [done|]. intros k Hne Hne'. unfold put_index. rewrite put_set_ne by done. by apply Hk.
Qed.
End ScaleSpec.
