(* ===== verification/Routes.v ===== *)
(** * The HTTP routes ([pkg/pb/*.pb.gw.go], [internal/app/swaggerui])

    Which requests the gateways serve. The generated code registers a method
    and a pattern for each call of the services; the patterns are what the
    templates of [api/*.proto] compile to. Matching patterns and choosing a
    handler is done by the gateway's runtime, which is not part of the
    repository: the class [GatewayRuntime] states what it documents. *)
From S2P Require Export Prelude.

(** ** Paths *)

(** Segments separated by slashes, each preceded by one. *)
Definition path_of (segments : list string) : string := foldr (fun s p => "/" +:+ s +:+ p) "" segments.

(** A segment holds no slash. *)
Definition segment (s : string) : Prop := has_char "/" s = false.

Lemma segment_inj s s' p p' : segment s -> segment s' -> (p = "" \/ exists q, p = "/" +:+ q) -> (p' = "" \/ exists q, p' = "/" +:+ q) ->
  s +:+ p = s' +:+ p' -> s = s' /\ p = p'.
Proof.
  unfold segment. revert s'. induction s as [|c s IH]; intros [|c' s'] Hs Hs' Hp Hp' He; rewrite ?append_cons in He;
    cbn [has_char] in *; change ("" +:+ ?x) with x in *.
  - done.
  - subst p. destruct Hp as [?|[q Hq]]; [done|]. rewrite append_cons in Hq. by injection Hq as -> _.
  - subst p'. destruct Hp' as [?|[q Hq]]; [done|]. rewrite append_cons in Hq. by injection Hq as -> _.
  - injection He as -> He. apply orb_false_iff in Hs as [_ Hs]. apply orb_false_iff in Hs' as [_ Hs'].
    by destruct (IH s' Hs Hs' Hp Hp' He) as [-> ->].
Qed.

Lemma path_of_cons s l : path_of (s :: l) = String "/" (s +:+ path_of l).
Proof. done. Qed.

Lemma path_of_inj l l' : Forall segment l -> Forall segment l' -> path_of l = path_of l' -> l = l'.
Proof.
  intros Hl. revert l'. induction Hl as [|s l Hs Hl IH]; intros [|s' l'] Hl' He; [done..|].
  apply Forall_cons in Hl' as [Hs' Hl']. rewrite !path_of_cons in He. injection He as He.
  assert (forall k, path_of k = "" \/ exists q, path_of k = "/" +:+ q) as Hp.
  { intros [|x k]; [by left|right]. by eexists. }
  apply segment_inj in He as [-> He]; [|done..]. f_equal. by apply IH.
Qed.

(** ** Templates of [api/*.proto]

    A literal segment or a variable; the verb, after a colon, ends the last
    literal. *)
Inductive template_segment := Lit (s : string) | Var (name : string).
Record template := mkTemplate { tm_segments : list template_segment; tm_verb : string }.

Definition with_verb (s verb : string) : string := if bool_decide (verb = "") then s else s +:+ ":" +:+ verb.

(** The path of a template at the values of its variables. *)
Fixpoint fill (ts : list template_segment) (verb : string) (values : gmap string string) : option (list string) :=
  match ts with
  | [] => Some []
  | t :: ts =>
      s ← (match t with Lit s => Some s | Var x => values !! x end);
      l ← fill ts verb values;
      Some ((match ts with [] => with_verb s verb | _ => s end) :: l)
  end.

Definition variables (ts : list template_segment) : list string :=
  omap (fun t => match t with Var x => Some x | Lit _ => None end) ts.

(** [path] is an instance of the template at exactly these values. *)
Definition instance_of (t : template) (path : string) (values : gmap string string) : Prop :=
  dom values = list_to_set (variables (tm_segments t)) /\
  exists l, fill (tm_segments t) (tm_verb t) values = Some l /\ path = path_of l /\ Forall segment l.

(** ** Patterns

    The arguments of [runtime.NewPattern]. *)
Record Pattern := mkPattern { pt_version : Z; pt_ops : list Z; pt_pool : list string; pt_verb : string }.

Definition OpPush : Z := 1.
Definition OpLitPush : Z := 2.
Definition OpConcatN : Z := 4.
Definition OpCapture : Z := 5.

Definition pool_index (pool : list string) (s : string) : nat * list string :=
  match list_find (eq s) pool with
  | Some (i, _) => (i, pool)
  | None => (length pool, pool ++ [s])
  end.

(** What the documented compiler of templates makes of one. *)
Fixpoint compile_segments (ts : list template_segment) (pool : list string) : list Z * list string :=
  match ts with
  | [] => ([], pool)
  | Lit s :: ts =>
      let '(i, pool) := pool_index pool s in
      let '(ops, pool) := compile_segments ts pool in
      (OpLitPush :: Z.of_nat i :: ops, pool)
  | Var x :: ts =>
      let '(i, pool) := pool_index pool x in
      let '(ops, pool) := compile_segments ts pool in
      (OpPush :: 0 :: OpConcatN :: 1 :: OpCapture :: Z.of_nat i :: ops, pool)
  end.

Definition compile (t : template) : Pattern :=
  let '(ops, pool) := compile_segments (tm_segments t) [] in mkPattern 1 ops pool (tm_verb t).

(** ** The routes *)

(** One for each call of the services. *)
Inductive rpc :=
| rpc_CreateTicket | rpc_DeleteTicket | rpc_GetTicket | rpc_WatchAssignments
| rpc_AcknowledgeBackfill | rpc_CreateBackfill | rpc_DeleteBackfill | rpc_GetBackfill | rpc_UpdateBackfill
| rpc_FetchMatches | rpc_AssignTickets | rpc_ReleaseTickets | rpc_ReleaseAllTickets
| rpc_QueryTickets | rpc_QueryTicketIds | rpc_QueryBackfills
| rpc_Evaluate | rpc_Run.

#[global] Instance rpc_eq_dec : EqDecision rpc.
Proof. solve_decision. Defined.

Definition pattern_FrontendService_CreateTicket_0 : Pattern :=
  mkPattern 1 [2; 0; 2; 1; 2; 2] ["v1"; "frontendservice"; "tickets"] "".
Definition pattern_FrontendService_DeleteTicket_0 : Pattern :=
  mkPattern 1 [2; 0; 2; 1; 2; 2; 1; 0; 4; 1; 5; 3] ["v1"; "frontendservice"; "tickets"; "ticket_id"] "".
Definition pattern_FrontendService_GetTicket_0 : Pattern :=
  mkPattern 1 [2; 0; 2; 1; 2; 2; 1; 0; 4; 1; 5; 3] ["v1"; "frontendservice"; "tickets"; "ticket_id"] "".
Definition pattern_FrontendService_WatchAssignments_0 : Pattern :=
  mkPattern 1 [2; 0; 2; 1; 2; 2; 1; 0; 4; 1; 5; 3; 2; 4] ["v1"; "frontendservice"; "tickets"; "ticket_id"; "assignments"] "".
Definition pattern_FrontendService_AcknowledgeBackfill_0 : Pattern :=
  mkPattern 1 [2; 0; 2; 1; 2; 2; 1; 0; 4; 1; 5; 3; 2; 4] ["v1"; "frontendservice"; "backfills"; "backfill_id"; "acknowledge"] "".
Definition pattern_FrontendService_CreateBackfill_0 : Pattern :=
  mkPattern 1 [2; 0; 2; 1; 2; 2] ["v1"; "frontendservice"; "backfills"] "".
Definition pattern_FrontendService_DeleteBackfill_0 : Pattern :=
  mkPattern 1 [2; 0; 2; 1; 2; 2; 1; 0; 4; 1; 5; 3] ["v1"; "frontendservice"; "backfills"; "backfill_id"] "".
Definition pattern_FrontendService_GetBackfill_0 : Pattern :=
  mkPattern 1 [2; 0; 2; 1; 2; 2; 1; 0; 4; 1; 5; 3] ["v1"; "frontendservice"; "backfills"; "backfill_id"] "".
Definition pattern_FrontendService_UpdateBackfill_0 : Pattern :=
  mkPattern 1 [2; 0; 2; 1; 2; 2] ["v1"; "frontendservice"; "backfills"] "".
Definition pattern_BackendService_FetchMatches_0 : Pattern :=
  mkPattern 1 [2; 0; 2; 1; 2; 2] ["v1"; "backendservice"; "matches"] "fetch".
Definition pattern_BackendService_AssignTickets_0 : Pattern :=
  mkPattern 1 [2; 0; 2; 1; 2; 2] ["v1"; "backendservice"; "tickets"] "assign".
Definition pattern_BackendService_ReleaseTickets_0 : Pattern :=
  mkPattern 1 [2; 0; 2; 1; 2; 2] ["v1"; "backendservice"; "tickets"] "release".
Definition pattern_BackendService_ReleaseAllTickets_0 : Pattern :=
  mkPattern 1 [2; 0; 2; 1; 2; 2] ["v1"; "backendservice"; "tickets"] "releaseall".
Definition pattern_QueryService_QueryTickets_0 : Pattern :=
  mkPattern 1 [2; 0; 2; 1; 2; 2] ["v1"; "queryservice"; "tickets"] "query".
Definition pattern_QueryService_QueryTicketIds_0 : Pattern :=
  mkPattern 1 [2; 0; 2; 1; 2; 2] ["v1"; "queryservice"; "ticketids"] "query".
Definition pattern_QueryService_QueryBackfills_0 : Pattern :=
  mkPattern 1 [2; 0; 2; 1; 2; 2] ["v1"; "queryservice"; "backfills"] "query".
Definition pattern_Evaluator_Evaluate_0 : Pattern :=
  mkPattern 1 [2; 0; 2; 1; 2; 2] ["v1"; "evaluator"; "matches"] "evaluate".
Definition pattern_MatchFunction_Run_0 : Pattern :=
  mkPattern 1 [2; 0; 2; 1] ["v1"; "matchfunction"] "run".

(** What [mux.Handle] registers, in the order of the code. *)
Record route := mkRoute { rt_method : string; rt_pattern : Pattern; rt_rpc : rpc }.

#[global] Instance pattern_eq_dec : EqDecision Pattern.
Proof. solve_decision. Defined.
#[global] Instance route_eq_dec : EqDecision route.
Proof. solve_decision. Defined.

Definition frontend_routes : list route :=
  [mkRoute "POST" pattern_FrontendService_CreateTicket_0 rpc_CreateTicket;
   mkRoute "DELETE" pattern_FrontendService_DeleteTicket_0 rpc_DeleteTicket;
   mkRoute "GET" pattern_FrontendService_GetTicket_0 rpc_GetTicket;
   mkRoute "GET" pattern_FrontendService_WatchAssignments_0 rpc_WatchAssignments;
   mkRoute "POST" pattern_FrontendService_AcknowledgeBackfill_0 rpc_AcknowledgeBackfill;
   mkRoute "POST" pattern_FrontendService_CreateBackfill_0 rpc_CreateBackfill;
   mkRoute "DELETE" pattern_FrontendService_DeleteBackfill_0 rpc_DeleteBackfill;
   mkRoute "GET" pattern_FrontendService_GetBackfill_0 rpc_GetBackfill;
   mkRoute "PATCH" pattern_FrontendService_UpdateBackfill_0 rpc_UpdateBackfill].
Definition backend_routes : list route :=
  [mkRoute "POST" pattern_BackendService_FetchMatches_0 rpc_FetchMatches;
   mkRoute "POST" pattern_BackendService_AssignTickets_0 rpc_AssignTickets;
   mkRoute "POST" pattern_BackendService_ReleaseTickets_0 rpc_ReleaseTickets;
   mkRoute "POST" pattern_BackendService_ReleaseAllTickets_0 rpc_ReleaseAllTickets].
Definition query_routes : list route :=
  [mkRoute "POST" pattern_QueryService_QueryTickets_0 rpc_QueryTickets;
   mkRoute "POST" pattern_QueryService_QueryTicketIds_0 rpc_QueryTicketIds;
   mkRoute "POST" pattern_QueryService_QueryBackfills_0 rpc_QueryBackfills].
Definition evaluator_routes : list route := [mkRoute "POST" pattern_Evaluator_Evaluate_0 rpc_Evaluate].
Definition matchfunction_routes : list route := [mkRoute "POST" pattern_MatchFunction_Run_0 rpc_Run].

(** A mux with every service: minimatch registers all but the last two. *)
Definition all_routes : list route :=
  frontend_routes ++ backend_routes ++ query_routes ++ evaluator_routes ++ matchfunction_routes.

(** The templates of the [google.api.http] options. *)
Definition rpc_template (r : rpc) : string * template :=
  let front l := mkTemplate (Lit "v1" :: Lit "frontendservice" :: l) "" in
  let verb l v := mkTemplate (Lit "v1" :: l) v in
  match r with
  | rpc_CreateTicket => ("POST", front [Lit "tickets"])
  | rpc_DeleteTicket => ("DELETE", front [Lit "tickets"; Var "ticket_id"])
  | rpc_GetTicket => ("GET", front [Lit "tickets"; Var "ticket_id"])
  | rpc_WatchAssignments => ("GET", front [Lit "tickets"; Var "ticket_id"; Lit "assignments"])
  | rpc_AcknowledgeBackfill => ("POST", front [Lit "backfills"; Var "backfill_id"; Lit "acknowledge"])
  | rpc_CreateBackfill => ("POST", front [Lit "backfills"])
  | rpc_DeleteBackfill => ("DELETE", front [Lit "backfills"; Var "backfill_id"])
  | rpc_GetBackfill => ("GET", front [Lit "backfills"; Var "backfill_id"])
  | rpc_UpdateBackfill => ("PATCH", front [Lit "backfills"])
  | rpc_FetchMatches => ("POST", verb [Lit "backendservice"; Lit "matches"] "fetch")
  | rpc_AssignTickets => ("POST", verb [Lit "backendservice"; Lit "tickets"] "assign")
  | rpc_ReleaseTickets => ("POST", verb [Lit "backendservice"; Lit "tickets"] "release")
  | rpc_ReleaseAllTickets => ("POST", verb [Lit "backendservice"; Lit "tickets"] "releaseall")
  | rpc_QueryTickets => ("POST", verb [Lit "queryservice"; Lit "tickets"] "query")
  | rpc_QueryTicketIds => ("POST", verb [Lit "queryservice"; Lit "ticketids"] "query")
  | rpc_QueryBackfills => ("POST", verb [Lit "queryservice"; Lit "backfills"] "query")
  | rpc_Evaluate => ("POST", verb [Lit "evaluator"; Lit "matches"] "evaluate")
  | rpc_Run => ("POST", verb [Lit "matchfunction"] "run")
  end.

(** Every route is what its template compiles to. *)
Lemma routes_compiled : Forall (fun r => rpc_template (rt_rpc r) = (rt_method r, (rpc_template (rt_rpc r)).2) /\
  rt_pattern r = compile (rpc_template (rt_rpc r)).2) all_routes.
Proof. repeat constructor. Qed.

(** ** Dispatching *)

Definition plain_value (s : string) : Prop := s <> "" /\ has_char "/" s = false /\ has_char ":" s = false.
#[global] Instance plain_value_dec s : Decision (plain_value s).
Proof. unfold plain_value. apply _. Defined.

(** A template of the syntax of path templates: literals and the verb have
    none of its separators, the verb ends a literal, and the variables
    differ. *)
Definition well_formed (t : template) : Prop :=
  NoDup (variables (tm_segments t)) /\
  Forall (fun s => match s with Lit l => plain_value l | Var _ => True end) (tm_segments t) /\
  (tm_verb t <> "" -> plain_value (tm_verb t)) /\
  match last (tm_segments t) with Some (Var _) => tm_verb t = "" | Some (Lit _) => True | None => False end.

Class GatewayRuntime := {
  (** [Pattern.Match] on the path of a request. *)
  pattern_match : Pattern -> string -> option (gmap string string);
  (** [ServeMux.ServeHTTP]: the handler that gets a request, with the path's
      parameters. *)
  mux_serve : list route -> string -> string -> option (rpc * gmap string string);
}.

Class GatewayLaws `{GatewayRuntime} := {
  match_sound t path values : well_formed t -> pattern_match (compile t) path = Some values -> instance_of t path values;
  match_complete t path values : well_formed t -> instance_of t path values -> map_Forall (fun _ => plain_value) values ->
    pattern_match (compile t) path = Some values;
  serve_sound rs method path r values : mux_serve rs method path = Some (r, values) ->
    exists rt, rt ∈ rs /\ rt_method rt = method /\ rt_rpc rt = r /\ pattern_match (rt_pattern rt) path = Some values;
  serve_complete rs method path rt : rt ∈ rs -> rt_method rt = method -> is_Some (pattern_match (rt_pattern rt) path) ->
    is_Some (mux_serve rs method path);
}.

(** Two templates clash when no path is an instance of both. *)
Fixpoint shape (ts : list template_segment) (verb : string) : list (option string) :=
  match ts with
  | [] => []
  | t :: ts =>
      match t with Lit s => Some (match ts with [] => with_verb s verb | _ => s end) | Var _ => None end :: shape ts verb
  end.
Fixpoint clash (l k : list (option string)) : bool :=
  match l, k with
  | [], [] => false
  | Some s :: l, Some s' :: k => bool_decide (s <> s') || clash l k
  | _ :: l, _ :: k => clash l k
  | _, _ => true
  end.

Definition fits (s : string) (o : option string) : Prop := match o with Some x => s = x | None => True end.

Lemma fill_shape ts verb values l : fill ts verb values = Some l -> Forall2 fits l (shape ts verb).
Proof.
  revert l. induction ts as [|t ts IH]; intros l Hl; cbn in *; [by simplify_eq|].
  apply bind_Some in Hl as (s & Hs & (l' & Hl' & [= <-])%bind_Some).
  constructor; [|by apply IH]. destruct t; [|done]. simplify_eq. by destruct ts.
Qed.

Lemma clash_disjoint l k k' : Forall2 fits l k -> Forall2 fits l k' -> clash k k' = false.
Proof.
  intros Hk. revert k'. induction Hk as [|s o l k Hs Hk IH]; intros k' Hk'.
  - by apply Forall2_nil_inv_l in Hk' as ->.
  - apply Forall2_cons_inv_l in Hk' as (o' & k2 & Hs' & Hk2 & ->). cbn.
    destruct o as [x|], o' as [x'|]; cbn in *; simplify_eq; rewrite ?IH by done; [|done..].
    rewrite bool_decide_eq_false_2; [done|]. intros Hn. by apply Hn.
Qed.

(** The routes of different calls differ in the method or clash. *)
Definition apart_routes (r r' : rpc) : bool :=
  bool_decide (r = r') || bool_decide ((rpc_template r).1 <> (rpc_template r').1) ||
  clash (shape (tm_segments (rpc_template r).2) (tm_verb (rpc_template r).2))
        (shape (tm_segments (rpc_template r').2) (tm_verb (rpc_template r').2)).

Lemma routes_apart r r' : apart_routes r r' = true.
Proof. destruct r, r'; reflexivity. Qed.

Lemma templates_well_formed r : well_formed (rpc_template r).2.
Proof. destruct r; (split; [apply (bool_decide_unpack _); reflexivity|]); repeat constructor; cbn; done. Qed.

Section Served.
Context `{GatewayLaws} (rs : list route) (Hrs : rs ⊆ all_routes).

Lemma served_instance method path r values : mux_serve rs method path = Some (r, values) ->
  method = (rpc_template r).1 /\ pattern_match (compile (rpc_template r).2) path = Some values.
Proof using All.
  intros (rt & Hrt & <- & <- & Hm)%serve_sound.
  destruct (proj1 (Forall_forall _ _) routes_compiled rt (Hrs _ Hrt)) as [Ht Hp]. rewrite <- Hp. by rewrite Ht.
Qed.

(** The call whose template a path is an instance of gets the request. *)
Lemma serve_instance rt path values : rt ∈ rs -> instance_of (rpc_template (rt_rpc rt)).2 path values ->
  map_Forall (fun _ => plain_value) values ->
  mux_serve rs (rpc_template (rt_rpc rt)).1 path = Some (rt_rpc rt, values).
Proof using All.
  intros Hrt Hi Hv. destruct (proj1 (Forall_forall _ _) routes_compiled rt (Hrs _ Hrt)) as [Ht Hp].
  pose proof (match_complete _ _ _ (templates_well_formed _) Hi Hv) as Hm.
  destruct (serve_complete rs (rpc_template (rt_rpc rt)).1 path rt Hrt) as [[r' values'] Hs]; [by rewrite Ht|rewrite Hp; eauto|].
  destruct (served_instance _ _ _ _ Hs) as [Hmeth Hm']. rewrite Hs.
  assert (r' = rt_rpc rt) as ->; [|congruence].
  apply match_sound in Hm' as (_ & l' & Hl' & -> & Hseg'); [|apply templates_well_formed].
  destruct Hi as (_ & l & Hl & He & Hseg). apply path_of_inj in He as ->; [|done..].
  pose proof (clash_disjoint _ _ _ (fill_shape _ _ _ _ Hl') (fill_shape _ _ _ _ Hl)) as Hno.
  pose proof (routes_apart r' (rt_rpc rt)) as Hap. unfold apart_routes in Hap. rewrite Hno, orb_false_r in Hap.
  rewrite (bool_decide_eq_false_2 (_ <> _)) in Hap by (intros Hn; by apply Hn).
  rewrite orb_false_r in Hap. by apply bool_decide_eq_true in Hap.
Qed.
End Served.

(** C17. Every call of the services is served at the method and path that its
    [google.api.http] option gives, with the path's parameters, and at no
    other: whatever services are registered with one mux, no request can reach
    two calls, so the order of registration does not matter. *)
Theorem routes_served `{GatewayLaws} rs (Hrs : rs ⊆ all_routes) :
  (forall rt path values, rt ∈ rs -> instance_of (rpc_template (rt_rpc rt)).2 path values ->
     map_Forall (fun _ => plain_value) values ->
     mux_serve rs (rpc_template (rt_rpc rt)).1 path = Some (rt_rpc rt, values)) /\
  (forall method path r values, mux_serve rs method path = Some (r, values) ->
     method = (rpc_template r).1 /\ instance_of (rpc_template r).2 path values).
Proof.
  split; [intros rt path values; by apply serve_instance|].
  intros method path r values [-> Hm]%served_instance; [|done]. split; [done|].
  apply match_sound; [apply templates_well_formed|done].
Qed.

(** *** A runtime

    It reads the template back from the pattern and matches segment by
    segment. *)
Definition segments_of (path : string) : option (list string) :=
  match path with
  | String c s => if bool_decide (c = "/"%char) then let '(x, l) := split_on "/" s in Some (x :: l) else None
  | EmptyString => None
  end.

Fixpoint decompile (fuel : nat) (ops : list Z) (pool : list string) : list template_segment :=
  match fuel, ops with
  | S fuel, 2 :: i :: ops => Lit (default "" (pool !! Z.to_nat i)) :: decompile fuel ops pool
  | S fuel, 1 :: 0 :: 4 :: 1 :: 5 :: i :: ops => Var (default "" (pool !! Z.to_nat i)) :: decompile fuel ops pool
  | _, _ => []
  end.

Fixpoint match_segments (ts : list template_segment) (verb : string) (l : list string) : option (gmap string string) :=
  match ts, l with
  | [], [] => Some ∅
  | Lit s :: ts, x :: l =>
      if bool_decide (x = match ts with [] => with_verb s verb | _ => s end) then match_segments ts verb l else None
  | Var v :: ts, x :: l => m ← match_segments ts verb l; Some (<[v := x]> m)
  | _, _ => None
  end.

Definition path_match (p : Pattern) (path : string) : option (gmap string string) :=
  l ← segments_of path; match_segments (decompile (length (pt_ops p)) (pt_ops p) (pt_pool p)) (pt_verb p) l.

Fixpoint first_match (rs : list route) (method path : string) : option (rpc * gmap string string) :=
  match rs with
  | [] => None
  | rt :: rs =>
      match path_match (rt_pattern rt) path with
      | Some values => if bool_decide (rt_method rt = method) then Some (rt_rpc rt, values) else first_match rs method path
      | None => first_match rs method path
      end
  end.

Definition path_runtime : GatewayRuntime := {| pattern_match := path_match; mux_serve := first_match |}.

Lemma split_path_spec s : let '(x, l) := split_on "/" s in s = x +:+ path_of l /\ segment x /\ Forall segment l.
Proof.
  induction s as [|c s IH]; cbn; [done|]. destruct (split_on "/" s) as [x l]. destruct IH as (He & Hx & Hl).
  case_bool_decide as Hc.
  - subst c. split_and!; [by rewrite path_of_cons, <- He|done|by constructor].
  - split_and!; [by rewrite append_cons, <- He| |done]. unfold segment. cbn. by rewrite bool_decide_eq_false_2.
Qed.

Lemma segments_of_path path l : segments_of path = Some l <-> path = path_of l /\ Forall segment l /\ l <> [].
Proof.
  split.
  - destruct path as [|c s]; cbn; [done|]. case_bool_decide as Hc; [|done]. pose proof (split_path_spec s) as Hs.
    destruct (split_on "/" s) as [x l']. destruct Hs as (He & Hx & Hl). intros [= <-]. subst c.
    split_and!; [by rewrite path_of_cons, <- He|by constructor|done].
  - intros (-> & Hl & Hn). destruct l as [|x l]; [done|]. rewrite path_of_cons. cbn [segments_of].
    rewrite bool_decide_eq_true_2 by done. pose proof (split_path_spec (x +:+ path_of l)) as Hs.
    destruct (split_on _ _) as [y k]. destruct Hs as (He & Hy & Hk). f_equal. symmetry.
    apply path_of_inj; [done|by constructor|]. rewrite !path_of_cons. by f_equal.
Qed.

Lemma pool_index_spec pool s : let '(i, pool') := pool_index pool s in
  pool' !! i = Some s /\ exists k, pool' = pool ++ k.
Proof.
  unfold pool_index. destruct (list_find (eq s) pool) as [[i s']|] eqn:Hf.
  - apply list_find_Some in Hf as (Hi & <- & _). split; [done|]. exists []. by rewrite app_nil_r.
  - split; [|by eexists]. by rewrite lookup_app_r, Nat.sub_diag by lia.
Qed.

Lemma decompile_compile ts pool : let '(ops, pool') := compile_segments ts pool in
  (exists k, pool' = pool ++ k) /\
  forall fuel k, (length ops <= fuel)%nat -> decompile fuel ops (pool' ++ k) = ts.
Proof.
  revert pool. induction ts as [|t ts IH]; intros pool; cbn.
  - split; [exists []; by rewrite app_nil_r|]. intros [|fuel]; done.
  - destruct t as [s|s]; pose proof (pool_index_spec pool s) as Hp; destruct (pool_index pool s) as [i pool1];
      destruct Hp as (Hi & k1 & ->); specialize (IH (pool ++ k1)); destruct (compile_segments ts (pool ++ k1)) as [ops pool2];
      destruct IH as ((k2 & ->) & IH); (split; [exists (k1 ++ k2); by rewrite app_assoc|]);
      intros [|fuel] k Hf; cbn in Hf |- *; try lia;
      rewrite Nat2Z.id, (lookup_app_l_Some _ k _ s) by (by apply lookup_app_l_Some); cbn; rewrite IH by lia; done.
Qed.

Lemma path_match_compile t path values : path_match (compile t) path = Some values <->
  exists l, path = path_of l /\ Forall segment l /\ l <> [] /\ match_segments (tm_segments t) (tm_verb t) l = Some values.
Proof.
  unfold path_match, compile. pose proof (decompile_compile (tm_segments t) []) as Hd.
  destruct (compile_segments (tm_segments t) []) as [ops pool]. destruct Hd as [_ Hd]. cbn.
  specialize (Hd (length ops) []). rewrite app_nil_r in Hd. rewrite Hd by lia. rewrite bind_Some.
  setoid_rewrite segments_of_path. naive_solver.
Qed.

(** Matching segments against a template is filling it. *)
Lemma fill_insert ts verb values v x : v ∉ variables ts -> fill ts verb (<[v := x]> values) = fill ts verb values.
Proof.
  induction ts as [|[s|y] ts IH]; cbn; intros Hv; [done|by rewrite IH|].
  apply not_elem_of_cons in Hv as [Hne Hv]. by rewrite lookup_insert_ne, IH.
Qed.

Definition last_ok (ts : list template_segment) (verb : string) : Prop :=
  match last ts with Some (Var _) => verb = "" | _ => True end.

Lemma last_ok_cons t ts verb : last_ok (t :: ts) verb -> last_ok ts verb.
Proof. unfold last_ok. destruct ts as [|t' ts]; [done|]. by rewrite last_cons_cons. Qed.

Lemma match_segments_fill ts verb l values : NoDup (variables ts) -> last_ok ts verb ->
  match_segments ts verb l = Some values <-> dom values = list_to_set (variables ts) /\ fill ts verb values = Some l.
Proof.
  revert l values. induction ts as [|t ts IH]; intros l values Hn Hl.
  - cbn. destruct l; cbn; [|split; [done|by intros [_ ?]]]. rewrite dom_empty_iff_L. naive_solver.
  - pose proof (last_ok_cons _ _ _ Hl) as Hl'. destruct t as [s|v]; cbn in Hn |- *.
    + destruct (fill ts verb values) as [k|] eqn:Hf; cbn.
      * destruct l as [|x l]; [split; [done|by intros [_ ?]]|]. case_bool_decide as Hx.
        -- rewrite IH, Hf by done. subst. naive_solver.
        -- split; [done|]. intros [_ [=]]. congruence.
      * destruct l as [|x l]; [split; [done|by intros [_ ?]]|]. case_bool_decide as Hx; [|split; [done|by intros [_ ?]]].
        rewrite IH, Hf by done. naive_solver.
    + apply NoDup_cons in Hn as [Hv Hn]. destruct l as [|x l]; [split; [done|]|].
      { intros [_ (y & _ & (k & _ & [=])%bind_Some)%bind_Some]. }
      rewrite bind_Some. split.
      * intros (m & [Hd Hf]%IH & [= <-]); [|done..]. rewrite dom_insert_L, Hd. split; [done|].
        rewrite lookup_insert_eq, fill_insert by done. cbn. rewrite Hf. cbn. do 2 f_equal. destruct ts; [|done].
        unfold last_ok in Hl. cbn in Hl. by subst.
      * intros [Hd (y & Hy & (k & Hk & [= He <-])%bind_Some)%bind_Some].
        assert (y = x) as ->. { destruct ts; [|done]. unfold last_ok in Hl. cbn in Hl. by subst. }
        exists (delete v values). rewrite insert_delete_id by done. split; [|done]. apply IH; [done..|]. split.
        -- rewrite dom_delete_L, Hd. apply leibniz_equiv. set_solver.
        -- rewrite <- (fill_insert ts verb (delete v values) v x), insert_delete_id by done. done.
Qed.

Lemma fill_nonempty ts verb values l : fill ts verb values = Some l -> ts <> [] -> l <> [].
Proof.
  destruct ts; [done|]. cbn. intros (y & _ & (k & _ & [= <-])%bind_Some)%bind_Some _. done.
Qed.

Lemma well_formed_spec t : well_formed t ->
  NoDup (variables (tm_segments t)) /\ last_ok (tm_segments t) (tm_verb t) /\ tm_segments t <> [].
Proof.
  intros (Hn & _ & _ & Hl). split; [done|]. unfold last_ok. destruct (last (tm_segments t)) as [[]|] eqn:Hs; [| |done];
    (split; [done|]); intros He; by rewrite He in Hs.
Qed.

Lemma path_runtime_laws : @GatewayLaws path_runtime.
Proof.
  split; cbn.
  - intros t path values (Hn & Hl & _)%well_formed_spec (l & -> & Hseg & _ & [Hd Hf]%match_segments_fill)%path_match_compile; [|done..].
    split; [done|]. by exists l.
  - intros t path values (Hn & Hl & Hne)%well_formed_spec (Hd & l & Hf & -> & Hseg) _. apply path_match_compile. exists l.
    split_and!; [done|done|by eapply fill_nonempty|by apply match_segments_fill].
  - intros rs method path r values. induction rs as [|rt rs IH]; cbn; [done|].
    assert (first_match rs method path = Some (r, values) -> exists rt0, rt0 ∈ rt :: rs /\ rt_method rt0 = method /\
      rt_rpc rt0 = r /\ path_match (rt_pattern rt0) path = Some values) as Hrec.
    { intros (rt' & Hin & Hrt')%IH. exists rt'. split; [by right|done]. }
    destruct (path_match (rt_pattern rt) path) as [vs|] eqn:Hm; [|done].
    case_bool_decide; [|done]. intros [= <- <-]. exists rt. split_and!; [by left|done..].
  - intros rs method path rt Hrt Hmeth [vs Hm]. induction rs as [|rt' rs IH]; [by apply not_elem_of_nil in Hrt|]. cbn.
    apply elem_of_cons in Hrt as [->|Hrt].
    + rewrite Hm, bool_decide_eq_true_2 by done. by eexists.
    + destruct (path_match (rt_pattern rt') path); [case_bool_decide; [by eexists|]|]; by apply IH.
Qed.

(** GET /v1/frontendservice/tickets/{ticket_id} with every service on the mux. *)
Lemma routes_served_witness :
  @mux_serve path_runtime all_routes "GET" "/v1/frontendservice/tickets/abc" = Some (rpc_GetTicket, {["ticket_id" := "abc"]}) /\
  @mux_serve path_runtime all_routes "POST" "/v1/frontendservice/tickets/abc" = None.
Proof.
  pose proof path_runtime_laws as Hlaws. split; [|vm_compute; reflexivity].
  destruct (@routes_served path_runtime Hlaws all_routes) as [Hs _]; [intros rt Hrt; exact Hrt|].
  apply (Hs (mkRoute "GET" pattern_FrontendService_GetTicket_0 rpc_GetTicket) "/v1/frontendservice/tickets/abc" {["ticket_id" := "abc"]}).
  - do 2 apply list_elem_of_further. apply list_elem_of_here.
  - split; [vm_compute; reflexivity|]. exists ["v1"; "frontendservice"; "tickets"; "abc"].
    split; [vm_compute; reflexivity|]. split; [reflexivity|]. repeat constructor.
  - apply map_Forall_singleton. split; [discriminate|]. split; reflexivity.
Defined.
