(* ===== verification/Swagger.v ===== *)
(** * The Swagger UI ([internal/app/swaggerui])

    A static page and reverse proxies to the services' HTTP endpoints: which
    of the gateways' routes the proxies cover. *)
From S2P Require Export Routes Server.

(** ** The proxied prefixes *)
Inductive swagger_handler := FileServer | AlwaysReadyHealthCheck | ReverseProxy (service : string).

Definition bindHandler (path service : string) : string * swagger_handler := (path, ReverseProxy service).

Definition serve : list (string * swagger_handler) :=
  [("/", FileServer); ("/healthz", AlwaysReadyHealthCheck);
   bindHandler "/v1/frontend/" "frontend"; bindHandler "/v1/backend/" "backend";
   bindHandler "/v1/queryservice/" "queryservice"; bindHandler "/v1/synchronizer/" "synchronizer";
   bindHandler "/v1/evaluator/" "evaluator"; bindHandler "/v1/matchfunction/" "functions"].

Definition swagger_serves (path : string) : option swagger_handler :=
  pattern ← mux_pattern serve.*1 path;
  e ← list_find (fun e => e.1 = pattern) serve;
  Some e.2.2.

(** The request a proxy sends on: scheme and host of the endpoint, queries
    joined, and no default User-Agent. *)
Record proxied_request := mkProxiedRequest {
  pr_Scheme : string; pr_Host : string; pr_Path : string; pr_RawQuery : string; pr_UserAgent : option string;
}.
Definition overlayURLProxy (scheme host targetQuery : string) (req : proxied_request) : proxied_request :=
  mkProxiedRequest scheme host (pr_Path req)
    (if bool_decide (targetQuery = "" \/ pr_RawQuery req = "") then targetQuery +:+ pr_RawQuery req
     else targetQuery +:+ "&" +:+ pr_RawQuery req)
    (match pr_UserAgent req with Some ua => Some ua | None => Some "" end).

(** Only the query service and the evaluator are reached through the proxies:
    the paths of the frontend and of the backend begin with
    [/v1/frontendservice/] and [/v1/backendservice/], the match function's is
    [/v1/matchfunction:run], and the synchronizer has no HTTP routes, so
    requests of the page to the first three get a static file. *)
Theorem swagger_proxies r path values (Hi : instance_of (rpc_template r).2 path values) :
  swagger_serves path = Some
    (match r with
     | rpc_QueryTickets | rpc_QueryTicketIds | rpc_QueryBackfills => ReverseProxy "queryservice"
     | rpc_Evaluate => ReverseProxy "evaluator"
     | _ => FileServer
     end).
Proof.
  destruct Hi as (_ & l & Hf & -> & _).
  destruct r; cbn in Hf;
    repeat match goal with H : (_ ≫= _) = Some _ |- _ => apply bind_Some in H as (? & ? & ?) end; simplify_eq; reflexivity.
Qed.

Lemma swagger_proxies_witness :
  instance_of (rpc_template rpc_GetTicket).2 "/v1/frontendservice/tickets/abc" {["ticket_id" := "abc"]} /\
  swagger_serves "/v1/frontendservice/tickets/abc" = Some FileServer /\
  swagger_serves "/v1/queryservice/tickets:query" = Some (ReverseProxy "queryservice").
Proof.
  assert (instance_of (rpc_template rpc_GetTicket).2 "/v1/frontendservice/tickets/abc" {["ticket_id" := "abc"]}) as Hi.
  { split; [vm_compute; reflexivity|]. exists ["v1"; "frontendservice"; "tickets"; "abc"].
    split; [vm_compute; reflexivity|]. split; [reflexivity|]. repeat constructor. }
  split; [exact Hi|]. split; [exact (swagger_proxies rpc_GetTicket _ _ Hi)|reflexivity].
Defined.
