(* ===== verification/Gateway.v ===== *)
(** * The HTTP gateways ([pkg/pb/*.pb.gw.go])

    What each route does with a request: read the message from the body and
    the path, call the service, forward the answer. The gateway comes in two
    forms, one that calls the service over gRPC and one that calls its server
    in the process. Decoding, the request's metadata and writing the response
    are done by the gateway's runtime. *)
From S2P Require Export Routes FrontendProps BackendProps.

(** ** Requests and answers *)

(** What the decoder says besides filling the message. *)
Inductive decode_failure := DecodeEOF | DecodeError (m : string).

(** [marshaler.NewDecoder(...).Decode] into a new message. *)
Class Unmarshals (A : Type) := { empty_request : A; Decode : string -> A * option decode_failure }.

(** [runtime.String] of a path parameter. *)
Class PathValues := { runtime_String : string -> result string }.

(** [IOReaderFactory]'s reader on the body, and the outcome of annotating the
    context with the request's metadata. *)
Record http_request := mkHttpRequest { hr_Body : result string; hr_annotated : result unit }.

(** [runtime.ServerMetadata]. *)
Record ServerMetadata := mkServerMetadata { HeaderMD : list (string * string); TrailerMD : list (string * string) }.
Definition no_metadata : ServerMetadata := mkServerMetadata [] [].

Record AcknowledgeBackfillRequest := mkAcknowledgeBackfillRequest {
  akr_BackfillId : string;
  akr_Assignment : option Assignment;
}.

(** The messages that are forwarded. *)
Inductive message :=
| MTicket (t : Ticket) | MEmpty | MBackfill (b : Backfill) | MMaybeBackfill (b : option Backfill)
| MAcknowledge (r : AcknowledgeBackfillResponse) | MAssign (r : AssignTicketsResponse).

(** [stream]: the handle of a server's stream. *)
Inductive http_answer (stream : Type) :=
| HTTPError (md : ServerMetadata) (err : error)
| ForwardResponseMessage (md : ServerMetadata) (msg : message)
| ForwardResponseStream (md : ServerMetadata) (s : stream)
| RoutingError.
Arguments HTTPError {stream}.
Arguments ForwardResponseMessage {stream}.
Arguments ForwardResponseStream {stream}.
Arguments RoutingError {stream}.

Section Gateway.
Context `{Sys} `{PathValues} {stream : Type} (Header : stream -> prog (result (list (string * string)))).
Implicit Types (req : http_request) (pathParams : gmap string string).

(** ** Reading a request *)
Definition read_body {A} `{Unmarshals A} req : result A :=
  match hr_Body req with
  | Err berr => Err (EStatus InvalidArgument (err_string berr))
  | Ok body =>
      match Decode body with
      | (_, Some (DecodeError m)) => Err (EStatus InvalidArgument m)
      | (protoReq, _) => Ok protoReq
      end
  end.

Definition path_param (name : string) pathParams : result string :=
  match pathParams !! name with
  | None => Err (EStatus InvalidArgument ("missing parameter " +:+ name))
  | Some val =>
      match runtime_String val with
      | Err err => Err (EStatus InvalidArgument ("type mismatch, parameter: " +:+ name +:+ ", error: " +:+ err_string err))
      | Ok val => Ok val
      end
  end.

(** ** Calling the service *)

(** A refused request, or the client's answer with the metadata it received. *)
Definition call_client {A B} (call : A -> prog (result B * ServerMetadata)) (protoReq : result A) :
    prog (result B * ServerMetadata) :=
  match protoReq with Err err => Ret (Err err, no_metadata) | Ok protoReq => call protoReq end.

(** The server's answer. *)
Definition call_server {A B} (call : A -> prog (result B)) (protoReq : result A) : prog (result B * ServerMetadata) :=
  match protoReq with
  | Err err => Ret (Err err, no_metadata)
  | Ok protoReq => r ←! call protoReq; Ret (r, no_metadata)
  end.

(** Opening a stream and waiting for its header. *)
Definition open_stream {A} (call : A -> prog (result stream)) (protoReq : result A) : prog (result stream * ServerMetadata) :=
  match protoReq with
  | Err err => Ret (Err err, no_metadata)
  | Ok protoReq =>
      s ←! call protoReq;
      match s with
      | Err err => Ret (Err err, no_metadata)
      | Ok s =>
          header ←! Header s;
          Ret (match header with Err err => (Err err, no_metadata) | Ok h => (Ok s, mkServerMetadata h []) end)
      end
  end.

(** ** The services *)

Record FrontendServiceClient := mkFrontendServiceClient {
  fsc_CreateTicket : option Ticket -> prog (result Ticket * ServerMetadata);
  fsc_DeleteTicket : string -> prog (result unit * ServerMetadata);
  fsc_GetTicket : string -> prog (result Ticket * ServerMetadata);
  fsc_AcknowledgeBackfill : AcknowledgeBackfillRequest -> prog (result AcknowledgeBackfillResponse * ServerMetadata);
  fsc_CreateBackfill : option Backfill -> prog (result Backfill * ServerMetadata);
  fsc_DeleteBackfill : string -> prog (result unit * ServerMetadata);
  fsc_GetBackfill : string -> prog (result (option Backfill) * ServerMetadata);
  fsc_UpdateBackfill : option Backfill -> prog (result Backfill * ServerMetadata);
  fsc_WatchAssignments : string -> prog (result stream);
}.

Record FrontendServiceServer := mkFrontendServiceServer {
  fss_CreateTicket : option Ticket -> prog (result Ticket);
  fss_DeleteTicket : string -> prog (result unit);
  fss_GetTicket : string -> prog (result Ticket);
  fss_AcknowledgeBackfill : AcknowledgeBackfillRequest -> prog (result AcknowledgeBackfillResponse);
  fss_CreateBackfill : option Backfill -> prog (result Backfill);
  fss_DeleteBackfill : string -> prog (result unit);
  fss_GetBackfill : string -> prog (result (option Backfill));
  fss_UpdateBackfill : option Backfill -> prog (result Backfill);
}.

Record BackendServiceClient := mkBackendServiceClient {
  bsc_AssignTickets : AssignTicketsRequest -> prog (result AssignTicketsResponse * ServerMetadata);
  bsc_ReleaseTickets : list string -> prog (result unit * ServerMetadata);
  bsc_ReleaseAllTickets : unit -> prog (result unit * ServerMetadata);
  bsc_FetchMatches : FetchMatchesRequest -> prog (result stream);
}.

Record BackendServiceServer := mkBackendServiceServer {
  bss_AssignTickets : AssignTicketsRequest -> prog (result AssignTicketsResponse);
  bss_ReleaseTickets : list string -> prog (result unit);
  bss_ReleaseAllTickets : unit -> prog (result unit);
}.

Record QueryServiceClient := mkQueryServiceClient {
  qsc_QueryTickets : option Pool -> prog (result stream);
  qsc_QueryTicketIds : option Pool -> prog (result stream);
  qsc_QueryBackfills : option Pool -> prog (result stream);
}.

Record MatchFunctionClient := mkMatchFunctionClient {
  mfc_Run : option MatchProfile -> prog (result stream);
}.

Context `{!Unmarshals (option Ticket)} `{!Unmarshals (option Backfill)} `{!Unmarshals AcknowledgeBackfillRequest}
  `{!Unmarshals AssignTicketsRequest} `{!Unmarshals (list string)} `{!Unmarshals unit} `{!Unmarshals FetchMatchesRequest}
  `{!Unmarshals (option Pool)} `{!Unmarshals (option MatchProfile)}.

(** The id of the path replaces the one of the body. *)
Definition acknowledge_request req pathParams : result AcknowledgeBackfillRequest :=
  match read_body req with
  | Err err => Err err
  | Ok protoReq =>
      match path_param "backfill_id" pathParams with
      | Err err => Err err
      | Ok id => Ok (mkAcknowledgeBackfillRequest id (akr_Assignment protoReq))
      end
  end.

(** ** The calls *)

Definition request_FrontendService_CreateTicket_0 (client : FrontendServiceClient) req pathParams : prog (result Ticket * ServerMetadata) :=
  call_client (fsc_CreateTicket client) (read_body req).
Definition local_request_FrontendService_CreateTicket_0 (server : FrontendServiceServer) req pathParams : prog (result Ticket * ServerMetadata) :=
  call_server (fss_CreateTicket server) (read_body req).
Definition request_FrontendService_DeleteTicket_0 (client : FrontendServiceClient) req pathParams : prog (result unit * ServerMetadata) :=
  call_client (fsc_DeleteTicket client) (path_param "ticket_id" pathParams).
Definition local_request_FrontendService_DeleteTicket_0 (server : FrontendServiceServer) req pathParams : prog (result unit * ServerMetadata) :=
  call_server (fss_DeleteTicket server) (path_param "ticket_id" pathParams).
Definition request_FrontendService_GetTicket_0 (client : FrontendServiceClient) req pathParams : prog (result Ticket * ServerMetadata) :=
  call_client (fsc_GetTicket client) (path_param "ticket_id" pathParams).
Definition local_request_FrontendService_GetTicket_0 (server : FrontendServiceServer) req pathParams : prog (result Ticket * ServerMetadata) :=
  call_server (fss_GetTicket server) (path_param "ticket_id" pathParams).
Definition request_FrontendService_AcknowledgeBackfill_0 (client : FrontendServiceClient) req pathParams : prog (result AcknowledgeBackfillResponse * ServerMetadata) :=
  call_client (fsc_AcknowledgeBackfill client) (acknowledge_request req pathParams).
Definition local_request_FrontendService_AcknowledgeBackfill_0 (server : FrontendServiceServer) req pathParams : prog (result AcknowledgeBackfillResponse * ServerMetadata) :=
  call_server (fss_AcknowledgeBackfill server) (acknowledge_request req pathParams).
Definition request_FrontendService_CreateBackfill_0 (client : FrontendServiceClient) req pathParams : prog (result Backfill * ServerMetadata) :=
  call_client (fsc_CreateBackfill client) (read_body req).
Definition local_request_FrontendService_CreateBackfill_0 (server : FrontendServiceServer) req pathParams : prog (result Backfill * ServerMetadata) :=
  call_server (fss_CreateBackfill server) (read_body req).
Definition request_FrontendService_DeleteBackfill_0 (client : FrontendServiceClient) req pathParams : prog (result unit * ServerMetadata) :=
  call_client (fsc_DeleteBackfill client) (path_param "backfill_id" pathParams).
Definition local_request_FrontendService_DeleteBackfill_0 (server : FrontendServiceServer) req pathParams : prog (result unit * ServerMetadata) :=
  call_server (fss_DeleteBackfill server) (path_param "backfill_id" pathParams).
Definition request_FrontendService_GetBackfill_0 (client : FrontendServiceClient) req pathParams : prog (result (option Backfill) * ServerMetadata) :=
  call_client (fsc_GetBackfill client) (path_param "backfill_id" pathParams).
Definition local_request_FrontendService_GetBackfill_0 (server : FrontendServiceServer) req pathParams : prog (result (option Backfill) * ServerMetadata) :=
  call_server (fss_GetBackfill server) (path_param "backfill_id" pathParams).
Definition request_FrontendService_UpdateBackfill_0 (client : FrontendServiceClient) req pathParams : prog (result Backfill * ServerMetadata) :=
  call_client (fsc_UpdateBackfill client) (read_body req).
Definition local_request_FrontendService_UpdateBackfill_0 (server : FrontendServiceServer) req pathParams : prog (result Backfill * ServerMetadata) :=
  call_server (fss_UpdateBackfill server) (read_body req).
Definition request_BackendService_AssignTickets_0 (client : BackendServiceClient) req pathParams : prog (result AssignTicketsResponse * ServerMetadata) :=
  call_client (bsc_AssignTickets client) (read_body req).
Definition local_request_BackendService_AssignTickets_0 (server : BackendServiceServer) req pathParams : prog (result AssignTicketsResponse * ServerMetadata) :=
  call_server (bss_AssignTickets server) (read_body req).
Definition request_BackendService_ReleaseTickets_0 (client : BackendServiceClient) req pathParams : prog (result unit * ServerMetadata) :=
  call_client (bsc_ReleaseTickets client) (read_body req).
Definition local_request_BackendService_ReleaseTickets_0 (server : BackendServiceServer) req pathParams : prog (result unit * ServerMetadata) :=
  call_server (bss_ReleaseTickets server) (read_body req).
Definition request_BackendService_ReleaseAllTickets_0 (client : BackendServiceClient) req pathParams : prog (result unit * ServerMetadata) :=
  call_client (bsc_ReleaseAllTickets client) (read_body req).
Definition local_request_BackendService_ReleaseAllTickets_0 (server : BackendServiceServer) req pathParams : prog (result unit * ServerMetadata) :=
  call_server (bss_ReleaseAllTickets server) (read_body req).

(** Streams. *)

Definition request_FrontendService_WatchAssignments_0 (client : FrontendServiceClient) req pathParams : prog (result stream * ServerMetadata) :=
  open_stream (fsc_WatchAssignments client) (path_param "ticket_id" pathParams).
Definition request_BackendService_FetchMatches_0 (client : BackendServiceClient) req pathParams : prog (result stream * ServerMetadata) :=
  open_stream (bsc_FetchMatches client) (read_body req).
Definition request_QueryService_QueryTickets_0 (client : QueryServiceClient) req pathParams : prog (result stream * ServerMetadata) :=
  open_stream (qsc_QueryTickets client) (read_body req).
Definition request_QueryService_QueryTicketIds_0 (client : QueryServiceClient) req pathParams : prog (result stream * ServerMetadata) :=
  open_stream (qsc_QueryTicketIds client) (read_body req).
Definition request_QueryService_QueryBackfills_0 (client : QueryServiceClient) req pathParams : prog (result stream * ServerMetadata) :=
  open_stream (qsc_QueryBackfills client) (read_body req).
Definition request_MatchFunction_Run_0 (client : MatchFunctionClient) req pathParams : prog (result stream * ServerMetadata) :=
  open_stream (mfc_Run client) (read_body req).

(** *** The evaluator

    Both ways are streams: the messages of the body are sent as they are
    decoded, the first before the answer, the others by a goroutine. An item
    of the body with the outcome of sending it; the body ends with the list. *)
Inductive send_error := SendEOF | SendFailed (err : error).
Inductive body_item := Decoded (m : option Match) (send : option send_error) | Undecodable (err : error).

Definition handleSend (items : list body_item) : option send_error :=
  match items with
  | [] => Some SendEOF
  | Undecodable err :: _ => Some (SendFailed err)
  | Decoded _ err :: _ => err
  end.

(** The goroutine: what it sends until the first failure. *)
Fixpoint send_rest (items : list body_item) (sent : list (option Match)) : list (option Match) :=
  match items with
  | Decoded m None :: items => send_rest items (sent ++ [m])
  | _ => sent
  end.

(** The answer, what was sent when the goroutine is done, and whether the
    sending side was closed. *)
Record evaluate_call := mkEvaluateCall {
  evc_answer : result stream * ServerMetadata;
  evc_sent : list (option Match);
  evc_closed : bool;
}.

Definition request_Evaluator_Evaluate_0 (open : result stream) (items : list body_item)
    (header : result (list (string * string))) : evaluate_call :=
  match open with
  | Err err => mkEvaluateCall (Err err, no_metadata) [] false
  | Ok s =>
      match handleSend items with
      | Some SendEOF => mkEvaluateCall (Ok s, no_metadata) [] true
      | Some (SendFailed err) => mkEvaluateCall (Err err, no_metadata) [] true
      | None =>
          mkEvaluateCall
            (match header with Err err => (Err err, no_metadata) | Ok h => (Ok s, mkServerMetadata h []) end)
            (send_rest items []) true
      end
  end.

(** ** The handlers *)
Definition http_handler := http_request -> gmap string string -> prog (http_answer stream).

Definition forward (r : result message * ServerMetadata) : http_answer stream :=
  match r.1 with Err err => HTTPError r.2 err | Ok msg => ForwardResponseMessage r.2 msg end.

Definition unary_handler {B} (request : http_request -> gmap string string -> prog (result B * ServerMetadata))
    (msg : B -> message) : http_handler :=
  fun req pathParams =>
    match hr_annotated req with
    | Err err => Ret (HTTPError no_metadata err)
    | Ok _ =>
        x ←! request req pathParams;
        Ret (forward (match x.1 with Ok b => Ok (msg b) | Err err => Err err end, x.2))
    end.

Definition stream_handler (request : http_request -> gmap string string -> prog (result stream * ServerMetadata)) : http_handler :=
  fun req pathParams =>
    match hr_annotated req with
    | Err err => Ret (HTTPError no_metadata err)
    | Ok _ =>
        x ←! request req pathParams;
        Ret (match x.1 with Err err => HTTPError x.2 err | Ok s => ForwardResponseStream x.2 s end)
    end.

(** In the process streams are refused. *)
Definition unsupported_stream : http_handler :=
  fun _ _ => Ret (HTTPError no_metadata
    (EStatus Unimplemented "streaming calls are not yet supported in the in-process transport")).

Definition RegisterFrontendServiceHandlerServer (server : FrontendServiceServer) : list (route * http_handler) :=
  [(mkRoute "POST" pattern_FrontendService_CreateTicket_0 rpc_CreateTicket,
      unary_handler (local_request_FrontendService_CreateTicket_0 server) MTicket);
   (mkRoute "DELETE" pattern_FrontendService_DeleteTicket_0 rpc_DeleteTicket,
      unary_handler (local_request_FrontendService_DeleteTicket_0 server) (fun _ => MEmpty));
   (mkRoute "GET" pattern_FrontendService_GetTicket_0 rpc_GetTicket,
      unary_handler (local_request_FrontendService_GetTicket_0 server) MTicket);
   (mkRoute "GET" pattern_FrontendService_WatchAssignments_0 rpc_WatchAssignments,
      unsupported_stream);
   (mkRoute "POST" pattern_FrontendService_AcknowledgeBackfill_0 rpc_AcknowledgeBackfill,
      unary_handler (local_request_FrontendService_AcknowledgeBackfill_0 server) MAcknowledge);
   (mkRoute "POST" pattern_FrontendService_CreateBackfill_0 rpc_CreateBackfill,
      unary_handler (local_request_FrontendService_CreateBackfill_0 server) MBackfill);
   (mkRoute "DELETE" pattern_FrontendService_DeleteBackfill_0 rpc_DeleteBackfill,
      unary_handler (local_request_FrontendService_DeleteBackfill_0 server) (fun _ => MEmpty));
   (mkRoute "GET" pattern_FrontendService_GetBackfill_0 rpc_GetBackfill,
      unary_handler (local_request_FrontendService_GetBackfill_0 server) MMaybeBackfill);
   (mkRoute "PATCH" pattern_FrontendService_UpdateBackfill_0 rpc_UpdateBackfill,
      unary_handler (local_request_FrontendService_UpdateBackfill_0 server) MBackfill)].

Definition RegisterFrontendServiceHandlerClient (client : FrontendServiceClient) : list (route * http_handler) :=
  [(mkRoute "POST" pattern_FrontendService_CreateTicket_0 rpc_CreateTicket,
      unary_handler (request_FrontendService_CreateTicket_0 client) MTicket);
   (mkRoute "DELETE" pattern_FrontendService_DeleteTicket_0 rpc_DeleteTicket,
      unary_handler (request_FrontendService_DeleteTicket_0 client) (fun _ => MEmpty));
   (mkRoute "GET" pattern_FrontendService_GetTicket_0 rpc_GetTicket,
      unary_handler (request_FrontendService_GetTicket_0 client) MTicket);
   (mkRoute "GET" pattern_FrontendService_WatchAssignments_0 rpc_WatchAssignments,
      stream_handler (request_FrontendService_WatchAssignments_0 client));
   (mkRoute "POST" pattern_FrontendService_AcknowledgeBackfill_0 rpc_AcknowledgeBackfill,
      unary_handler (request_FrontendService_AcknowledgeBackfill_0 client) MAcknowledge);
   (mkRoute "POST" pattern_FrontendService_CreateBackfill_0 rpc_CreateBackfill,
      unary_handler (request_FrontendService_CreateBackfill_0 client) MBackfill);
   (mkRoute "DELETE" pattern_FrontendService_DeleteBackfill_0 rpc_DeleteBackfill,
      unary_handler (request_FrontendService_DeleteBackfill_0 client) (fun _ => MEmpty));
   (mkRoute "GET" pattern_FrontendService_GetBackfill_0 rpc_GetBackfill,
      unary_handler (request_FrontendService_GetBackfill_0 client) MMaybeBackfill);
   (mkRoute "PATCH" pattern_FrontendService_UpdateBackfill_0 rpc_UpdateBackfill,
      unary_handler (request_FrontendService_UpdateBackfill_0 client) MBackfill)].

Definition RegisterBackendServiceHandlerServer (server : BackendServiceServer) : list (route * http_handler) :=
  [(mkRoute "POST" pattern_BackendService_FetchMatches_0 rpc_FetchMatches,
      unsupported_stream);
   (mkRoute "POST" pattern_BackendService_AssignTickets_0 rpc_AssignTickets,
      unary_handler (local_request_BackendService_AssignTickets_0 server) MAssign);
   (mkRoute "POST" pattern_BackendService_ReleaseTickets_0 rpc_ReleaseTickets,
      unary_handler (local_request_BackendService_ReleaseTickets_0 server) (fun _ => MEmpty));
   (mkRoute "POST" pattern_BackendService_ReleaseAllTickets_0 rpc_ReleaseAllTickets,
      unary_handler (local_request_BackendService_ReleaseAllTickets_0 server) (fun _ => MEmpty))].

Definition RegisterBackendServiceHandlerClient (client : BackendServiceClient) : list (route * http_handler) :=
  [(mkRoute "POST" pattern_BackendService_FetchMatches_0 rpc_FetchMatches,
      stream_handler (request_BackendService_FetchMatches_0 client));
   (mkRoute "POST" pattern_BackendService_AssignTickets_0 rpc_AssignTickets,
      unary_handler (request_BackendService_AssignTickets_0 client) MAssign);
   (mkRoute "POST" pattern_BackendService_ReleaseTickets_0 rpc_ReleaseTickets,
      unary_handler (request_BackendService_ReleaseTickets_0 client) (fun _ => MEmpty));
   (mkRoute "POST" pattern_BackendService_ReleaseAllTickets_0 rpc_ReleaseAllTickets,
      unary_handler (request_BackendService_ReleaseAllTickets_0 client) (fun _ => MEmpty))].

Definition RegisterQueryServiceHandlerServer : list (route * http_handler) :=
  [(mkRoute "POST" pattern_QueryService_QueryTickets_0 rpc_QueryTickets,
      unsupported_stream);
   (mkRoute "POST" pattern_QueryService_QueryTicketIds_0 rpc_QueryTicketIds,
      unsupported_stream);
   (mkRoute "POST" pattern_QueryService_QueryBackfills_0 rpc_QueryBackfills,
      unsupported_stream)].

Definition RegisterQueryServiceHandlerClient (client : QueryServiceClient) : list (route * http_handler) :=
  [(mkRoute "POST" pattern_QueryService_QueryTickets_0 rpc_QueryTickets,
      stream_handler (request_QueryService_QueryTickets_0 client));
   (mkRoute "POST" pattern_QueryService_QueryTicketIds_0 rpc_QueryTicketIds,
      stream_handler (request_QueryService_QueryTicketIds_0 client));
   (mkRoute "POST" pattern_QueryService_QueryBackfills_0 rpc_QueryBackfills,
      stream_handler (request_QueryService_QueryBackfills_0 client))].

Definition RegisterMatchFunctionHandlerServer : list (route * http_handler) :=
  [(mkRoute "POST" pattern_MatchFunction_Run_0 rpc_Run,
      unsupported_stream)].

Definition RegisterMatchFunctionHandlerClient (client : MatchFunctionClient) : list (route * http_handler) :=
  [(mkRoute "POST" pattern_MatchFunction_Run_0 rpc_Run,
      stream_handler (request_MatchFunction_Run_0 client))].

Definition RegisterEvaluatorHandlerServer : list (route * http_handler) :=
  [(mkRoute "POST" pattern_Evaluator_Evaluate_0 rpc_Evaluate, unsupported_stream)].

Definition RegisterEvaluatorHandlerClient (client : http_request -> result stream * list body_item * result (list (string * string))) :
    list (route * http_handler) :=
  [(mkRoute "POST" pattern_Evaluator_Evaluate_0 rpc_Evaluate,
    stream_handler (fun req _ => let '(open, items, header) := client req in Ret (evc_answer (request_Evaluator_Evaluate_0 open items header))))].

(** Dialling the service first; the connection is closed with the context. *)
Definition RegisterHandlerFromEndpoint {client} (register : client -> list (route * http_handler)) (dial : result client) :
    result (list (route * http_handler)) :=
  match dial with Err err => Err err | Ok conn => Ok (register conn) end.

Definition RegisterFrontendServiceHandlerFromEndpoint := RegisterHandlerFromEndpoint RegisterFrontendServiceHandlerClient.
Definition RegisterBackendServiceHandlerFromEndpoint := RegisterHandlerFromEndpoint RegisterBackendServiceHandlerClient.
Definition RegisterQueryServiceHandlerFromEndpoint := RegisterHandlerFromEndpoint RegisterQueryServiceHandlerClient.
Definition RegisterMatchFunctionHandlerFromEndpoint := RegisterHandlerFromEndpoint RegisterMatchFunctionHandlerClient.
Definition RegisterEvaluatorHandlerFromEndpoint := RegisterHandlerFromEndpoint RegisterEvaluatorHandlerClient.

(** A request to a mux. *)
Definition mux_ServeHTTP `{GatewayRuntime} (handlers : list (route * http_handler)) (method path : string) req :
    prog (http_answer stream) :=
  match mux_serve handlers.*1 method path with
  | None => Ret RoutingError
  | Some (r, pathParams) =>
      match list_find (fun h => rt_rpc h.1 = r) handlers with
      | Some (_, (_, handler)) => handler req pathParams
      | None => Ret RoutingError
      end
  end.
End Gateway.

(** ** The servers behind the gateway *)
Section Servers.
Context `{Sys} `{Proto} (store : Service).

(** The goroutine that [DeleteTicket] starts runs on. *)
Definition frontend_server : FrontendServiceServer := mkFrontendServiceServer
  (Frontend.CreateTicket store)
  (fun id => r ←! Frontend.DeleteTicket store id; Ret (match r with Ok _ => Ok tt | Err err => Err err end))
  (Frontend.GetTicket store)
  (fun r => Frontend.AcknowledgeBackfill store (akr_BackfillId r) (akr_Assignment r))
  (fun b => Frontend.CreateBackfill store (Some b))
  (Frontend.DeleteBackfill store)
  (Frontend.GetBackfill store)
  (fun b => Frontend.UpdateBackfill store (Some b)).

Definition backend_server : BackendServiceServer := mkBackendServiceServer
  (AssignTickets store)
  (ReleaseTickets store)
  (fun _ => ReleaseAllTickets store).
End Servers.
