(* ===== verification/GatewayProps.v ===== *)
(** * What the HTTP API does

    The gateways over the services themselves: a ticket created, read and
    deleted by HTTP requests, requests that are refused, and the evaluator's
    two-way stream. *)
From S2P Require Export Gateway.

(** A generated id can be a path parameter. *)
Lemma xid_chars_no c s : xid_char c = false -> xid_chars s = true -> has_char c s = false.
Proof.
  intros Hc. induction s as [|c' s IH]; cbn; [done|]. intros [Hx Hs]%andb_true_iff. rewrite IH, orb_false_r by done.
  apply bool_decide_eq_false. intros ->. congruence.
Qed.

Lemma xid_plain id : is_xid id = true -> plain_value id.
Proof.
  intros Hx. destruct id as [|c id]; [done|]. split; [done|].
  split; apply xid_chars_no; done.
Qed.

Lemma instance_no_params r l : tm_segments (rpc_template r).2 = Lit <$> l -> Forall segment l -> tm_verb (rpc_template r).2 = "" ->
  instance_of (rpc_template r).2 (path_of l) ∅.
Proof.
  intros Hs Hl Hv. unfold instance_of. rewrite Hs, Hv. clear Hs Hv.
  assert (variables (Lit <$> l) = []) as -> by (clear; induction l; auto). split; [done|]. exists l.
  split; [|done]. clear Hl. induction l as [|s l IH]; [done|]. cbn in *. rewrite IH. cbn. by destruct l.
Qed.

Section Serve.
Context `{Sys} `{GatewayLaws} {stream : Type} (hs : list (route * http_handler (stream := stream)))
  (Hrs : hs.*1 ⊆ all_routes) (Hone : NoDup (rt_rpc <$> hs.*1)).

(** A registered handler gets the requests of its call. *)
Lemma serve_handler rt (h : http_handler (stream := stream)) path values req : (rt, h) ∈ hs -> instance_of (rpc_template (rt_rpc rt)).2 path values ->
  map_Forall (fun _ => plain_value) values ->
  mux_ServeHTTP hs (rpc_template (rt_rpc rt)).1 path req = h req values.
Proof using All.
  intros Hin Hi Hv. unfold mux_ServeHTTP. rewrite (serve_instance hs.*1 Hrs rt path values) by (done || by apply (list_elem_of_fmap_2 fst _ (rt, h))).
  destruct (list_find (fun h => rt_rpc h.1 = rt_rpc rt) hs) as [[i [rt' h']]|] eqn:Hf.
  - apply list_find_Some in Hf as (Hi' & Heq & _). apply list_elem_of_lookup in Hin as [j Hj]. cbn in Heq.
    assert (i = j) as ->; [|by injection (eq_trans (eq_sym Hi') Hj) as <- <-].
    apply (NoDup_lookup _ i j (rt_rpc rt) Hone); rewrite !list_lookup_fmap; [by rewrite Hi', <- Heq|by rewrite Hj].
  - apply list_find_None in Hf. rewrite Forall_forall in Hf. by apply Hf in Hin.
Qed.
End Serve.

Section HttpTicket.
Context `{EnvironmentLaws} `{ProtoLaws} `{GatewayLaws} `{PathValues} (cfg : View) (store : Service) `{!ServiceSpec cfg store}
  {stream : Type} `{!Unmarshals (option Ticket)} `{!Unmarshals (option Backfill)} `{!Unmarshals AcknowledgeBackfillRequest}.
Implicit Types (w : env_state).

Definition frontend_handlers : list (route * http_handler) := RegisterFrontendServiceHandlerServer (stream := stream) (frontend_server store).

(** [path_of] the segments of a ticket's resource. *)
Definition ticket_path (id : string) : string := path_of ["v1"; "frontendservice"; "tickets"; id].

Lemma ticket_instance r id : (r = rpc_GetTicket \/ r = rpc_DeleteTicket) -> is_xid id = true ->
  instance_of (rpc_template r).2 (ticket_path id) {["ticket_id" := id]} /\
  map_Forall (fun _ => plain_value) ({["ticket_id" := id]} : gmap string string).
Proof.
  intros Hr Hx%xid_plain. split; [|by apply map_Forall_singleton].
  assert (exists l, fill (tm_segments (rpc_template r).2) (tm_verb (rpc_template r).2) {["ticket_id" := id]} = Some l /\
    ticket_path id = path_of l /\ Forall segment l) as Hl.
  { destruct Hx as (_ & Hs & _). exists ["v1"; "frontendservice"; "tickets"; id].
    split; [by destruct Hr as [-> | ->]|]. split; [done|]. by repeat constructor. }
  split; [|exact Hl]. destruct Hr as [-> | ->]; cbn; by rewrite dom_singleton_L, (right_id_L ∅ _).
Qed.

Section Mux.
Context (hs : list (route * http_handler (stream := stream))) (Hrs : hs.*1 ⊆ all_routes) (Hone : NoDup (rt_rpc <$> hs.*1))
  (Hfront : frontend_handlers ⊆ hs) (req : http_request) (Hann : hr_annotated req = Ok tt).

Lemma post_ticket : mux_ServeHTTP hs "POST" "/v1/frontendservice/tickets" req =
  (x ←! call_server (Frontend.CreateTicket store) (read_body req);
   Ret (forward (match x.1 with Ok t => Ok (MTicket t) | Err err => Err err end, x.2))).
Proof using All.
  etrans; [apply (serve_handler hs Hrs Hone (mkRoute "POST" pattern_FrontendService_CreateTicket_0 rpc_CreateTicket)
    (unary_handler (local_request_FrontendService_CreateTicket_0 (frontend_server store)) MTicket)
    (path_of ["v1"; "frontendservice"; "tickets"]) ∅)|].
  - apply Hfront. by left.
  - apply instance_no_params; [done|by repeat constructor|done].
  - apply map_Forall_empty.
  - unfold unary_handler. by rewrite Hann.
Qed.

Context (Hstring : forall v, runtime_String v = Ok v) (id : string) (Hid : is_xid id = true).

Lemma path_ticket_id : path_param "ticket_id" {["ticket_id" := id]} = Ok id.
Proof using Hstring. unfold path_param. by rewrite lookup_singleton_eq, Hstring. Qed.

Lemma get_ticket : mux_ServeHTTP hs "GET" (ticket_path id) req =
  (x ←! call_server (Frontend.GetTicket store) (Ok id);
   Ret (forward (match x.1 with Ok t => Ok (MTicket t) | Err err => Err err end, x.2))).
Proof using All.
  destruct (ticket_instance rpc_GetTicket id) as [Hi Hv]; [auto..|].
  etrans; [apply (serve_handler hs Hrs Hone (mkRoute "GET" pattern_FrontendService_GetTicket_0 rpc_GetTicket)
    (unary_handler (local_request_FrontendService_GetTicket_0 (frontend_server store)) MTicket)
    (ticket_path id) {["ticket_id" := id]}); [|done..]|].
  - apply Hfront. do 2 right. by left.
  - unfold unary_handler, local_request_FrontendService_GetTicket_0. by rewrite Hann, path_ticket_id.
Qed.

Lemma delete_ticket : mux_ServeHTTP hs "DELETE" (ticket_path id) req =
  (x ←! call_server (fss_DeleteTicket (frontend_server store)) (Ok id);
   Ret (forward (match x.1 with Ok _ => Ok MEmpty | Err err => Err err end, x.2))).
Proof using All.
  destruct (ticket_instance rpc_DeleteTicket id) as [Hi Hv]; [auto..|].
  etrans; [apply (serve_handler hs Hrs Hone (mkRoute "DELETE" pattern_FrontendService_DeleteTicket_0 rpc_DeleteTicket)
    (unary_handler (local_request_FrontendService_DeleteTicket_0 (frontend_server store)) (fun _ => MEmpty))
    (ticket_path id) {["ticket_id" := id]}); [|done..]|].
  - apply Hfront. right. by left.
  - unfold unary_handler, local_request_FrontendService_DeleteTicket_0. by rewrite Hann, path_ticket_id.
Qed.
End Mux.

(** C16. The HTTP API on tickets. On a mux with the handlers of the frontend, among
    those of other services, and with a store that does not fail: a POST whose
    body is a new ticket answers with the ticket as it is stored, under a new
    id; a GET of that id answers with the same ticket; a DELETE answers with
    an empty message and takes the ticket out of the index; and a POST with no
    body, or one that cannot be decoded, is refused with InvalidArgument and
    changes nothing. *)
Theorem http_ticket_roundtrip (hs : list (route * http_handler (stream := stream))) req body t w0 w1 w2 w3 a1 a2 a3
  (Hrs : hs.*1 ⊆ all_routes) (Hone : NoDup (rt_rpc <$> hs.*1)) (Hfront : frontend_handlers ⊆ hs)
  (Hstring : forall v, runtime_String v = Ok v)
  (Hf : sys_faulty = false) (Ht : typed (db_of w0)) (Hann : hr_annotated req = Ok tt) (Hbody : hr_Body req = Ok body)
  (Hnew : t_Assignment t = None /\ t_CreateTime t = None)
  (Hm : forall id c, is_Some (marshal_ticket (set_ticket_create_time c (set_ticket_id id t))))
  (Hpost : run (mux_ServeHTTP hs "POST" "/v1/frontendservice/tickets" req) w0 = (a1, w1)) :
  (Decode body = (Some t, None) ->
     exists t', a1 = ForwardResponseMessage no_metadata (MTicket t') /\
       (exists now, clock w0 <= now <= clock w1 /\ t' = set_ticket_create_time (Some (TimestampNow now)) (set_ticket_id (t_Id t') t)) /\
       (t_Id t' ∉ v_xids (env_view w0)) /\
       (run (mux_ServeHTTP hs "GET" (ticket_path (t_Id t')) req) w1 = (a2, w2) ->
        a2 = ForwardResponseMessage no_metadata (MTicket t') /\
        (run (mux_ServeHTTP hs "DELETE" (ticket_path (t_Id t')) req) w2 = (a3, w3) ->
         a3 = ForwardResponseMessage no_metadata MEmpty /\ t_Id t' ∉ index (db_of w3)))) /\
  (Decode (A := option Ticket) body = (None, Some DecodeEOF) \/ (exists x m, Decode (A := option Ticket) body = (x, Some (DecodeError m))) ->
     exists m, a1 = HTTPError no_metadata (EStatus InvalidArgument m) /\ w1 = w0).
Proof.
  rewrite (post_ticket hs) in Hpost by done. unfold read_body in Hpost. rewrite Hbody in Hpost. split.
  - intros Hd. rewrite Hd in Hpost. destruct Hnew as [Ha Hc].
    assert (exists t', a1 = ForwardResponseMessage no_metadata (MTicket t') /\ is_xid (t_Id t') = true /\
      (exists now, clock w0 <= now <= clock w1 /\ t' = set_ticket_create_time (Some (TimestampNow now)) (set_ticket_id (t_Id t') t)) /\
      (t_Id t' ∉ v_xids (env_view w0)) /\ ticket_at (db_of w1) (t_Id t') = Some t' /\ typed (db_of w1))
      as (t' & -> & Hxid & Hr & Hfresh & Hat & Ht1).
    { run_start Hpost. do 2 apply wp_bind. eapply wp_mono; [by apply (create_ticket_wp cfg store t)|].
      intros r v' (id & now & -> & Hfresh & Hxid & Hnow & Hat & _ & _ & Ht' & _). cbn. eexists. split; [done|].
      split_and!; [done|by exists now|done..]. }
    exists t'. split_and!; [done..|]. intros Hget. rewrite (get_ticket hs) in Hget by done.
    assert (a2 = ForwardResponseMessage no_metadata (MTicket t') /\ typed (db_of w2)) as [-> Ht2].
    { run_start Hget. do 2 apply wp_bind. unfold Frontend.GetTicket. call (call_GetTicket cfg); [|congruence].
      intros x Hx. by simplify_eq. }
    split; [done|]. intros Hdel. rewrite (delete_ticket hs) in Hdel by done. run_start Hdel. do 3 apply wp_bind.
    unfold Frontend.DeleteTicket, doDeleteTicket. do 2 apply wp_rbind. call (call_DeindexTicket cfg); [done|]. cbn -[put_index].
    split; [done|]. rewrite index_put_index. set_solver.
  - intros [Hd|(x & m & Hd)]; rewrite Hd in Hpost; cbn in Hpost; injection Hpost as <- <-; eauto.
Qed.
End HttpTicket.

(** The id of an acknowledgement is the one of the path, whatever id the body
    gives. *)
Lemma acknowledge_path_wins `{PathValues} `{Unmarshals AcknowledgeBackfillRequest} req body r pathParams id :
  hr_Body req = Ok body -> Decode body = (r, None) -> pathParams !! "backfill_id" = Some id -> runtime_String id = Ok id ->
  acknowledge_request req pathParams = Ok (mkAcknowledgeBackfillRequest id (akr_Assignment r)).
Proof.
  intros Hb Hd Hp Hs. unfold acknowledge_request, read_body, path_param. by rewrite Hb, Hd, Hp, Hs.
Qed.

(** In the process every call that streams is refused, and nothing happens. *)
Lemma streams_unsupported `{Sys} {stream} (req : http_request) pathParams :
  unsupported_stream (stream := stream) req pathParams =
    Ret (HTTPError no_metadata (EStatus Unimplemented "streaming calls are not yet supported in the in-process transport")).
Proof. done. Qed.

(** ** The evaluator's stream *)
Definition sends (i : body_item) : option (option Match) := match i with Decoded m None => Some m | _ => None end.

Lemma send_rest_spec items sent : exists n, send_rest items sent = sent ++ omap sends (take n items) /\
  Forall (fun i => is_Some (sends i)) (take n items) /\ (forall i, items !! n = Some i -> sends i = None) /\
  (n <= length items)%nat.
Proof.
  revert sent. induction items as [|[m [e|]|err] items IH]; intros sent.
  - exists O. cbn. rewrite app_nil_r. split_and!; [done|constructor|done|lia].
  - exists O. cbn. rewrite app_nil_r. split_and!; [done|constructor|by intros i [= <-]|lia].
  - destruct (IH (sent ++ [m])) as (n & Hs & Hall & Hn & Hl). exists (S n). cbn. rewrite Hs, <- app_assoc.
    split_and!; [done|constructor; [by eexists|done]|done|lia].
  - exists O. cbn. rewrite app_nil_r. split_and!; [done|constructor|by intros i [= <-]|lia].
Qed.

(** The messages of the body reach the evaluator in order and once, up to the
    first that cannot be decoded or sent; then the sending side is closed. The
    caller gets the stream unless the first message cannot be decoded or sent,
    or the header is not received; an empty body is an evaluation of nothing. *)
Theorem evaluate_forwards {stream} (s : stream) items header :
  let c := request_Evaluator_Evaluate_0 (Ok s) items header in
  evc_closed c = true /\
  (exists n, evc_sent c = omap sends (take n items) /\ Forall (fun i => is_Some (sends i)) (take n items) /\
     (forall i, items !! n = Some i -> sends i = None) /\ (n <= length items)%nat) /\
  (is_ok (evc_answer c).1 = true <->
     match items with
     | [] => True
     | i :: _ => handleSend [i] = Some SendEOF \/ (handleSend [i] = None /\ is_ok header = true)
     end).
Proof.
  destruct (send_rest_spec items []) as (n & Hs & Hrest). cbn [app] in Hs.
  destruct items as [|[m [[|err]|]|err] items]; cbn.
  - split_and!; [done| |done]. exists O. split_and!; [done|constructor|done|lia].
  - split_and!; [done| |naive_solver]. exists O. split_and!; [done|constructor|by intros i [= <-]|lia].
  - split_and!; [done| |naive_solver]. exists O. split_and!; [done|constructor|by intros i [= <-]|lia].
  - split_and!; [done|by exists n|]. destruct header; cbn; naive_solver.
  - split_and!; [done| |naive_solver]. exists O. split_and!; [done|constructor|by intros i [= <-]|lia].
Qed.

(** ** A mux of minimatch in memory *)
#[local] Instance demo_path_values : PathValues := {| runtime_String := fun v => Ok v |}.

Definition new_ticket : Ticket := mkTicket "" None None ∅ ∅ None.
Definition ticket_body : string := "{" +:+ quoted "ticket" +:+ ":{}}".
Definition decode_ticket (body : string) : option Ticket * option decode_failure :=
  if bool_decide (body = ticket_body) then (Some new_ticket, None)
  else if bool_decide (body = "") then (None, Some DecodeEOF) else (None, Some (DecodeError "invalid character")).
#[local] Instance demo_ticket_request : Unmarshals (option Ticket) := {| empty_request := None; Decode := decode_ticket |}.

(** The other messages are not sent here. *)
Definition decode_nothing {A} (a : A) (body : string) : A * option decode_failure := (a, Some (DecodeError "unexpected")).
#[local] Instance demo_backfill_request : Unmarshals (option Backfill) := {| empty_request := None; Decode := decode_nothing None |}.
#[local] Instance demo_acknowledge_request : Unmarshals AcknowledgeBackfillRequest :=
  {| empty_request := mkAcknowledgeBackfillRequest "" None; Decode := decode_nothing (mkAcknowledgeBackfillRequest "" None) |}.
#[local] Instance demo_assign_request : Unmarshals AssignTicketsRequest :=
  {| empty_request := mkAssignTicketsRequest []; Decode := decode_nothing (mkAssignTicketsRequest []) |}.
#[local] Instance demo_ids_request : Unmarshals (list string) := {| empty_request := []; Decode := decode_nothing [] |}.
#[local] Instance demo_empty_request : Unmarshals unit := {| empty_request := tt; Decode := decode_nothing tt |}.

Definition demo_mux : list (route * http_handler (stream := unit)) :=
  RegisterBackendServiceHandlerServer (backend_server mem_store) ++ frontend_handlers mem_store ++ RegisterQueryServiceHandlerServer.

Definition demo_http : http_request := mkHttpRequest (Ok ticket_body) (Ok tt).

#[local] Existing Instance path_runtime.

Lemma http_ticket_roundtrip_witness :
  let send method path := mux_ServeHTTP demo_mux method path demo_http in
  let w1 := after (send "POST" "/v1/frontendservice/tickets") mem_init in
  let w2 := after (send "GET" (ticket_path (mem_id 0))) w1 in
  exists t', ans (send "GET" (ticket_path (mem_id 0))) w1 = ForwardResponseMessage no_metadata (MTicket t') /\ t_Id t' = mem_id 0 /\
    ans (send "DELETE" (ticket_path (mem_id 0))) w2 = ForwardResponseMessage no_metadata MEmpty.
Proof.
  intros send w1 w2. pose proof path_runtime_laws as Hlaws.
  set (get := send "GET" (ticket_path (mem_id 0))) in *. set (del := send "DELETE" (ticket_path (mem_id 0))) in *.
  set (post := send "POST" "/v1/frontendservice/tickets") in *.
  destruct (http_ticket_roundtrip mem_cfg mem_store demo_mux demo_http ticket_body new_ticket mem_init w1 w2 (after del w2)
    (ans post mem_init) (ans get w1) (ans del w2)) as [Hnew _].
  - refine (proj1 (Forall_forall (fun rt => rt ∈ all_routes) demo_mux.*1) _). apply (bool_decide_unpack _); vm_compute; exact I.
  - apply (bool_decide_unpack _); vm_compute; exact I.
  - intros h Hh. apply elem_of_app. right. apply elem_of_app. left. exact Hh.
  - intros v. reflexivity.
  - reflexivity.
  - concrete.
  - reflexivity.
  - reflexivity.
  - split; reflexivity.
  - intros id c. by eexists.
  - apply surjective_pairing.
  - destruct (Hnew eq_refl) as (t' & Hpost & _ & _ & Hget).
    assert (t_Id t' = mem_id 0) as Hid by (injection (eq_trans (eq_sym Hpost) (eq_refl (ans post mem_init))) as ->; vm_compute; reflexivity).
    rewrite Hid in Hget. destruct Hget as [Hg Hdel]; [apply surjective_pairing|].
    exists t'. split; [exact Hg|]. split; [exact Hid|]. apply Hdel. apply surjective_pairing.
Defined.
