(* ===== verification/Tools.v ===== *)
(** * Tools ([tools/reaper], [tools/certgen])

    The reaper deletes the namespaces that tests leave behind in a cluster;
    the certificate tool makes the key pairs of the services. Kubernetes,
    files and cryptography are arguments. *)
From S2P Require Export Data Mmf Scale.

(** ** [tools/reaper/internal] *)
Module Reaper.

Record Namespace := mkNamespace { ns_Name : string; ns_CreationTimestamp : Z }.
Record Params := mkParams { Age : Z }.

(** [now] as [time.Now] reads it for this namespace. *)
Definition isOrphaned (now : Z) (namespace : Namespace) (params : Params) : bool :=
  let deadline := now + wrap64 (-1 * Age params) in
  (ns_CreationTimestamp namespace <? deadline) && String.prefix "open-match" (ns_Name namespace).

(** A namespace with the clock when it is looked at and the outcome of
    deleting it. *)
Record listed := mkListed { li_namespace : Namespace; li_now : Z; li_Delete : option error }.

(** The loop: what it tries to delete, and [err]. *)
Fixpoint reap_loop (params : Params) (items : list listed) (tried : list Namespace) (err : option error) :
    list Namespace * option error :=
  match items with
  | [] => (tried, err)
  | i :: items =>
      if negb (isOrphaned (li_now i) (li_namespace i) params) then reap_loop params items tried err
      else reap_loop params items (tried ++ [li_namespace i]) (li_Delete i)
  end.

(** The configuration file: the environment's when the home directory has
    none. *)
Definition kubeconfig (fileExists : string -> bool) (HomeDir fromEnv : string) : string :=
  let path := HomeDir +:+ "/.kube/config" in
  if negb (fileExists path) && fileExists fromEnv then fromEnv else path.

Definition ReapNamespaces (params : Params) (fileExists : string -> bool) (HomeDir fromEnv : string)
    (BuildConfig : string -> option error) (NewForConfig : option error) (List : result (list listed)) :
    list Namespace * option error :=
  let path := kubeconfig fileExists HomeDir fromEnv in
  match BuildConfig path with
  | Some err => ([], Some (EWrap ("building Kubernetes config from flags " +:+ path +:+ " failed") err))
  | None =>
      match NewForConfig with
      | Some err => ([], Some (EWrap "creating Kubernetes client from config failed" err))
      | None =>
          match List with
          | Err err => ([], Some (EWrap "listing namespace from kubernetes cluster failed" err))
          | Ok items => reap_loop params items [] None
          end
      end
  end.

(** The endpoints of [Serve]: status and body; [/close] also stops the server. *)
Definition Serve (path : string) (reap : option error) : option (Z * string) :=
  if bool_decide (path = "/livenessz") then Some (200, "OK")
  else if bool_decide (path = "/close") then Some (200, "OK")
  else if bool_decide (path = "/reap") then
    Some (match reap with Some err => (500, "ERROR: " +:+ err_string err) | None => (200, "OK") end)
  else None.

Definition orphans (params : Params) (items : list listed) : list listed :=
  filter (fun i => isOrphaned (li_now i) (li_namespace i) params = true) items.

(** The reaper tries every orphaned namespace once and nothing else, whatever
    deletions fail; its result is the outcome of the last one it tried. *)
Lemma reap_loop_spec params items tried err :
  reap_loop params items tried err =
    (tried ++ (li_namespace <$> orphans params items),
     match last (orphans params items) with Some i => li_Delete i | None => err end).
Proof.
  revert tried err. unfold orphans. induction items as [|i items IH]; intros tried err; cbn [reap_loop].
  - cbn. by rewrite app_nil_r.
  - destruct (isOrphaned (li_now i) (li_namespace i) params) eqn:Ho; cbn [negb].
    + rewrite filter_cons_True by congruence. rewrite IH, <- app_assoc. cbn [fmap list_fmap app]. f_equal.
      rewrite last_cons. by destruct (last _).
    + rewrite filter_cons_False by congruence. by rewrite IH.
Qed.

Lemma reap_namespaces params fileExists home env build client items :
  build (kubeconfig fileExists home env) = None -> client = None ->
  ReapNamespaces params fileExists home env build client (Ok items) =
    (li_namespace <$> orphans params items, i ← last (orphans params items); li_Delete i).
Proof. intros Hb ->. unfold ReapNamespaces. by rewrite Hb, reap_loop_spec. Qed.

(** A failed deletion is not reported when a later one succeeds. *)
Lemma reap_hides_failure :
  let ns name := mkNamespace name 0 in
  ReapNamespaces (mkParams 0) (fun _ => true) "/root" "" (fun _ => None) None
    (Ok [mkListed (ns "open-match-1") 5 (Some (EPlain "forbidden")); mkListed (ns "default") 5 None;
         mkListed (ns "open-match-2") 5 None]) = ([ns "open-match-1"; ns "open-match-2"], None).
Proof. vm_compute. reflexivity. Qed.
End Reaper.

(** ** [tools/certgen] *)
Module Certgen.

Record Params := mkParams {
  CertificateAuthority : bool;
  RootPublicCertificateData : string;
  RootPrivateKeyData : string;
  ValidityDuration : Z;
  Hostnames : list string;
  RSAKeyLength : Z;
}.

Definition f_sqrt (a : float64) : float64 := SFsqrt 53 1024 a.

(** The conversion of a double to an int: towards zero. *)
Definition f_trunc (a : float64) : option Z :=
  match a with
  | S754_zero _ => Some 0
  | S754_finite s m e => let z := (if 0 <=? e then Z.pos m * 2 ^ e else Z.pos m / 2 ^ (- e)) in Some (if s then - z else z)
  | _ => None
  end.

(** The check of the key length; the square of a double is its product with
    itself. *)
Definition rsa_length_ok (n : Z) : bool :=
  let r := f_sqrt (f_int n) in bool_decide (f_trunc (TeamShooter.f_mul r r) = Some n).

Definition validate (publicCertificateFilePath privateKeyFilePath : string) (params : Params) : option error :=
  if bool_decide (publicCertificateFilePath = "") then Some (EPlain "public certificate file path must not be empty")
  else if bool_decide (privateKeyFilePath = "") then Some (EPlain "private key file path must not be empty")
  else if bool_decide (RootPublicCertificateData params <> "" /\ RootPrivateKeyData params = "") then
    Some (EPlain "root public certificate data was set but root private key data was not")
  else if bool_decide (RootPublicCertificateData params = "" /\ RootPrivateKeyData params <> "") then
    Some (EPlain "root private key data was set but root public certificate data was not")
  else if bool_decide (Hostnames params = []) then
    Some (EPlain "hostname list was empty. At least 1 hostname is required for generating a certificate-key pair")
  else if negb (rsa_length_ok (RSAKeyLength params)) then
    Some (EPlain ("RSA key length " +:+ itoa (RSAKeyLength params) +:+ " must be a power of 2"))
  else if ValidityDuration params =? 0 then
    Some (EPlain "validity duration is required, otherwise the certificate would immediately expire")
  else None.

(** A "hostname:port" also stands for the host. *)
Definition expandHostnames (hostnames : list string) : list string :=
  foldl (fun expanded hostname =>
    match split_on ":" hostname with
    | (host, [_]) => expanded ++ [hostname; host]
    | _ => expanded ++ [hostname]
    end) [] hostnames.

(** [x509.KeyUsage] bits. *)
Definition KeyUsageDigitalSignature : Z := 1.
Definition KeyUsageKeyEncipherment : Z := 4.
Definition KeyUsageCertSign : Z := 32.

Record Certificate := mkCertificate {
  SerialNumber : Z; NotBefore : Z; NotAfter : Z; KeyUsage : Z; IsCA : bool;
  IPAddresses : list string; DNSNames : list string;
}.

Section Create.
Context {key : Type} (ParseIP : string -> option string) (GenerateKey : Z -> result key)
  (CreateCertificate : Certificate -> Certificate -> key -> key -> result string)
  (MarshalPKCS1PrivateKey : key -> string) (EncodeToMemory : string -> string -> string)
  (pem_Decode : string -> option string) (ParseCertificate : string -> result Certificate)
  (ParsePKCS1PrivateKey : string -> result key).

(** Text that is not PEM gives a nil block, which is dereferenced. *)
Definition ReadKeyPair (publicCertFileData privateKeyFileData : string) : result (Certificate * key) :=
  match pem_Decode publicCertFileData with
  | None => Err EPanic
  | Some block =>
      match ParseCertificate block with
      | Err err => Err err
      | Ok publicCertificate =>
          match pem_Decode privateKeyFileData with
          | None => Err EPanic
          | Some block =>
              match ParsePKCS1PrivateKey block with
              | Err err => Err err
              | Ok privateKey => Ok (publicCertificate, privateKey)
              end
          end
      end
  end.

Definition add_hostname (template : Certificate) (hostname : string) : Certificate :=
  match ParseIP hostname with
  | Some ip => mkCertificate (SerialNumber template) (NotBefore template) (NotAfter template) (KeyUsage template) (IsCA template)
                 (IPAddresses template ++ [ip]) (DNSNames template)
  | None => mkCertificate (SerialNumber template) (NotBefore template) (NotAfter template) (KeyUsage template) (IsCA template)
              (IPAddresses template) (DNSNames template ++ [hostname])
  end.

(** The certificate to be signed, before its last two names. *)
Definition certTemplate (params : Params) (startTimestamp serialNumber : Z) : Certificate :=
  let usage := Z.lor KeyUsageKeyEncipherment KeyUsageDigitalSignature in
  foldl add_hostname
    (mkCertificate serialNumber startTimestamp (startTimestamp + ValidityDuration params)
       (if CertificateAuthority params then Z.lor usage KeyUsageCertSign else usage) (CertificateAuthority params) [] [])
    (expandHostnames (Hostnames params)).

Definition with_localhost (template : Certificate) : Certificate :=
  mkCertificate (SerialNumber template) (NotBefore template) (NotAfter template) (KeyUsage template) (IsCA template)
    (IPAddresses template ++ option_list (ParseIP "127.0.0.1")) (DNSNames template ++ ["localhost"]).

(** [serial]: the random number below 2^128. *)
Definition CreateCertificateAndPrivateKey (params : Params) (now : Z) (serial : result Z) : result (string * string) :=
  match serial with
  | Err err => Err err
  | Ok serialNumber =>
      let template := with_localhost (certTemplate params now serialNumber) in
      match GenerateKey (RSAKeyLength params) with
      | Err err => Err err
      | Ok privateKey =>
          let parent :=
            if bool_decide (RootPublicCertificateData params = "") then Ok (template, privateKey)
            else ReadKeyPair (RootPublicCertificateData params) (RootPrivateKeyData params) in
          match parent with
          | Err err => Err err
          | Ok (parentTemplate, parentPrivateKey) =>
              match CreateCertificate template parentTemplate privateKey parentPrivateKey with
              | Err err => Err err
              | Ok cert =>
                  Ok (EncodeToMemory "CERTIFICATE" cert,
                      EncodeToMemory "RSA PRIVATE KEY" (MarshalPKCS1PrivateKey privateKey))
              end
          end
      end
  end.

(** The files written; the outcomes of writing the two. *)
Definition CreateCertificateAndPrivateKeyFiles (publicPath privatePath : string) (params : Params) (now : Z)
    (serial : result Z) (WriteFile : string -> option error) : list (string * string) * option error :=
  match validate publicPath privatePath params with
  | Some err => ([], Some err)
  | None =>
      match CreateCertificateAndPrivateKey params now serial with
      | Err err => ([], Some err)
      | Ok (publicPem, privatePem) =>
          match WriteFile publicPath with
          | Some err => ([], Some err)
          | None =>
              match WriteFile privatePath with
              | Some err => ([(publicPath, publicPem)], Some err)
              | None => ([(publicPath, publicPem); (privatePath, privatePem)], None)
              end
          end
      end
  end.
End Create.

(** The flags of the command; [ReadFile] reads the root's files. *)
Definition createCertificateViaFlags (ca : bool) (rootPublic rootPrivate hostnames : string) (duration rsa : Z)
    (ReadFile : string -> option string) (create : Params -> option error) : option error :=
  let params public private :=
    mkParams ca public private duration (let '(h, hs) := split_on "," hostnames in h :: hs) rsa in
  if bool_decide (rootPublic = "") then create (params "" "")
  else if bool_decide (rootPrivate = "") then
    Some (EPlain ("--rootprivatekey is required if --rootpubliccertificate=" +:+ rootPublic +:+ " is set"))
  else
    match ReadFile rootPublic with
    | None => Some (EPlain ("cannot read the root public certificate from " +:+ rootPublic))
    | Some public =>
        match ReadFile rootPrivate with
        | None => Some (EPlain ("cannot read the root private key from " +:+ rootPrivate))
        | Some private => create (params public private)
        end
    end.

(** The key lengths in use pass the check, as do all small powers of two; but
    the check compares a root with its square, which tells rounding apart and
    not powers of two: 5 and 7 pass, 3 does not. *)
Lemma rsa_powers_of_two : Forall (fun n => rsa_length_ok (2 ^ Z.of_nat n) = true) (seq 0 24).
Proof. repeat constructor. Qed.

Lemma rsa_not_powers : rsa_length_ok 5 = true /\ rsa_length_ok 7 = true /\ rsa_length_ok 3 = false.
Proof. vm_compute. auto. Qed.

Lemma elem_of_expandHostnames hostnames h :
  h ∈ expandHostnames hostnames <->
  exists x, x ∈ hostnames /\ (h = x \/ exists port, split_on ":" x = (h, [port])).
Proof.
  unfold expandHostnames. set (f := fun _ _ => _).
  assert (forall acc x, h ∈ f acc x <-> h ∈ acc \/ (h = x \/ exists port, split_on ":" x = (h, [port]))) as Hone.
  { intros acc x. unfold f. destruct (split_on ":" x) as [host [|port [|p2 ps]]];
      rewrite elem_of_app, !elem_of_cons, elem_of_nil; split; naive_solver congruence. }
  assert (forall acc, h ∈ foldl f acc hostnames <->
    h ∈ acc \/ exists x, x ∈ hostnames /\ (h = x \/ exists port, split_on ":" x = (h, [port]))) as Hf.
  { induction hostnames as [|x xs IH]; intros acc; cbn.
    - split; [by left|]. by intros [?|(x & ?%not_elem_of_nil & _)].
    - rewrite IH, Hone. setoid_rewrite elem_of_cons. naive_solver. }
  rewrite Hf, elem_of_nil. naive_solver.
Qed.

(** A certificate is good for every host name it is made for, with and without
    its port, and for the local host; addresses are recorded as such. It can
    sign others exactly when it is to be an authority. *)
Theorem certificate_names (ParseIP : string -> option string) params now serial :
  let c := with_localhost ParseIP (certTemplate ParseIP params now serial) in
  (forall h, h ∈ DNSNames c <-> h = "localhost" \/ (h ∈ expandHostnames (Hostnames params) /\ ParseIP h = None)) /\
  (forall ip, ip ∈ IPAddresses c <-> exists h, (h = "127.0.0.1" \/ h ∈ expandHostnames (Hostnames params)) /\ ParseIP h = Some ip) /\
  (Z.testbit (KeyUsage c) 5 = CertificateAuthority params) /\ IsCA c = CertificateAuthority params /\
  NotBefore c = now /\ NotAfter c = now + ValidityDuration params.
Proof.
  unfold with_localhost, certTemplate. cbv zeta. set (start := mkCertificate serial now _ _ _ [] []).
  assert (forall hs c0, let c := foldl (add_hostname ParseIP) c0 hs in
    (forall h, h ∈ DNSNames c <-> h ∈ DNSNames c0 \/ (h ∈ hs /\ ParseIP h = None)) /\
    (forall ip, ip ∈ IPAddresses c <-> ip ∈ IPAddresses c0 \/ exists h, h ∈ hs /\ ParseIP h = Some ip) /\
    KeyUsage c = KeyUsage c0 /\ IsCA c = IsCA c0 /\ NotBefore c = NotBefore c0 /\ NotAfter c = NotAfter c0) as Hf.
  { induction hs as [|h hs IH]; intros c0; cbn; [set_solver|]. destruct (IH (add_hostname ParseIP c0 h)) as (Hd & Hi & Hrest).
    unfold add_hostname in *. destruct (ParseIP h) as [ip|] eqn:Hp; cbn in *.
    - split_and!; try apply Hrest; intros x; [rewrite Hd|rewrite Hi, elem_of_app, list_elem_of_singleton]; set_solver.
    - split_and!; try apply Hrest; intros x; [rewrite Hd, elem_of_app, list_elem_of_singleton|rewrite Hi]; set_solver. }
  destruct (Hf (expandHostnames (Hostnames params)) start) as (Hd & Hi & Hu & Hca & Hb & Ha). cbn [DNSNames IPAddresses KeyUsage IsCA NotBefore NotAfter].
  rewrite Hu, Hca, Hb, Ha. split_and!; [| | |done..].
  - intros h. rewrite elem_of_app, list_elem_of_singleton, Hd. set_solver.
  - intros ip. rewrite elem_of_app, Hi. destruct (ParseIP "127.0.0.1") eqn:Hl; set_solver.
  - subst start. cbn. by destruct (CertificateAuthority params).
Qed.

(** Parameters that are refused write no file. *)
Lemma refused_writes_nothing {key} ParseIP GenerateKey Create Marshal Encode pem ParseC (ParseK : string -> result key)
    public private params now serial write err :
  validate public private params = Some err ->
  CreateCertificateAndPrivateKeyFiles ParseIP GenerateKey Create Marshal Encode pem ParseC ParseK public private params now serial write
    = ([], Some err).
Proof. intros Hv. unfold CreateCertificateAndPrivateKeyFiles. by rewrite Hv. Qed.

(** A root that is not PEM makes the tool panic. *)
Lemma root_not_pem_panics {key} pem ParseC (ParseK : string -> result key) public private :
  pem public = None -> ReadKeyPair pem ParseC ParseK public private = Err EPanic.
Proof. intros Hp. unfold ReadKeyPair. by rewrite Hp. Qed.
End Certgen.
