(* ===== verification/Settings.v ===== *)
(** * Settings ([internal/config/config.go], [internal/logging], [internal/telemetry/configz.go])

    How a process comes by its configuration: the defaults of one file under
    the overrides of another, read through viper; how it configures its log;
    and the page that shows the settings. Viper is another package: [Viper]
    says what the code asks of it and [ViperLaws] what its documentation
    promises. *)
From S2P Require Export Telemetry Rpc Greedy.

(** ** Viper *)

(** What a viper reads: the type of its file, the directories searched, in
    order, and the name of the file. *)
Record config_source := mkSource { cs_type : string; cs_paths : list string; cs_name : string }.

(** A value is a leaf or a table of values; [value_at] follows a path of keys.
    [config_file] is the file found for a source. [viper_Get] of a key and a
    path is [Get] of their dotted key. *)
Class Viper := {
  viper : Type;
  value : Type;
  is_leaf : value -> bool;
  value_at : value -> list string -> option value;
  config_file : config_source -> result (gmap string value);
  viper_New : viper;
  SetConfigType : string -> viper -> viper;
  AddConfigPath : string -> viper -> viper;
  SetConfigName : string -> viper -> viper;
  ReadInConfig : viper -> viper * option error;
  SetDefault : string -> value -> viper -> viper;
  AllSettings : viper -> gmap string value;
  WatchConfig : viper -> viper;
  viper_Get : viper -> string -> list string -> option value;
  viper_source : viper -> config_source;
  viper_config : viper -> gmap string value;
  viper_defaults : viper -> gmap string value;
}.

(** A top-level key as viper keeps it: in lower case and without its
    delimiter. *)
Definition plain_key (k : string) : Prop := to_lower k = k /\ has_char "."%char k = false.
#[global] Instance plain_key_dec k : Decision (plain_key k).
Proof. unfold plain_key. apply _. Defined.

Section Layers.
Context `{Viper}.

Definition setting_at (m : gmap string value) (k : string) (path : list string) : option value :=
  x ← m !! k; value_at x path.

(** A leaf on the way hides what a lower layer has below it. *)
Definition shadowed (m : gmap string value) (k : string) (path : list string) : bool :=
  existsb (fun n => match setting_at m k (take n path) with Some x => is_leaf x | None => false end) (seq 0 (length path)).
End Layers.

Class ViperLaws `{Viper} : Prop := {
  new_source : viper_source viper_New = mkSource "" [] "";
  new_config : viper_config viper_New = ∅;
  new_defaults : viper_defaults viper_New = ∅;
  type_source t v : viper_source (SetConfigType t v) = mkSource t (cs_paths (viper_source v)) (cs_name (viper_source v));
  path_source p v : viper_source (AddConfigPath p v) =
    mkSource (cs_type (viper_source v)) (cs_paths (viper_source v) ++ [p]) (cs_name (viper_source v));
  name_source n v : viper_source (SetConfigName n v) = mkSource (cs_type (viper_source v)) (cs_paths (viper_source v)) n;
  type_keeps t v : viper_config (SetConfigType t v) = viper_config v /\ viper_defaults (SetConfigType t v) = viper_defaults v;
  path_keeps p v : viper_config (AddConfigPath p v) = viper_config v /\ viper_defaults (AddConfigPath p v) = viper_defaults v;
  name_keeps n v : viper_config (SetConfigName n v) = viper_config v /\ viper_defaults (SetConfigName n v) = viper_defaults v;
  read_config v : match config_file (viper_source v) with
    | Ok m => (ReadInConfig v).2 = None /\ viper_config (ReadInConfig v).1 = m /\
              viper_defaults (ReadInConfig v).1 = viper_defaults v
    | Err err => (ReadInConfig v).2 = Some err
    end;
  default_set k x v : plain_key k ->
    viper_defaults (SetDefault k x v) = <[k := x]> (viper_defaults v) /\
    viper_config (SetDefault k x v) = viper_config v /\ viper_source (SetDefault k x v) = viper_source v;
  watch_keeps v : viper_config (WatchConfig v) = viper_config v /\ viper_defaults (WatchConfig v) = viper_defaults v;
  get_layers v k path : plain_key k ->
    viper_Get v k path =
      match setting_at (viper_config v) k path with
      | Some x => Some x
      | None => if shadowed (viper_config v) k path then None else setting_at (viper_defaults v) k path
      end;
  all_plain v k : is_Some (AllSettings v !! k) -> plain_key k;
  all_merged v k path x : plain_key k -> is_leaf x = true ->
    setting_at (AllSettings v) k path = Some x <-> viper_Get v k path = Some x;
}.

(** ** Reading the configuration *)
Section Read.
Context `{Viper} `{MapOrder}.

(** The defaults' viper and its file. The two are set up alike. *)
Definition read_source (dir name : string) (v : viper) : viper * option error :=
  ReadInConfig (SetConfigName name (AddConfigPath dir (AddConfigPath "." (SetConfigType "yaml" v)))).

(** [for k, v := range dcfg.AllSettings() { cfg.SetDefault(k, v) }]. *)
Definition set_defaults (settings : gmap string value) (cfg : viper) : viper :=
  foldl (fun cfg '(k, v) => SetDefault k v cfg) cfg (map_iter settings).

Definition Read : result viper :=
  match read_source "/app/config/default" "matchmaker_config_default" viper_New with
  | (_, Some err) => Err (EPlain ("fatal error reading default config file, desc: " +:+ err_string err))
  | (dcfg, None) =>
      match read_source "/app/config/override" "matchmaker_config_override" (set_defaults (AllSettings dcfg) viper_New) with
      | (_, Some err) => Err (EPlain ("fatal error reading override config file, desc: " +:+ err_string err))
      | (cfg, None) => Ok (WatchConfig cfg)
      end
  end.

Definition default_source : config_source := mkSource "yaml" ["."; "/app/config/default"] "matchmaker_config_default".
Definition override_source : config_source := mkSource "yaml" ["."; "/app/config/override"] "matchmaker_config_override".
End Read.

Section ReadSpec.
Context `{ViperLaws} `{MapOrder}.

Lemma read_source_spec dir name v : viper_source v = mkSource "" [] "" ->
  match config_file (mkSource "yaml" ["."; dir] name) with
  | Ok m => exists v', read_source dir name v = (v', None) /\ viper_config v' = m /\ viper_defaults v' = viper_defaults v
  | Err err => exists v', read_source dir name v = (v', Some err)
  end.
Proof.
  intros Hs. unfold read_source. set (u := SetConfigName _ _).
  assert (viper_source u = mkSource "yaml" ["."; dir] name) as Hu.
  { subst u. by rewrite name_source, !path_source, type_source, Hs. }
  assert (viper_defaults u = viper_defaults v) as Hd.
  { subst u. by rewrite (proj2 (name_keeps _ _)), !(proj2 (path_keeps _ _)), (proj2 (type_keeps _ _)). }
  pose proof (read_config u) as Hr. rewrite Hu in Hr. destruct (config_file _) as [m|err]; destruct (ReadInConfig u) as [v' e]; cbn in Hr.
  - destruct Hr as (-> & ? & ?). exists v'. by rewrite <- Hd.
  - exists v'. by rewrite Hr.
Qed.

Lemma set_defaults_spec settings v : (forall k, is_Some (settings !! k) -> plain_key k) ->
  viper_defaults v = ∅ ->
  viper_defaults (set_defaults settings v) = settings /\ viper_source (set_defaults settings v) = viper_source v.
Proof.
  intros Hp Hv. unfold set_defaults.
  assert (forall l v, Forall (fun '(k, _) => plain_key k) l ->
    viper_defaults (foldl (fun cfg '(k, v) => SetDefault k v cfg) v l) = foldl (fun m '(k, x) => <[k := x]> m) (viper_defaults v) l /\
    viper_source (foldl (fun cfg '(k, v) => SetDefault k v cfg) v l) = viper_source v) as Hl.
  { induction l as [|[k x] l IH]; intros u Hf; [done|]. apply Forall_cons in Hf as [Hk Hf]. cbn.
    destruct (default_set k x u Hk) as (Hd & _ & Hs). destruct (IH (SetDefault k x u) Hf) as [-> ->]. by rewrite Hd, Hs. }
  destruct (Hl (map_iter settings) v) as [-> ->].
  { apply Forall_forall. intros [k x] Hkx%elem_of_map_iter. apply Hp. eauto. }
  split; [|done]. rewrite Hv. apply map_eq. intros k.
  assert (forall l (m : gmap string value), NoDup l.*1 ->
    foldl (fun m '(k, x) => <[k := x]> m) m l !! k = match list_to_map (M := gmap string value) l !! k with Some x => Some x | None => m !! k end) as Hf.
  { clear. induction l as [|[k' x] l IH]; intros m Hn; [done|]. apply NoDup_cons in Hn as [Hk' Hn]. cbn. rewrite IH by done.
    destruct (decide (k = k')) as [->|Hne].
    - rewrite lookup_insert_eq, (not_elem_of_list_to_map_1 l k'), lookup_insert_eq by done. done.
    - by rewrite !lookup_insert_ne by done. }
  rewrite Hf, lookup_empty by apply NoDup_map_iter.
  rewrite (list_to_map_proper (map_iter settings) (map_to_list settings)), list_to_map_to_list by (apply NoDup_map_iter || apply map_iter_perm).
  by destruct (settings !! k).
Qed.

(** What a process reads: it starts only when both files can be read. A
    setting of the override file is the one in force; where the override file
    is silent - it has nothing at the setting and no plain value above it - the
    setting is the default file's, leaf by leaf, so that an override of one
    setting of a table leaves the defaults of the others. *)
Theorem override_over_default :
  match config_file default_source, config_file override_source with
  | Ok defaults, Ok overrides =>
      exists cfg, Read = Ok cfg /\ forall k path, plain_key k ->
        (forall x, setting_at overrides k path = Some x -> viper_Get cfg k path = Some x) /\
        (setting_at overrides k path = None -> shadowed overrides k path = false ->
         forall x, is_leaf x = true -> (viper_Get cfg k path = Some x <->
           setting_at defaults k path = Some x))
  | Ok _, Err err => Read = Err (EPlain ("fatal error reading override config file, desc: " +:+ err_string err))
  | Err err, _ => Read = Err (EPlain ("fatal error reading default config file, desc: " +:+ err_string err))
  end.
Proof.
  unfold Read, default_source, override_source.
  pose proof (read_source_spec "/app/config/default" "matchmaker_config_default" viper_New new_source) as Hd.
  destruct (config_file _) as [dm|err]; [|by destruct Hd as (v' & ->)]. destruct Hd as (dcfg & -> & Hdm & Hdd).
  rewrite new_defaults in Hdd.
  destruct (set_defaults_spec (AllSettings dcfg) viper_New (all_plain dcfg) new_defaults) as [Hsd Hss].
  pose proof (read_source_spec "/app/config/override" "matchmaker_config_override" (set_defaults (AllSettings dcfg) viper_New)) as Ho.
  rewrite Hss, new_source in Ho. specialize (Ho eq_refl).
  destruct (config_file (mkSource _ _ "matchmaker_config_override")) as [om|err]; [|by destruct Ho as (v' & ->)].
  destruct Ho as (cfg & -> & Hom & Hod). exists (WatchConfig cfg). split; [done|]. intros k path Hk.
  rewrite get_layers, (proj1 (watch_keeps cfg)), (proj2 (watch_keeps cfg)), Hom, Hod, Hsd by done. split; [by intros x ->|].
  intros -> -> x Hx. rewrite all_merged, get_layers, Hdm, Hdd by done.
  destruct (setting_at dm k path) as [y|]; [done|]. destruct (shadowed dm k path); [done|].
  unfold setting_at. by rewrite lookup_empty.
Qed.
End ReadSpec.

(** ** The page of the settings *)

(** [bufio.Writer]: what has reached the underlying writer, and what is kept
    back, at most [bufio_size] bytes. *)
Section Bufio.
Context {A : Type}.
Record bufio := mkBufio { flushed : list A; buffered : list A }.
Definition bufio_size : nat := 4096.

Definition bufio_Write (p : list A) (b : bufio) : bufio :=
  let available := (bufio_size - length (buffered b))%nat in
  if (length p <=? available)%nat then mkBufio (flushed b) (buffered b ++ p)
  else if bool_decide (length (buffered b) = O) then mkBufio (flushed b ++ p) []
  else
    let b := mkBufio (flushed b ++ buffered b ++ take available p) [] in
    let p := drop available p in
    if (length p <=? bufio_size)%nat then mkBufio (flushed b) p else mkBufio (flushed b ++ p) [].

(** What has been written and never flushed is at most a buffer; nothing
    else is lost. *)
Lemma bufio_writes chunks b : (length (buffered b) <= bufio_size)%nat ->
  let b' := foldl (fun b p => bufio_Write p b) b chunks in
  flushed b' ++ buffered b' = flushed b ++ buffered b ++ concat chunks /\ (length (buffered b') <= bufio_size)%nat.
Proof.
  revert b. induction chunks as [|p chunks IH]; intros b Hb; cbn; [by rewrite app_nil_r|].
  assert (let b' := bufio_Write p b in
    flushed b' ++ buffered b' = flushed b ++ buffered b ++ p /\ (length (buffered b') <= bufio_size)%nat) as [He Hl].
  { unfold bufio_Write. destruct (Nat.leb_spec (length p) (bufio_size - length (buffered b))); cbn [buffered flushed].
    { rewrite length_app. split; [done|lia]. }
    case_bool_decide as Hn; cbn [buffered flushed].
    { apply length_zero_iff_nil in Hn. rewrite Hn, app_nil_r. split; [done|cbn; lia]. }
    destruct (Nat.leb_spec (length (drop (bufio_size - length (buffered b)) p)) bufio_size); cbn [flushed buffered];
      (split; [by rewrite ?app_nil_r, <- !app_assoc, take_drop|done || apply Nat.le_0_l]). }
  destruct (IH (bufio_Write p b) Hl) as [He' Hl']. split; [|done]. rewrite He', !app_assoc, He. by rewrite <- !app_assoc.
Qed.
End Bufio.
Arguments bufio : clear implicits.

Section Configz.
Context `{Viper} `{MapOrder} `{GoSort}.

(** Rendering the template on a writer: what is written, write by write, and
    the error. *)
Context (Execute ExecuteTemplate : list (string * value) -> list (list Ascii.ascii) * option error).

(** [strings.Compare(lhs, rhs) != 1]. *)
Definition configz_less (lhs rhs : string * value) : bool :=
  match String.compare lhs.1 rhs.1 with Gt => false | _ => true end.

Inductive http_write := HttpError (message : string) (status : Z) | HttpBody (p : list Ascii.ascii).

Definition render_failed (e : option error) : list http_write :=
  match e with
  | Some err => [HttpError ("cannot render HTML template, " +:+ err_string err) 500]
  | None => []
  end.

(** What the response is sent, in order, and what is printed. A configuration
    that is no viper is a nil pointer from there on. *)
Definition configz_ServeHTTP (cfg : option viper) : list http_write * result (list Ascii.ascii) :=
  match cfg with
  | None => ([HttpError "Configuration is not a *viper.Viper object" 500], Err EPanic)
  | Some cfg =>
      let values := sort_Sort configz_less (map_iter (AllSettings cfg)) in
      let '(page, e1) := Execute values in
      let '(page2, e2) := ExecuteTemplate values in
      ((HttpBody <$> page) ++ render_failed e1 ++ render_failed e2,
       Ok (flushed (foldl (fun b p => bufio_Write p b) (mkBufio [] []) page2)))
  end.

(** Every setting is on the page, once. *)
Lemma configz_shows_settings cfg k x :
  let values := sort_Sort configz_less (map_iter (AllSettings cfg)) in
  NoDup values.*1 /\ ((k, x) ∈ values <-> AllSettings cfg !! k = Some x).
Proof.
  cbv zeta. rewrite sort_perm. split; [apply NoDup_map_iter|apply elem_of_map_iter].
Qed.

(** The page rendered to be printed is printed but for its last part, which
    stays in the buffer: a page that fits the buffer is not printed at all. *)
Lemma configz_print_unflushed cfg writes printed :
  configz_ServeHTTP (Some cfg) = (writes, Ok printed) ->
  exists rest, concat (ExecuteTemplate (sort_Sort configz_less (map_iter (AllSettings cfg)))).1 = printed ++ rest /\
    (length rest <= bufio_size)%nat.
Proof.
  unfold configz_ServeHTTP. destruct (Execute _) as [page e1], (ExecuteTemplate _) as [page2 e2]. intros [= _ <-].
  destruct (bufio_writes page2 (mkBufio [] [])) as [He Hl]; [cbn; unfold bufio_size; lia|].
  eexists. by rewrite He.
Qed.

Lemma configz_short_not_printed cfg writes printed :
  configz_ServeHTTP (Some cfg) = (writes, Ok printed) ->
  (length (concat (ExecuteTemplate (sort_Sort configz_less (map_iter (AllSettings cfg)))).1) <= bufio_size)%nat -> printed = [].
Proof.
  unfold configz_ServeHTTP. destruct (Execute _) as [page e1], (ExecuteTemplate _) as [page2 e2]. intros [= _ <-]. cbn [fst].
  assert (forall page buf, (length (buf ++ concat page) <= bufio_size)%nat ->
    flushed (foldl (fun b p => bufio_Write p b) (mkBufio [] buf) page : bufio Ascii.ascii) = []) as Hf; [|intros Hl; by apply Hf].
  clear. induction page as [|p page IH]; intros buf Hl; [done|]. cbn in *. unfold bufio_Write. cbn [buffered flushed].
  rewrite (proj2 (Nat.leb_le _ _)) by (rewrite !length_app in Hl; lia). apply IH. by rewrite <- app_assoc.
Qed.

(** The order the settings are sorted by is not strict: it puts a key before
    itself. *)
Lemma configz_less_not_strict k x y : configz_less (k, x) (k, y) = true.
Proof.
  unfold configz_less. cbn. replace (String.compare k k) with Eq; [done|].
  induction k as [|c k IH]; cbn; [done|]. unfold Ascii.compare. by rewrite N.compare_refl.
Qed.
End Configz.

(** ** The log *)

Inductive formatter := StackdriverFormatter | JSONFormatter | TextFormatter.

Definition newFormatter (name : string) : formatter :=
  let name := to_lower name in
  if bool_decide (name = "stackdriver") then StackdriverFormatter
  else if bool_decide (name = "json") then JSONFormatter
  else TextFormatter.

Definition IsDebugLevel (level : string) : bool := isDebugLevel (toLevel level).

(** The formatter and the level set, and the warning logged. *)
Definition ConfigureLogging (cfg : View) : formatter * Level * list string :=
  let level := toLevel (GetString cfg "logging.level") in
  (newFormatter (GetString cfg "logging.format"), level,
   if isDebugLevel level then ["Trace logging level configured. Not recommended for production!"] else []).

(** Text is logged from the level [info] on when nothing is configured, or
    names that are not known. *)
Lemma logging_unset cfg : GetString cfg "logging.format" = "" -> GetString cfg "logging.level" = "" ->
  ConfigureLogging cfg = (TextFormatter, InfoLevel, []).
Proof. unfold ConfigureLogging. by intros -> ->. Qed.

(** The warning goes with the levels at which connections log payloads. *)
Lemma logging_warns cfg : (ConfigureLogging cfg).2 <> [] <-> IsDebugLevel (GetString cfg "logging.level") = true.
Proof. unfold ConfigureLogging, IsDebugLevel. cbn. by destruct (isDebugLevel _). Qed.

(** ** A viper

    With settings of two levels and two files. *)
Module SampleViper.
Definition sample_value := (string + gmap string string)%type.
Definition sample_value_at (x : sample_value) (path : list string) : option sample_value :=
  match x, path with
  | _, [] => Some x
  | inr m, [k] => inl <$> m !! k
  | _, _ => None
  end.
Definition sample_leaf (x : sample_value) : bool := match x with inl _ => true | inr _ => false end.

Definition sample_files (s : config_source) : result (gmap string sample_value) :=
  if bool_decide (cs_name s = "matchmaker_config_default")
  then Ok {["api" := inr {["host" := "default.example"; "port" := "50504"]}; "level" := inl "info"]}
  else if bool_decide (cs_name s = "matchmaker_config_override")
  then Ok {["api" := inr {["port" := "9999"]}]}
  else Err (EPlain "no file").

Record sample := mkSample { s_source : config_source; s_config : gmap string sample_value; s_defaults : gmap string sample_value }.

Definition over (c d : option sample_value) : option sample_value :=
  match c, d with
  | Some (inr m), Some (inr n) => Some (inr (m ∪ n))
  | Some x, _ => Some x
  | None, d => d
  end.

#[global] Instance sample_viper : Viper := {|
  viper := sample;
  value := sample_value;
  is_leaf := sample_leaf;
  value_at := sample_value_at;
  config_file := sample_files;
  viper_New := mkSample (mkSource "" [] "") ∅ ∅;
  SetConfigType t v := mkSample (mkSource t (cs_paths (s_source v)) (cs_name (s_source v))) (s_config v) (s_defaults v);
  AddConfigPath p v :=
    mkSample (mkSource (cs_type (s_source v)) (cs_paths (s_source v) ++ [p]) (cs_name (s_source v))) (s_config v) (s_defaults v);
  SetConfigName n v := mkSample (mkSource (cs_type (s_source v)) (cs_paths (s_source v)) n) (s_config v) (s_defaults v);
  ReadInConfig v :=
    match sample_files (s_source v) with
    | Ok m => (mkSample (s_source v) m (s_defaults v), None)
    | Err err => (v, Some err)
    end;
  SetDefault k x v := mkSample (s_source v) (s_config v) (<[k := x]> (s_defaults v));
  AllSettings v := filter (fun p => plain_key p.1) (merge over (s_config v) (s_defaults v));
  WatchConfig v := v;
  viper_Get v k path :=
    match (x ← s_config v !! k; sample_value_at x path) with
    | Some x => Some x
    | None =>
        if existsb (fun n => match (x ← s_config v !! k; sample_value_at x (take n path)) with
                             | Some x => sample_leaf x | None => false end) (seq 0 (length path))
        then None else (x ← s_defaults v !! k; sample_value_at x path)
    end;
  viper_source := s_source;
  viper_config := s_config;
  viper_defaults := s_defaults;
|}.

#[global] Instance sample_laws : ViperLaws.
Proof.
  split; try done.
  - intros v. cbn. by destruct (sample_files _).
  - intros v k [x Hx]. cbn in Hx. apply map_lookup_filter_Some in Hx. apply Hx.
  - intros v k path x Hk Hx. unfold setting_at. cbn.
    assert (filter (fun p : string * sample_value => plain_key p.1) (merge over (s_config v) (s_defaults v)) !! k =
      over (s_config v !! k) (s_defaults v !! k)) as ->.
    { rewrite map_lookup_filter, lookup_merge. unfold diag_None.
      destruct (s_config v !! k) as [[]|], (s_defaults v !! k) as [[]|]; cbn; try done; by rewrite option_guard_True. }
    cbn in Hx.
    destruct (s_config v !! k) as [[s|m]|]; cbn.
    + destruct path as [|a path]; cbn; done.
    + destruct path as [|a [|b path]]; cbn.
      * destruct (s_defaults v !! k) as [[]|]; cbn; split; intros [= <-]; done.
      * destruct (s_defaults v !! k) as [[t|n]|]; cbn; rewrite ?lookup_union; destruct (m !! a); cbn; try done;
          by destruct (n !! a).
      * destruct (s_defaults v !! k) as [[t|n]|]; cbn; destruct (m !! a); cbn; try done; by destruct (existsb _ _).
    + assert (forall l : list nat, existsb (fun _ => false) l = false) as Hn by by induction l.
      by rewrite Hn.
Qed.

(** The override of one port leaves the host of the defaults. *)
#[local] Instance sample_order : MapOrder.
Proof. exists (fun A m => map_to_list m) (fun s => elements s); done. Defined.

Example sample_read :
  match Read with
  | Ok cfg => viper_Get cfg "api" ["port"] = Some (inl "9999") /\ viper_Get cfg "api" ["host"] = Some (inl "default.example")
  | Err _ => False
  end.
Proof. vm_compute. done. Qed.
End SampleViper.
