(* ===== verification/Commands.v ===== *)
(** * The programs ([cmd/*], [examples/scale], [examples/demo/demo.go], [tools/reaper/reaper.go])

    What each binary runs: the services and what they bind, the load tests'
    active scenario and the loop of its director, the handlers of the demo's
    dashboard, and the entry points of the two tools. *)
From Stdlib Require Import DecimalString.
From S2P Require Export Components ScaleDriver Settings Swagger Tools.
From S2P Require Import Demo.

(** ** Binaries *)

(** The evaluator registers a view of its own besides the harness's. *)
Definition collidedMatchesPerEvaluateView : nat := 6.
Definition defaulteval_BindService : Bind :=
  bind_sequence [evaluator_BindServiceFor; mkBind [BRegisterViews collidedMatchesPerEvaluateView] None].

(** The load generators bind nothing: they start their loop and return. *)
Definition scale_backend_BindService : Bind := no_bind.
Definition scale_frontend_BindService : Bind := no_bind.

Inductive command :=
| RunService (serviceName : string) (bindService : Bind)
| RunSwaggerUI
| RunDemo (comps : list string)
| RunScaleEvaluator
| RunScaleMmf.

(** The [main] of each directory of [cmd]. *)
Definition backend_main : command := RunService "backend" backend_BindService.
Definition default_evaluator_main : command := RunService "evaluator" defaulteval_BindService.
Definition demo_first_match_main : command := RunDemo ["uptime"; "clients"; "director"].
Definition frontend_main : command := RunService "frontend" frontend_BindService.
Definition minimatch_main : command := RunService "minimatch" minimatch_BindService.
Definition query_main : command := RunService "query" query_BindService.
Definition scale_backend_main : command := RunService "scale" scale_backend_BindService.
Definition scale_evaluator_main : command := RunScaleEvaluator.
Definition scale_frontend_main : command := RunService "scale" scale_frontend_BindService.
Definition scale_mmf_main : command := RunScaleMmf.
Definition swaggerui_main : command := RunSwaggerUI.
Definition synchronizer_main : command := RunService "synchronizer" synchronizer_BindService.

Definition commands : list command :=
  [backend_main; default_evaluator_main; demo_first_match_main; frontend_main; minimatch_main; query_main;
   scale_backend_main; scale_evaluator_main; scale_frontend_main; scale_mmf_main; swaggerui_main; synchronizer_main].

(** What a [Bind] function asks for: services, proxies and health checks. *)
Definition bound_services (f : Bind) : list nat :=
  omap (fun op => match op with BAddHandleFunc h _ => h | _ => None end) (bind_calls f).
Definition bound_proxies (f : Bind) : list nat :=
  omap (fun op => match op with BAddHandleFunc _ p => p | _ => None end) (bind_calls f).
Definition bound_health_checks (f : Bind) : list nat :=
  omap (fun op => match op with BAddHealthCheckFunc f => f | _ => None end) (bind_calls f).

(** Minimatch is the four services in one process: it serves, over both
    transports, and checks what the four binaries do together. *)
Lemma minimatch_is_the_four :
  let four := [frontend_BindService; backend_BindService; query_BindService; synchronizer_BindService] in
  bound_services minimatch_BindService ≡ₚ concat (bound_services <$> four) /\
  bound_proxies minimatch_BindService ≡ₚ concat (bound_proxies <$> four) /\
  bound_health_checks minimatch_BindService ≡ₚ concat (bound_health_checks <$> four).
Proof. split_and!; [apply Permutation_swap|apply Permutation_swap|done]. Qed.

(** No binary's binding fails or registers a page, so binding cannot stop a
    process from starting. *)
Lemma commands_bind serviceName f register_views b :
  RunService serviceName f ∈ commands ->
  bind_error f = None /\ exists b', bind_run register_views b (bind_calls f) = Ok b'.
Proof.
  intros Hc.
  assert (Forall (fun c => match c with
    | RunService _ f => bind_error f = None /\ Forall (fun op => match op with BTelemetryHandle _ => False | _ => True end) (bind_calls f)
    | _ => True
    end) commands) as Hall by (repeat constructor).
  destruct (proj1 (Forall_forall _ _) Hall _ Hc) as [He Hops].
  split; [done|]. revert b. induction Hops as [|op ops Hop Hops IH]; intros b; cbn; [eauto|].
  destruct op; cbn; try apply IH. done.
Qed.

(** ** The active scenario *)

Record Scenario := mkScenario {
  FrontendTicketCreatedQPS : nat;
  FrontendTotalTicketsToCreate : Z;
  FrontendTotalBackfillsToCreate : nat;
  FrontendCreatesBackfillsOnStart : bool;
  FrontendDeletesTickets : bool;
  BackendAssignsTickets : bool;
  BackendAcknowledgesBackfills : bool;
  BackendDeletesBackfills : bool;
  sc_Ticket : Ticket;
  sc_Backfill : Backfill;
  sc_BackfillDeleteCond : Backfill -> result bool;
  sc_Profiles : list MatchProfile;
  sc_MMF : string -> result (gmap string (list Ticket)) -> result (gmap string (list Backfill)) -> (nat -> option error) ->
    option (list Match * result unit);
  sc_Evaluator : list (option Match) -> option error -> (nat -> option error) -> list string * result unit;
}.

Section Active.
Context `{Int32Any} `{MapOrder} (now : nat -> string) (fuel : nat).

(** The scenario is the one with backfills. *)
Definition ActiveScenario : Scenario := {|
  FrontendTotalTicketsToCreate := -1;
  FrontendTicketCreatedQPS := 100;
  FrontendCreatesBackfillsOnStart := true;
  FrontendTotalBackfillsToCreate := 1000;
  FrontendDeletesTickets := true;
  BackendAssignsTickets := false;
  BackendAcknowledgesBackfills := true;
  BackendDeletesBackfills := true;
  sc_Ticket := BackfillScenario.Ticket_;
  sc_Backfill := BackfillScenario.Backfill_;
  sc_BackfillDeleteCond := BackfillScenario.BackfillDeleteCond;
  sc_Profiles := BackfillScenario.Profiles;
  sc_MMF := fun profile => queryPoolsWrapper (BackfillScenario.MatchFunction now fuel profile);
  sc_Evaluator := BackfillScenario.Evaluate;
|}.
End Active.

(** *** The director's loop

    How many workers take from each of the three channels, and what a tick
    sends: one call for every profile, side by side, waited for. *)
Definition workers (s : Scenario) : nat * nat * nat :=
  (if BackendAssignsTickets s then 100 else 0,
   if BackendDeletesBackfills s then 100 else 0,
   if BackendAcknowledgesBackfills s then 100 else 0)%nat.

Definition run_tick (s : Scenario) (call : MatchProfile -> result (list fetch_resp)) : list (result fetch_out) :=
  (fun p => runFetchMatches (BackendAssignsTickets s) (BackendAcknowledgesBackfills s) (call p)) <$> sc_Profiles s.

(** A channel that is sent to has workers. *)
Lemma tick_channels_served s call o : Ok o ∈ run_tick s call ->
  (matchesToAssign o <> [] -> (0 < (workers s).1.1)%nat) /\ (matchesToAcknowledge o <> [] -> (0 < (workers s).2)%nat).
Proof.
  intros (p & Ho & _)%list_elem_of_fmap. unfold workers. cbn.
  assert (forall assigns acks items o0 o, Ok o = fetch_responses assigns acks items o0 ->
    (matchesToAssign o <> [] -> assigns = true \/ matchesToAssign o0 <> []) /\
    (matchesToAcknowledge o <> [] -> acks = true \/ matchesToAcknowledge o0 <> [])) as Hf.
  { clear. intros assigns acks. induction items as [|[[m|]|err] items IH]; intros o0 o; cbn; [by intros [= ->]; auto| |done|by intros [= ->]; auto].
    intros Hr%IH. cbn in Hr. destruct assigns, acks; naive_solver. }
  unfold runFetchMatches in Ho. destruct (call p) as [items|err].
  - apply Hf in Ho. cbn in Ho. destruct (BackendAssignsTickets s), (BackendAcknowledgesBackfills s); split; intros Hn; try lia; naive_solver.
  - injection Ho as ->. done.
Qed.

Section ActiveRuns.
Context `{Int32Any} `{MapOrder} (now : nat -> string) (fuel : nat).
Let s := ActiveScenario now fuel.

(** In the active scenario no ticket is assigned: the matches of a tick, one
    pool's, are acknowledged, in the order fetched, and nobody waits for
    matches to assign. *)
Lemma active_never_assigns ms call :
  (forall p, p ∈ sc_Profiles s -> call p = Ok (Resp ∘ Some <$> ms)) ->
  (workers s).1.1 = O /\
  exists o, run_tick s call = [Ok o] /\ matchesToAssign o = [] /\ matchesToAcknowledge o = ms.
Proof.
  intros Hc. split; [done|].
  destruct (fetch_responses_passes false true ms [] (mkFetchOut [] [] [(mFetchMatchCalls, 1)])) as (o & He & Ha & Hk); [by left|].
  exists o. rewrite app_nil_r in He. split_and!; [|done|done]. unfold run_tick. cbn. rewrite Hc by (cbn; left).
  cbn. by rewrite He.
Qed.
End ActiveRuns.

(** *** The clients' loop *)
Section ScaleFrontendRun.
Context `{Sys} `{Proto} (store : Service).

(** The backfills made first; an error ends them and is dropped. *)
Definition frontend_start (s : Scenario) : prog (list client_measure) :=
  if FrontendCreatesBackfillsOnStart s then
    r ←! createBackfills store (fun _ => sc_Backfill s) (FrontendTotalBackfillsToCreate s);
    Ret r.1
  else Ret [].

Definition frontend_runners (s : Scenario) (ticks : nat) : nat :=
  runners_started (FrontendTicketCreatedQPS s) (FrontendTotalTicketsToCreate s) 0 ticks.
End ScaleFrontendRun.

(** The active scenario creates a hundred tickets a second for ever. *)
Lemma active_runners `{Int32Any} `{MapOrder} now fuel ticks :
  frontend_runners (ActiveScenario now fuel) ticks = (ticks * 100)%nat.
Proof. unfold frontend_runners. induction ticks as [|ticks IH]; [done|]. cbn [runners_started]. rewrite IH. cbn. lia. Qed.

(** ** The demo's dashboard *)

Inductive demo_handler := StaticFiles | RootPage | HealthCheck | Connect.

Definition demo_handlers : list (string * demo_handler) :=
  [("/static/", StaticFiles); ("/", RootPage); ("/healthz", HealthCheck); ("/connect", Connect)].

(** A file of [/app/static], a redirection, the probe, the stream of the
    published value, or nothing. *)
Inductive demo_page := File (name : string) | RedirectTo (path : string) | Ready | Stream | NotFoundPage.

Definition demo_handle (h : demo_handler) (path : string) : demo_page :=
  match h with
  | StaticFiles =>
      if String.prefix "/static/" path
      then File (String "/" (String.substring (String.length "/static/") (String.length path) path)) else NotFoundPage
  | RootPage => if bool_decide (path = "/") then File path else NotFoundPage
  | HealthCheck => Ready
  | Connect => Stream
  end.

(** The mux: a path that lacks only the slash of a subtree is redirected. *)
Definition demo_serves (path : string) : demo_page :=
  if bool_decide ((path +:+ "/") ∈ demo_handlers.*1 /\ path ∉ demo_handlers.*1) then RedirectTo (path +:+ "/")
  else
    match (pattern ← mux_pattern demo_handlers.*1 path; list_find (fun e => e.1 = pattern) demo_handlers) with
    | Some (_, (_, h)) => demo_handle h path
    | None => NotFoundPage
    end.

(** The pages: files are served only at the root and below [/static/]. *)
Lemma demo_files path name : demo_serves path = File name ->
  (path = "/" /\ name = "/") \/
  (String.prefix "/static/" path = true /\
   name = String "/" (String.substring (String.length "/static/") (String.length path) path)).
Proof.
  unfold demo_serves. case_bool_decide; [done|].
  destruct (mux_pattern _ path) as [pattern|]; [|done]. cbn [mbind option_bind].
  destruct (list_find _ demo_handlers) as [[i [q h]]|]; [|done].
  destruct h; cbn; [| |done|done].
  - destruct (String.prefix _ path) eqn:Hp; [|done]. intros [= <-]. by right.
  - case_bool_decide as Hp; [|done]. intros [= <-]. by left.
Qed.

Example demo_pages :
  demo_serves "/" = File "/" /\ demo_serves "/static/dashboard.js" = File "/dashboard.js" /\
  demo_serves "/static" = RedirectTo "/static/" /\ demo_serves "/index.html" = NotFoundPage /\
  demo_serves "/connect" = Stream /\ demo_serves "/healthz" = Ready.
Proof. split_and!; reflexivity. Qed.

(** What is announced for the JSON of the dashboard: indented when that
    works. *)
Definition demo_announce {A} (Indent : list A -> option (list A)) (b : list A) : list A := default b (Indent b).

(** [ForField]: the update sent for a value; nil removes the field. Each
    component has a field of its own name. *)
Definition ForField {V} (Marshal : V -> string + string) (Marshal_error : string -> option string) (field : string) (v : option V) :
    Updater.update :=
  Updater.mkUpdate field (Updater.forceMarshalJson Marshal Marshal_error <$> v).

(** Components do not touch each other's fields: what the object holds for one
    is what it would hold if it were alone. *)
Lemma fields_apart {J} (ups : list (@Updater.update J)) name :
  Updater.object ups !! name = Updater.object (filter (fun up => Updater.field up = name) ups) !! name.
Proof.
  induction ups as [|up ups IH] using rev_ind; [done|]. rewrite filter_app, Updater.object_snoc.
  destruct (decide (Updater.field up = name)) as [Hn|Hn].
  - rewrite filter_cons_True, filter_nil, Updater.object_snoc by done. unfold Updater.apply. rewrite Hn.
    destruct (Updater.value up); [by rewrite !lookup_insert_eq|by rewrite !lookup_delete_eq].
  - rewrite filter_cons_False, filter_nil, app_nil_r, <- IH by done. unfold Updater.apply.
    destruct (Updater.value up); [by rewrite lookup_insert_ne|by rewrite lookup_delete_ne].
Qed.

(** ** The tools' entry points *)
Module ReaperMain.
Import Reaper.

(** [strconv.Atoi], its value and whether it fails: a text that is no number
    reads as 0, a number that is too large as the nearest there is. *)
Definition Atoi (s : string) : Z * bool :=
  let digits (r : string) : option Z := Z.of_uint <$> NilZero.uint_of_string r in
  match (match s with
         | String "-"%char r => Z.opp <$> digits r
         | String "+"%char r => digits r
         | _ => digits s
         end) with
  | None => (0, false)
  | Some z => if z <? int64_min then (int64_min, false) else if int64_max <? z then (int64_max, false) else (z, true)
  end.

Inductive main_run := ListenAndServe (address : string) | ReapOnce.

(** [portStr] is the environment's, [portFlag] the flag's; the error of
    [Atoi] is logged. *)
Definition main (portStr : string) (portFlag : Z) : main_run :=
  let port := if bool_decide (portStr <> "") then (Atoi portStr).1 else portFlag in
  if 0 <? port then ListenAndServe (":" +:+ itoa port) else ReapOnce.

Lemma Atoi_atoi s z : Atoi s = (z, true) <-> atoi s = Some z.
Proof.
  unfold Atoi, atoi, in_int64.
  assert (forall o : option Z,
    match o with None => (0, false) | Some z => if z <? int64_min then (int64_min, false) else if int64_max <? z then (int64_max, false) else (z, true) end
      = (z, true) <-> match o with Some z => if (int64_min <=? z) && (z <=? int64_max) then Some z else None | None => None end = Some z) as Ho.
  { intros [y|]; [|done]. destruct (Z.ltb_spec y int64_min), (Z.leb_spec int64_min y), (Z.ltb_spec int64_max y), (Z.leb_spec y int64_max);
      cbn; try lia; split; congruence. }
  apply Ho.
Qed.

(** A port that is a number is served on. One that is none is not replaced by
    the flag: the reaper runs once and ends. *)
Lemma main_port z flag : 0 < z -> in_int64 z = true -> main (itoa z) flag = ListenAndServe (":" +:+ itoa z).
Proof.
  intros Hz Hi. unfold main. pose proof (proj2 (Atoi_atoi _ _) (atoi_itoa z Hi)) as Ha. rewrite Ha. cbn [fst].
  rewrite bool_decide_eq_true_2; [by rewrite (proj2 (Z.ltb_lt _ _))|].
  intros Hn. rewrite Hn in Ha. vm_compute in Ha. done.
Qed.

Example main_bad_port : main "http" 8080 = ReapOnce /\ main "" 8080 = ListenAndServe ":8080".
Proof. split; reflexivity. Qed.
End ReaperMain.

Module CertgenMain.
Import Certgen.

Definition serviceAddressList : list string :=
  ["open-match-backend:51505"; "om-demo:51507"; "om-demoevaluator:51508"; "om-demofunction:51502"; "om-e2eevaluator:51518";
   "om-e2ematchfunction:51512"; "open-match-frontend:51504"; "open-match-query:51503"; "open-match-swaggerui:51500";
   "open-match-synchronizer:51506"].

(** [strings.Join(serviceAddressList, ",")]. *)
Definition hostnamesFlag : string := String.concat "," serviceAddressList.

(** The command with its flags' defaults but for the paths. *)
Definition default_certgen (publicPath privatePath : string) (ReadFile : string -> option string)
    (create : string -> string -> Params -> option error) : option error :=
  createCertificateViaFlags false "" "" hostnamesFlag (24 * 365 * 5 * time_Hour) 2048 ReadFile (create publicPath privatePath).

(** By default the certificate is one of every service, with and without its
    port, for five years and with a key the check accepts. *)
Lemma default_certificate public private ReadFile create : public <> "" -> private <> "" -> exists params,
  default_certgen public private ReadFile create = create public private params /\
  validate public private params = None /\
  Hostnames params = serviceAddressList /\
  Forall (fun a => a ∈ expandHostnames (Hostnames params) /\ (split_on ":" a).1 ∈ expandHostnames (Hostnames params)) serviceAddressList.
Proof.
  intros Hp Hk. eexists. split; [reflexivity|]. split_and!.
  - unfold validate. rewrite !bool_decide_eq_false_2 by (try done; vm_compute; naive_solver). vm_compute. done.
  - reflexivity.
  - apply Forall_forall. intros a Ha. cbn [Hostnames]. rewrite !elem_of_expandHostnames. split; [eauto|].
    exists a. split; [done|]. right. revert a Ha. apply Forall_forall. vm_compute. repeat constructor; eauto.
Qed.
End CertgenMain.
